(* ===== verification/_CoqProject ===== *)
-Q . S2P
Prelude.v
Util.v
Libc.v
Endian.v
Crc64.v
Block.v
Lzf.v
LzfFacts.v
Zipmap.v
ZipmapFacts.v
Ziplist.v
ZiplistFacts.v
ZiplistRefine.v
ZiplistList.v
Pqsort.v
PqsortFacts.v
Adlist.v
Dict.v
DictScan.v
DictScanFacts.v
Sds.v
SdsOps.v
Glob.v
SdsArgs.v
Object.v
Client.v
Refs.v
RefsFacts.v
Deferred.v
Request.v
ParserSafety.v
DictTypes.v
Keyspace.v
Log.v
LogFile.v
Wire.v
Cluster.v
ClusterVote.v
Election.v
ClusterElection.v
ClusterRepl.v
ClusterCommand.v
ClusterNet.v
ClusterConf.v
Config.v
ConfigFacts.v
ObjectOps.v
CommandLine.v
Server.v
StateMachine.v
EventLoop.v
EventLoopFacts.v
Connections.v
ConnectionsFacts.v
Timers.v
