(* ===== verification/Prelude.v ===== *)
(** * Prez: a verification library for the Raft based key/value server

    Prez (src/src) is a key/value server whose writes go through a Raft log.  One thread runs an
    event loop; clients speak the Redis protocol; nodes exchange fixed-layout messages over a
    cluster bus.  A request travels from the read handler of a client through the parser and the
    command table to [processCommand]: reads are answered at once; a write on the leader becomes
    a log entry, is sent to the other nodes, and is applied and answered by the timer once a
    quorum has it.  The files of this library follow that path; every definition that models code
    keeps the name it has there.

    ** Files and the code they model

    Foundations.
    - [Prelude]: bytes, machine integers with their wrap-around, the result monad [cres] of code
      that returns, ends the process ([Exit], failed assertions and exit) or has no defined
      behaviour ([Undef], bad pointers and overrun buffers), shared lemmas and tactics.
    - [Util] (util.c): [ll2string], [string2ll], [string2l], [digits10].
    - [Libc]: the functions of the C library the sources use, on C strings as lists of bytes, and
      a socket as segments of bytes.
    - [Glob] (util.c): [stringmatchlen], against a meaning of patterns as lists of tokens.
    - [Adlist] (adlist.c): doubly linked lists on a heap of nodes, refined to sequences.
    - [Sds], [SdsOps], [SdsArgs] (sds.c): dynamic strings with header, buffer and int arithmetic;
      trimming, formatting, splitting; quoting and splitting of arguments.
    - [Dict], [DictTypes] (dict.c, prez.c): hash tables with incremental rehashing and iterators,
      refined to finite maps; the hash functions and the command table.
    - [DictScan], [DictScanFacts] (dict.c): scanning a table that changes between the calls, and
      samples of random entries.
    - [Object], [ObjectOps] (object.c): string objects and their encodings; comparison, encoding
      and integers of objects.
    - [Refs], [RefsFacts] (object.c, networking.c, db.c, prez.c, log.c): objects on a heap with
      their reference counts, and the code that takes and drops references.

    Encodings.
    - [Block]: blocks of bytes with checked accesses, for code with a format of its own.
    - [Endian], [Crc64] (endianconv.c, crc64.c): byte order, checksums.
    - [Lzf], [LzfFacts] (lzf_c.c, lzf_d.c): compression and decompression.
    - [Zipmap], [ZipmapFacts] (zipmap.c): maps in one block, refined to finite maps.
    - [Ziplist], [ZiplistFacts], [ZiplistRefine], [ZiplistList] (ziplist.c): lists in one block;
      their entries, what changes do to them, the refinement to lists of strings.
    - [Pqsort], [PqsortFacts] (pqsort.c): partial quicksort.

    Clients.
    - [Client], [Deferred] (networking.c): the reply buffer and list, every reply function,
      [sendReplyToClient]; replies whose length is known at their end.
    - [Request], [ParserSafety] (networking.c): the query buffer, both parsers, the loop over the
      buffer, [readQueryFromClient]; what they do with requests, and with any other bytes.
    - [EventLoop], [EventLoopFacts], [Timers] (ae.c, ae_epoll.c, prez.c): slots, the interest set
      of the kernel, timers, dispatch, main loop, [serverCron].
    - [Connections], [ConnectionsFacts] (networking.c, prez.c): creating, accepting and freeing
      clients, with the handlers as the handlers of the event loop.

    Raft.
    - [Log], [LogFile] (log.c): the log in memory and in its file; loading the file.
    - [Wire] (cluster.h, cluster.c): the layout of the messages and their decoding.
    - [Cluster] (cluster.c, log.c): node state and all handlers: votes, append requests, commit
      index, commands of clients, cron, [logApply].
    - [ClusterVote], [ClusterRepl], [ClusterCommand]: what the handlers do, one by one.
    - [Election], [ClusterElection]: an abstract protocol of elections, and the simulation that
      carries its safety to the handlers.
    - [ClusterNet] (cluster.c): links, framing of messages on sockets.
    - [ClusterConf] (cluster.c): nodes, cluster configuration file, [clusterInit].

    Commands and configuration.
    - [Keyspace] (db.c, prez.c): the data set on the hash table, GET, SET, [call].
    - [Config], [ConfigFacts], [CommandLine] (config.c, prez.c, util.c): configuration file,
      command line, CONFIG.
    - [Server] (prez.c): [processCommand], and the whole path of a request.
    - [StateMachine] (log.c, prez.c): the commands as the state machine of the log.

    ** How the parts meet

    Components meet at type classes: [Executor] and [TotalExecutor] state what the parser needs
    from the command layer ([Server] gives an instance of the first), [Commands] what the log
    needs from it ([StateMachine]), [HasKeyspace] what the commands need from the state of the
    server, [Process] and [PoliteProcess] what the event loop needs from the rest of the process
    ([Connections.server_process]), [Kernel] and [KernelOk] what the handlers need from the
    system, [SharedExecutor] a command layer whose state is apart from that of the clients,
    [ComparisonOk] what the sort needs from the comparison it is given.
    Results of system calls, the allocator, the clock and random numbers are parameters.

    ** What the theorems show

    - Raft: at most one leader in a term ([cluster_election_safety]); the vote and append
      handlers on every branch; logs that agree on an entry agree before it
      ([logAppendEntries_log_matching]); the commit index has a quorum
      ([clusterUpdateCommitIndex_quorum]); a request that is accepted leaves the follower with
      the entries of the leader, through encoder, link and decoder ([replication]); nodes that
      apply the same entries hold the same data ([nodes_agree]), and the leader answers the
      clients of committed writes ([committed_writes_answered]).
    - Storage: the log file read back is the log written ([loadLogFile_recovers]), and a file cut
      anywhere ends the server instead of loading a wrong log ([loadLogFile_torn]).
    - Messages and links: decoding inverts encoding, and a stream of messages is delivered
      whatever pieces the sockets take and give ([packet_roundtrip], [bus_delivers]).
    - Clients: pipelined requests in any segments are answered in order ([requests_answered],
      [replies_in_order]); any other bytes are handled as well ([any_input_is_handled]);
      connections, descriptors and event loop stay consistent ([connections_safe]).
    - Memory: reference counts are exact, so that objects can be treated as values in all other
      files ([objects_are_counted]).
    - Event loop: kernel and slots agree ([event_loop_invariant]); timers that are due run exactly
      once in a pass ([timers_run_once]) and the loop sleeps no longer than to the nearest
      ([sleeps_until_nearest]).
    - Data structures: lists, strings and hash tables refine sequences, byte strings and finite
      maps under every operation; rehashing ends; iterators visit every entry once; a scan of a
      growing table misses nothing ([scan_returns_all]).
    - Encodings: blocks that hold maps and lists refine them, with every access inside the block
      ([zipmap_refines_map], [ziplist_refines_list]); decompression inverts compression and is
      safe on any input ([lzf_roundtrip], [lzf_decompress_safe]); the checksum is the division
      its comment describes ([crc64_is_division]); the sort puts the right elements into the
      range that is asked for ([pqsort_sorts_range]).
    - Configuration: values stay in range ([config_in_range]), GET shows what SET stored, the
      command line wins over the file, patterns mean what they say ([stringmatch_correct]).
    - Where the code does not do what it means to, a theorem shows the behaviour it has: votes
      given twice in a term, followers that are never brought up to date, a leader that ends on
      pipelined writes, requests that lose a byte, an overdue timer that is delayed further, a
      class of a pattern that is read past its end, a server that ends on an uninitialised word,
      an insertion that leaves its block, a compressor that writes behind its output, a scan that
      loses keys when the table shrinks.

    ** Bounds and fuel

    Integers are [Z], wrapped at the width of their C type wherever the code computes; lengths
    and counts have explicit bounds as hypotheses where an overflow would be undefined.  Loops
    that are not structural take fuel, and the definitions that call them pass enough: the length
    of the input or of the block for parsers (every round consumes a byte), the number of results
    the system gives for writes, the number of entries for rehashing.  The main loop and the
    passes over the timers take a number of rounds, and the theorems about them are for every
    number, or give the number that is enough.  Invariants that must survive replies count the requests still to be
    run, because a client that never reads can be sent at most 2^63 bytes.

    ** Not modelled

    - The CLIENT command and the texts that describe clients: not in the command table.
    - dictGetRandomKey, fingerprints of unsafe iterators, dictRehashMilliseconds; the accessors of
      object.c for floating point numbers, d2string and addReplyDouble, which no command uses; code
      between #if 0 and #endif.
    - anet.c (sockets), zmalloc.c and jemalloc, debug.c (crash reports), signal handlers,
      daemonising and logging: system calls and their glue.
    - sha1.c: third party code that nothing calls.  The functions of the compact encodings, the
      compression, the checksum and the sort are linked in and modelled, but called by nothing.
    - ae_kqueue.c, ae_select.c, ae_evport.c: not compiled on Linux. *)

From Stdlib Require Import ZArith Lia Ascii String.
From stdpp Require Import base tactics numbers list gmap sets strings.

Local Open Scope Z_scope.

(** ** Bytes and machine integers

    A byte is an integer of [0 .. 255]; a C array, a file or an sds payload is a
    list of bytes. *)
Abbreviation byte := Z (only parsing).
Abbreviation bytes := (list Z).

Definition byte_ok (b : Z) : Prop := 0 <= b < 256.

(** Wrap-around at the widths of the LP64 data model the server is built for:
    [int] is 32 bits wide, [long], [long long] and [size_t] are 64 bits wide. *)
Definition wrap_u (w x : Z) : Z := x mod 2 ^ w.
Definition wrap_s (w x : Z) : Z := (x + 2 ^ (w - 1)) mod 2 ^ w - 2 ^ (w - 1).

Abbreviation wrap_u64 := (wrap_u 64).
Abbreviation wrap_s64 := (wrap_s 64).
Abbreviation wrap_u32 := (wrap_u 32).
Abbreviation wrap_s32 := (wrap_s 32).

Definition LLONG_MAX : Z := 2 ^ 63 - 1.
Definition LLONG_MIN : Z := - 2 ^ 63.
Definition ULLONG_MAX : Z := 2 ^ 64 - 1.

Definition in_s64 (x : Z) : Prop := LLONG_MIN <= x <= LLONG_MAX.
Definition in_u64 (x : Z) : Prop := 0 <= x <= ULLONG_MAX.
Definition in_s32 (x : Z) : Prop := - 2 ^ 31 <= x < 2 ^ 31.

Create HintDb prez discriminated.

(** Unfold the range predicates and close the goal with [lia]. *)
Ltac rng :=
  unfold in_s64, in_u64, in_s32, byte_ok, LLONG_MAX, LLONG_MIN, ULLONG_MAX in *;
  change (2 ^ 64) with 18446744073709551616 in *;
  change (2 ^ 63) with 9223372036854775808 in *;
  change (2 ^ 32) with 4294967296 in *;
  change (2 ^ 31) with 2147483648 in *;
  lia.

Lemma wrap_u_small w x : 0 <= x < 2 ^ w -> wrap_u w x = x.
Proof. apply Z.mod_small. Qed.

Lemma wrap_s_small w x : 0 < w -> - 2 ^ (w - 1) <= x < 2 ^ (w - 1) -> wrap_s w x = x.
Proof.
  intros Hw Hx. unfold wrap_s.
  assert (2 ^ w = 2 * 2 ^ (w - 1)) as E.
  { rewrite <- (Z.pow_succ_r 2 (w - 1)) by lia. f_equal. lia. }
  rewrite E, Z.mod_small; lia.
Qed.

Lemma wrap_u64_id x : in_u64 x -> wrap_u64 x = x.
Proof. intros. apply wrap_u_small. rng. Qed.

Lemma wrap_s64_id x : in_s64 x -> wrap_s64 x = x.
Proof. intros. apply wrap_s_small; [lia|]. change (64 - 1) with 63. rng. Qed.

Lemma wrap_s32_id x : in_s32 x -> wrap_s32 x = x.
Proof. intros. apply wrap_s_small; [lia|]. change (32 - 1) with 31. rng. Qed.

Lemma wrap_u64_neg x : - 2 ^ 64 <= x < 0 -> wrap_u64 x = x + 2 ^ 64.
Proof.
  intros. unfold wrap_u.
  rewrite <- (Z_mod_plus_full x 1), Z.mod_small; lia.
Qed.

(** ** Outcomes of C code

    [Ret a]: the call returns [a].  [Exit]: the process ends, through [exit(1)]
    or a failed [prezAssert].  [Undef]: the code reads or writes outside an
    object, dereferences NULL or a freed block, or calls [printf] with
    arguments that do not match its format. *)
Inductive cres (A : Type) : Type :=
  | Ret (a : A)
  | Exit
  | Undef.
Arguments Ret {A} a.
Arguments Exit {A}.
Arguments Undef {A}.

#[global] Instance cres_ret : MRet cres := fun A a => Ret a.
#[global] Instance cres_bind : MBind cres := fun A B f m =>
  match m with Ret a => f a | Exit => Exit | Undef => Undef end.

(** [of_ptr o]: dereference a pointer modelled as an option. *)
Definition of_ptr {A} (o : option A) : cres A :=
  match o with Some a => Ret a | None => Undef end.

(** [require b]: continue when the access is inside its object. *)
Definition require (b : bool) : cres unit := if b then Ret tt else Undef.

(** [prez_assert b]: [prezAssert], which ends the process. *)
Definition prez_assert (b : bool) : cres unit := if b then Ret tt else Exit.

Lemma cres_bind_ret {A B} (m : cres A) (f : A -> cres B) b :
  m ≫= f = Ret b <-> exists a, m = Ret a /\ f a = Ret b.
Proof.
  destruct m as [a| |]; cbn; (split; [try done; eauto|]).
  - by intros (a' & [= <-] & Hb).
  - by intros (a' & ? & Hb).
  - by intros (a' & ? & Hb).
Qed.

Lemma of_ptr_ret {A} (o : option A) a : of_ptr o = Ret a <-> o = Some a.
Proof. destruct o; cbn; naive_solver. Qed.

Lemma require_ret b u : require b = Ret u <-> b = true.
Proof. destruct b, u; cbn; naive_solver. Qed.

(** Invert a chain of binds that returned. *)
Ltac cinv :=
  repeat match goal with
  | H : _ ≫= _ = Ret _ |- _ => apply cres_bind_ret in H as (? & ? & ?)
  | H : of_ptr _ = Ret _ |- _ => apply of_ptr_ret in H
  | H : require _ = Ret _ |- _ => apply require_ret in H
  | H : mret _ = Ret _ |- _ => injection H as H
  | H : Ret _ = Ret _ |- _ => injection H as H
  | H : Exit = Ret _ |- _ => discriminate H
  | H : Undef = Ret _ |- _ => discriminate H
  end.

(** Case analysis on the decisions of the goal (the hypotheses are left alone),
    dropping the branches arithmetic refutes. *)
Ltac dsplit := repeat match goal with
  | |- context [decide ?P] => destruct (decide P); try lia
  end.

(** ** C strings

    [strlen a]: the index of the first NUL of the array [a]; [None] when the
    array has none, and the C function would read past its end. *)
Fixpoint strlen (a : bytes) : option nat :=
  match a with
  | [] => None
  | b :: a' => if b =? 0 then Some O else S <$> strlen a'
  end.

(** The bytes of a NUL terminated array, without the terminator. *)
Definition cstr (a : bytes) : option bytes := (λ n, take n a) <$> strlen a.

(** A byte string that holds no NUL: what [strlen] measures in full. *)
Definition nonul (s : bytes) : Prop := Forall (λ b, b ≠ 0) s.

(** The C literal of an ASCII Rocq string. *)
Definition lit (s : string) : bytes :=
  (λ a, Z.of_N (N_of_ascii a)) <$> list_ascii_of_string s.
Arguments lit s%_string.

Definition CR : Z := 13.
Definition LF : Z := 10.
Definition CRLF : bytes := [CR; LF].

Lemma strlen_app_nul s r : nonul s -> strlen (s ++ 0 :: r) = Some (length s).
Proof.
  induction 1 as [|b s Hb _ IH]; cbn; [done|].
  rewrite (proj2 (Z.eqb_neq b 0)) by done. by rewrite IH.
Qed.

Lemma strlen_Some a n :
  strlen a = Some n <-> exists s r, a = s ++ 0 :: r /\ nonul s /\ n = length s.
Proof.
  split.
  - revert n. induction a as [|b a IH]; intros n; cbn; [done|].
    destruct (Z.eqb_spec b 0) as [->|Hb]; intros E.
    + injection E as <-. exists [], a. repeat split. constructor.
    + destruct (strlen a) as [k|]; [|done]. injection E as <-.
      destruct (IH k eq_refl) as (s & r & -> & Hs & ->).
      exists (b :: s), r. repeat split. by constructor.
  - intros (s & r & -> & Hs & ->). by apply strlen_app_nul.
Qed.

Lemma cstr_app_nul s r : nonul s -> cstr (s ++ 0 :: r) = Some s.
Proof.
  intros Hs. unfold cstr. rewrite strlen_app_nul by done. cbn.
  by rewrite take_app_length.
Qed.

Lemma cstr_Some a s :
  cstr a = Some s <-> exists r, a = s ++ 0 :: r /\ nonul s.
Proof.
  split.
  - unfold cstr. destruct (strlen a) as [n|] eqn:E; [|done]. cbn. intros [= <-].
    apply strlen_Some in E as (s & r & -> & Hs & ->).
    exists r. by rewrite take_app_length.
  - intros (r & -> & Hs). by apply cstr_app_nul.
Qed.

Lemma strlen_cstr a n : strlen a = Some n -> cstr a = Some (take n a).
Proof. unfold cstr. by intros ->. Qed.

Lemma cstr_strlen a s : cstr a = Some s -> strlen a = Some (length s).
Proof.
  intros (r & -> & Hs)%cstr_Some. by apply strlen_app_nul.
Qed.

(** [memcpy dst src]: the first bytes of [dst] become those of [src]. *)
Definition memcpy (dst src : bytes) : bytes := src ++ drop (length src) dst.

Lemma length_memcpy dst src :
  (length src <= length dst)%nat -> length (memcpy dst src) = length dst.
Proof. intros. unfold memcpy. rewrite length_app, length_drop. lia. Qed.

(** Copying a C string over a cleared array makes that C string. *)
Lemma cstr_memcpy_zero n s :
  nonul s -> (length s < n)%nat -> cstr (memcpy (replicate n 0) s) = Some s.
Proof.
  intros Hs Hn. unfold memcpy. rewrite drop_replicate.
  destruct (n - length s)%nat as [|k] eqn:E; [lia|].
  cbn. by apply cstr_app_nul.
Qed.

(** ** Lists *)

(** Total size of a list of byte strings. *)
Lemma length_concat_bytes (l : list bytes) :
  length (concat l) = sum_list (length <$> l).
Proof. induction l; cbn; [done|]. rewrite length_app. lia. Qed.

Lemma lookup_rev_Z {A} (l : list A) (i : nat) :
  (i < length l)%nat -> reverse l !! i = l !! (length l - 1 - i)%nat.
Proof.
  intros Hi. rewrite reverse_lookup by done. f_equal. lia.
Qed.

(** Insert an element so that it gets position [k]. *)
Definition insert_at {A} (k : nat) (x : A) (l : list A) : list A := take k l ++ x :: drop k l.

Lemma lookup_insert_at {A} k (x : A) l j : (k <= length l)%nat ->
  insert_at k x l !! j
  = if decide (j < k)%nat then l !! j else if decide (j = k) then Some x else l !! (j - 1)%nat.
Proof.
  intros Hk. unfold insert_at. repeat case_decide.
  - rewrite lookup_app_l by (rewrite length_take; lia). by rewrite lookup_take_lt by lia.
  - subst. by rewrite list_lookup_middle by (rewrite length_take; lia).
  - rewrite lookup_app_r by (rewrite length_take; lia). rewrite length_take, Nat.min_l by lia.
    rewrite lookup_cons. destruct (j - k)%nat as [|m] eqn:E; [lia|].
    rewrite lookup_drop. f_equal. lia.
Qed.

Lemma length_insert_at {A} k (x : A) l : length (insert_at k x l) = S (length l).
Proof. unfold insert_at. rewrite length_app. cbn. rewrite length_take, length_drop. lia. Qed.

Lemma insert_at_perm {A} k (x : A) l : insert_at k x l ≡ₚ x :: l.
Proof. unfold insert_at. rewrite <- Permutation_middle. by rewrite take_drop. Qed.

Lemma insert_at_length {A} (x : A) l : insert_at (length l) x l = l ++ [x].
Proof. unfold insert_at. by rewrite take_ge, drop_ge by lia. Qed.

Lemma insert_at_0 {A} (x : A) l : insert_at 0 x l = x :: l.
Proof. done. Qed.

Lemma lookup_delete_list {A} (l : list A) k j :
  delete k l !! j = if decide (j < k)%nat then l !! j else l !! S j.
Proof.
  case_decide; [by apply list_lookup_delete_lt|by apply list_lookup_delete_ge; lia].
Qed.

(** ** Reversing an array in place *)

(** Exchange the elements [i] and [j], then move both ends inwards, [n] times. *)
Fixpoint swap_ends (n : nat) (i j : nat) (l : list Z) : list Z :=
  match n with
  | O => l
  | S n =>
      let temp := nth j l 0 in
      let l := <[j := nth i l 0]> l in
      let l := <[i := temp]> l in
      swap_ends n (S i) (j - 1) l
  end.

(** From the two ends of an array until the positions meet. *)
Definition swap_all (l : list Z) : list Z := swap_ends (length l / 2) 0 (length l - 1) l.

(** The swap loop reverses the array. *)
Lemma swap_ends_lookup n : forall i l k, (2 * (i + n) <= length l)%nat ->
  swap_ends n i (length l - 1 - i) l !! k
  = if decide ((i <= k < i + n) \/ (length l - (i + n) <= k < length l - i))%nat
    then l !! (length l - 1 - k)%nat else l !! k.
Proof.
  induction n as [|n IH]; intros i l k Hl; cbn [swap_ends].
  { rewrite decide_False; [done|]. lia. }
  set (j := (length l - 1 - i)%nat).
  set (l1 := <[i := nth j l 0]> (<[j := nth i l 0]> l)).
  assert (length l1 = length l) as E1 by (unfold l1; by rewrite !length_insert).
  specialize (IH (S i) l1 k). rewrite E1 in IH.
  replace (length l - 1 - S i)%nat with (j - 1)%nat in IH by (unfold j; lia). rewrite IH by lia.
  assert (forall m, l1 !! m = if decide (m = i \/ m = j) then l !! (length l - 1 - m)%nat else l !! m) as El.
  { intros m. unfold l1. destruct (decide (m = i)) as [->|Hi].
    - rewrite list_lookup_insert_eq, decide_True by (rewrite ?length_insert; lia || auto).
      rewrite nth_lookup. destruct (lookup_lt_is_Some_2 l j) as [x Ex]; [unfold j; lia|].
      by rewrite Ex.
    - rewrite list_lookup_insert_ne by done. destruct (decide (m = j)) as [->|Hj].
      + rewrite list_lookup_insert_eq, decide_True by (unfold j; lia || auto).
        rewrite nth_lookup. replace (length l - 1 - j)%nat with i by (unfold j; lia).
        destruct (lookup_lt_is_Some_2 l i) as [x Ex]; [lia|]. by rewrite Ex.
      + rewrite list_lookup_insert_ne, decide_False by (done || tauto). done. }
  rewrite !El. unfold j. repeat case_decide; try lia; try done; f_equal; lia.
Qed.

Lemma swap_all_reverse l : swap_all l = reverse l.
Proof.
  apply list_eq. intros k. unfold swap_all.
  pose proof (swap_ends_lookup (length l / 2) 0 l k) as E.
  pose proof (Nat.div_mod_eq (length l) 2). pose proof (Nat.mod_upper_bound (length l) 2).
  rewrite Nat.sub_0_r in E. rewrite E by lia. clear E.
  destruct (decide (k < length l)%nat) as [Hk|Hk].
  - rewrite lookup_rev_Z by done. case_decide; [done|]. f_equal. lia.
  - rewrite decide_False by lia. rewrite !lookup_ge_None_2; [done|rewrite length_reverse; lia|lia].
Qed.
