(* ===== verification/Util.v ===== *)
(** * util.c: integers and their decimal strings

    [digits10], [ll2string], [string2ll] and [string2l] of src/src/util.c, over the
    reference decimal notation [dec] / [ll_repr].  The main facts: [ll2string]
    writes the canonical notation of every 64-bit integer and [string2ll] accepts
    exactly the canonical notations, so the two are inverse to each other. *)

From Stdlib Require Import ZArith Lia.
From stdpp Require Import base tactics numbers list strings.
From S2P Require Import Prelude.

Local Open Scope Z_scope.

(** ** Reference: canonical decimal notation *)

Definition is_digit (c : Z) : bool := (48 <=? c) && (c <=? 57).

Fixpoint dec_fuel (n : nat) (v : Z) : bytes :=
  if v <? 10 then [48 + v]
  else match n with
       | O => [48 + v]
       | S n => dec_fuel n (v / 10) ++ [48 + v mod 10]
       end.

(** The decimal digits of a natural number, most significant first. *)
Definition dec (v : Z) : bytes := dec_fuel (Z.to_nat (Z.log2 v)) v.

(** The canonical notation of an integer: an optional minus sign, no leading
    zero, no plus sign. *)
Definition ll_repr (v : Z) : bytes := if v <? 0 then 45 :: dec (- v) else dec v.

(** The value of a digit string, continuing from [acc]. *)
Definition dval (acc : Z) (s : bytes) : Z := foldl (λ a c, a * 10 + (c - 48)) acc s.

(** ** util.c *)

(** The bounds are written as in the source, the recursion as a chain of at most
    three calls: [v / 10^12] three times is 0 for every 64-bit [v]. *)
Fixpoint digits10_rec (fuel : nat) (v : Z) : Z :=
  if v <? 10 then 1 else
  if v <? 100 then 2 else
  if v <? 1000 then 3 else
  if v <? 1000000000000 then
    if v <? 100000000 then
      if v <? 1000000 then
        if v <? 10000 then 4 else 5 + Z.b2z (100000 <=? v)
      else 7 + Z.b2z (10000000 <=? v)
    else if v <? 10000000000 then 9 + Z.b2z (1000000000 <=? v)
    else 11 + Z.b2z (100000000000 <=? v)
  else match fuel with
       | O => 12
       | S fuel => 12 + digits10_rec fuel (v / 1000000000000)
       end.

Definition digits10 (v : Z) : Z := digits10_rec 2 v.

(** The table of the 100 two-digit strings, as the source's [digits]. *)
Definition digits : bytes :=
  lit "0001020304050607080910111213141516171819"
  ++ lit "2021222324252627282930313233343536373839"
  ++ lit "4041424344454647484950515253545556575859"
  ++ lit "6061626364656667686970717273747576777879"
  ++ lit "8081828384858687888990919293949596979899".

Definition digit_at (i : Z) : Z := nth (Z.to_nat i) digits 0.
Arguments digit_at : simpl never.

(** Store one byte of the destination array. *)
Definition put (dst : bytes) (i : Z) (b : Z) : bytes := <[Z.to_nat i := b]> dst.

(** The main loop: two digits per round, from the end. *)
Fixpoint ll2string_loop (fuel : nat) (value next : Z) (dst : bytes) : Z * Z * bytes :=
  match fuel with
  | O => (value, next, dst)
  | S fuel =>
      if 100 <=? value then
        let i := value mod 100 * 2 in
        let value := value / 100 in
        let dst := put dst next (digit_at (i + 1)) in
        let dst := put dst (next - 1) (digit_at i) in
        ll2string_loop fuel value (next - 2) dst
      else (value, next, dst)
  end.

(** The last one or two digits. *)
Definition ll2string_last (value next : Z) (dst : bytes) : bytes :=
  if value <? 10 then put dst next (48 + value)
  else
    let i := value * 2 in
    put (put dst next (digit_at (i + 1))) (next - 1) (digit_at i).

(** [ll2string dst dstlen svalue]: the returned length and the array afterwards.
    The 64-bit value takes at most ten rounds. *)
Definition ll2string (dst : bytes) (dstlen svalue : Z) : Z * bytes :=
  let '(value, negative) :=
    if svalue <? 0 then (wrap_u64 (- svalue), 1) else (wrap_u64 svalue, 0) in
  let length := digits10 value + negative in
  if dstlen <=? length then (0, dst) else
  let next := length in
  let dst := put dst next 0 in
  let '(value, next, dst) := ll2string_loop 10 value (next - 1) dst in
  let dst := ll2string_last value next dst in
  let dst := if negative =? 1 then put dst 0 45 else dst in
  (length, dst).

(** The digits after the first one: a byte that is not a digit leaves bytes
    unused, which the source reports as a failure too. *)
Fixpoint string2ll_loop (v : Z) (p : bytes) : option Z :=
  match p with
  | [] => Some v
  | c :: p =>
      if is_digit c then
        if ULLONG_MAX / 10 <? v then None else
        let v := v * 10 in
        if ULLONG_MAX - (c - 48) <? v then None else
        string2ll_loop (v + (c - 48)) p
      else None
  end.

(** [string2ll s]: [Some v] when the source returns 1 and stores [v]. *)
Definition string2ll (s : bytes) : option Z :=
  match s with
  | [] => None
  | c0 :: p0 =>
      if (match p0 with [] => true | _ => false end) && (c0 =? 48) then Some 0 else
      let '(negative, p) := if c0 =? 45 then (true, p0) else (false, s) in
      match p with
      | [] => None
      | c :: p =>
          if (49 <=? c) && (c <=? 57) then
            v ← string2ll_loop (c - 48) p;
            if (negative : bool) then
              if 9223372036854775808 <? v then None else Some (wrap_s64 (- v))
            else
              if LLONG_MAX <? v then None else Some v
          else None
      end
  end.

(** [string2l]: [long] and [long long] have the same range here. *)
Definition string2l (s : bytes) : option Z :=
  llval ← string2ll s;
  if (llval <? LLONG_MIN) || (LLONG_MAX <? llval) then None else Some llval.

(** ** Facts about the decimal notation *)

Lemma dec_fuel_small n v : 0 <= v < 10 -> dec_fuel n v = [48 + v].
Proof. intros. destruct n; cbn; by rewrite (proj2 (Z.ltb_lt v 10)) by lia. Qed.

Lemma log2_div10 v : 10 <= v -> 1 <= Z.log2 v /\ Z.log2 (v / 10) <= Z.log2 v - 1.
Proof.
  intros Hv. split; [apply (Z.log2_le_pow2 v 1); lia|].
  replace (Z.log2 v - 1) with (Z.log2 (v / 2)).
  - apply Z.log2_le_mono. apply Z.div_le_compat_l; lia.
  - rewrite <- (Z.div2_div v), Z.div2_spec, Z.log2_shiftr by lia.
    pose proof (Z.log2_le_pow2 v 1 ltac:(lia)). lia.
Qed.

Lemma dec_fuel_enough n m v :
  0 <= v -> (Z.to_nat (Z.log2 v) <= n)%nat -> (Z.to_nat (Z.log2 v) <= m)%nat ->
  dec_fuel n v = dec_fuel m v.
Proof.
  revert m v. induction n as [|n IH]; intros m v Hv Hn Hm.
  - assert (v < 10).
    { assert (Z.log2 v = 0) as E by (pose proof (Z.log2_nonneg v); lia).
      apply Z.log2_null in E. lia. }
    by rewrite !dec_fuel_small by lia.
  - destruct (Z.lt_ge_cases v 10) as [Hs|Hb]; [by rewrite !dec_fuel_small by lia|].
    destruct (log2_div10 v Hb) as [Hl Hd].
    destruct m as [|m]; [lia|]. cbn.
    rewrite (proj2 (Z.ltb_ge v 10)) by lia.
    f_equal. apply IH; [apply Z.div_pos; lia | lia | lia].
Qed.

Lemma dec_small v : 0 <= v < 10 -> dec v = [48 + v].
Proof. apply dec_fuel_small. Qed.

Lemma dec_step v : 10 <= v -> dec v = dec (v / 10) ++ [48 + v mod 10].
Proof.
  intros Hv. unfold dec. destruct (log2_div10 v Hv) as [Hl Hd].
  destruct (Z.to_nat (Z.log2 v)) as [|n] eqn:E; [lia|]. cbn.
  rewrite (proj2 (Z.ltb_ge v 10)) by lia. f_equal.
  apply dec_fuel_enough; [apply Z.div_pos; lia | lia | lia].
Qed.

(** Induction on a natural number by its decimal digits. *)
Lemma dec_ind (P : Z -> Prop) :
  (forall v, 0 <= v < 10 -> P v) ->
  (forall v, 10 <= v -> P (v / 10) -> P v) ->
  forall v, 0 <= v -> P v.
Proof.
  intros Hs Hb. apply Zlt_0_ind. intros v IH Hv.
  destruct (Z.lt_ge_cases v 10); [apply Hs; lia|].
  apply Hb; [lia|]. apply IH. split; [apply Z.div_pos; lia|].
  apply Z.div_lt; lia.
Qed.

Lemma dval_app acc s t : dval acc (s ++ t) = dval (dval acc s) t.
Proof. apply foldl_app. Qed.

Lemma dval_dec v : 0 <= v -> dval 0 (dec v) = v.
Proof.
  revert v. apply dec_ind; intros v Hv; [|intros IH].
  - rewrite dec_small by lia. cbn. lia.
  - rewrite dec_step, dval_app, IH by lia. cbn.
    pose proof (Z.div_mod v 10). lia.
Qed.

Lemma dec_digits v : 0 <= v -> Forall (λ c, is_digit c = true) (dec v).
Proof.
  revert v. apply dec_ind; intros v Hv; [|intros IH].
  - rewrite dec_small by lia. repeat constructor. unfold is_digit. lia.
  - rewrite dec_step by lia. apply Forall_app. split; [done|].
    repeat constructor. unfold is_digit. pose proof (Z.mod_pos_bound v 10). lia.
Qed.

(** The first digit of a positive number is one of 1-9. *)
Lemma dec_head v : 0 < v -> exists c s, dec v = c :: s /\ 49 <= c <= 57.
Proof.
  intros Hp. cut (0 < v -> exists c s, dec v = c :: s /\ 49 <= c <= 57); [auto|].
  assert (0 <= v) as H0 by lia. clear Hp. revert v H0.
  refine (dec_ind _ _ _); intros v Hv; [|intros IH]; intros Hp.
  - rewrite dec_small by lia. exists (48 + v), []. split; [done|lia].
  - destruct IH as (c & s & E & Hc); [apply Z.div_str_pos; lia|].
    rewrite dec_step, E by lia. exists c, (s ++ [48 + v mod 10]). done.
Qed.

(** Reading digits onto a positive number appends them to its notation. *)
Lemma dec_dval v s :
  0 < v -> Forall (λ c, is_digit c = true) s -> dec (dval v s) = dec v ++ s.
Proof.
  intros Hv Hs. revert v Hv. induction Hs as [|c s Hc Hs IH]; intros v Hv; cbn.
  - by rewrite app_nil_r.
  - unfold is_digit in Hc. change (foldl _ _ s) with (dval (v * 10 + (c - 48)) s).
    rewrite IH by lia. rewrite dec_step by lia.
    replace ((v * 10 + (c - 48)) / 10) with v by (apply (Z.div_unique_pos _ _ _ (c - 48)); lia).
    replace ((v * 10 + (c - 48)) mod 10) with (c - 48).
    + rewrite <- app_assoc. cbn. by replace (48 + (c - 48)) with c by lia.
    + rewrite Z.add_comm, Z_mod_plus_full, Z.mod_small; lia.
Qed.

Lemma dval_ge v s : 0 <= v -> Forall (λ c, is_digit c = true) s -> v <= dval v s.
Proof.
  intros Hv Hs. revert v Hv. induction Hs as [|c s Hc Hs IH]; intros v Hv; cbn; [lia|].
  unfold is_digit in Hc. change (foldl _ _ s) with (dval (v * 10 + (c - 48)) s).
  etransitivity; [|apply IH; lia]. lia.
Qed.

(** ** string2ll *)

Lemma string2ll_loop_spec p v r :
  0 <= v <= ULLONG_MAX ->
  string2ll_loop v p = Some r <->
  Forall (λ c, is_digit c = true) p /\ r = dval v p /\ r <= ULLONG_MAX.
Proof.
  revert v. induction p as [|c p IH]; intros v Hv; cbn.
  - split; [intros [= <-]; split; [constructor|]; lia | intros (_ & -> & _); done].
  - change (foldl _ _ p) with (dval (v * 10 + (c - 48)) p).
    rewrite Forall_cons. destruct (is_digit c) eqn:Ec; [|naive_solver].
    assert (48 <= c <= 57) as Hc by (unfold is_digit in Ec; lia).
    change (ULLONG_MAX / 10) with 1844674407370955161.
    destruct (Z.ltb_spec 1844674407370955161 v) as [Hl|Hl].
    { split; [done|]. intros ([_ Hp] & -> & Hr).
      pose proof (dval_ge (v * 10 + (c - 48)) p ltac:(lia) Hp). rng. }
    destruct (Z.ltb_spec (ULLONG_MAX - (c - 48)) (v * 10)) as [Hm|Hm].
    { split; [done|]. intros ([_ Hp] & -> & Hr).
      pose proof (dval_ge (v * 10 + (c - 48)) p ltac:(lia) Hp). lia. }
    rewrite IH by lia. naive_solver.
Qed.

(** One positive canonical number: what the loop and the range checks accept. *)
Lemma string2ll_pos c p r :
  49 <= c <= 57 ->
  string2ll_loop (c - 48) p = Some r <-> c :: p = dec r /\ 0 < r <= ULLONG_MAX.
Proof.
  intros Hc. rewrite string2ll_loop_spec by rng.
  assert (dec (c - 48) = [c]) as Ed by (rewrite dec_small by lia; f_equal; lia).
  split.
  - intros (Hp & -> & Hr). rewrite dec_dval, Ed by (done || lia). split; [done|].
    pose proof (dval_ge (c - 48) p ltac:(lia) Hp). lia.
  - intros (E & Hr). pose proof (dec_digits r ltac:(lia)) as Hd.
    rewrite <- E in Hd. apply Forall_cons in Hd as [_ Hp].
    split; [done|]. split; [|lia].
    pose proof (dval_dec r ltac:(lia)) as Hv. rewrite <- E in Hv. done.
Qed.

(** The three shapes of a canonical notation. *)
Inductive ll_shape : Z -> bytes -> Prop :=
  | shape_zero : ll_shape 0 [48]
  | shape_pos v c p : 0 < v -> dec v = c :: p -> 49 <= c <= 57 -> ll_shape v (c :: p)
  | shape_neg v c p : 0 < v -> dec v = c :: p -> 49 <= c <= 57 -> ll_shape (- v) (45 :: c :: p).

Lemma ll_repr_shape v : ll_shape v (ll_repr v).
Proof.
  unfold ll_repr. destruct (Z.ltb_spec v 0).
  - destruct (dec_head (- v) ltac:(lia)) as (c & p & E & Hc). rewrite E.
    rewrite <- (Z.opp_involutive v) at 1. apply shape_neg; [lia|done|done].
  - destruct (decide (v = 0)) as [->|]; [apply shape_zero|].
    destruct (dec_head v ltac:(lia)) as (c & p & E & Hc). rewrite E.
    by apply shape_pos; [lia|..].
Qed.

Lemma shape_ll_repr v s : ll_shape v s -> s = ll_repr v.
Proof.
  unfold ll_repr. destruct 1; [done|by rewrite (proj2 (Z.ltb_ge _ _)) by lia|].
  rewrite (proj2 (Z.ltb_lt _ _)) by lia. by rewrite Z.opp_involutive, H0.
Qed.

Lemma string2ll_complete v : in_s64 v -> string2ll (ll_repr v) = Some v.
Proof.
  intros Hv. destruct (ll_repr_shape v) as [|v c p Hp E Hc|v c p Hp E Hc]; [done|..]; cbn.
  - rewrite (proj2 (Z.eqb_neq c 48)), (proj2 (Z.eqb_neq c 45)), andb_false_r by lia.
    rewrite (proj2 (andb_true_iff _ _)) by lia.
    rewrite (proj2 (string2ll_pos c p v Hc)) by (split; [done|rng]). cbn.
    by rewrite (proj2 (Z.ltb_ge _ _)) by rng.
  - rewrite (proj2 (andb_true_iff _ _)) by lia.
    rewrite (proj2 (string2ll_pos c p v Hc)) by (split; [done|rng]). cbn.
    rewrite (proj2 (Z.ltb_ge _ v)) by rng. by rewrite wrap_s64_id.
Qed.

Lemma ll_repr_inj i j : in_s64 i -> in_s64 j -> ll_repr i = ll_repr j -> i = j.
Proof. intros Hi Hj E. pose proof (string2ll_complete i Hi) as H. rewrite E, string2ll_complete in H by done. by simplify_eq. Qed.

Lemma string2ll_sound s v : string2ll s = Some v -> in_s64 v /\ ll_shape v s.
Proof.
  destruct s as [|c0 p0]; [done|]. cbn.
  destruct (_ && _) eqn:E0.
  { apply andb_prop in E0 as [Ep Ec]. destruct p0; [|done]. apply Z.eqb_eq in Ec as ->.
    intros [= <-]. split; [rng|constructor]. }
  destruct (Z.eqb_spec c0 45) as [->|Hc0]; [destruct p0 as [|c p]; [done|]|];
    cbn -[Z.leb]; (destruct ((49 <=? _) && _) eqn:Ec; [|done]); intros (r & [E Hr]%string2ll_pos & Hx)%bind_Some;
    try lia.
  - destruct (Z.ltb_spec 9223372036854775808 r); [done|].
    injection Hx as <-. rewrite wrap_s64_id by rng. split; [rng|]. apply shape_neg; [lia|done|lia].
  - destruct (Z.ltb_spec LLONG_MAX r); [done|]. injection Hx as <-.
    split; [rng|]. apply shape_pos; [lia|done|lia].
Qed.

(** The accepted strings are the canonical notations of the 64-bit integers. *)
Lemma string2ll_iff s v : string2ll s = Some v <-> in_s64 v /\ s = ll_repr v.
Proof.
  split.
  - intros [Hv Hs]%string2ll_sound. auto using shape_ll_repr.
  - intros [Hv ->]. by apply string2ll_complete.
Qed.

(** ** digits10 and ll2string *)

Lemma length_dec_pow v k : 0 <= v -> (0 < k)%nat ->
  10 ^ (Z.of_nat k - 1) <= v < 10 ^ Z.of_nat k \/ (v = 0 /\ k = 1%nat) -> length (dec v) = k.
Proof.
  intros Hv. revert v Hv k. refine (dec_ind _ _ _).
  - intros v Hv k Hk Hr. rewrite dec_small by lia. cbn.
    destruct Hr as [[Hl _]|[_ ->]]; [|done].
    destruct (decide (k = 1%nat)); [lia|].
    assert (10 ^ 1 <= 10 ^ (Z.of_nat k - 1)) by (apply Z.pow_le_mono_r; lia). lia.
  - intros v Hv IH k Hk Hr. rewrite dec_step, length_app by lia. cbn.
    destruct Hr as [[Hl Hu]|[-> ->]]; [|lia].
    destruct k as [|[|k]]; [lia|cbn in Hu; lia|].
    rewrite (IH (S k)); [lia|lia|]. left.
    replace (Z.of_nat (S (S k)) - 1) with (Z.succ (Z.of_nat k)) in Hl by lia.
    replace (Z.of_nat (S (S k))) with (Z.succ (Z.of_nat (S k))) in Hu by lia.
    rewrite Z.pow_succ_r in Hl, Hu by lia.
    replace (Z.of_nat (S k) - 1) with (Z.of_nat k) by lia.
    split; [apply Z.div_le_lower_bound; lia|apply Z.div_lt_upper_bound; lia].
Qed.

Lemma length_dec_1e12 v : 1000000000000 <= v ->
  length (dec v) = (12 + length (dec (v / 1000000000000)))%nat.
Proof.
  intros Hv. change 1000000000000 with (10*(10*(10*(10*(10*(10*(10*(10*(10*(10*(10*10))))))))))).
  rewrite <- !Z.div_div by lia.
  assert (forall w k, 10 ^ Z.of_nat (S k) <= w -> 10 <= w /\ 10 ^ Z.of_nat k <= w / 10
          /\ length (dec w) = S (length (dec (w / 10)))) as Hstep.
  { intros w k Hw. rewrite Nat2Z.inj_succ, Z.pow_succ_r in Hw by lia.
    assert (0 < 10 ^ Z.of_nat k) by (apply Z.pow_pos_nonneg; lia).
    assert (10 <= w) by lia. split; [done|]. split; [apply Z.div_le_lower_bound; lia|].
    rewrite (dec_step w), length_app by lia. cbn. lia. }
  assert (10 ^ Z.of_nat 12 <= v) as H by (cbn; lia). clear Hv. revert H.
  do 12 (intros H; apply Hstep in H as (_ & H & ->); revert H).
  done.
Qed.

Ltac dec_len k := rewrite (length_dec_pow _ k); cbn; lia.

Lemma digits10_rec_small n v :
  0 <= v < 1000000000000 -> digits10_rec n v = Z.of_nat (length (dec v)).
Proof.
  intros Hv.
  assert (forall k, (0 < k)%nat -> 10 ^ (Z.of_nat k - 1) <= v < 10 ^ Z.of_nat k ->
    Z.of_nat (length (dec v)) = Z.of_nat k) as Hk.
  { intros k H1 H2. f_equal. apply length_dec_pow; [lia|lia|auto]. }
  assert (v < 10 -> Z.of_nat (length (dec v)) = 1) as H1 by (intros; rewrite dec_small by lia; done).
  destruct n; cbn -[Z.mul Z.add Z.of_nat Z.pow dec];
    repeat match goal with
    | |- context [?a <? ?b] => destruct (Z.ltb_spec a b)
    | |- context [?a <=? ?b] => destruct (Z.leb_spec a b)
    end; try lia; cbn -[Z.of_nat Z.pow dec];
    first [ rewrite H1 by lia | rewrite (Hk 2%nat) by (cbn; lia) | rewrite (Hk 3%nat) by (cbn; lia)
          | rewrite (Hk 4%nat) by (cbn; lia) | rewrite (Hk 5%nat) by (cbn; lia) | rewrite (Hk 6%nat) by (cbn; lia)
          | rewrite (Hk 7%nat) by (cbn; lia) | rewrite (Hk 8%nat) by (cbn; lia) | rewrite (Hk 9%nat) by (cbn; lia)
          | rewrite (Hk 10%nat) by (cbn; lia) | rewrite (Hk 11%nat) by (cbn; lia) | rewrite (Hk 12%nat) by (cbn; lia) ];
    reflexivity.
Qed.

Lemma digits10_rec_big n v :
  1000000000000 <= v -> digits10_rec (S n) v = 12 + digits10_rec n (v / 1000000000000).
Proof.
  intros Hv. cbn -[Z.add Z.ltb Z.leb].
  by rewrite !(proj2 (Z.ltb_ge v _)) by lia.
Qed.

(** [digits10] counts the decimal digits of every 64-bit value. *)
Lemma digits10_spec v : in_u64 v -> digits10 v = Z.of_nat (length (dec v)).
Proof.
  intros Hv. unfold digits10.
  destruct (Z.lt_ge_cases v 1000000000000); [apply digits10_rec_small; rng|].
  rewrite digits10_rec_big, length_dec_1e12 by lia.
  assert (v / 1000000000000 < 1000000000000) by (apply Z.div_lt_upper_bound; rng).
  rewrite digits10_rec_small; [lia|]. split; [apply Z.div_pos; lia|done].
Qed.

Lemma dec_two v : 100 <= v ->
  dec v = dec (v / 100) ++ [48 + v mod 100 / 10; 48 + v mod 100 mod 10].
Proof.
  intros Hv. rewrite dec_step by lia. rewrite (dec_step (v / 10)) by (apply Z.div_le_lower_bound; lia).
  rewrite <- app_assoc, Z.div_div by lia. cbn [app]. f_equal. f_equal; [|f_equal].
  - change 100 with (10 * 10). rewrite Z.rem_mul_r by lia.
    rewrite (Z.mul_comm 10 (_ mod _)), Z.div_add by lia.
    rewrite (Z.div_small (v mod 10) 10) by (apply Z.mod_pos_bound; lia). lia.
  - change 100 with (10 * 10). rewrite Z.rem_mul_r by lia.
    rewrite (Z.mul_comm 10 (_ mod _)), Z_mod_plus_full, Z.mod_mod by lia. done.
Qed.

Lemma digits_table i : 0 <= i < 100 ->
  digit_at (i * 2) = 48 + i / 10 /\ digit_at (i * 2 + 1) = 48 + i mod 10.
Proof.
  intros Hi.
  assert (forall k, (k < 100)%nat -> digit_at (Z.of_nat k * 2) = 48 + Z.of_nat k / 10
    /\ digit_at (Z.of_nat k * 2 + 1) = 48 + Z.of_nat k mod 10) as H.
  { assert (Forall (λ k, digit_at (Z.of_nat k * 2) = 48 + Z.of_nat k / 10
      /\ digit_at (Z.of_nat k * 2 + 1) = 48 + Z.of_nat k mod 10) (seq 0 100)) as HF
      by (repeat constructor).
    intros k Hk. rewrite Forall_forall in HF. apply HF. apply elem_of_seq. lia. }
  specialize (H (Z.to_nat i)). rewrite Z2Nat.id in H by lia. apply H. lia.
Qed.

(** Two adjacent stores, seen from a window that starts before them. *)
Lemma put_two (dst : bytes) (k : nat) a b :
  (S k < length dst)%nat ->
  <[k := a]> (<[S k := b]> dst) = take k dst ++ [a; b] ++ drop (S (S k)) dst.
Proof.
  intros Hk. apply list_eq. intros i.
  destruct (decide (i = k)) as [->|]; [|destruct (decide (i = S k)) as [->|]].
  - rewrite list_lookup_insert_eq by (rewrite length_insert; lia).
    rewrite lookup_app_r by (rewrite length_take; lia).
    rewrite length_take, Nat.min_l, Nat.sub_diag by lia. done.
  - rewrite list_lookup_insert_ne, list_lookup_insert_eq by lia.
    rewrite lookup_app_r by (rewrite length_take; lia).
    rewrite length_take, Nat.min_l by lia. by replace (S k - k)%nat with 1%nat by lia.
  - rewrite !list_lookup_insert_ne by lia. destruct (decide (i < k)%nat).
    + rewrite lookup_app_l by (rewrite length_take; lia). by rewrite lookup_take_lt by lia.
    + rewrite lookup_app_r by (rewrite length_take; lia).
      rewrite length_take, Nat.min_l by lia.
      rewrite lookup_app_r by (cbn; lia). rewrite lookup_drop. f_equal. cbn. lia.
Qed.

Lemma put_one (dst : bytes) (k : nat) a :
  (k < length dst)%nat -> <[k := a]> dst = take k dst ++ [a] ++ drop (S k) dst.
Proof. intros. by rewrite insert_take_drop. Qed.

(** The loop and the last digits fill the window [pos .. pos + n) of the array
    with the [n] digits of the value. *)
Lemma ll2string_window fuel value next dst pos :
  0 <= value < 100 ^ Z.of_nat (S fuel) ->
  next = Z.of_nat pos + Z.of_nat (length (dec value)) - 1 ->
  next < Z.of_nat (length dst) ->
  (let '(value, next, dst) := ll2string_loop fuel value next dst in
   ll2string_last value next dst)
  = take pos dst ++ dec value ++ drop (pos + length (dec value)) dst.
Proof.
  revert value next dst. induction fuel as [|fuel IH]; intros value next dst Hv Hn Hl.
  all: cbn [ll2string_loop]; cbv zeta; destruct (Z.leb_spec 100 value) as [Hb|Hs].
  1: { change (100 ^ Z.of_nat 1) with 100 in Hv. lia. }
  2: { (* one more round *)
    rewrite (dec_two value) in Hn |- * by lia. rewrite length_app in Hn |- *. cbn in Hn |- *.
    assert (0 < length (dec (value / 100)))%nat.
    { destruct (Z.lt_ge_cases 0 (value / 100)) as [H|H].
      - destruct (dec_head _ H) as (? & ? & -> & _). cbn. lia.
      - assert (1 <= value / 100) by (apply Z.div_le_lower_bound; lia). lia. }
    set (k := (pos + length (dec (value / 100)))%nat).
    destruct (digits_table (value mod 100)) as [-> ->]; [apply Z.mod_pos_bound; lia|].
    unfold put. replace (Z.to_nat next) with (S k) by lia.
    replace (Z.to_nat (next - 1)) with k by lia.
    rewrite put_two by lia. rewrite IH.
    - rewrite take_app_le by (rewrite length_take; lia).
      rewrite take_take, Nat.min_l by lia. fold k.
      rewrite drop_app_ge by (rewrite length_take; lia).
      rewrite length_take, Nat.min_l, Nat.sub_diag by lia. cbn.
      rewrite <- app_assoc. cbn. repeat f_equal. lia.
    - rewrite Nat2Z.inj_succ, Z.pow_succ_r in Hv by lia.
      split; [apply Z.div_pos; lia|apply Z.div_lt_upper_bound; lia].
    - lia.
    - rewrite !length_app, length_take, length_drop. cbn. lia. }
  all: unfold ll2string_last, put; cbv zeta; destruct (Z.ltb_spec value 10).
  1,3: rewrite dec_small in * by lia; cbn in Hn |- *;
       replace (Z.to_nat next) with pos by lia; rewrite put_one by lia;
       cbn; repeat f_equal; lia.
  all: rewrite dec_step, dec_small in * by (try split; try apply Z.div_pos; try apply Z.div_lt_upper_bound; lia);
       cbn in Hn |- *;
       destruct (digits_table value) as [-> ->]; [lia|];
       replace (Z.to_nat next) with (S pos) by lia;
       replace (Z.to_nat (next - 1)) with pos by lia;
       rewrite put_two by lia; cbn; repeat f_equal; lia.
Qed.

(** The absolute value computed in unsigned arithmetic. *)
Lemma ll2string_abs v : in_s64 v ->
  (if v <? 0 then (wrap_u64 (- v), 1) else (wrap_u64 v, 0))
  = (Z.abs v, if v <? 0 then 1 else 0).
Proof.
  intros Hv. destruct (Z.ltb_spec v 0); rewrite wrap_u64_id by rng; f_equal; lia.
Qed.

Lemma ll_repr_abs v : ll_repr v = (if v <? 0 then [45] else []) ++ dec (Z.abs v).
Proof.
  unfold ll_repr. destruct (Z.ltb_spec v 0).
  - by rewrite Z.abs_neq by lia.
  - by rewrite Z.abs_eq by lia.
Qed.

Lemma length_ll_repr v :
  Z.of_nat (length (ll_repr v)) = Z.of_nat (length (dec (Z.abs v))) + (if v <? 0 then 1 else 0).
Proof. rewrite ll_repr_abs, length_app. destruct (v <? 0); cbn; lia. Qed.

(** [ll2string] stores the notation and a NUL when they fit, and returns the
    length; the rest of the array is not touched. *)
Lemma ll2string_fits dst dstlen v :
  in_s64 v -> dstlen <= Z.of_nat (length dst) ->
  Z.of_nat (length (ll_repr v)) < dstlen ->
  ll2string dst dstlen v
  = (Z.of_nat (length (ll_repr v)), ll_repr v ++ 0 :: drop (S (length (ll_repr v))) dst).
Proof.
  intros Hv Hd Hfit. unfold ll2string. rewrite ll2string_abs by done.
  rewrite digits10_spec by rng. rewrite length_ll_repr in Hfit.
  rewrite (proj2 (Z.leb_gt _ _)) by lia. cbv zeta.
  pose proof (ll2string_window 10 (Z.abs v)) as HW.
  set (n := length (dec (Z.abs v))) in *.
  assert (0 <= Z.abs v < 100 ^ Z.of_nat 11) as Hb by (cbn; rng).
  assert (drop_nul : forall k, (k < length dst)%nat ->
    drop k (put dst (Z.of_nat k) 0) = 0 :: drop (S k) dst).
  { intros k Hk. unfold put. rewrite Nat2Z.id, put_one by done.
    by rewrite drop_app_ge, length_take, Nat.min_l, Nat.sub_diag
      by (rewrite ?length_take; lia). }
  rewrite ll_repr_abs, length_app. fold n.
  destruct (Z.ltb_spec v 0) as [Hneg|Hpos]; cbn [length Nat.add app] in *.
  - specialize (HW (Z.of_nat n + 1 - 1) (put dst (Z.of_nat n + 1) 0) 1%nat Hb).
    replace (Z.of_nat n + 1) with (Z.of_nat (S n)) in * by lia.
    destruct (ll2string_loop _ _ _ _) as [[value next] dst'].
    rewrite HW; [|lia|unfold put; rewrite length_insert; lia].
    f_equal. change (1 + n)%nat with (S n). rewrite drop_nul by lia.
    unfold put. destruct dst as [|b dst]; [cbn in Hd; lia|].
    rewrite Nat2Z.id. done.
  - specialize (HW (Z.of_nat n + 0 - 1) (put dst (Z.of_nat n + 0) 0) 0%nat Hb).
    rewrite Z.add_0_r in *.
    destruct (ll2string_loop _ _ _ _) as [[value next] dst'].
    rewrite HW; [|lia|unfold put; rewrite length_insert; lia].
    f_equal. change (0 + n)%nat with n. by rewrite drop_nul by lia.
Qed.

(** When the notation and its NUL do not fit, nothing is stored. *)
Lemma ll2string_too_small dst dstlen v :
  in_s64 v -> dstlen <= Z.of_nat (length (ll_repr v)) -> ll2string dst dstlen v = (0, dst).
Proof.
  intros Hv Hd. unfold ll2string. rewrite ll2string_abs by done.
  rewrite digits10_spec by rng. rewrite length_ll_repr in Hd.
  by rewrite (proj2 (Z.leb_le _ _)) by lia.
Qed.

Lemma length_dec_le v k : 0 <= v < 10 ^ Z.of_nat (S k) -> (length (dec v) <= S k)%nat.
Proof.
  intros [Hv Hk]. revert v Hv k Hk. refine (dec_ind _ _ _).
  - intros v Hv k _. rewrite dec_small by lia. cbn. lia.
  - intros v Hv IH k Hk. rewrite dec_step, length_app by lia. cbn.
    destruct k as [|k]; [cbn in Hk; lia|].
    assert (v / 10 < 10 ^ Z.of_nat (S k)) as H.
    { rewrite Nat2Z.inj_succ, Z.pow_succ_r in Hk by lia. apply Z.div_lt_upper_bound; lia. }
    specialize (IH k H). lia.
Qed.

(** Every 64-bit integer has at most 20 characters. *)
Lemma length_ll_repr_max v : in_s64 v -> (length (ll_repr v) <= 20)%nat.
Proof.
  intros Hv. pose proof (length_ll_repr v).
  assert (length (dec (Z.abs v)) <= 19)%nat by (apply length_dec_le; cbn; rng).
  destruct (v <? 0); lia.
Qed.

Lemma ll_repr_nonul v : nonul (ll_repr v).
Proof.
  rewrite ll_repr_abs. apply Forall_app. split.
  - destruct (v <? 0); repeat constructor. lia.
  - eapply Forall_impl; [apply dec_digits; lia|]. unfold is_digit. cbn. lia.
Qed.

Lemma ll_repr_not_nil v : ll_repr v ≠ [].
Proof. destruct (ll_repr_shape v); done. Qed.

(** ** Properties *)

(** Printing a [long long] with [ll2string] into any buffer with room for 21
    bytes and reading the printed bytes back with [string2ll] gives the number
    again, for every 64-bit value (both extremes included); the printed text is
    NUL terminated and the buffer keeps its size. *)
Theorem ll2string_string2ll_roundtrip dst dstlen v :
  in_s64 v -> 21 <= dstlen <= Z.of_nat (length dst) ->
  let '(n, dst') := ll2string dst dstlen v in
  string2ll (take (Z.to_nat n) dst') = Some v
  /\ dst' !! Z.to_nat n = Some 0 /\ length dst' = length dst.
Proof.
  intros Hv Hd. pose proof (length_ll_repr_max v Hv).
  rewrite ll2string_fits by (done || lia). rewrite Nat2Z.id.
  rewrite take_app_length, list_lookup_middle, length_app by done. cbn. rewrite length_drop.
  split; [by apply string2ll_complete|]. split; [done|lia].
Qed.

Lemma ll2string_roundtrip_witness :
  in_s64 (- 2 ^ 63) /\
  string2ll (take 20 (snd (ll2string (replicate 32 7) 32 (- 2 ^ 63)))) = Some (- 2 ^ 63).
Proof.
  split; [rng|].
  exact (proj1 (ll2string_string2ll_roundtrip (replicate 32 7) 32 (- 2 ^ 63) ltac:(rng) ltac:(cbn; lia))).
Defined.

(** [string2ll] accepts exactly the canonical decimal notations of the 64-bit
    integers (no sign but a minus, no leading zero, no other byte) and stores the
    number denoted; everything else, overflow included, is refused. *)
Theorem string2ll_canonical s v :
  string2ll s = Some v <-> in_s64 v /\ s = ll_repr v.
Proof. apply string2ll_iff. Qed.

(** [ll2string] never writes past the length it is given: when the notation
    and its NUL need more than [dstlen] bytes it returns 0 and leaves the buffer
    as it was, otherwise it changes the first [length + 1] bytes only. *)
Theorem ll2string_bounded dst dstlen v :
  in_s64 v -> dstlen <= Z.of_nat (length dst) ->
  let n := length (ll_repr v) in
  ll2string dst dstlen v
  = (if dstlen <=? Z.of_nat n then (0, dst)
     else (Z.of_nat n, ll_repr v ++ 0 :: drop (S n) dst)).
Proof.
  intros Hv Hd n. destruct (Z.leb_spec dstlen (Z.of_nat n)).
  - by apply ll2string_too_small.
  - by apply ll2string_fits; [..|lia].
Qed.

Lemma ll2string_bounded_witness :
  ll2string [9; 9; 9; 9] 4 (-12) = (3, [45; 49; 50; 0]) /\
  ll2string [9; 9; 9] 3 (-12) = (0, [9; 9; 9]).
Proof.
  split; [exact (ll2string_bounded [9; 9; 9; 9] 4 (-12) ltac:(rng) ltac:(cbn; lia))
         |exact (ll2string_bounded [9; 9; 9] 3 (-12) ltac:(rng) ltac:(cbn; lia))].
Defined.
