(* ===== verification/Libc.v ===== *)
(** * The C library functions the sources use

    [strtol] and [atoi] in base 10, and [fgets] on a stream whose remaining bytes
    are given: shared by the log loader (LogFile.v) and the configuration loaders;
    [strchr], and [read] on a socket. *)

From Stdlib Require Import ZArith Lia.
From stdpp Require Import base tactics numbers list strings.
From S2P Require Import Prelude Util.

Local Open Scope Z_scope.

Definition isspace (c : Z) : bool := (c =? 32) || ((9 <=? c) && (c <=? 13)).

Fixpoint skip_spaces (s : bytes) : bytes :=
  match s with
  | c :: s' => if isspace c then skip_spaces s' else s
  | [] => []
  end.

(** The value of the leading digits. *)
Fixpoint strtol_digits (acc : Z) (s : bytes) : Z :=
  match s with
  | c :: s' => if is_digit c then strtol_digits (acc * 10 + (c - 48)) s' else acc
  | [] => acc
  end.

(** Values outside the range of [long] are clamped. *)
Definition strtol (s : bytes) : Z :=
  match skip_spaces s with
  | c :: s' =>
      if c =? 45 then Z.max LLONG_MIN (- strtol_digits 0 s')
      else if c =? 43 then Z.min LLONG_MAX (strtol_digits 0 s')
      else Z.min LLONG_MAX (strtol_digits 0 (c :: s'))
  | [] => 0
  end.

(** The leading digits in base [b] (at most 10): their value and what is behind them. *)
Fixpoint base_digits (b acc : Z) (s : bytes) : Z * bytes :=
  match s with
  | c :: s' => if (48 <=? c) && (c <? 48 + b) then base_digits b (acc * b + (c - 48)) s' else (acc, s)
  | [] => (acc, [])
  end.

(** An optional sign. *)
Definition read_sign (t : bytes) : bool * bytes :=
  match t with
  | c :: t' => if c =? 45 then (true, t') else if c =? 43 then (false, t') else (false, t)
  | [] => (false, [])
  end.

(** [strtoll(s, &eptr, b)]: the value, the bytes at [eptr], and whether [errno] is ERANGE.
    Without a digit nothing is read. *)
Definition strtoll_end (b : Z) (s : bytes) : Z * bytes * bool :=
  let '(neg, t) := read_sign (skip_spaces s) in
  match t with
  | c :: _ =>
      if (48 <=? c) && (c <? 48 + b) then
        let '(v, r) := base_digits b 0 t in
        let v := if (neg : bool) then - v else v in
        if v <? LLONG_MIN then (LLONG_MIN, r, true)
        else if LLONG_MAX <? v then (LLONG_MAX, r, true) else (v, r, false)
      else (0, s, false)
  | [] => (0, s, false)
  end.

(** [atoi] is [strtol] converted to [int]. *)
Definition atoi (s : bytes) : Z := wrap_s32 (strtol s).

(** [fgets(buf,n,fp)]: at most [n-1] bytes, up to and including a newline; the
    bytes read and the rest of the stream, or [None] at the end of the file. *)
Fixpoint fgets_loop (n : nat) (f : bytes) : bytes * bytes :=
  match n, f with
  | S n, c :: f =>
      if c =? LF then ([c], f)
      else let '(l, r) := fgets_loop n f in (c :: l, r)
  | _, _ => ([], f)
  end.

Definition fgets (n : nat) (f : bytes) : option (bytes * bytes) :=
  match f with
  | [] => None
  | _ => Some (fgets_loop (n - 1) f)
  end.

(** [strchr(s, c)] on the bytes [s] of a string with its terminator behind them, as an
    index: the search ends at the first NUL. *)
Fixpoint strchr (s : bytes) (c : Z) : option nat :=
  match s with
  | [] => None
  | x :: s => if x =? c then Some O else if x =? 0 then None else S <$> strchr s c
  end.

(** [read(fd,buf,n)] on a socket whose data arrives in segments: the bytes read and the
    segments left; [None]: no data is ready. *)
Definition sock_read (n : nat) (inp : list bytes) : option (bytes * list bytes) :=
  match inp with
  | [] => None
  | s :: inp =>
      Some (take n s, match drop n s with [] => inp | r => r :: inp end)
  end.

(** A [read] takes some bytes from the first segment. *)
Lemma sock_read_spec n s inp : (0 < n)%nat -> s <> [] -> Forall (λ s, s <> []) inp ->
  exists b inp', sock_read n (s :: inp) = Some (b, inp') /\ b <> [] /\ (length b <= n)%nat
    /\ b ++ concat inp' = s ++ concat inp /\ Forall (λ s, s <> []) inp'
    /\ (length (concat inp') + length inp' < length (concat (s :: inp)) + length (s :: inp))%nat.
Proof.
  intros Hn Hs Hi. cbn [sock_read]. eexists _, _. split; [done|].
  pose proof (take_drop n s) as E. destruct s as [|x s]; [done|]. destruct n as [|n]; [lia|].
  split_and!; [done|rewrite length_take; lia| | |].
  - destruct (drop (S n) (x :: s)) as [|y r] eqn:Ed.
    + by rewrite app_nil_r in E; rewrite E.
    + cbn [concat]. by rewrite app_assoc, E.
  - destruct (drop (S n) (x :: s)) eqn:Ed; [done|by constructor].
  - pose proof (length_drop (x :: s) (S n)) as Hl.
    destruct (drop (S n) (x :: s)) as [|y r] eqn:Ed; cbn [concat length] in *; rewrite !length_app; cbn in *; lia.
Qed.

Lemma strchr_app s c r : Forall (λ x, x <> c) s -> nonul s -> strchr (s ++ c :: r) c = Some (length s).
Proof.
  induction 1 as [|x s Hx _ IH]; cbn; [by rewrite Z.eqb_refl|]. intros [Hn Hs]%Forall_cons.
  rewrite (proj2 (Z.eqb_neq _ _) Hx), (proj2 (Z.eqb_neq _ _) Hn). by rewrite IH.
Qed.

Lemma strchr_none s c : Forall (λ x, x <> c) s -> strchr s c = None.
Proof.
  induction 1 as [|x s Hx _ IH]; [done|]. cbn. rewrite (proj2 (Z.eqb_neq _ _) Hx), IH. by destruct (x =? 0).
Qed.

Lemma strtol_digits_dval s : forall acc r,
  Forall (λ c, is_digit c = true) s -> (forall c, head r = Some c -> is_digit c = false) ->
  strtol_digits acc (s ++ r) = dval acc s.
Proof.
  induction s as [|c s IH]; intros acc r Hs Hr; cbn.
  - destruct r as [|c r]; cbn; [done|]. by rewrite (Hr c eq_refl).
  - apply Forall_cons in Hs as [-> Hs]. by apply IH.
Qed.

Lemma digit_not_special c : is_digit c = true -> isspace c = false /\ c <> 45 /\ c <> 43.
Proof. unfold is_digit, isspace. intros. lia. Qed.

(** A decimal number is read back, whatever follows its last digit. *)
Lemma strtol_dec v r :
  0 <= v <= LLONG_MAX -> (forall c, head r = Some c -> is_digit c = false) ->
  strtol (dec v ++ r) = v.
Proof.
  intros Hv Hr. pose proof (dec_digits v ltac:(lia)) as Hd.
  pose proof (strtol_digits_dval (dec v) 0 r Hd Hr) as E.
  rewrite dval_dec in E by lia. unfold strtol.
  destruct (dec v) as [|c s] eqn:Ed.
  - exfalso. apply (ll_repr_not_nil v). unfold ll_repr. by rewrite (proj2 (Z.ltb_ge _ _)) by lia.
  - apply Forall_cons in Hd as [Hc _].
    destruct (digit_not_special c Hc) as (Hsp & H45 & H43).
    cbn [app skip_spaces]. rewrite Hsp.
    rewrite (proj2 (Z.eqb_neq _ _) H45), (proj2 (Z.eqb_neq _ _) H43).
    cbn [app] in E. rewrite E. lia.
Qed.

Lemma base_digits_dec s : forall acc, Forall (λ c, is_digit c = true) s -> base_digits 10 acc s = (dval acc s, []).
Proof.
  induction s as [|c s IH]; intros acc Hs; [done|]. apply Forall_cons in Hs as [Hc Hs]. cbn.
  unfold is_digit in Hc. replace (_ && _) with true by (symmetry; lia). by apply IH.
Qed.

(** A decimal number is read to its end. *)
Lemma strtoll_end_repr v : in_s64 v -> strtoll_end 10 (ll_repr v) = (v, [], false).
Proof.
  intros Hv. rewrite ll_repr_abs. pose proof (dec_digits (Z.abs v) ltac:(lia)) as Hd.
  assert (dec (Z.abs v) <> []) as Hne.
  { intros E. apply (ll_repr_not_nil (Z.abs v)). unfold ll_repr. by rewrite (proj2 (Z.ltb_ge _ _)) by lia. }
  pose proof (base_digits_dec (dec (Z.abs v)) 0 Hd) as E. rewrite dval_dec in E by lia.
  destruct (dec (Z.abs v)) as [|c s] eqn:Ed; [done|]. apply Forall_cons in Hd as [Hc _].
  destruct (digit_not_special c Hc) as (Hsp & H45 & H43). unfold is_digit in Hc.
  unfold strtoll_end. destruct (Z.ltb_spec v 0); cbn [app skip_spaces].
  - change (isspace 45) with false. cbn [read_sign Z.eqb Pos.eqb]. replace ((48 <=? c) && (c <? 48 + 10)) with true by (symmetry; lia).
    rewrite E. rewrite (proj2 (Z.ltb_ge _ _)), (proj2 (Z.ltb_ge _ _)) by rng. do 2 f_equal. lia.
  - rewrite Hsp. cbn [read_sign]. rewrite (proj2 (Z.eqb_neq _ _) H45), (proj2 (Z.eqb_neq _ _) H43).
    replace ((48 <=? c) && (c <? 48 + 10)) with true by (symmetry; lia). rewrite E.
    rewrite (proj2 (Z.ltb_ge _ _)), (proj2 (Z.ltb_ge _ _)) by rng. do 2 f_equal. lia.
Qed.

(** The value stays within the type. *)
Lemma strtoll_end_range b s v r e : strtoll_end b s = (v, r, e) -> in_s64 v.
Proof.
  unfold strtoll_end. destruct (read_sign _) as [neg t]. destruct t as [|c t].
  { intros [= <- _ _]. rng. }
  destruct (_ && _); [|intros [= <- _ _]; rng]. destruct (base_digits _ _ _) as [v0 r0].
  destruct (Z.ltb_spec (if neg then - v0 else v0) LLONG_MIN); [intros [= <- _ _]; rng|].
  destruct (Z.ltb_spec LLONG_MAX (if neg then - v0 else v0)); intros [= <- _ _]; rng.
Qed.

(** A line that fits in the buffer is read whole. *)
Lemma fgets_line n l f :
  Forall (λ c, c <> LF) l -> (length l + 2 <= n)%nat ->
  fgets n (l ++ LF :: f) = Some (l ++ [LF], f).
Proof.
  intros Hl Hn. unfold fgets.
  replace (fgets_loop (n - 1) (l ++ LF :: f)) with (l ++ [LF], f); [by destruct l|].
  revert n Hn. induction Hl as [|c l Hc _ IH]; intros n Hn; cbn in Hn.
  - by destruct n as [|[|n]]; [lia..|].
  - destruct n as [|[|n]]; [lia..|]. cbn. rewrite (proj2 (Z.eqb_neq _ _) Hc).
    specialize (IH (S n)). cbn in IH. rewrite Nat.sub_0_r in IH.
    rewrite <- IH by lia. done.
Qed.

(** A stream that ends before the newline is read to its end. *)
Lemma fgets_short n l :
  Forall (λ c, c <> LF) l -> (length l + 1 <= n)%nat -> l <> [] ->
  fgets n l = Some (l, []).
Proof.
  intros Hl Hn Hne. unfold fgets.
  replace (fgets_loop (n - 1) l) with (l, @nil Z); [by destruct l|]. clear Hne.
  revert n Hn. induction Hl as [|c l Hc _ IH]; intros n Hn; cbn in Hn.
  - by destruct (n - 1)%nat.
  - destruct n as [|[|n]]; [lia..|]. cbn. rewrite (proj2 (Z.eqb_neq _ _) Hc).
    specialize (IH (S n)). cbn in IH. rewrite Nat.sub_0_r in IH.
    rewrite <- IH by lia. done.
Qed.
