(* ===== verification/Endian.v ===== *)
(** * endianconv.c: byte order

    The functions of src/src/endianconv.c that reverse the bytes of integers in memory, and the
    bytes of integers on the little endian machine the server is built for. *)

From Stdlib Require Import ZArith Lia.
From stdpp Require Import base tactics numbers list strings.
From S2P Require Import Prelude.

Local Open Scope Z_scope.

(** [t = x[i]; x[i] = x[j]; x[j] = t] *)
Definition swap_bytes (i j : nat) (x : bytes) : cres bytes :=
  a ← of_ptr (x !! i); b ← of_ptr (x !! j); mret (<[j := a]> (<[i := b]> x)).

Definition memrev16 (x : bytes) : cres bytes := swap_bytes 0 1 x.
Definition memrev32 (x : bytes) : cres bytes := x ← swap_bytes 0 3 x; swap_bytes 1 2 x.
Definition memrev64 (x : bytes) : cres bytes :=
  x ← swap_bytes 0 7 x; x ← swap_bytes 1 6 x; x ← swap_bytes 2 5 x; swap_bytes 3 4 x.

(** The bytes of an integer in memory, on a little endian machine. *)
Fixpoint mem_of (n : nat) (v : Z) : bytes := match n with O => [] | S n => v mod 2 ^ 8 :: mem_of n (v / 2 ^ 8) end.
Fixpoint of_mem (x : bytes) : Z := match x with [] => 0 | b :: x => b + 2 ^ 8 * of_mem x end.

Definition intrev16 (v : Z) : cres Z := x ← memrev16 (mem_of 2 v); mret (of_mem x).
Definition intrev32 (v : Z) : cres Z := x ← memrev32 (mem_of 4 v); mret (of_mem x).
Definition intrev64 (v : Z) : cres Z := x ← memrev64 (mem_of 8 v); mret (of_mem x).

(** ** Integers in memory *)

Lemma of_mem_range x : Forall byte_ok x -> 0 <= of_mem x < 2 ^ (8 * Z.of_nat (length x)).
Proof.
  induction 1 as [|b x Hb _ IH]; [done|]. cbn [of_mem length]. unfold byte_ok in Hb. replace (8 * Z.of_nat (S (length x))) with (8 + 8 * Z.of_nat (length x)) by lia.
  rewrite Z.pow_add_r by lia. lia.
Qed.

Lemma of_mem_inj x : forall y, Forall byte_ok x -> Forall byte_ok y -> length x = length y -> of_mem x = of_mem y -> x = y.
Proof.
  induction x as [|a x IH]; intros [|b y] Hx Hy Hl E; try done. inversion Hx as [|? ? Ha Hx']; inversion Hy as [|? ? Hb Hy']; subst. cbn [of_mem] in E. unfold byte_ok in Ha, Hb.
  assert (a = b) as -> by lia. f_equal. apply IH; [done|done|by injection Hl|lia].
Qed.

(** ** Reversing bytes *)

Lemma memrev_reverse x :
  (length x = 2%nat -> memrev16 x = Ret (reverse x)) /\ (length x = 4%nat -> memrev32 x = Ret (reverse x)) /\ (length x = 8%nat -> memrev64 x = Ret (reverse x)).
Proof. split_and!; intros H; repeat (destruct x as [|? x]; try done). Qed.

Lemma mem_of_length n : forall v, length (mem_of n v) = n.
Proof. induction n as [|n IH]; intros v; [done|]. cbn. by rewrite IH. Qed.

Lemma mem_of_ok n : forall v, Forall byte_ok (mem_of n v).
Proof. induction n as [|n IH]; intros v; constructor; [unfold byte_ok; pose proof (Z.mod_pos_bound v (2 ^ 8)); lia|done]. Qed.

Lemma mem_of_mem x : Forall byte_ok x -> mem_of (length x) (of_mem x) = x.
Proof.
  induction 1 as [|b x Hb _ IH]; [done|]. cbn [length of_mem mem_of]. unfold byte_ok in Hb. rewrite (Z.mul_comm (2 ^ 8)), Z.mod_add, Z.div_add by lia.
  by rewrite Z.mod_small, Z.div_small, Z.add_0_l, IH by lia.
Qed.

Lemma of_mem_of n : forall v, 0 <= v < 2 ^ (8 * Z.of_nat n) -> of_mem (mem_of n v) = v.
Proof.
  induction n as [|n IH]; intros v Hv; [cbn in *; lia|]. cbn [mem_of of_mem]. pose proof (Z.div_mod v (2 ^ 8)). rewrite IH; [lia|]. split; [apply Z.div_pos; lia|].
  apply Z.div_lt_upper_bound; [lia|]. rewrite <- Z.pow_add_r by lia. replace (8 + 8 * Z.of_nat n) with (8 * Z.of_nat (S n)) by lia. lia.
Qed.

(** Reversing the bytes twice gives the integer back. *)
Lemma intrev_twice v :
  (0 <= v < 2 ^ 16 -> (intrev16 v ≫= intrev16) = Ret v) /\ (0 <= v < 2 ^ 32 -> (intrev32 v ≫= intrev32) = Ret v) /\ (0 <= v < 2 ^ 64 -> (intrev64 v ≫= intrev64) = Ret v).
Proof.
  assert (forall n (f : bytes -> cres bytes), (forall x, length x = n -> f x = Ret (reverse x)) -> 0 <= v < 2 ^ (8 * Z.of_nat n) ->
    ((x ← f (mem_of n v); mret (of_mem x)) ≫= λ w, x ← f (mem_of n w); mret (of_mem x)) = Ret v) as H.
  { intros n f Hf Hv. rewrite Hf by apply mem_of_length. cbn [mbind cres_bind mret cres_ret]. pose proof (mem_of_ok n v) as Hok.
    assert (length (reverse (mem_of n v)) = n) as Hl by (rewrite length_reverse; apply mem_of_length).
    assert (mem_of n (of_mem (reverse (mem_of n v))) = reverse (mem_of n v)) as ->. { rewrite <- Hl at 1. by apply mem_of_mem, Forall_reverse. }
    rewrite Hf by done. cbn [mbind cres_bind mret cres_ret]. by rewrite reverse_involutive, of_mem_of. }
  split_and!; intros Hv.
  - apply (H 2%nat memrev16); [apply memrev_reverse|done].
  - apply (H 4%nat memrev32); [apply memrev_reverse|done].
  - apply (H 8%nat memrev64); [apply memrev_reverse|done].
Qed.
