(* ===== verification/Crc64.v ===== *)
(** * crc64.c: checksums

    [crc64] of src/src/crc64.c with its table.  The table is the one of the polynomial the
    comment names, with bits reflected; the checksum of a text detects every change that lies
    within eight bytes. *)

From Stdlib Require Import ZArith Lia.
From stdpp Require Import base tactics numbers list strings.
From S2P Require Import Prelude Endian.

Local Open Scope Z_scope.

Definition crc64_tab : list Z :=
  [0x0000000000000000; 0x7ad870c830358979; 0xf5b0e190606b12f2; 0x8f689158505e9b8b;
   0xc038e5739841b68f; 0xbae095bba8743ff6; 0x358804e3f82aa47d; 0x4f50742bc81f2d04;
   0xab28ecb46814fe75; 0xd1f09c7c5821770c; 0x5e980d24087fec87; 0x24407dec384a65fe;
   0x6b1009c7f05548fa; 0x11c8790fc060c183; 0x9ea0e857903e5a08; 0xe478989fa00bd371;
   0x7d08ff3b88be6f81; 0x07d08ff3b88be6f8; 0x88b81eabe8d57d73; 0xf2606e63d8e0f40a;
   0xbd301a4810ffd90e; 0xc7e86a8020ca5077; 0x4880fbd87094cbfc; 0x32588b1040a14285;
   0xd620138fe0aa91f4; 0xacf86347d09f188d; 0x2390f21f80c18306; 0x594882d7b0f40a7f;
   0x1618f6fc78eb277b; 0x6cc0863448deae02; 0xe3a8176c18803589; 0x997067a428b5bcf0;
   0xfa11fe77117cdf02; 0x80c98ebf2149567b; 0x0fa11fe77117cdf0; 0x75796f2f41224489;
   0x3a291b04893d698d; 0x40f16bccb908e0f4; 0xcf99fa94e9567b7f; 0xb5418a5cd963f206;
   0x513912c379682177; 0x2be1620b495da80e; 0xa489f35319033385; 0xde51839b2936bafc;
   0x9101f7b0e12997f8; 0xebd98778d11c1e81; 0x64b116208142850a; 0x1e6966e8b1770c73;
   0x8719014c99c2b083; 0xfdc17184a9f739fa; 0x72a9e0dcf9a9a271; 0x08719014c99c2b08;
   0x4721e43f0183060c; 0x3df994f731b68f75; 0xb29105af61e814fe; 0xc849756751dd9d87;
   0x2c31edf8f1d64ef6; 0x56e99d30c1e3c78f; 0xd9810c6891bd5c04; 0xa3597ca0a188d57d;
   0xec09088b6997f879; 0x96d1784359a27100; 0x19b9e91b09fcea8b; 0x636199d339c963f2;
   0xdf7adabd7a6e2d6f; 0xa5a2aa754a5ba416; 0x2aca3b2d1a053f9d; 0x50124be52a30b6e4;
   0x1f423fcee22f9be0; 0x659a4f06d21a1299; 0xeaf2de5e82448912; 0x902aae96b271006b;
   0x74523609127ad31a; 0x0e8a46c1224f5a63; 0x81e2d7997211c1e8; 0xfb3aa75142244891;
   0xb46ad37a8a3b6595; 0xceb2a3b2ba0eecec; 0x41da32eaea507767; 0x3b024222da65fe1e;
   0xa2722586f2d042ee; 0xd8aa554ec2e5cb97; 0x57c2c41692bb501c; 0x2d1ab4dea28ed965;
   0x624ac0f56a91f461; 0x1892b03d5aa47d18; 0x97fa21650afae693; 0xed2251ad3acf6fea;
   0x095ac9329ac4bc9b; 0x7382b9faaaf135e2; 0xfcea28a2faafae69; 0x8632586aca9a2710;
   0xc9622c4102850a14; 0xb3ba5c8932b0836d; 0x3cd2cdd162ee18e6; 0x460abd1952db919f;
   0x256b24ca6b12f26d; 0x5fb354025b277b14; 0xd0dbc55a0b79e09f; 0xaa03b5923b4c69e6;
   0xe553c1b9f35344e2; 0x9f8bb171c366cd9b; 0x10e3202993385610; 0x6a3b50e1a30ddf69;
   0x8e43c87e03060c18; 0xf49bb8b633338561; 0x7bf329ee636d1eea; 0x012b592653589793;
   0x4e7b2d0d9b47ba97; 0x34a35dc5ab7233ee; 0xbbcbcc9dfb2ca865; 0xc113bc55cb19211c;
   0x5863dbf1e3ac9dec; 0x22bbab39d3991495; 0xadd33a6183c78f1e; 0xd70b4aa9b3f20667;
   0x985b3e827bed2b63; 0xe2834e4a4bd8a21a; 0x6debdf121b863991; 0x1733afda2bb3b0e8;
   0xf34b37458bb86399; 0x8993478dbb8deae0; 0x06fbd6d5ebd3716b; 0x7c23a61ddbe6f812;
   0x3373d23613f9d516; 0x49aba2fe23cc5c6f; 0xc6c333a67392c7e4; 0xbc1b436e43a74e9d;
   0x95ac9329ac4bc9b5; 0xef74e3e19c7e40cc; 0x601c72b9cc20db47; 0x1ac40271fc15523e;
   0x5594765a340a7f3a; 0x2f4c0692043ff643; 0xa02497ca54616dc8; 0xdafce7026454e4b1;
   0x3e847f9dc45f37c0; 0x445c0f55f46abeb9; 0xcb349e0da4342532; 0xb1eceec59401ac4b;
   0xfebc9aee5c1e814f; 0x8464ea266c2b0836; 0x0b0c7b7e3c7593bd; 0x71d40bb60c401ac4;
   0xe8a46c1224f5a634; 0x927c1cda14c02f4d; 0x1d148d82449eb4c6; 0x67ccfd4a74ab3dbf;
   0x289c8961bcb410bb; 0x5244f9a98c8199c2; 0xdd2c68f1dcdf0249; 0xa7f41839ecea8b30;
   0x438c80a64ce15841; 0x3954f06e7cd4d138; 0xb63c61362c8a4ab3; 0xcce411fe1cbfc3ca;
   0x83b465d5d4a0eece; 0xf96c151de49567b7; 0x76048445b4cbfc3c; 0x0cdcf48d84fe7545;
   0x6fbd6d5ebd3716b7; 0x15651d968d029fce; 0x9a0d8ccedd5c0445; 0xe0d5fc06ed698d3c;
   0xaf85882d2576a038; 0xd55df8e515432941; 0x5a3569bd451db2ca; 0x20ed197575283bb3;
   0xc49581ead523e8c2; 0xbe4df122e51661bb; 0x3125607ab548fa30; 0x4bfd10b2857d7349;
   0x04ad64994d625e4d; 0x7e7514517d57d734; 0xf11d85092d094cbf; 0x8bc5f5c11d3cc5c6;
   0x12b5926535897936; 0x686de2ad05bcf04f; 0xe70573f555e26bc4; 0x9ddd033d65d7e2bd;
   0xd28d7716adc8cfb9; 0xa85507de9dfd46c0; 0x273d9686cda3dd4b; 0x5de5e64efd965432;
   0xb99d7ed15d9d8743; 0xc3450e196da80e3a; 0x4c2d9f413df695b1; 0x36f5ef890dc31cc8;
   0x79a59ba2c5dc31cc; 0x037deb6af5e9b8b5; 0x8c157a32a5b7233e; 0xf6cd0afa9582aa47;
   0x4ad64994d625e4da; 0x300e395ce6106da3; 0xbf66a804b64ef628; 0xc5bed8cc867b7f51;
   0x8aeeace74e645255; 0xf036dc2f7e51db2c; 0x7f5e4d772e0f40a7; 0x05863dbf1e3ac9de;
   0xe1fea520be311aaf; 0x9b26d5e88e0493d6; 0x144e44b0de5a085d; 0x6e963478ee6f8124;
   0x21c640532670ac20; 0x5b1e309b16452559; 0xd476a1c3461bbed2; 0xaeaed10b762e37ab;
   0x37deb6af5e9b8b5b; 0x4d06c6676eae0222; 0xc26e573f3ef099a9; 0xb8b627f70ec510d0;
   0xf7e653dcc6da3dd4; 0x8d3e2314f6efb4ad; 0x0256b24ca6b12f26; 0x788ec2849684a65f;
   0x9cf65a1b368f752e; 0xe62e2ad306bafc57; 0x6946bb8b56e467dc; 0x139ecb4366d1eea5;
   0x5ccebf68aecec3a1; 0x2616cfa09efb4ad8; 0xa97e5ef8cea5d153; 0xd3a62e30fe90582a;
   0xb0c7b7e3c7593bd8; 0xca1fc72bf76cb2a1; 0x45775673a732292a; 0x3faf26bb9707a053;
   0x70ff52905f188d57; 0x0a2722586f2d042e; 0x854fb3003f739fa5; 0xff97c3c80f4616dc;
   0x1bef5b57af4dc5ad; 0x61372b9f9f784cd4; 0xee5fbac7cf26d75f; 0x9487ca0fff135e26;
   0xdbd7be24370c7322; 0xa10fceec0739fa5b; 0x2e675fb4576761d0; 0x54bf2f7c6752e8a9;
   0xcdcf48d84fe75459; 0xb71738107fd2dd20; 0x387fa9482f8c46ab; 0x42a7d9801fb9cfd2;
   0x0df7adabd7a6e2d6; 0x772fdd63e7936baf; 0xf8474c3bb7cdf024; 0x829f3cf387f8795d;
   0x66e7a46c27f3aa2c; 0x1c3fd4a417c62355; 0x935745fc4798b8de; 0xe98f353477ad31a7;
   0xa6df411fbfb21ca3; 0xdc0731d78f8795da; 0x536fa08fdfd90e51; 0x29b7d047efec8728].

Definition crc_byte (crc b : Z) : Z :=
  Z.lxor (default 0 (crc64_tab !! Z.to_nat (Z.lxor (wrap_u 8 crc) b))) (Z.shiftr crc 8).

Definition crc64 (crc : Z) (s : bytes) : Z := foldl crc_byte crc s.

(** ** Division by the polynomial *)

(** The polynomial 0xad93d23594c935a9 with its bits reversed. *)
Definition POLY : Z := 0x95ac9329ac4bc9b5.

(** One bit: a remainder shifted, and reduced when a bit falls out. *)
Definition crc_bit (x : Z) : Z := Z.lxor (Z.shiftr x 1) (if Z.testbit x 0 then POLY else 0).

(** The bits of a byte, lowest first. *)
Definition poly_byte (crc b : Z) : Z := Nat.iter 8 crc_bit (Z.lxor crc b).
Definition poly_crc (crc : Z) (s : bytes) : Z := foldl poly_byte crc s.

Lemma crc_bit_lxor x y : crc_bit (Z.lxor x y) = Z.lxor (crc_bit x) (crc_bit y).
Proof.
  unfold crc_bit. rewrite Z.shiftr_lxor, Z.lxor_spec. apply Z.bits_inj'. intros i _.
  destruct (Z.testbit x 0), (Z.testbit y 0); cbn [xorb]; rewrite !Z.lxor_spec, ?Z.bits_0; destruct (Z.testbit (Z.shiftr x 1) i), (Z.testbit (Z.shiftr y 1) i), (Z.testbit POLY i); done.
Qed.

Lemma iter_lxor n x y : Nat.iter n crc_bit (Z.lxor x y) = Z.lxor (Nat.iter n crc_bit x) (Nat.iter n crc_bit y).
Proof. induction n as [|n IH]; [done|]. rewrite !Nat.iter_succ. by rewrite IH, crc_bit_lxor. Qed.

Lemma crc_bit_even x : crc_bit (2 * x) = x.
Proof.
  unfold crc_bit. rewrite Z.testbit_even_0. rewrite Z.lxor_0_r, Z.shiftr_div_pow2 by lia. rewrite Z.mul_comm. apply Z.div_mul. lia.
Qed.

Lemma iter_shift n : forall x, Nat.iter n crc_bit (x * 2 ^ Z.of_nat n) = x.
Proof.
  induction n as [|n IH]; intros x; [apply Z.mul_1_r|]. rewrite Nat.iter_succ_r, Nat2Z.inj_succ, Z.pow_succ_r by lia.
  replace (x * (2 * 2 ^ Z.of_nat n)) with (2 * (x * 2 ^ Z.of_nat n)) by lia. by rewrite crc_bit_even.
Qed.

(** The low bits are divided, the others shifted. *)
Lemma iter_split n x : Nat.iter n crc_bit x = Z.lxor (Nat.iter n crc_bit (x mod 2 ^ Z.of_nat n)) (Z.shiftr x (Z.of_nat n)).
Proof.
  assert (x = Z.lxor (x mod 2 ^ Z.of_nat n) (Z.shiftr x (Z.of_nat n) * 2 ^ Z.of_nat n)) as E.
  { apply Z.bits_inj'. intros i Hi. rewrite Z.lxor_spec, Z.mul_pow2_bits by lia. destruct (Z_lt_le_dec i (Z.of_nat n)).
    - rewrite Z.mod_pow2_bits_low, (Z.testbit_neg_r _ (i - _)) by lia. by rewrite xorb_false_r.
    - rewrite Z.mod_pow2_bits_high, Z.shiftr_spec by lia. rewrite xorb_false_l. f_equal. lia. }
  rewrite E at 1. by rewrite iter_lxor, iter_shift.
Qed.

(** ** The table *)

Lemma table_correct i : 0 <= i < 256 -> default 0 (crc64_tab !! Z.to_nat i) = Nat.iter 8 crc_bit i.
Proof.
  intros Hi. assert (forallb (λ n, default 0 (crc64_tab !! n) =? Nat.iter 8 crc_bit (Z.of_nat n)) (seq 0 256) = true) as H by (vm_compute; done).
  rewrite forallb_forall in H. specialize (H (Z.to_nat i) ltac:(apply in_seq; lia)). apply Z.eqb_eq in H. by rewrite Z2Nat.id in H by lia.
Qed.

Lemma byte_high b : byte_ok b -> Z.shiftr b 8 = 0.
Proof. intros Hb. unfold byte_ok in Hb. rewrite Z.shiftr_div_pow2 by lia. apply Z.div_small. lia. Qed.

Lemma lxor_byte a b : byte_ok a -> byte_ok b -> 0 <= Z.lxor a b < 256.
Proof.
  intros Ha Hb. assert (Z.lxor a b mod 2 ^ 8 = Z.lxor a b) as <-; [|pose proof (Z.mod_pos_bound (Z.lxor a b) (2 ^ 8)); lia].
  unfold byte_ok in *. apply Z.bits_inj'. intros i Hi. destruct (Z_lt_le_dec i 8); [by apply Z.mod_pow2_bits_low|]. rewrite Z.mod_pow2_bits_high, Z.lxor_spec by lia.
  rewrite <- (Z.mod_small a (2 ^ 8)), <- (Z.mod_small b (2 ^ 8)), !Z.mod_pow2_bits_high by lia. done.
Qed.

Lemma crc_byte_poly crc b : byte_ok b -> crc_byte crc b = poly_byte crc b.
Proof.
  intros Hb. unfold crc_byte, poly_byte, wrap_u. pose proof (Z.mod_pos_bound crc (2 ^ 8)).
  rewrite table_correct by (apply lxor_byte; [unfold byte_ok; lia|done]). rewrite (iter_split 8 (Z.lxor crc b)). change (Z.of_nat 8) with 8. f_equal.
  - f_equal. apply Z.bits_inj'. intros i Hi. rewrite Z.lxor_spec. destruct (Z_lt_le_dec i 8).
    + by rewrite !Z.mod_pow2_bits_low, Z.lxor_spec by lia.
    + rewrite !Z.mod_pow2_bits_high by lia. unfold byte_ok in Hb. rewrite <- (Z.mod_small b (2 ^ 8)), Z.mod_pow2_bits_high by lia. done.
  - by rewrite Z.shiftr_lxor, (byte_high b Hb), Z.lxor_0_r.
Qed.

Lemma crc64_poly s : forall crc, Forall byte_ok s -> crc64 crc s = poly_crc crc s.
Proof. induction s as [|b s IH]; intros crc H; [done|]. inversion H; subst. cbn. unfold crc64, poly_crc in *. rewrite crc_byte_poly by done. by apply IH. Qed.

(** ** No information is lost *)

Lemma poly_odd : Z.testbit POLY 63 = true.
Proof. done. Qed.

(** A bit that falls out can be seen in the highest one. *)
Lemma crc_bit_inj x y : 0 <= x < 2 ^ 64 -> 0 <= y < 2 ^ 64 -> crc_bit x = crc_bit y -> x = y.
Proof.
  intros Hx Hy E. assert (forall z, 0 <= z < 2 ^ 64 -> Z.testbit (crc_bit z) 63 = Z.testbit z 0) as Htop.
  { intros z Hz. unfold crc_bit. rewrite Z.lxor_spec, Z.shiftr_spec by lia. rewrite <- (Z.mod_small z (2 ^ 64)) at 1 by done. rewrite Z.mod_pow2_bits_high by lia.
    rewrite xorb_false_l. destruct (Z.testbit z 0); [apply poly_odd|apply Z.bits_0]. }
  assert (Z.testbit x 0 = Z.testbit y 0) as E0 by (rewrite <- (Htop x), <- (Htop y) by done; by rewrite E). apply Z.bits_inj'. intros i Hi.
  destruct (Z.eq_dec i 0) as [->|]; [done|]. apply (f_equal (λ z, Z.testbit z (i - 1))) in E. unfold crc_bit in E. rewrite !Z.lxor_spec, !Z.shiftr_spec, E0 in E by lia.
  replace (i - 1 + 1) with i in E by lia. destruct (Z.testbit x i), (Z.testbit y i), (Z.testbit (if Z.testbit y 0 then POLY else 0) (i - 1)); done.
Qed.

Lemma crc_bit_range x : 0 <= x < 2 ^ 64 -> 0 <= crc_bit x < 2 ^ 64.
Proof.
  intros Hx. unfold crc_bit. assert (forall z, 0 <= z < 2 ^ 64 -> forall i, 64 <= i -> Z.testbit z i = false) as Hb.
  { intros z Hz i Hi. rewrite <- (Z.mod_small z (2 ^ 64)) by done. by apply Z.mod_pow2_bits_high. }
  set (p := if Z.testbit x 0 then POLY else 0). assert (0 <= p < 2 ^ 64) as Hp by (unfold p, POLY; destruct (Z.testbit x 0); lia).
  assert (Z.lxor (Z.shiftr x 1) p mod 2 ^ 64 = Z.lxor (Z.shiftr x 1) p) as <-; [|apply Z.mod_pos_bound; lia]. apply Z.bits_inj'. intros i Hi.
  destruct (Z_lt_le_dec i 64); [by apply Z.mod_pow2_bits_low|]. rewrite Z.mod_pow2_bits_high, Z.lxor_spec, Z.shiftr_spec, (Hb x), (Hb p) by lia. done.
Qed.

Lemma iter_inj n : forall x y, 0 <= x < 2 ^ 64 -> 0 <= y < 2 ^ 64 -> Nat.iter n crc_bit x = Nat.iter n crc_bit y -> x = y.
Proof.
  induction n as [|n IH]; intros x y Hx Hy E; [done|]. rewrite !Nat.iter_succ_r in E. apply crc_bit_inj; [done..|]. apply IH; [by apply crc_bit_range..|done].
Qed.

(** A byte and what follows it do not overlap. *)
Lemma of_mem_lxor b x : byte_ok b -> of_mem (b :: x) = Z.lxor b (of_mem x * 2 ^ 8).
Proof.
  intros Hb. unfold byte_ok in Hb. cbn [of_mem]. rewrite (Z.mul_comm (2 ^ 8)). apply Z.add_nocarry_lxor. apply Z.bits_inj'. intros i Hi. rewrite Z.land_spec, Z.bits_0.
  destruct (Z_lt_le_dec i 8); [by rewrite Z.mul_pow2_bits_low, andb_false_r by lia|]. by rewrite <- (Z.mod_small b (2 ^ 8)), Z.mod_pow2_bits_high by lia.
Qed.

(** Bytes can be added to the remainder all at once. *)
Lemma poly_crc_window m : forall c, Forall byte_ok m -> poly_crc c m = Nat.iter (8 * length m) crc_bit (Z.lxor c (of_mem m)).
Proof.
  induction m as [|b m IH]; intros c H; [by rewrite Z.lxor_0_r|]. inversion H as [|? ? Hb Hm]; subst. unfold poly_crc in *. cbn [foldl length].
  rewrite IH by done. replace (8 * S (length m))%nat with (8 * length m + 8)%nat by lia. rewrite Nat.iter_add. f_equal. unfold poly_byte.
  rewrite of_mem_lxor, <- Z.lxor_assoc, (iter_lxor 8 (Z.lxor c b)) by done. f_equal. symmetry. apply (iter_shift 8 (of_mem m)).
Qed.

Lemma poly_byte_range c b : 0 <= c < 2 ^ 64 -> byte_ok b -> 0 <= Z.lxor c b < 2 ^ 64.
Proof.
  intros Hc Hb. unfold byte_ok in Hb. assert (Z.lxor c b mod 2 ^ 64 = Z.lxor c b) as <-; [|apply Z.mod_pos_bound; lia]. apply Z.bits_inj'. intros i Hi.
  destruct (Z_lt_le_dec i 64); [by apply Z.mod_pow2_bits_low|]. rewrite Z.mod_pow2_bits_high, Z.lxor_spec by lia.
  rewrite <- (Z.mod_small c (2 ^ 64)), <- (Z.mod_small b (2 ^ 64)), !Z.mod_pow2_bits_high by lia. done.
Qed.

Lemma iter_range n x : 0 <= x < 2 ^ 64 -> 0 <= Nat.iter n crc_bit x < 2 ^ 64.
Proof. intros Hx. induction n as [|n IH]; [done|]. rewrite Nat.iter_succ. by apply crc_bit_range. Qed.

Lemma poly_crc_range s : forall c, 0 <= c < 2 ^ 64 -> Forall byte_ok s -> 0 <= poly_crc c s < 2 ^ 64.
Proof.
  induction s as [|b s IH]; intros c Hc H; [done|]. inversion H; subst. apply (IH (poly_byte c b)); [|done]. by apply iter_range, poly_byte_range.
Qed.

Lemma poly_crc_inj s : forall c c', 0 <= c < 2 ^ 64 -> 0 <= c' < 2 ^ 64 -> Forall byte_ok s -> poly_crc c s = poly_crc c' s -> c = c'.
Proof.
  induction s as [|b s IH]; intros c c' Hc Hc' H E; [done|]. inversion H; subst. apply (IH (poly_byte c b) (poly_byte c' b)) in E; [|by apply iter_range, poly_byte_range..|done].
  apply iter_inj in E; [|by apply poly_byte_range..]. apply (f_equal (λ z, Z.lxor z b)) in E. by rewrite !Z.lxor_assoc, Z.lxor_nilpotent, !Z.lxor_0_r in E.
Qed.

(** [C37] The table driven [crc64] is the division of the text by the polynomial the comment
    names: for any text and any start value it gives the remainder that one gets bit by bit,
    lowest bit of each byte first; and the sample text of the comment has the checksum that is
    given there, with start value 0. *)
Theorem crc64_is_division crc s : Forall byte_ok s ->
  crc64 crc s = poly_crc crc s /\ crc64 0 (lit "123456789") = 0xe9c6d914c4b8d9ca.
Proof. intros H. split; [by apply crc64_poly|by vm_compute]. Qed.

Lemma crc64_is_division_witness : crc64 7 (lit "prez") = poly_crc 7 (lit "prez").
Proof. apply (crc64_is_division 7 (lit "prez")). repeat constructor; unfold byte_ok; cbn; lia. Defined.

(** [crc64] detects bursts: two texts of the same length that differ only within eight
    consecutive bytes have different checksums, whatever surrounds the change. *)
Theorem crc64_detects_bursts crc p m m' q : 0 <= crc < 2 ^ 64 -> Forall byte_ok p -> Forall byte_ok m -> Forall byte_ok m' -> Forall byte_ok q ->
  length m = length m' -> (length m <= 8)%nat -> m <> m' -> crc64 crc (p ++ m ++ q) <> crc64 crc (p ++ m' ++ q).
Proof.
  intros Hc Hp Hm Hm' Hq Hl H8 Hne E. rewrite !crc64_poly in E by (repeat apply Forall_app_2; done). unfold poly_crc in E. rewrite !foldl_app in E.
  pose proof (poly_crc_range p crc Hc Hp) as Hcp. fold (poly_crc crc p) in E. set (c := poly_crc crc p) in *.
  apply (poly_crc_inj q) in E; [|by apply poly_crc_range..|done]. fold (poly_crc c m) (poly_crc c m') in E. rewrite !poly_crc_window, <- Hl in E by done.
  assert (forall x, Forall byte_ok x -> (length x <= 8)%nat -> 0 <= Z.lxor c (of_mem x) < 2 ^ 64) as Hr.
  { intros x Hx Hlx. pose proof (of_mem_range x Hx) as Hox. assert (2 ^ (8 * Z.of_nat (length x)) <= 2 ^ 64) by (apply Z.pow_le_mono_r; lia).
    assert (Z.lxor c (of_mem x) mod 2 ^ 64 = Z.lxor c (of_mem x)) as <-; [|apply Z.mod_pos_bound; lia]. apply Z.bits_inj'. intros i Hi.
    destruct (Z_lt_le_dec i 64); [by apply Z.mod_pow2_bits_low|]. rewrite Z.mod_pow2_bits_high, Z.lxor_spec by lia.
    rewrite <- (Z.mod_small c (2 ^ 64)), <- (Z.mod_small (of_mem x) (2 ^ 64)), !Z.mod_pow2_bits_high by lia. done. }
  apply iter_inj in E; [|by apply Hr..|by apply Hr; [|lia]]. apply Hne, of_mem_inj; [done..|]. apply (f_equal (Z.lxor c)) in E. by rewrite <- !Z.lxor_assoc, Z.lxor_nilpotent, !Z.lxor_0_l in E.
Qed.

Lemma crc64_detects_bursts_witness : crc64 0 (lit "log" ++ lit "entry one" ++ []) <> crc64 0 (lit "log" ++ lit "entry" ++ lit " two").
Proof.
  apply (crc64_detects_bursts 0 (lit "logentry") (lit " one") (lit " two") []); [lia|repeat constructor; unfold byte_ok; cbn; lia..|done|cbn; lia|done].
Defined.
