(* ===== verification/Block.v ===== *)
(** * Blocks of bytes

    Memory as code sees it that keeps its own format inside one block from the allocator: the
    block is the list of its bytes, a pointer into it is an offset.  Every access is checked
    against the bounds of the block. *)

From Stdlib Require Import ZArith Lia.
From stdpp Require Import base tactics numbers list.
From S2P Require Import Prelude.

Local Open Scope Z_scope.

Definition len (s : bytes) : Z := Z.of_nat (length s).

(** [p[i]] *)
Definition byte_at (s : bytes) (i : Z) : cres Z := if i <? 0 then Undef else of_ptr (s !! Z.to_nat i).

(** The [n] bytes from [p] on, as [memcpy], [memcmp] and [memmove] read them. *)
Definition load (m : bytes) (p n : Z) : cres bytes :=
  _ ← require ((0 <=? p) && (0 <=? n) && (p + n <=? len m));
  mret (take (Z.to_nat n) (drop (Z.to_nat p) m)).

(** Writing [s] at [p]. *)
Definition store (m : bytes) (p : Z) (s : bytes) : cres bytes :=
  _ ← require ((0 <=? p) && (p + len s <=? len m));
  mret (take (Z.to_nat p) m ++ s ++ drop (Z.to_nat (p + len s)) m).

Definition memmove (m : bytes) (dst src n : Z) : cres bytes := s ← load m src n; store m dst s.

(** [zrealloc]: the bytes that are added hold whatever was there before. *)
Definition realloc (fresh : nat -> Z) (m : bytes) (n : Z) : bytes :=
  take (Z.to_nat n) m ++ (fresh <$> seq 0 (Z.to_nat n - length m)).

(** A block can be cut anywhere. *)
Lemma cut (y : bytes) n : 0 <= n <= len y -> exists y1 y2, y = y1 ++ y2 /\ len y1 = n.
Proof.
  intros Hn. exists (take (Z.to_nat n) y), (drop (Z.to_nat n) y). split; [by rewrite take_drop|]. unfold len in *. rewrite length_take. lia.
Qed.

(** ** Accesses to a block of which the parts are known *)

Lemma len_app a b : len (a ++ b) = len a + len b.
Proof. unfold len. rewrite length_app. lia. Qed.

Lemma len_cons b s : len (b :: s) = 1 + len s.
Proof. unfold len. cbn [length]. lia. Qed.

Lemma len_nil : len [] = 0.
Proof. done. Qed.

Lemma len_pos s : 0 <= len s.
Proof. unfold len. lia. Qed.

Lemma byte_at_app m a x c p : m = a ++ x :: c -> p = len a -> byte_at m p = Ret x.
Proof.
  intros -> ->. unfold byte_at. pose proof (len_pos a). rewrite (proj2 (Z.ltb_ge _ _)) by done. unfold len. by rewrite Nat2Z.id, list_lookup_middle.
Qed.

Lemma load_app m a b c p n : m = a ++ b ++ c -> p = len a -> n = len b -> load m p n = Ret b.
Proof.
  intros -> -> ->. unfold load. rewrite !len_app. pose proof (len_pos a). pose proof (len_pos b). pose proof (len_pos c).
  rewrite !(proj2 (Z.leb_le _ _)) by lia. cbn [andb require mbind cres_bind]. unfold len. rewrite !Nat2Z.id, drop_app_length, take_app_length. done.
Qed.

Lemma store_app m a b s c p : m = a ++ b ++ c -> p = len a -> len s = len b -> store m p s = Ret (a ++ s ++ c).
Proof.
  intros -> -> E. unfold store. rewrite !len_app, E. pose proof (len_pos a). pose proof (len_pos b). pose proof (len_pos c).
  rewrite !(proj2 (Z.leb_le _ _)) by lia. cbn [andb require mbind cres_bind]. unfold len in *. rewrite <- Nat2Z.inj_add, !Nat2Z.id, take_app_length.
  replace (drop (length a + length b) (a ++ b ++ c)) with c by (by rewrite (app_assoc a b c), <- length_app, drop_app_length). done.
Qed.

Lemma realloc_grow fresh m n : len m <= n -> exists j, realloc fresh m n = m ++ j /\ len j = n - len m.
Proof.
  intros H. unfold len in *. exists (fresh <$> seq 0 (Z.to_nat n - length m)). unfold realloc. rewrite take_ge by lia. split; [done|].
  rewrite length_fmap, length_seq. lia.
Qed.

Lemma realloc_shrink fresh a b n : n = len a -> realloc fresh (a ++ b) n = a.
Proof.
  intros ->. unfold realloc, len. rewrite Nat2Z.id, take_app_length, length_app. replace (length a - (length a + length b))%nat with 0%nat by lia. apply app_nil_r.
Qed.

(** Sizes and shapes of blocks. *)
Ltac blen := repeat (rewrite ?len_app, ?len_cons, ?len_nil in *); repeat match goal with |- context [len ?s] => lazymatch goal with H : 0 <= len s |- _ => fail | _ => pose proof (len_pos s) end end; lia.
Ltac bapp := repeat (rewrite <- ?app_assoc; cbn [app]); done.
Ltac ret := cbn [mbind cres_bind mret cres_ret of_ptr require].

Lemma memmove_app m a b c d src n dst m' : m = a ++ b ++ c -> src = len a -> n = len b -> store m dst b = Ret d -> d = m' -> memmove m dst src n = Ret m'.
Proof. intros -> -> -> E <-. unfold memmove. erewrite load_app by done. done. Qed.
