(* ===== verification/Lzf.v ===== *)
(** * lzf_c.c, lzf_d.c: compression

    [lzf_compress] of src/src/lzf_c.c and [lzf_decompress] of src/src/lzf_d.c, as configured by
    src/src/lzfP.h: a hash table of 2^16 places that is not initialised ([INIT_HTAB] 0), the
    [VERY_FAST] variant, unaligned reads of 16 bits.  Pointers into the input are offsets.  The
    hash table holds whatever the stack held before, which is a parameter. *)

From Stdlib Require Import ZArith Lia.
From stdpp Require Import base tactics numbers list strings.
From S2P Require Import Prelude Block.

Local Open Scope Z_scope.

Definition HLOG : Z := 16.
Definition HSIZE : Z := 2 ^ HLOG.
Definition MAX_LIT : Z := 2 ^ 5.
Definition MAX_OFF : Z := 2 ^ 13.
Definition MAX_REF : Z := 2 ^ 8 + 2 ^ 3.

(** ** Decompression *)

(** [do *op++ = *ref++; while (...)]: byte by byte, so that the source may overlap. *)
Fixpoint copy_ref (n : nat) (op : bytes) (ref : Z) : cres bytes :=
  match n with
  | O => mret op
  | S n => b ← byte_at op ref; copy_ref n (op ++ [b]) (ref + 1)
  end.

(** One round of the loop: the input that is left and the output, or [None] for an error. *)
Definition d_round (out_len : Z) (ip op : bytes) : cres (option (bytes * bytes)) :=
  match ip with
  | [] => Undef
  | ctrl :: ip =>
      if ctrl <? 2 ^ 5 then
        let ctrl := ctrl + 1 in
        if out_len <? len op + ctrl then mret None else
        if len ip <? ctrl then mret None else
        mret (Some (drop (Z.to_nat ctrl) ip, op ++ take (Z.to_nat ctrl) ip))
      else
        let l := Z.shiftr ctrl 5 in
        let ref := len op - Z.shiftl (Z.land ctrl 0x1f) 8 - 1 in
        match ip with
        | [] => mret None
        | b :: ip' =>
            let '(l, ip) := if l =? 7 then (l + b, ip') else (l, ip) in
            match ip with
            | [] => mret None
            | b :: ip =>
                let ref := ref - b in
                if out_len <? len op + l + 2 then mret None else
                if ref <? 0 then mret None else
                op ← copy_ref (Z.to_nat (l + 2)) op ref;
                mret (Some (ip, op))
            end
        end
  end.

Fixpoint d_loop (fuel : nat) (out_len : Z) (ip op : bytes) : cres (option bytes) :=
  match fuel with
  | O => Undef
  | S fuel =>
      r ← d_round out_len ip op;
      match r with
      | None => mret None
      | Some (ip, op) => if bool_decide (ip = []) then mret (Some op) else d_loop fuel out_len ip op
      end
  end.

(** Every round reads a byte at least.  [None]: 0 and errno. *)
Definition lzf_decompress (in_data : bytes) (out_len : Z) : cres (option bytes) := d_loop (S (length in_data)) out_len in_data [].

(** ** Compression *)

Section Compress.
Context (inp : bytes) (out_len : Z).

Let in_len : Z := len inp.

Definition FRST (p : Z) : cres Z := a ← byte_at inp p; b ← byte_at inp (p + 1); mret (Z.lor (Z.shiftl a 8) b).
Definition NEXT (v p : Z) : cres Z := b ← byte_at inp (p + 2); mret (Z.lor (wrap_u32 (Z.shiftl v 8)) b).
Definition IDX (h : Z) : Z := Z.land (wrap_u32 (Z.shiftr h (3 * 8 - HLOG) - h * 5)) (HSIZE - 1).

Abbreviation htab_t := (Z -> Z).
Definition htab_set (t : htab_t) (i v : Z) : htab_t := λ j, if j =? i then v else t j.

(** The output is the finished part, a byte for the length of the run, and the run: [op] is
    behind them. *)
Definition op_at (done lit : bytes) : Z := len done + 1 + len lit.

(** [op [- lit - 1] = lit - 1; op -= !lit;] *)
Definition stop_run (done lit : bytes) : cres bytes :=
  _ ← require (len done <? out_len);
  mret (if bool_decide (lit = []) then done else done ++ (len lit - 1) :: lit).

(** [lit++; *op++ = *ip++], and a new run when this one is full. *)
Definition add_literal (done lit : bytes) (b : Z) : cres (bytes * bytes) :=
  _ ← require (op_at done lit <? out_len);
  let lit := lit ++ [b] in
  if len lit =? MAX_LIT then done ← stop_run done lit; mret (done, []) else mret (done, lit).

Definition same_byte (ref ip l : Z) : cres bool := a ← byte_at inp (ref + l); b ← byte_at inp (ip + l); mret (a =? b).

(** The lines [len++; if (ref [len] != ip [len]) break;]: [true] is the break. *)
Fixpoint unrolled (n : nat) (ref ip l : Z) : cres (Z * bool) :=
  match n with
  | O => mret (l, false)
  | S n => e ← same_byte ref ip (l + 1); if (e : bool) then unrolled n ref ip (l + 1) else mret (l + 1, true)
  end.

(** [do len++; while (len < maxlen && ref[len] == ip[len])] *)
Fixpoint extend (fuel : nat) (ref ip l maxlen : Z) : cres Z :=
  match fuel with
  | O => Undef
  | S fuel =>
      let l := l + 1 in
      if l <? maxlen then e ← same_byte ref ip l; if (e : bool) then extend fuel ref ip l maxlen else mret l
      else mret l
  end.

Definition match_len (ref ip : Z) : cres Z :=
  let maxlen := in_len - ip - 2 in
  let maxlen := if MAX_REF <? maxlen then MAX_REF else maxlen in
  '(l, stop) ← (if 16 <? maxlen then unrolled 16 ref ip 2 else mret (2, false));
  if (stop : bool) then mret l else extend 300 ref ip l maxlen.

(** Whether the three bytes at [ref] are those at [ip]. *)
Definition matches (ref ip : Z) : cres bool :=
  if negb (wrap_u64 (ip - ref - 1) <? MAX_OFF) then mret false else
  if negb (ip + 4 <? in_len) then mret false else
  if negb (0 <? ref) then mret false else
  a ← same_byte ref ip 0; b ← same_byte ref ip 1;
  if negb (a && b) then mret false else same_byte ref ip 2.

(** The two or three bytes of a reference; [l] is the number of octets less two. *)
Definition reference (off l : Z) : bytes :=
  if l <? 7 then [wrap_u 8 (Z.shiftr off 8 + Z.shiftl l 5); wrap_u 8 off]
  else [wrap_u 8 (Z.shiftr off 8 + Z.shiftl 7 5); wrap_u 8 (l - 7); wrap_u 8 off].

(** The main loop: [None] is [return 0], otherwise position and output at its end. *)
Fixpoint c_loop (fuel : nat) (t : htab_t) (hval ip : Z) (done lit : bytes) : cres (option (Z * bytes * bytes)) :=
  match fuel with
  | O => Undef
  | S fuel =>
      if negb (ip <? in_len - 2) then mret (Some (ip, done, lit)) else
      hval ← NEXT hval ip;
      let ref := t (IDX hval) in
      let t := htab_set t (IDX hval) ip in
      m ← matches ref ip;
      if (m : bool) then
        let off := wrap_u64 (ip - ref - 1) in
        done ← stop_run done lit;
        if out_len <=? len done + 3 + 1 then mret None else
        l ← match_len ref ip;
        let l := l - 2 in
        let done := done ++ reference off l in
        let ip := ip + 1 + (l + 1) in
        if in_len - 2 <=? ip then mret (Some (ip, done, [])) else
        let ip := ip - 2 in
        hval ← FRST ip;
        hval ← NEXT hval ip;
        let t := htab_set t (IDX hval) ip in
        let ip := ip + 1 in
        hval ← NEXT hval ip;
        let t := htab_set t (IDX hval) ip in
        let ip := ip + 1 in
        c_loop fuel t hval ip done []
      else
        if out_len <=? op_at done lit then mret None else
        b ← byte_at inp ip;
        '(done, lit) ← add_literal done lit b;
        c_loop fuel t hval (ip + 1) done lit
  end.

(** The last bytes of the input. *)
Fixpoint tail_loop (rest done lit : bytes) : cres (bytes * bytes) :=
  match rest with [] => mret (done, lit) | b :: rest => '(done, lit) ← add_literal done lit b; tail_loop rest done lit end.

(** [t]: what is in the hash table at the start.  [None]: 0.  A round moves [ip] forward. *)
Definition lzf_compress (t : htab_t) : cres (option bytes) :=
  if (in_len =? 0) || (out_len =? 0) then mret None else
  hval ← FRST 0;
  r ← c_loop (S (length inp)) t hval 0 [] [];
  match r with
  | None => mret None
  | Some (ip, done, lit) =>
      if out_len <? op_at done lit + 3 then mret None else
      '(done, lit) ← tail_loop (drop (Z.to_nat ip) inp) done lit;
      done ← stop_run done lit;
      mret (Some done)
  end.
End Compress.

Example lzf_small : match lzf_compress (lit "aaaaaaaaaabcabcabcabc") 60 (λ _, 0) with Ret (Some c) => (len c, lzf_decompress c 21) | _ => (0, Undef) end
  = (13, Ret (Some (lit "aaaaaaaaaabcabcabcabc"))).
Proof. vm_compute. reflexivity. Qed.
