(* ===== verification/LzfFacts.v ===== *)
(** * lzf_c.c, lzf_d.c: what is compressed is decompressed

    Whatever the hash table held before, output that [lzf_compress] returns decompresses to the
    input; and with enough room it returns some.  With less room it can write one byte behind
    the end of the output. *)

From Stdlib Require Import ZArith Lia.
From stdpp Require Import base tactics numbers list strings.
From S2P Require Import Prelude Block Lzf.

Local Open Scope Z_scope.

(** ** Tokens *)

(** The bytes [c] take the decoder from the output [x] to [y]. *)
Definition token (cap : Z) (c x y : bytes) : Prop := c <> [] /\ forall rest, d_round cap (c ++ rest) x = Ret (Some (rest, y)).

Inductive tokens (cap : Z) : bytes -> bytes -> bytes -> Prop :=
  | tokens_nil x : tokens cap [] x x
  | tokens_cons c cs x y z : token cap c x y -> tokens cap cs y z -> tokens cap (c ++ cs) x z.

Lemma tokens_snoc cap cs c x y z : tokens cap cs x y -> token cap c y z -> tokens cap (cs ++ c) x z.
Proof.
  intros H Ht. induction H as [x|c0 cs x y0 y Hc _ IH].
  - rewrite <- (app_nil_r c), app_nil_l. econstructor; [done|constructor].
  - rewrite <- app_assoc. econstructor; [done|by apply IH].
Qed.

Lemma tokens_nil_inv cap x y : tokens cap [] x y -> x = y.
Proof. inversion 1 as [|c cs x' y' z' [Hc _] _ E]; [done|]. by destruct c. Qed.

Lemma tokens_decode cap cs x y : tokens cap cs x y -> cs <> [] -> forall fuel, (length cs < fuel)%nat -> d_loop fuel cap cs x = Ret (Some y).
Proof.
  induction 1 as [|c cs x y z [Hc Hr] H IH]; [done|]. intros _ fuel Hf. destruct fuel as [|fuel]; [lia|]. cbn [d_loop]. rewrite Hr. cbn [mbind cres_bind].
  case_bool_decide as E; [subst; by rewrite (tokens_nil_inv cap y z)|]. apply IH; [done|]. rewrite length_app in Hf. destruct c; [done|]. cbn in Hf. lia.
Qed.

Lemma literal_token cap s x : s <> [] -> len s <= MAX_LIT -> len x + len s <= cap -> token cap ((len s - 1) :: s) x (x ++ s).
Proof.
  intros Hs Hl Hc. split; [done|]. intros rest. cbn [app d_round]. unfold len, MAX_LIT in *. assert (0 < length s)%nat by (destruct s; cbn; [done|lia]).
  rewrite (proj2 (Z.ltb_lt _ _)) by lia. rewrite (proj2 (Z.ltb_ge cap _)) by lia. rewrite length_app, (proj2 (Z.ltb_ge _ _)) by lia.
  replace (Z.to_nat (Z.of_nat (length s) - 1 + 1)) with (length s) by lia. by rewrite drop_app_length, take_app_length.
Qed.

(** Copying bytes that repeat. *)
Lemma copy_ref_spec (inp : bytes) n : forall p ref, (ref < p)%nat -> (p + n <= length inp)%nat ->
  (forall i, (i < n)%nat -> inp !! (ref + i)%nat = inp !! (p + i)%nat) -> copy_ref n (take p inp) (Z.of_nat ref) = Ret (take (p + n) inp).
Proof.
  induction n as [|n IH]; intros p ref Hp Hn He; cbn [copy_ref]; [by rewrite Nat.add_0_r|].
  destruct (lookup_lt_is_Some_2 inp p ltac:(lia)) as [b Eb]. unfold byte_at. rewrite (proj2 (Z.ltb_ge _ _)), Nat2Z.id, lookup_take_lt by lia.
  specialize (He 0%nat ltac:(lia)) as E0. rewrite !Nat.add_0_r, Eb in E0. rewrite E0. cbn [of_ptr mbind cres_bind].
  rewrite <- (take_S_r _ _ _ Eb). replace (Z.of_nat ref + 1) with (Z.of_nat (S ref)) by lia. rewrite IH; [f_equal; f_equal; lia|lia|lia|].
  intros i Hi. specialize (He (S i) ltac:(lia)). by rewrite <- !Nat.add_succ_comm in He.
Qed.

Lemma ctrl_bits off k : 0 <= off < MAX_OFF -> 1 <= k <= 7 ->
  let c := wrap_u 8 (Z.shiftr off 8 + Z.shiftl k 5) in
  2 ^ 5 <= c /\ Z.shiftr c 5 = k /\ Z.land c 0x1f = off / 2 ^ 8.
Proof.
  intros Ho Hk. unfold MAX_OFF in Ho. rewrite Z.shiftr_div_pow2, Z.shiftl_mul_pow2 by lia. assert (0 <= off / 2 ^ 8 < 2 ^ 5) as Hq.
  { split; [apply Z.div_pos; lia|apply Z.div_lt_upper_bound; lia]. }
  cbn zeta. rewrite wrap_u_small by lia. split_and!; [lia| |].
  - rewrite Z.shiftr_div_pow2 by lia. rewrite Z.div_add by lia. rewrite (Z.div_small (off / 2 ^ 8)) by lia. lia.
  - change 0x1f with (Z.ones 5). rewrite Z.land_ones, Z.mod_add by lia. apply Z.mod_small. lia.
Qed.

(** A reference to bytes that are the next ones of the input. *)
Lemma reference_token cap (inp : bytes) p ref n : (ref < p)%nat -> (3 <= n <= 264)%nat -> (p + n <= length inp)%nat ->
  Z.of_nat p - Z.of_nat ref - 1 < MAX_OFF -> Z.of_nat (p + n) <= cap ->
  (forall i, (i < n)%nat -> inp !! (ref + i)%nat = inp !! (p + i)%nat) ->
  token cap (reference (Z.of_nat p - Z.of_nat ref - 1) (Z.of_nat n - 2)) (take p inp) (take (p + n) inp).
Proof.
  intros Hr Hn Hp Ho Hc He. set (off := Z.of_nat p - Z.of_nat ref - 1) in *. assert (0 <= off) by (unfold off; lia).
  assert (len (take p inp) = Z.of_nat p) as El by (unfold len; rewrite length_take; lia).
  assert (Z.of_nat p - Z.shiftl (off / 2 ^ 8) 8 - 1 - wrap_u 8 off = Z.of_nat ref) as Eref.
  { rewrite Z.shiftl_mul_pow2 by lia. unfold wrap_u. pose proof (Z.div_mod off (2 ^ 8)). unfold off in *. lia. }
  unfold reference, MAX_OFF in *. split; [by destruct (_ <? _)|]. intros rest. destruct (Z.ltb_spec (Z.of_nat n - 2) 7) as [H7|H7].
  - destruct (ctrl_bits off (Z.of_nat n - 2) ltac:(unfold MAX_OFF; lia) ltac:(lia)) as (C1 & C2 & C3). cbn [app d_round].
    rewrite (proj2 (Z.ltb_ge _ _)) by done. rewrite C2, C3, (proj2 (Z.eqb_neq _ 7)), El, Eref by lia. cbn match.
    rewrite (proj2 (Z.ltb_ge cap _)), (proj2 (Z.ltb_ge _ 0)) by lia. replace (Z.to_nat (Z.of_nat n - 2 + 2)) with n by lia. by rewrite (copy_ref_spec inp).
  - destruct (ctrl_bits off 7 ltac:(unfold MAX_OFF; lia) ltac:(lia)) as (C1 & C2 & C3). cbn [app d_round].
    rewrite (proj2 (Z.ltb_ge _ _)) by done. rewrite C2, C3, El. cbn match. rewrite Z.eqb_refl, Eref, (wrap_u_small 8 (Z.of_nat n - 2 - 7)) by lia. cbn match.
    rewrite (proj2 (Z.ltb_ge cap _)), (proj2 (Z.ltb_ge _ 0)) by lia. replace (Z.to_nat (7 + (Z.of_nat n - 2 - 7) + 2)) with n by lia. by rewrite (copy_ref_spec inp).
Qed.

(** ** The search for a match *)

Section Match.
Context (inp : bytes).

Definition agree (ref ip n : nat) : Prop := forall i, (i < n)%nat -> inp !! (ref + i)%nat = inp !! (ip + i)%nat.

Lemma byte_at_nat i b : inp !! i = Some b -> byte_at inp (Z.of_nat i) = Ret b.
Proof. intros E. unfold byte_at. rewrite (proj2 (Z.ltb_ge _ _)), Nat2Z.id, E by lia. done. Qed.

Lemma agree_S ref ip n : agree ref ip n -> inp !! (ref + n)%nat = inp !! (ip + n)%nat -> agree ref ip (S n).
Proof. intros H E i Hi. destruct (decide (i = n)) as [->|]; [done|]. apply H. lia. Qed.

Lemma agree_le ref ip n n' : agree ref ip n -> (n' <= n)%nat -> agree ref ip n'.
Proof. intros H Hn i Hi. apply H. lia. Qed.

Lemma same_byte_spec ref ip l : (ref < ip)%nat -> (ip + l < length inp)%nat ->
  exists e, same_byte inp (Z.of_nat ref) (Z.of_nat ip) (Z.of_nat l) = Ret e /\ (e = true -> inp !! (ref + l)%nat = inp !! (ip + l)%nat).
Proof.
  intros Hr Hl. destruct (lookup_lt_is_Some_2 inp (ref + l) ltac:(lia)) as [a Ea]. destruct (lookup_lt_is_Some_2 inp (ip + l) ltac:(lia)) as [b Eb].
  unfold same_byte. rewrite <- !Nat2Z.inj_add, (byte_at_nat _ _ Ea), (byte_at_nat _ _ Eb). cbn [mbind cres_bind]. eexists. split; [done|].
  intros ->%Z.eqb_eq. by rewrite Ea, Eb.
Qed.

Lemma unrolled_spec n ref ip : (ref < ip)%nat -> forall l, agree ref ip (S l) -> (ip + l + n < length inp)%nat ->
  exists l' stop, unrolled inp n (Z.of_nat ref) (Z.of_nat ip) (Z.of_nat l) = Ret (Z.of_nat l', stop)
    /\ if (stop : bool) then (l < l' <= l + n)%nat /\ agree ref ip l' else (l' = l + n)%nat /\ agree ref ip (S l').
Proof.
  intros Hr. induction n as [|n IH]; intros l Ha Hl; cbn [unrolled]; [exists l, false; split_and!; [done|lia|done]|].
  replace (Z.of_nat l + 1) with (Z.of_nat (S l)) by lia. destruct (same_byte_spec ref ip (S l) Hr ltac:(lia)) as (e & -> & He). cbn [mbind cres_bind]. destruct e.
  - destruct (IH (S l)) as (l' & stop & -> & H); [apply agree_S; auto|lia|]. exists l', stop. split; [done|]. destruct stop; (split; [lia|apply H]).
  - exists (S l), true. split_and!; [done|lia|lia|done].
Qed.

Lemma extend_spec ref ip maxlen : (ref < ip)%nat -> (ip + maxlen <= length inp)%nat -> forall fuel l, agree ref ip (S l) -> (ip + S l <= length inp)%nat -> (0 < fuel)%nat -> (maxlen < l + fuel)%nat ->
  exists l', extend inp fuel (Z.of_nat ref) (Z.of_nat ip) (Z.of_nat l) (Z.of_nat maxlen) = Ret (Z.of_nat l') /\ agree ref ip l' /\ (ip + l' <= length inp)%nat
    /\ (S l <= l' <= Nat.max maxlen (S l))%nat.
Proof.
  intros Hr Hm. induction fuel as [|fuel IH]; intros l Ha Hl Hf0 Hf; cbn [extend]; replace (Z.of_nat l + 1) with (Z.of_nat (S l)) by lia.
  - lia.
  - destruct (Z.ltb_spec (Z.of_nat (S l)) (Z.of_nat maxlen)) as [Hlt|Hge]; [|exists (S l); split_and!; [done|done|lia|lia|lia]].
    destruct (same_byte_spec ref ip (S l) Hr ltac:(lia)) as (e & -> & He). cbn [mbind cres_bind]. destruct e; [|exists (S l); split_and!; [done|done|lia|lia|lia]].
    destruct (IH (S l)) as (l' & -> & ? & ? & ?); [apply agree_S; auto|lia|lia|lia|]. exists l'. split_and!; [done|done|lia|lia|lia].
Qed.

Lemma match_len_spec ref ip : (ref < ip)%nat -> (ip + 4 < length inp)%nat -> agree ref ip 3 ->
  exists n, match_len inp (Z.of_nat ref) (Z.of_nat ip) = Ret (Z.of_nat n) /\ (3 <= n <= 264)%nat /\ (ip + n <= length inp)%nat /\ agree ref ip n.
Proof.
  intros Hr Hi Ha. unfold match_len, len. set (ml := Nat.min 264 (length inp - ip - 2)).
  assert ((if MAX_REF <? Z.of_nat (length inp) - Z.of_nat ip - 2 then MAX_REF else Z.of_nat (length inp) - Z.of_nat ip - 2) = Z.of_nat ml) as ->.
  { unfold MAX_REF, ml. change (2 ^ 8 + 2 ^ 3) with 264. destruct (Z.ltb_spec 264 (Z.of_nat (length inp) - Z.of_nat ip - 2)); lia. }
  assert (ml <= 264 /\ ip + ml + 2 <= length inp /\ 3 <= ml)%nat as (H1 & H2 & H3) by (unfold ml; lia).
  assert (forall l, agree ref ip (S l) -> (2 <= l <= 18)%nat -> (ip + S l <= length inp)%nat -> exists n, extend inp 300 (Z.of_nat ref) (Z.of_nat ip) (Z.of_nat l) (Z.of_nat ml) = Ret (Z.of_nat n)
    /\ (3 <= n <= 264)%nat /\ (ip + n <= length inp)%nat /\ agree ref ip n) as Hx.
  { intros l Hl Hb Hip. destruct (extend_spec ref ip ml Hr ltac:(lia) 300 l Hl Hip ltac:(lia) ltac:(lia)) as (n & -> & ? & ? & ?). exists n. split_and!; [done|lia|lia|lia|done]. }
  change 2 with (Z.of_nat 2) at 1 2. destruct (Z.ltb_spec 16 (Z.of_nat ml)).
  - destruct (unrolled_spec 16 ref ip Hr 2 Ha ltac:(lia)) as (l & stop & -> & H'). cbn [mbind cres_bind]. destruct stop.
    + exists l. split_and!; [done|lia|lia|lia|apply H'].
    + destruct H' as [-> H']. apply Hx; [done|lia|lia].
  - cbn [mbind cres_bind]. apply Hx; [done|lia|lia].
Qed.

Lemma matches_spec (ref : Z) ip : - 2 ^ 63 <= ref < 2 ^ 63 -> Z.of_nat ip < 2 ^ 32 ->
  exists b, matches inp ref (Z.of_nat ip) = Ret b /\ (b = true -> exists r, ref = Z.of_nat r /\ (r < ip)%nat /\ (ip + 4 < length inp)%nat /\ agree r ip 3
    /\ wrap_u64 (Z.of_nat ip - ref - 1) = Z.of_nat ip - Z.of_nat r - 1 /\ Z.of_nat ip - Z.of_nat r - 1 < MAX_OFF).
Proof.
  intros Hr Hip. unfold matches. destruct (Z.ltb_spec (wrap_u64 (Z.of_nat ip - ref - 1)) MAX_OFF) as [Ho|]; cbn [negb]; [|by exists false].
  unfold len. destruct (Z.ltb_spec (Z.of_nat ip + 4) (Z.of_nat (length inp))); cbn [negb]; [|by exists false].
  destruct (Z.ltb_spec 0 ref); cbn [negb]; [|by exists false]. unfold MAX_OFF in Ho.
  assert (ref < Z.of_nat ip) as Hlt.
  { destruct (Z_lt_le_dec ref (Z.of_nat ip)); [done|]. rewrite wrap_u64_neg in Ho by lia. lia. }
  rewrite wrap_u_small in Ho by lia. rewrite (wrap_u_small 64) by lia. set (r := Z.to_nat ref). replace ref with (Z.of_nat r) in * by (unfold r; lia).
  destruct (same_byte_spec r ip 0 ltac:(lia) ltac:(lia)) as (e0 & E0 & J0). destruct (same_byte_spec r ip 1 ltac:(lia) ltac:(lia)) as (e1 & E1 & J1).
  destruct (same_byte_spec r ip 2 ltac:(lia) ltac:(lia)) as (e2 & E2 & J2). change (Z.of_nat 0) with 0 in E0. change (Z.of_nat 1) with 1 in E1. change (Z.of_nat 2) with 2 in E2.
  rewrite E0, E1. cbn [mbind cres_bind]. destruct (e0 && e1) eqn:Ee; cbn [negb]; [|by exists false]. apply andb_prop in Ee as [-> ->]. exists e2. split; [done|]. intros ->.
  exists r. split_and!; [done|lia|lia| |done|unfold MAX_OFF; lia]. intros i Hi. destruct i as [|[|[|i]]]; [auto..|lia].
Qed.
End Match.

(** ** The compressor *)

Section Invariant.
Context (inp : bytes) (out_len cap : Z).
Context (Hcap : len inp <= cap) (Hlen : 2 <= len inp < 2 ^ 32).

(** Before the byte [ip]: the finished output decodes to what comes before the run. *)
Record c_inv (ip : nat) (dn lit : bytes) : Prop := {
  ci_ip : (ip <= length inp)%nat;
  ci_lit : len lit < MAX_LIT;
  ci_out : exists x, tokens cap dn [] x /\ x ++ lit = take ip inp /\ 32 * len dn <= 33 * len x;
}.

(** Room for the worst case: a byte more for every 32 bytes, and a few at the end. *)
Definition enough : Prop := 33 * len inp <= 32 * (out_len - 6).

Lemma inv_sizes ip dn lit : c_inv ip dn lit -> exists n, Z.of_nat ip = n + len lit /\ 0 <= n /\ 32 * len dn <= 33 * n.
Proof.
  intros [Hi Hl (x & _ & E & Hs)]. exists (len x). apply (f_equal len) in E. rewrite len_app in E. unfold len in *. rewrite length_take in E. lia.
Qed.

(** Ending a run. *)
Lemma stop_inv ip dn lit : c_inv ip dn lit ->
  (exists dn', stop_run out_len dn lit = Ret dn' /\ tokens cap dn' [] (take ip inp) /\ 32 * len dn' <= 33 * Z.of_nat ip + 32 /\ len dn < out_len /\ len dn' <= len dn + 1 + len lit)
  \/ ~ enough /\ stop_run out_len dn lit = Undef.
Proof.
  intros I. destruct (inv_sizes ip dn lit I) as (n & En & Hn & Hs). destruct I as [Hi Hl (x & Ht & E & Hx)]. unfold stop_run.
  destruct (Z.ltb_spec (len dn) out_len) as [Ho|Ho]; cbn [require mbind cres_bind].
  2:{ right. split; [|done]. unfold enough. unfold len in *. lia. }
  left. eexists. split; [done|]. case_bool_decide as El.
  - subst lit. rewrite app_nil_r in E. rewrite <- E. change (len []) with 0 in *. split_and!; [done|lia|done|lia].
  - rewrite len_app, <- E. split_and!; [|unfold len in *; cbn [length]; lia|done|unfold len in *; cbn [length]; lia].
    eapply tokens_snoc; [done|]. apply literal_token; [done|lia|]. apply (f_equal len) in E. rewrite len_app in E. unfold len in *. rewrite length_take in E. lia.
Qed.

(** One more literal. *)
Lemma literal_inv ip dn lit b : c_inv ip dn lit -> inp !! ip = Some b -> op_at dn lit < out_len ->
  exists dn' lit', add_literal out_len dn lit b = Ret (dn', lit') /\ c_inv (S ip) dn' lit'
    /\ (len lit' = len lit + 1 /\ op_at dn' lit' = op_at dn lit + 1 \/ len lit' = 0 /\ len lit + 1 = MAX_LIT /\ op_at dn' lit' = op_at dn lit + 2).
Proof.
  intros [Hi Hl (x & Ht & E & Hx)] Eb Ho. unfold add_literal. rewrite (proj2 (Z.ltb_lt _ _)) by done. cbn [require mbind cres_bind].
  assert (x ++ (lit ++ [b]) = take (S ip) inp) as E' by (by rewrite (take_S_r _ _ _ Eb), <- E, app_assoc). pose proof (lookup_lt_Some _ _ _ Eb).
  assert (len (lit ++ [b]) = len lit + 1) as Ell by (by rewrite len_app). unfold MAX_LIT in *.
  assert (len x + len (lit ++ [b]) <= cap) as Hc. { apply (f_equal len) in E'. rewrite len_app in E'. unfold len in *. rewrite length_take in E'. lia. }
  destruct (Z.eqb_spec (len (lit ++ [b])) (2 ^ 5)) as [Ef|Ef].
  - unfold stop_run. rewrite (proj2 (Z.ltb_lt _ _)) by (unfold op_at, len in *; lia). cbn [require mbind cres_bind]. rewrite bool_decide_false by (by destruct lit).
    eexists _, []. split; [done|]. split; [constructor; [lia|done|]|].
    + exists (x ++ lit ++ [b]). split_and!; [|by rewrite app_nil_r|rewrite len_app, len_cons, (len_app x), Ef; lia].
      eapply tokens_snoc; [done|]. apply literal_token; [by destruct lit|unfold MAX_LIT; lia|done].
    + right. unfold op_at, MAX_LIT. rewrite len_app, len_cons. change (len []) with 0. lia.
  - eexists _, _. split; [done|]. split; [constructor; [lia|unfold MAX_LIT; unfold len in *; lia|by exists x]|].
    left. unfold op_at in *. lia.
Qed.

(** A match. *)
Lemma reference_inv ip dn r n : tokens cap dn [] (take ip inp) -> 32 * len dn <= 33 * Z.of_nat ip + 32 -> (r < ip)%nat -> (3 <= n <= 264)%nat -> (ip + n <= length inp)%nat ->
  agree inp r ip n -> Z.of_nat ip - Z.of_nat r - 1 < MAX_OFF ->
  c_inv (ip + n) (dn ++ reference (Z.of_nat ip - Z.of_nat r - 1) (Z.of_nat n - 2)) [].
Proof.
  intros Ht Hs Hr Hn Hip Ha Ho. constructor; [lia|done|]. exists (take (ip + n) inp). rewrite app_nil_r. split_and!; [|done|].
  - eapply tokens_snoc; [done|]. apply reference_token; try done; unfold len in *; lia.
  - rewrite len_app. unfold len at 3. rewrite length_take. unfold reference. destruct (Z.ltb_spec (Z.of_nat n - 2) 7); unfold len in *; cbn [length]; lia.
Qed.

Definition tab_ok (t : Z -> Z) : Prop := forall i, - 2 ^ 63 <= t i < 2 ^ 63.

Lemma tab_set t i ip : tab_ok t -> (ip <= length inp)%nat -> tab_ok (htab_set t i (Z.of_nat ip)).
Proof. intros H Hi j. unfold htab_set. destruct (_ =? _); [unfold len in *; lia|apply H]. Qed.

Lemma FRST_ok p : (S p < length inp)%nat -> exists v, FRST inp (Z.of_nat p) = Ret v.
Proof.
  intros Hp. destruct (lookup_lt_is_Some_2 inp p ltac:(lia)) as [a Ea]. destruct (lookup_lt_is_Some_2 inp (S p) ltac:(lia)) as [b Eb].
  unfold FRST. replace (Z.of_nat p + 1) with (Z.of_nat (S p)) by lia. rewrite (byte_at_nat _ _ _ Ea), (byte_at_nat _ _ _ Eb). by eexists.
Qed.

Lemma NEXT_ok v p : (p + 2 < length inp)%nat -> exists v', NEXT inp v (Z.of_nat p) = Ret v'.
Proof.
  intros Hp. destruct (lookup_lt_is_Some_2 inp (p + 2) ltac:(lia)) as [a Ea]. unfold NEXT. replace (Z.of_nat p + 2) with (Z.of_nat (p + 2)) by lia.
  rewrite (byte_at_nat _ _ _ Ea). by eexists.
Qed.

(** How the main loop can end. *)
Definition c_result (r : cres (option (Z * bytes * bytes))) : Prop :=
  (exists ip dn lit, r = Ret (Some (Z.of_nat ip, dn, lit)) /\ c_inv ip dn lit /\ len inp - 2 <= Z.of_nat ip)
  \/ ~ enough /\ (r = Ret None \/ r = Undef).

Lemma c_loop_spec fuel : forall t hval ip dn lit, tab_ok t -> c_inv ip dn lit -> (length inp < ip + fuel)%nat ->
  c_result (c_loop inp out_len fuel t hval (Z.of_nat ip) dn lit).
Proof.
  induction fuel as [|fuel IH]; intros t hval ip dn lit Ht I Hf; [pose proof (ci_ip _ _ _ I); lia|]. cbn [c_loop].
  destruct (inv_sizes ip dn lit I) as (n0 & En & Hn0 & Hs0). pose proof (ci_ip _ _ _ I) as Hip.
  destruct (Z.ltb_spec (Z.of_nat ip) (len inp - 2)) as [Hlt|Hge]; cbn [negb]; [|left; exists ip, dn, lit; split_and!; [done|done|lia]].
  assert (ip + 2 < length inp)%nat as Hip2 by (unfold len in *; lia). destruct (NEXT_ok hval ip Hip2) as [h1 ->]. cbn [mbind cres_bind].
  set (t1 := htab_set t (IDX h1) (Z.of_nat ip)). assert (tab_ok t1) as Ht1 by (by apply tab_set).
  destruct (matches_spec inp (t (IDX h1)) ip (Ht _) ltac:(unfold len in *; lia)) as (m & -> & Hm). cbn [mbind cres_bind]. destruct m.
  - destruct (Hm eq_refl) as (r & Er & Hr & H4 & Ha & Eo & Ho). destruct (stop_inv ip dn lit I) as [(dn1 & -> & Htk & Hs1 & _ & _)|[He ->]]; [|right; auto]. cbn [mbind cres_bind].
    destruct (Z.leb_spec out_len (len dn1 + 3 + 1)) as [Hfull|_]; [right; split; [unfold enough; unfold len in *; lia|by left]|].
    rewrite Er in *. destruct (match_len_spec inp r ip Hr H4 Ha) as (n & -> & Hn & Hipn & Han). cbn [mbind cres_bind]. rewrite Eo.
    pose proof (reference_inv ip dn1 r n Htk Hs1 Hr Hn Hipn Han Ho) as I'. replace (Z.of_nat ip + 1 + (Z.of_nat n - 2 + 1)) with (Z.of_nat (ip + n)) by lia.
    destruct (Z.leb_spec (len inp - 2) (Z.of_nat (ip + n))) as [Hend|Hmore]; [left; eexists _, _, _; split_and!; [done|done|done]|].
    assert (ip + n + 2 < length inp)%nat by (unfold len in *; lia). replace (Z.of_nat (ip + n) - 2) with (Z.of_nat (ip + n - 2)) by lia.
    destruct (FRST_ok (ip + n - 2) ltac:(lia)) as [h2 ->]. cbn [mbind cres_bind]. destruct (NEXT_ok h2 (ip + n - 2) ltac:(lia)) as [h3 ->]. cbn [mbind cres_bind].
    replace (Z.of_nat (ip + n - 2) + 1) with (Z.of_nat (ip + n - 1)) by lia. destruct (NEXT_ok h3 (ip + n - 1) ltac:(lia)) as [h4 ->]. cbn [mbind cres_bind].
    replace (Z.of_nat (ip + n - 1) + 1) with (Z.of_nat (ip + n)) by lia. apply IH; [|done|lia]. apply tab_set; [apply tab_set; [done|lia]|lia].
  - destruct (Z.leb_spec out_len (op_at dn lit)) as [Hfull|Hroom]; [right; split; [unfold enough, op_at in *; unfold len in *; lia|by left]|].
    destruct (lookup_lt_is_Some_2 inp ip ltac:(lia)) as [b Eb]. rewrite (byte_at_nat _ _ _ Eb). cbn [mbind cres_bind].
    destruct (literal_inv ip dn lit b I Eb Hroom) as (dn' & lit' & -> & I' & _). cbn [mbind cres_bind]. replace (Z.of_nat ip + 1) with (Z.of_nat (S ip)) by lia.
    apply IH; [done|done|lia].
Qed.

(** The rest of the input, with a bound on the output. *)
Lemma tail_spec rest : forall ip dn lit, rest = drop ip inp -> c_inv ip dn lit -> op_at dn lit + len rest + (if bool_decide (len lit + len rest < MAX_LIT) then 0 else 1) <= out_len -> len rest <= 2 ->
  exists dn' lit', tail_loop out_len rest dn lit = Ret (dn', lit') /\ c_inv (length inp) dn' lit' /\ op_at dn' lit' <= out_len.
Proof.
  induction rest as [|b rest IH]; intros ip dn lit Er I Ho Hl; cbn [tail_loop].
  - exists dn, lit. split; [done|]. assert (ip = length inp) as ->.
    { pose proof (ci_ip _ _ _ I). apply (f_equal length) in Er. rewrite length_drop in Er. cbn in Er. lia. }
    split; [done|]. change (len []) with 0 in Ho. case_bool_decide; lia.
  - assert (inp !! ip = Some b) as Eb. { rewrite <- (Nat.add_0_r ip), <- lookup_drop, <- Er. done. }
    assert (rest = drop (S ip) inp) as Er'. { rewrite <- Nat.add_1_r, <- drop_drop, <- Er. done. }
    rewrite len_cons in *. pose proof (ci_lit _ _ _ I). assert (0 <= len rest) by (unfold len; lia).
    destruct (literal_inv ip dn lit b I Eb ltac:(case_bool_decide; lia)) as (dn' & lit' & -> & I' & Hop). cbn [mbind cres_bind]. apply (IH (S ip)); [done|done| |lia].
    unfold MAX_LIT in *. destruct Hop as [[E1 E2]|(E1 & E2 & E3)]; repeat case_bool_decide; lia.
Qed.
End Invariant.

(** The whole compressor, for a decoder with room for [cap] bytes. *)
Lemma compress_spec inp out_len cap t : len inp <= cap -> 2 <= len inp < 2 ^ 32 -> tab_ok t ->
  (exists c, lzf_compress inp out_len t = Ret (Some c) /\ len c <= out_len /\ tokens cap c [] inp)
  \/ ~ enough inp out_len /\ (lzf_compress inp out_len t = Ret None \/ lzf_compress inp out_len t = Undef).
Proof.
  intros Hcap Hlen Ht. unfold lzf_compress. rewrite (proj2 (Z.eqb_neq (len inp) 0)) by lia. cbn [orb].
  destruct (Z.eqb_spec out_len 0) as [|Hz]; [right; split; [unfold enough; lia|by left]|].
  destruct (FRST_ok inp 0) as [h0 E0]; [unfold len in *; lia|]. change (Z.of_nat 0) with 0 in E0. rewrite E0. cbn [mbind cres_bind].
  assert (c_inv inp cap 0 [] []) as I0 by (constructor; [lia|done|exists []; split_and!; [constructor|done|done]]).
  pose proof (c_loop_spec inp out_len cap Hcap Hlen (S (length inp)) t h0 0 [] [] Ht I0 ltac:(lia)) as H0. change (Z.of_nat 0) with 0 in H0.
  destruct H0 as [(ip & dn & lit & -> & I & Hip)|[He [->| ->]]]; [|right; auto..].
  cbn [mbind cres_bind]. destruct (inv_sizes _ _ _ _ _ I) as (n & En & Hn & Hs). pose proof (ci_ip _ _ _ _ _ I).
  destruct (Z.ltb_spec out_len (op_at dn lit + 3)) as [Hfull|Hroom]; [right; split; [unfold enough, op_at in *; unfold len in *; lia|by left]|].
  rewrite Nat2Z.id. assert (len (drop ip inp) <= 2) as Hr by (unfold len in *; rewrite length_drop; lia).
  destruct (tail_spec inp out_len cap Hcap (drop ip inp) ip dn lit eq_refl I) as (dn' & lit' & -> & I' & Ho); [case_bool_decide; lia|done|]. cbn [mbind cres_bind].
  destruct (stop_inv inp out_len cap Hcap (length inp) dn' lit' I') as [(c & -> & Htk & _ & _ & Hc)|[He ->]]; [|right; auto]. cbn [mbind cres_bind].
  left. exists c. split; [done|]. rewrite firstn_all in Htk. unfold op_at in Ho. split; [lia|done].
Qed.

(** [C34] What [lzf_compress] returns, [lzf_decompress] turns back into the input, for any input
    of two bytes or more, any room for the output and any leftover in the uninitialised hash
    table; the output fits the room.  When the room is a 32nd more than the input and a few
    bytes, the compressor always returns output: it then neither gives up nor leaves its
    buffers. *)
Theorem lzf_roundtrip inp out_len t : 2 <= len inp < 2 ^ 32 -> tab_ok t ->
  (forall c, lzf_compress inp out_len t = Ret (Some c) -> len c <= out_len /\ forall cap, len inp <= cap -> lzf_decompress c cap = Ret (Some inp))
  /\ (33 * len inp <= 32 * (out_len - 6) -> exists c, lzf_compress inp out_len t = Ret (Some c)).
Proof.
  intros Hlen Ht. split.
  - intros c Ec. split; [destruct (compress_spec inp out_len (len inp) t ltac:(lia) Hlen Ht) as [(c' & E & Hc & _)|(_ & [E|E])]; congruence|].
    intros cap Hcap. destruct (compress_spec inp out_len cap t Hcap Hlen Ht) as [(c' & E & _ & Htk)|(_ & [E|E])]; [|congruence..].
    rewrite Ec in E. injection E as <-. unfold lzf_decompress. apply tokens_decode; [done| |lia]. intros ->. apply tokens_nil_inv in Htk. subst inp. change (len []) with 0 in Hlen. lia.
  - intros He. destruct (compress_spec inp out_len (len inp) t ltac:(lia) Hlen Ht) as [(c & E & _)|(Hn & _)]; [by exists c|done].
Qed.

Lemma lzf_roundtrip_witness : exists c, lzf_compress (lit "abcabcabcabcabcabc") 30 (λ i, i mod 7) = Ret (Some c) /\ lzf_decompress c 18 = Ret (Some (lit "abcabcabcabcabcabc")).
Proof.
  destruct (lzf_roundtrip (lit "abcabcabcabcabcabc") 30 (λ i, i mod 7)) as [H1 H2].
  - vm_compute. split; [discriminate|reflexivity].
  - intros i. pose proof (Z.mod_pos_bound i 7). lia.
  - destruct H2 as [c E]; [by vm_compute|]. exists c. split; [done|]. destruct (H1 c E) as [_ H]. apply H. by vm_compute.
Defined.

(** ** Any input to the decoder *)

Lemma copy_ref_total n : forall op ref, 0 <= ref < len op -> exists op', copy_ref n op ref = Ret op' /\ len op' = len op + Z.of_nat n.
Proof.
  induction n as [|n IH]; intros op ref Hr; cbn [copy_ref]; [exists op; split; [done|lia]|].
  destruct (lookup_lt_is_Some_2 op (Z.to_nat ref) ltac:(unfold len in *; lia)) as [b Eb]. unfold byte_at. rewrite (proj2 (Z.ltb_ge _ _)), Eb by lia. cbn [of_ptr mbind cres_bind].
  destruct (IH (op ++ [b]) (ref + 1)) as (op' & -> & El); [rewrite len_app; unfold len in *; cbn; lia|]. exists op'. split; [done|]. rewrite El, len_app. unfold len. cbn. lia.
Qed.

Lemma d_round_total cap ip op : ip <> [] -> Forall byte_ok ip -> len op <= cap ->
  exists r, d_round cap ip op = Ret r /\ match r with Some (ip', op') => (length ip' < length ip)%nat /\ Forall byte_ok ip' /\ len op' <= cap | None => True end.
Proof.
  intros Hne Hb Hc. destruct ip as [|ctrl ip]; [done|]. inversion Hb as [|? ? Hctrl Hbs]; subst. unfold byte_ok in Hctrl. cbn [d_round].
  destruct (Z.ltb_spec ctrl (2 ^ 5)) as [Hs|Hs].
  - destruct (Z.ltb_spec cap (len op + (ctrl + 1))); [by eexists|]. destruct (Z.ltb_spec (len ip) (ctrl + 1)); [by eexists|]. eexists. split; [done|]. cbn.
    split_and!; [rewrite length_drop; lia|by apply Forall_drop|]. rewrite len_app. unfold len in *. rewrite length_take. lia.
  - rewrite Z.shiftr_div_pow2, Z.shiftl_mul_pow2 by lia. change 0x1f with (Z.ones 5). rewrite Z.land_ones by lia.
    pose proof (Z.mod_pos_bound ctrl (2 ^ 5)). assert (1 <= ctrl / 2 ^ 5) by (apply Z.div_le_lower_bound; lia).
    destruct ip as [|b ip]; [by eexists|]. inversion Hbs as [|? ? Hb1 Hbs1]; subst. unfold byte_ok in Hb1.
    assert (forall l b' ip', 0 <= l -> Forall byte_ok (b' :: ip') -> (length ip' < S (S (length ip)))%nat -> exists r,
      (if cap <? len op + l + 2 then mret None else if len op - ctrl mod 2 ^ 5 * 2 ^ 8 - 1 - b' <? 0 then mret None
       else op0 ← copy_ref (Z.to_nat (l + 2)) op (len op - ctrl mod 2 ^ 5 * 2 ^ 8 - 1 - b'); mret (Some (ip', op0))) = Ret r
      /\ match r with Some (ip', op') => (length ip' < S (S (length ip)))%nat /\ Forall byte_ok ip' /\ len op' <= cap | None => True end) as Hx.
    { intros l b' ip' Hl Hf Hlen. inversion Hf as [|? ? Hb' Hf']; subst. unfold byte_ok in Hb'. destruct (Z.ltb_spec cap (len op + l + 2)); [by eexists|].
      destruct (Z.ltb_spec (len op - ctrl mod 2 ^ 5 * 2 ^ 8 - 1 - b') 0); [by eexists|].
      destruct (copy_ref_total (Z.to_nat (l + 2)) op (len op - ctrl mod 2 ^ 5 * 2 ^ 8 - 1 - b')) as (op' & -> & El); [lia|]. eexists. split; [done|]. cbn. split_and!; [done|done|lia]. }
    destruct (_ =? 7); [|apply Hx; [lia|done|lia]]. destruct ip as [|b2 ip]; [by eexists|]. destruct (Hx (ctrl / 2 ^ 5 + b) b2 ip) as (r & E & H1); [lia|done|cbn; lia|]. by exists r.
Qed.

(** [C35] [lzf_decompress] is safe on any input that is not empty, also one that was never
    compressed: it returns, after at most one round for every byte, without reading behind its
    input or in front of its output, and what it returns fits the room. *)
Theorem lzf_decompress_safe inp out_len : inp <> [] -> Forall byte_ok inp -> 0 <= out_len ->
  exists r, lzf_decompress inp out_len = Ret r /\ match r with Some out => len out <= out_len | None => True end.
Proof.
  intros Hne Hb Ho. unfold lzf_decompress. assert (len [] <= out_len) as Hop by done. revert Hop. generalize (@nil Z) as op.
  assert (length inp < S (length inp))%nat as Hf by lia. revert Hf. generalize (S (length inp)) as fuel. intros fuel. revert inp Hne Hb.
  induction fuel as [|fuel IH]; intros ip Hne Hb Hf op Hop; [lia|]. cbn [d_loop].
  destruct (d_round_total out_len ip op Hne Hb Hop) as (r & -> & H). cbn [mbind cres_bind]. destruct r as [[ip' op']|]; [|by eexists].
  destruct H as (Hl & Hb' & Ho'). case_bool_decide; [by eexists|]. apply IH; [done|done|lia|done].
Qed.

Lemma lzf_decompress_safe_witness : exists r, lzf_decompress [224; 255; 31; 0; 7] 100 = Ret r.
Proof.
  destruct (lzf_decompress_safe [224; 255; 31; 0; 7] 100) as (r & E & _); [done|repeat constructor; unfold byte_ok; lia|lia|]. by exists r.
Defined.

(** With too little room the compressor can write one byte behind its output.  A run of 32
    literals that ends exactly at the end of the room starts a new run there; a match that
    follows stores the length of this empty run before it tests whether there is room.  Here 32
    different bytes and a repetition are compressed into 33 bytes. *)
Theorem lzf_compress_overruns : exists inp, 2 <= len inp < 2 ^ 32 /\ Forall byte_ok inp /\ lzf_compress inp 33 (λ _, 0) = Undef
  /\ exists c, lzf_compress inp 60 (λ _, 0) = Ret (Some c).
Proof.
  exists ((Z.of_nat <$> seq 0 32) ++ [1; 2; 3; 4; 5; 6; 7; 8]). split; [vm_compute; split; [discriminate|reflexivity]|]. split.
  - apply Forall_app. split; [|repeat constructor; unfold byte_ok; lia]. apply Forall_fmap, Forall_seq. intros i Hi. unfold byte_ok. cbn. lia.
  - split; [vm_compute; reflexivity|]. eexists. vm_compute. reflexivity.
Qed.
