(* ===== verification/Zipmap.v ===== *)
(** * zipmap.c: small maps in one block

    A map from strings to strings as one block of bytes, src/src/zipmap.c: a byte with the number
    of entries, the entries, and the byte 255.  A pointer is an offset in the block; code that
    passes NULL for a result it does not need has a variant of its own here.  What a grown block
    holds is a parameter. *)

From Stdlib Require Import ZArith Lia.
From stdpp Require Import base tactics numbers list strings.
From S2P Require Import Prelude Endian Block.

Local Open Scope Z_scope.

Definition ZIPMAP_BIGLEN : Z := 254.
Definition ZIPMAP_END : Z := 255.
Definition ZIPMAP_VALUE_MAX_FREE : Z := 4.
Definition ZIPMAP_LEN_BYTES (l : Z) : Z := if l <? ZIPMAP_BIGLEN then 1 else 4 + 1.

Definition zipmapNew : bytes := [0; ZIPMAP_END].

Definition zipmapDecodeLength (zm : bytes) (p : Z) : cres Z :=
  l ← byte_at zm p;
  if l <? ZIPMAP_BIGLEN then mret l else x ← load zm (p + 1) 4; mret (of_mem x).

(** With [p == NULL] this is [ZIPMAP_LEN_BYTES]. *)
Definition zipmapEncodeLength (zm : bytes) (p l : Z) : cres (bytes * Z) :=
  if l <? ZIPMAP_BIGLEN then zm ← store zm p [l]; mret (zm, 1)
  else
    zm ← store zm p [ZIPMAP_BIGLEN];
    zm ← store zm (p + 1) (mem_of 4 l);
    mret (zm, 1 + 4).

(** The loop of [zipmapLookupRaw] from the entry at [p], with the match [k] found so far;
    [key] is [None] for NULL, [total] tells whether [totlen] is wanted. *)
Fixpoint lookup_loop (fuel : nat) (zm : bytes) (key : option bytes) (total : bool) (p : Z) (k : option Z) : cres (option Z * Z) :=
  match fuel with
  | O => Undef
  | S fuel =>
      b ← byte_at zm p;
      if b =? ZIPMAP_END then mret (k, wrap_u32 (wrap_u32 p + 1)) else
      l ← zipmapDecodeLength zm p;
      let llen := ZIPMAP_LEN_BYTES l in
      hit ← match key, k with
            | Some key, None => if l =? len key then s ← load zm (p + llen) l; mret (bool_decide (s = key)) else mret false
            | _, _ => mret false
            end;
      if hit && negb total then mret (Some p, 0) else
      let k := if hit : bool then Some p else k in
      let p := p + wrap_u32 (llen + l) in
      l ← zipmapDecodeLength zm p;
      let p := p + ZIPMAP_LEN_BYTES l in
      free ← byte_at zm p;
      lookup_loop fuel zm key total (p + wrap_u32 (l + 1 + free)) k
  end.

(** Every round passes a byte at least. *)
Definition zipmapLookupRaw (zm : bytes) (key : option bytes) (total : bool) : cres (option Z * Z) :=
  lookup_loop (S (length zm)) zm key total 1 None.

Definition zipmapRequiredLength (klen vlen : Z) : Z :=
  let l := wrap_u32 (klen + vlen + 3) in
  let l := if ZIPMAP_BIGLEN <=? klen then wrap_u32 (l + 4) else l in
  if ZIPMAP_BIGLEN <=? vlen then wrap_u32 (l + 4) else l.

Definition zipmapRawKeyLength (zm : bytes) (p : Z) : cres Z :=
  l ← zipmapDecodeLength zm p; mret (wrap_u32 (ZIPMAP_LEN_BYTES l + l)).

Definition zipmapRawValueLength (zm : bytes) (p : Z) : cres Z :=
  l ← zipmapDecodeLength zm p;
  let used := ZIPMAP_LEN_BYTES l in
  free ← byte_at zm (p + used);
  mret (wrap_u32 (used + (free + 1 + l))).

Definition zipmapRawEntryLength (zm : bytes) (p : Z) : cres Z :=
  l ← zipmapRawKeyLength zm p; v ← zipmapRawValueLength zm (p + l); mret (wrap_u32 (l + v)).

Section Zipmap.
Context (fresh : nat -> Z).

Definition zipmapResize (zm : bytes) (n : Z) : cres bytes := store (realloc fresh zm n) (n - 1) [ZIPMAP_END].

(** [if (zm[0] < ZIPMAP_BIGLEN) zm[0] += d] *)
Definition count_by (zm : bytes) (d : Z) : cres bytes :=
  c ← byte_at zm 0; if c <? ZIPMAP_BIGLEN then store zm 0 [wrap_u 8 (c + d)] else mret zm.

(** The block with the place for the entry, the length of the block, the place and its size. *)
Definition set_room (zm key : bytes) (reqlen : Z) : cres (bytes * Z * Z * Z * bool) :=
  '(p, zmlen) ← zipmapLookupRaw zm (Some key) true;
  match p with
  | None =>
      let n := wrap_u32 (zmlen + reqlen) in
      zm ← zipmapResize zm n;
      let p := zmlen - 1 in
      zm ← count_by zm 1;
      mret (zm, n, p, reqlen, false)
  | Some p =>
      freelen ← zipmapRawEntryLength zm p;
      if freelen <? reqlen then
        let n := wrap_u32 (zmlen - freelen + reqlen) in
        zm ← zipmapResize zm n;
        zm ← memmove zm (p + reqlen) (p + freelen) (wrap_u32 (zmlen - (p + freelen + 1)));
        mret (zm, n, p, reqlen, true)
      else mret (zm, zmlen, p, freelen, true)
  end.

(** Too much free space is given back: the block, and the number of bytes that stay free. *)
Definition set_trim (zm : bytes) (zmlen p freelen reqlen : Z) : cres (bytes * Z) :=
  let empty := wrap_u32 (freelen - reqlen) in
  if ZIPMAP_VALUE_MAX_FREE <=? empty then
    zm ← memmove zm (p + reqlen) (p + freelen) (wrap_u32 (zmlen - (p + freelen + 1)));
    zm ← zipmapResize zm (wrap_u32 (zmlen - empty));
    mret (zm, 0)
  else mret (zm, empty).

(** "Just write the key + value and we are done." *)
Definition set_write (zm : bytes) (p : Z) (key val : bytes) (vempty : Z) : cres bytes :=
  '(zm, n) ← zipmapEncodeLength zm p (len key);
  let p := p + n in
  zm ← store zm p key;
  let p := p + len key in
  '(zm, n) ← zipmapEncodeLength zm p (len val);
  let p := p + n in
  zm ← store zm p [wrap_u 8 vempty];
  store zm (p + 1) val.

(** [true]: the key was there before. *)
Definition zipmapSet (zm key val : bytes) : cres (bytes * bool) :=
  let reqlen := zipmapRequiredLength (len key) (len val) in
  '(zm, zmlen, p, freelen, update) ← set_room zm key reqlen;
  '(zm, vempty) ← set_trim zm zmlen p freelen reqlen;
  zm ← set_write zm p key val vempty;
  mret (zm, update).

(** [true]: the key was there. *)
Definition zipmapDel (zm key : bytes) : cres (bytes * bool) :=
  '(p, zmlen) ← zipmapLookupRaw zm (Some key) true;
  match p with
  | Some p =>
      freelen ← zipmapRawEntryLength zm p;
      zm ← memmove zm p (p + freelen) (zmlen - (p + freelen + 1));
      zm ← zipmapResize zm (wrap_u32 (zmlen - freelen));
      zm ← count_by zm (-1);
      mret (zm, true)
  | None => mret (zm, false)
  end.
End Zipmap.

Definition zipmapRewind : Z := 1.

(** The next position and the entry there; [None]: NULL.  The key and the value are the bytes
    the result pointers point to. *)
Definition zipmapNext (zm : bytes) (p : Z) : cres (option (Z * bytes * bytes)) :=
  b ← byte_at zm p;
  if b =? ZIPMAP_END then mret None else
  klen ← zipmapDecodeLength zm p;
  key ← load zm (p + ZIPMAP_LEN_BYTES klen) klen;
  k ← zipmapRawKeyLength zm p;
  let p := p + k in
  vlen ← zipmapDecodeLength zm p;
  val ← load zm (p + 1 + ZIPMAP_LEN_BYTES vlen) vlen;
  v ← zipmapRawValueLength zm p;
  mret (Some (p + v, key, val)).

Definition zipmapGet (zm key : bytes) : cres (option bytes) :=
  '(p, _) ← zipmapLookupRaw zm (Some key) false;
  match p with
  | None => mret None
  | Some p =>
      k ← zipmapRawKeyLength zm p;
      let p := p + k in
      vlen ← zipmapDecodeLength zm p;
      val ← load zm (p + ZIPMAP_LEN_BYTES vlen + 1) vlen;
      mret (Some val)
  end.

Definition zipmapExists (zm key : bytes) : cres bool :=
  '(p, _) ← zipmapLookupRaw zm (Some key) false; mret (bool_decide (is_Some p)).

(** [while((p = zipmapNext(p,...)) != NULL)]: the entries passed. *)
Fixpoint walk_loop (fuel : nat) (zm : bytes) (p : Z) : cres (list (bytes * bytes)) :=
  match fuel with
  | O => Undef
  | S fuel =>
      r ← zipmapNext zm p;
      match r with
      | None => mret []
      | Some (p, key, val) => l ← walk_loop fuel zm p; mret ((key, val) :: l)
      end
  end.

Definition walk (zm : bytes) : cres (list (bytes * bytes)) := walk_loop (S (length zm)) zm zipmapRewind.

(** The map with its count written back, and the number of entries. *)
Definition zipmapLen (zm : bytes) : cres (bytes * Z) :=
  c ← byte_at zm 0;
  if c <? ZIPMAP_BIGLEN then mret (zm, c) else
  l ← walk zm;
  let n := wrap_u32 (Z.of_nat (length l)) in
  zm ← (if n <? ZIPMAP_BIGLEN then store zm 0 [n] else mret zm);
  mret (zm, n).

Definition zipmapBlobLen (zm : bytes) : cres Z := '(_, n) ← zipmapLookupRaw zm None true; mret n.

Example zipmap_comment :
  ('(zm, _) ← zipmapSet (λ _, 0) zipmapNew (lit "foo") (lit "bar"); '(zm, _) ← zipmapSet (λ _, 0) zm (lit "hello") (lit "world"); mret zm)
  = Ret ([2; 3] ++ lit "foo" ++ [3; 0] ++ lit "bar" ++ [5] ++ lit "hello" ++ [5; 0] ++ lit "world" ++ [255]).
Proof. by vm_compute. Qed.
