(* ===== verification/ZipmapFacts.v ===== *)
(** * Zipmaps are finite maps

    What the operations of [Zipmap] do, entry by entry, and the refinement of zipmaps to finite
    maps under every sequence of operations. *)

From Stdlib Require Import ZArith Lia.
From stdpp Require Import base tactics numbers list gmap strings.
From S2P Require Import Prelude Endian Block Zipmap.

Local Open Scope Z_scope.

(** ** The format *)

Record zentry := mkZ { zkey : bytes; zval : bytes; zfree : bytes }.

Definition enc_len (l : Z) : bytes := if l <? ZIPMAP_BIGLEN then [l] else ZIPMAP_BIGLEN :: mem_of 4 l.

Definition enc_val (e : zentry) : bytes := enc_len (len (zval e)) ++ [len (zfree e)] ++ zval e ++ zfree e.
Definition enc_entry (e : zentry) : bytes := enc_len (len (zkey e)) ++ zkey e ++ enc_val e.

Definition entries (es : list zentry) : bytes := concat (enc_entry <$> es).

Definition zipmap_of (c : Z) (es : list zentry) : bytes := c :: entries es ++ [ZIPMAP_END].

Lemma entries_app es es' : entries (es ++ es') = entries es ++ entries es'.
Proof. unfold entries. by rewrite fmap_app, concat_app. Qed.

Lemma entries_cons e es : entries (e :: es) = enc_entry e ++ entries es.
Proof. done. Qed.

Lemma entries_nil : entries [] = [].
Proof. done. Qed.

Lemma LEN_BYTES_cases l : ZIPMAP_LEN_BYTES l = 1 /\ l < 254 \/ ZIPMAP_LEN_BYTES l = 5 /\ 254 <= l.
Proof. unfold ZIPMAP_LEN_BYTES, ZIPMAP_BIGLEN. destruct (Z.ltb_spec l 254); lia. Qed.

Lemma len_mem_of n l : len (mem_of n l) = Z.of_nat n.
Proof. unfold len. by rewrite mem_of_length. Qed.

Lemma len_enc_len l : len (enc_len l) = ZIPMAP_LEN_BYTES l.
Proof. unfold enc_len, ZIPMAP_LEN_BYTES. destruct (_ <? _); [done|]. by rewrite len_cons, len_mem_of. Qed.

Lemma len_enc_val e : len (enc_val e) = ZIPMAP_LEN_BYTES (len (zval e)) + 1 + len (zval e) + len (zfree e).
Proof. unfold enc_val. rewrite !len_app, len_enc_len, len_cons, len_nil. lia. Qed.

Lemma len_enc_entry e : len (enc_entry e) = ZIPMAP_LEN_BYTES (len (zkey e)) + len (zkey e) + len (enc_val e).
Proof. unfold enc_entry. rewrite !len_app, len_enc_len. lia. Qed.

(** The first byte of a length is not the end of the map. *)
Lemma enc_len_head l : 0 <= l -> exists b x, enc_len l = b :: x /\ 0 <= b < 255.
Proof. intros H. unfold enc_len, ZIPMAP_BIGLEN. destruct (Z.ltb_spec l 254); eexists _, _; (split; [done|lia]). Qed.

Lemma decode_map_length m a l c p : m = a ++ enc_len l ++ c -> p = len a -> 0 <= l < 2 ^ 32 -> zipmapDecodeLength m p = Ret l.
Proof.
  intros -> -> Hl. unfold zipmapDecodeLength, enc_len. destruct (Z.ltb_spec l ZIPMAP_BIGLEN) as [H|H].
  - erewrite byte_at_app by done. ret. by rewrite (proj2 (Z.ltb_lt _ _)).
  - erewrite byte_at_app by done. ret. change (ZIPMAP_BIGLEN <? ZIPMAP_BIGLEN) with false. cbn iota.
    rewrite (load_app _ (a ++ [ZIPMAP_BIGLEN]) (mem_of 4 l) c); [|bapp|blen|by rewrite len_mem_of]. ret. by rewrite of_mem_of.
Qed.

Lemma encode_length m a x c p l : m = a ++ x ++ c -> p = len a -> len x = ZIPMAP_LEN_BYTES l -> zipmapEncodeLength m p l = Ret (a ++ enc_len l ++ c, ZIPMAP_LEN_BYTES l).
Proof.
  intros -> -> Hx. unfold zipmapEncodeLength, enc_len, ZIPMAP_LEN_BYTES in *. destruct (Z.ltb_spec l ZIPMAP_BIGLEN) as [H|H].
  - erewrite store_app by done. done.
  - destruct x as [|b x]; [by rewrite len_nil in Hx|]. rewrite len_cons in Hx.
    rewrite (store_app _ a [b] _ (x ++ c)); [|bapp|done..]. ret.
    rewrite (store_app _ (a ++ [ZIPMAP_BIGLEN]) x _ c); [|bapp|blen|rewrite len_mem_of; lia]. ret. f_equal. f_equal. bapp.
Qed.

Definition fits (e : zentry) : Prop := len (zfree e) < ZIPMAP_VALUE_MAX_FREE.

Lemma raw_key_length m a e c p : m = a ++ enc_entry e ++ c -> p = len a -> len (enc_entry e) < 2 ^ 32 ->
  zipmapRawKeyLength m p = Ret (ZIPMAP_LEN_BYTES (len (zkey e)) + len (zkey e)).
Proof.
  intros -> -> He. rewrite len_enc_entry in He. pose proof (len_pos (zkey e)). pose proof (len_pos (enc_val e)). pose proof (LEN_BYTES_cases (len (zkey e))).
  unfold zipmapRawKeyLength. rewrite (decode_map_length _ a (len (zkey e)) (zkey e ++ enc_val e ++ c)); [|unfold enc_entry; bapp|done|lia]. ret.
  by rewrite wrap_u_small by lia.
Qed.

Lemma raw_value_length m a e c p : m = a ++ enc_val e ++ c -> p = len a -> fits e -> len (enc_val e) < 2 ^ 32 ->
  zipmapRawValueLength m p = Ret (len (enc_val e)).
Proof.
  intros -> -> Hf He. rewrite len_enc_val in *. pose proof (len_pos (zval e)). pose proof (len_pos (zfree e)). pose proof (LEN_BYTES_cases (len (zval e))).
  unfold zipmapRawValueLength. rewrite (decode_map_length _ a (len (zval e)) ([len (zfree e)] ++ zval e ++ zfree e ++ c)); [|unfold enc_val; bapp|done|lia]. ret.
  rewrite (byte_at_app _ (a ++ enc_len (len (zval e))) (len (zfree e)) (zval e ++ zfree e ++ c)); [|unfold enc_val; bapp|rewrite len_app, len_enc_len; lia]. ret.
  rewrite wrap_u_small by lia. f_equal. lia.
Qed.

Lemma raw_entry_length m a e c p : m = a ++ enc_entry e ++ c -> p = len a -> fits e -> len (enc_entry e) < 2 ^ 32 ->
  zipmapRawEntryLength m p = Ret (len (enc_entry e)).
Proof.
  intros -> -> Hf He. unfold zipmapRawEntryLength. erewrite raw_key_length by done. ret. rewrite len_enc_entry in He. pose proof (len_pos (zkey e)). pose proof (LEN_BYTES_cases (len (zkey e))).
  rewrite (raw_value_length _ (a ++ enc_len (len (zkey e)) ++ zkey e) e c); [|unfold enc_entry; bapp|rewrite !len_app, len_enc_len; lia|done|lia]. ret.
  pose proof (len_pos (enc_val e)). rewrite wrap_u_small by lia. by rewrite len_enc_entry.
Qed.

(** ** Looking up *)

(** The place of the first entry with the key, when the entries begin at [p]. *)
Fixpoint place (key : bytes) (p : Z) (es : list zentry) : option Z :=
  match es with [] => None | e :: es => if bool_decide (zkey e = key) then Some p else place key (p + len (enc_entry e)) es end.

Lemma lookup_loop_spec key total es : forall fuel pre k, Forall fits es -> len pre + len (entries es) + 1 < 2 ^ 32 -> (length es < fuel)%nat ->
  exists q n, lookup_loop fuel (pre ++ entries es ++ [ZIPMAP_END]) key total (len pre) k = Ret (q, n)
    /\ q = match k, key with Some _, _ => k | None, Some key => place key (len pre) es | None, None => None end
    /\ (total = true -> n = len pre + len (entries es) + 1).
Proof.
  induction es as [|e es IH]; intros fuel pre k Hf Hb Hfuel; (destruct fuel as [|fuel]; [cbn in Hfuel; lia|]).
  - cbn [lookup_loop entries app]. rewrite (byte_at_app _ pre ZIPMAP_END []) by done. ret. cbn. rewrite entries_nil, len_nil in *. pose proof (len_pos pre).
    eexists _, _. split; [done|]. split; [by destruct k, key|]. intros _. rewrite !wrap_u_small by (rewrite ?wrap_u_small; lia). lia.
  - inversion Hf as [|? ? He Hes]; subst. rewrite entries_cons in *. rewrite len_app in Hb. pose proof (len_pos pre). pose proof (len_pos (entries es)).
    pose proof (len_enc_entry e) as El. pose proof (len_enc_val e) as Ev. pose proof (len_pos (zkey e)). pose proof (len_pos (zval e)). pose proof (len_pos (zfree e)).
    pose proof (LEN_BYTES_cases (len (zkey e))). pose proof (LEN_BYTES_cases (len (zval e))). cbn [lookup_loop].
    destruct (enc_len_head (len (zkey e))) as (b & x & Eb & Hbb); [done|].
    rewrite (byte_at_app _ pre b (x ++ zkey e ++ enc_val e ++ entries es ++ [ZIPMAP_END])); [|unfold enc_entry; rewrite Eb; bapp|done]. ret.
    rewrite (proj2 (Z.eqb_neq b ZIPMAP_END)) by (unfold ZIPMAP_END; lia).
    rewrite (decode_map_length _ pre (len (zkey e)) (zkey e ++ enc_val e ++ entries es ++ [ZIPMAP_END])); [|unfold enc_entry; bapp|done|lia]. ret.
    set (hit := match k, key with None, Some key => bool_decide (zkey e = key) | _, _ => false end).
    assert (match key, k with
       | Some key, None => if len (zkey e) =? len key
           then s ← load (pre ++ (enc_entry e ++ entries es) ++ [ZIPMAP_END]) (len pre + ZIPMAP_LEN_BYTES (len (zkey e))) (len (zkey e)); mret (bool_decide (s = key)) else mret false
       | _, _ => mret false end = Ret hit) as ->.
    { unfold hit. destruct k, key as [key|]; try done. destruct (Z.eqb_spec (len (zkey e)) (len key)) as [Ek|Ek].
      - rewrite (load_app _ (pre ++ enc_len (len (zkey e))) (zkey e) (enc_val e ++ entries es ++ [ZIPMAP_END])); [done|unfold enc_entry; bapp|rewrite len_app, len_enc_len; lia|done].
      - rewrite bool_decide_eq_false_2; [done|]. intros E. by rewrite E in Ek. }
    ret. destruct (hit && negb total) eqn:Eh.
    + apply andb_prop in Eh as [Eh Et]. destruct total; [done|]. eexists _, _. split; [done|]. split; [|done]. unfold hit in Eh. destruct k, key; try done. cbn. by rewrite Eh.
    + rewrite wrap_u_small by lia.
      rewrite (decode_map_length _ (pre ++ enc_len (len (zkey e)) ++ zkey e) (len (zval e)) ([len (zfree e)] ++ zval e ++ zfree e ++ entries es ++ [ZIPMAP_END]));
        [|unfold enc_entry, enc_val; bapp|rewrite !len_app, len_enc_len; lia|lia]. ret.
      rewrite (byte_at_app _ (pre ++ enc_len (len (zkey e)) ++ zkey e ++ enc_len (len (zval e))) (len (zfree e)) (zval e ++ zfree e ++ entries es ++ [ZIPMAP_END]));
        [|unfold enc_entry, enc_val; bapp|rewrite !len_app, !len_enc_len; lia]. ret.
      unfold fits, ZIPMAP_VALUE_MAX_FREE in He. rewrite wrap_u_small by lia.
      replace (len pre + _ + _ + _) with (len (pre ++ enc_entry e)) by (rewrite len_app; lia).
      destruct (IH fuel (pre ++ enc_entry e) (if hit then Some (len pre) else k)) as (q & n & E & Eq & En); [done|rewrite len_app; lia|cbn in Hfuel; lia|].
      replace (pre ++ (enc_entry e ++ entries es) ++ [ZIPMAP_END]) with ((pre ++ enc_entry e) ++ entries es ++ [ZIPMAP_END]) by bapp.
      rewrite E. eexists _, _. split; [done|]. rewrite !len_app in *. split; [|intros Et; rewrite En by done; lia]. subst q hit.
      destruct k as [k|], key as [key|]; try done. cbn. by destruct (bool_decide (zkey e = key)).
Qed.

Lemma place_None key es : forall p, place key p es = None <-> key ∉ zkey <$> es.
Proof.
  induction es as [|e es IH]; intros p; cbn [place fmap list_fmap]; [split; [intros _; apply not_elem_of_nil|done]|].
  rewrite not_elem_of_cons. case_bool_decide as E; [|rewrite IH]; naive_solver.
Qed.

Lemma place_Some key es : forall p q, place key p es = Some q ->
  exists l e r, es = l ++ e :: r /\ zkey e = key /\ q = p + len (entries l).
Proof.
  induction es as [|e es IH]; intros p q; cbn [place]; [done|]. case_bool_decide as E.
  - intros [= <-]. exists [], e, es. rewrite entries_nil, len_nil. split_and!; [done..|lia].
  - intros (l & e' & r & -> & <- & ->)%IH. exists (e :: l), e', r. rewrite entries_cons, len_app. split_and!; [done..|lia].
Qed.

Lemma entries_length es : (length es <= length (entries es))%nat.
Proof.
  induction es as [|e es IH]; [done|]. rewrite entries_cons, length_app. cbn [length]. pose proof (len_enc_entry e) as El. pose proof (len_pos (zkey e)).
  pose proof (LEN_BYTES_cases (len (zkey e))). pose proof (len_pos (enc_val e)). unfold len in *. lia.
Qed.

Lemma len_zipmap_of c es : len (zipmap_of c es) = len (entries es) + 2.
Proof. unfold zipmap_of. rewrite len_cons, len_app, len_cons, len_nil. lia. Qed.

Lemma lookupRaw_spec key total c es : Forall fits es -> len (zipmap_of c es) < 2 ^ 32 ->
  exists n, zipmapLookupRaw (zipmap_of c es) key total = Ret (key ≫= λ key, place key 1 es, n) /\ (total = true -> n = len (zipmap_of c es)).
Proof.
  intros Hf Hb. rewrite len_zipmap_of in *. unfold zipmapLookupRaw. destruct (lookup_loop_spec key total es (S (length (zipmap_of c es))) [c] None) as (q & n & E & Eq & En); [done|..].
  - rewrite len_cons, len_nil. lia.
  - unfold zipmap_of. cbn [length]. rewrite length_app. pose proof (entries_length es). lia.
  - exists n. assert (lookup_loop (S (length (zipmap_of c es))) (zipmap_of c es) key total 1 None = Ret (q, n)) as -> by exact E. subst q. split; [by destruct key|].
    intros ->%En. rewrite len_cons, len_nil. lia.
Qed.

Lemma lookupRaw_total key c es : Forall fits es -> len (zipmap_of c es) < 2 ^ 32 ->
  zipmapLookupRaw (zipmap_of c es) key true = Ret (key ≫= λ key, place key 1 es, len (zipmap_of c es)).
Proof. intros Hf Hb. destruct (lookupRaw_spec key true c es Hf Hb) as (n & -> & En). by rewrite En. Qed.

(** ** Changing *)

Lemma required_length k v : len k + len v + 11 < 2 ^ 32 -> zipmapRequiredLength (len k) (len v) = len (enc_entry (mkZ k v [])).
Proof.
  intros H. rewrite len_enc_entry, len_enc_val. cbn [zkey zval zfree]. rewrite len_nil. unfold zipmapRequiredLength, ZIPMAP_LEN_BYTES, ZIPMAP_BIGLEN.
  pose proof (len_pos k). pose proof (len_pos v). rewrite (wrap_u_small 32 (len k + len v + 3)) by lia.
  destruct (Z.leb_spec 254 (len k)), (Z.leb_spec 254 (len v)), (Z.ltb_spec (len k) 254), (Z.ltb_spec (len v) 254); try lia; rewrite ?wrap_u_small by (rewrite ?wrap_u_small; lia); lia.
Qed.

Lemma resize_grow fresh m n : len m < n -> exists j, zipmapResize fresh m n = Ret (m ++ j ++ [ZIPMAP_END]) /\ len j = n - len m - 1.
Proof.
  intros H. destruct (realloc_grow fresh m n) as (j & E & Ej); [lia|]. unfold zipmapResize. rewrite E.
  destruct j as [|b j' _] using rev_ind; [by rewrite len_nil in Ej; lia|]. rewrite len_app, len_cons, len_nil in Ej.
  exists j'. split; [|lia]. rewrite (store_app _ (m ++ j') [b] _ []); [f_equal; bapp|by rewrite app_nil_r; bapp|rewrite len_app; lia|done].
Qed.

Lemma resize_shrink fresh a b c n : n = len a + 1 -> zipmapResize fresh (a ++ b :: c) n = Ret (a ++ [ZIPMAP_END]).
Proof.
  intros ->. unfold zipmapResize. replace (a ++ b :: c) with ((a ++ [b]) ++ c) by bapp. rewrite realloc_shrink by (rewrite len_app; done).
  rewrite (store_app _ a [b] _ []); [done|bapp|lia|done].
Qed.

Lemma count_by_spec c m d : count_by (c :: m) d = Ret ((if c <? ZIPMAP_BIGLEN then wrap_u 8 (c + d) else c) :: m).
Proof. unfold count_by. rewrite (byte_at_app _ [] c m) by done. ret. destruct (_ <? _); [|done]. by rewrite (store_app _ [] [c] _ m). Qed.

(** The last part of [zipmapSet]: key and value written over [x]. *)
Lemma write_entry m a x c k v vempty : m = a ++ x ++ c -> 0 <= vempty < ZIPMAP_VALUE_MAX_FREE -> len x = len (enc_entry (mkZ k v [])) + vempty ->
  exists j, len j = vempty /\ set_write m (len a) k v vempty = Ret (a ++ enc_entry (mkZ k v j) ++ c).
Proof.
  intros -> Hv Hx. rewrite len_enc_entry, len_enc_val in Hx. cbn [zkey zval zfree] in Hx. rewrite len_nil in Hx. unfold ZIPMAP_VALUE_MAX_FREE in Hv.
  pose proof (LEN_BYTES_cases (len k)). pose proof (LEN_BYTES_cases (len v)). pose proof (len_pos k). pose proof (len_pos v).
  destruct (cut x (ZIPMAP_LEN_BYTES (len k))) as (x1 & y1 & -> & E1); [lia|]. rewrite len_app in Hx.
  destruct (cut y1 (len k)) as (x2 & y2 & -> & E2); [lia|]. rewrite len_app in Hx.
  destruct (cut y2 (ZIPMAP_LEN_BYTES (len v))) as (x3 & y3 & -> & E3); [lia|]. rewrite len_app in Hx.
  destruct (cut y3 1) as (x4 & y4 & -> & E4); [lia|]. rewrite len_app in Hx.
  destruct (cut y4 (len v)) as (x5 & j & -> & E5); [lia|]. rewrite len_app in Hx.
  exists j. split; [lia|]. unfold set_write. rewrite (encode_length _ a x1 (x2 ++ x3 ++ x4 ++ x5 ++ j ++ c)); [|bapp|done..]. ret. cbn zeta.
  rewrite (store_app _ (a ++ enc_len (len k)) x2 k (x3 ++ x4 ++ x5 ++ j ++ c)); [|bapp|rewrite len_app, len_enc_len; lia|done]. ret.
  rewrite (encode_length _ (a ++ enc_len (len k) ++ k) x3 (x4 ++ x5 ++ j ++ c)); [|bapp|rewrite !len_app, len_enc_len; lia|done]. ret. cbn zeta.
  rewrite (store_app _ (a ++ enc_len (len k) ++ k ++ enc_len (len v)) x4 _ (x5 ++ j ++ c)); [|bapp|rewrite !len_app, !len_enc_len; lia|done]. ret.
  rewrite (store_app _ (a ++ enc_len (len k) ++ k ++ enc_len (len v) ++ [wrap_u 8 vempty]) x5 _ (j ++ c)); [|bapp|rewrite !len_app, !len_enc_len, len_cons, len_nil; lia|done].
  f_equal. unfold enc_entry, enc_val. cbn [zkey zval zfree]. rewrite wrap_u_small by (change (2 ^ 8) with 256; lia). replace vempty with (len j) by lia. bapp.
Qed.

Definition count_up (c d : Z) : Z := if c <? ZIPMAP_BIGLEN then wrap_u 8 (c + d) else c.

Section Setting.
Context (fresh : nat -> Z).

(** A place of the right size for the entry. *)
Definition room_at (m : bytes) (a x b : bytes) (zmlen p freelen : Z) : Prop :=
  m = a ++ x ++ b ++ [ZIPMAP_END] /\ zmlen = len m /\ p = len a /\ freelen = len x /\ len m < 2 ^ 32.

Lemma set_room_new k c es req : Forall fits es -> 0 < req -> len (zipmap_of c es) + req < 2 ^ 32 -> k ∉ zkey <$> es ->
  exists x m n, set_room fresh (zipmap_of c es) k req = Ret (m, n, len (entries es) + 1, req, false)
    /\ room_at m (count_up c 1 :: entries es) x [] n (len (entries es) + 1) req.
Proof.
  intros Hf Hq Hb Hk. unfold set_room. pose proof (len_pos (zipmap_of c es)). rewrite lookupRaw_total by (done || lia). cbn [mbind option_bind].
  rewrite (proj2 (place_None k es 1)) by done. ret. rewrite wrap_u_small by lia.
  destruct (resize_grow fresh (zipmap_of c es) (len (zipmap_of c es) + req)) as (j & -> & Ej); [lia|]. ret.
  change (zipmap_of c es ++ j ++ [ZIPMAP_END]) with (c :: (entries es ++ [ZIPMAP_END]) ++ j ++ [ZIPMAP_END]). rewrite count_by_spec. ret. fold (count_up c 1).
  rewrite len_zipmap_of in *. replace (len (entries es) + 2 - 1) with (len (entries es) + 1) by lia. eexists (ZIPMAP_END :: j), _, _. split; [done|].
  unfold room_at. rewrite len_cons. split_and!; [bapp|blen..].
Qed.

Lemma set_room_old k c l e r req : Forall fits (l ++ e :: r) -> 0 < req -> len (zipmap_of c (l ++ e :: r)) + req < 2 ^ 32 -> zkey e = k -> place k 1 (l ++ e :: r) = Some (1 + len (entries l)) ->
  exists x m n f, set_room fresh (zipmap_of c (l ++ e :: r)) k req = Ret (m, n, 1 + len (entries l), f, true)
    /\ room_at m (c :: entries l) x (entries r) n (1 + len (entries l)) f /\ req <= f.
Proof.
  intros Hf Hq Hb Ek Ep. unfold set_room. pose proof (len_pos (zipmap_of c (l ++ e :: r))). rewrite lookupRaw_total by (done || lia). cbn [mbind option_bind]. rewrite Ep. ret. rewrite len_zipmap_of, entries_app, entries_cons, !len_app in Hb. pose proof (len_pos (entries l)). pose proof (len_pos (entries r)). pose proof (len_pos (enc_entry e)).
  assert (zipmap_of c (l ++ e :: r) = (c :: entries l) ++ enc_entry e ++ entries r ++ [ZIPMAP_END]) as Em by (unfold zipmap_of; rewrite entries_app, entries_cons; bapp).
  rewrite Em. apply Forall_app in Hf as [_ Hf]. inversion Hf as [|? ? He _]; subst.
  rewrite (raw_entry_length _ (c :: entries l) e (entries r ++ [ZIPMAP_END])); [|done|rewrite len_cons; lia|done|lia]. ret.
  set (m := (c :: entries l) ++ enc_entry e ++ entries r ++ [ZIPMAP_END]). assert (len m = 2 + len (entries l) + len (enc_entry e) + len (entries r)) as Lm by (unfold m; blen).
  destruct (Z.ltb_spec (len (enc_entry e)) req).
  - rewrite wrap_u_small by lia. destruct (resize_grow fresh m (len m - len (enc_entry e) + req)) as (j & -> & Ej); [lia|]. ret.
    rewrite wrap_u_small by lia.
    set (big := m ++ j ++ [ZIPMAP_END]).
    destruct (cut (enc_entry e ++ entries r ++ [ZIPMAP_END] ++ j) req) as (x & z & Ey & Ex); [blen|].
    assert (store big (1 + len (entries l) + req) (entries r) = Ret ((c :: entries l) ++ x ++ entries r ++ [ZIPMAP_END])) as Es.
    { rewrite (store_app _ ((c :: entries l) ++ x) z _ [ZIPMAP_END]); [f_equal; bapp| |blen|apply (f_equal len) in Ey; blen].
      unfold big, m. transitivity ((c :: entries l) ++ (x ++ z) ++ [ZIPMAP_END]); [rewrite <- Ey|]; bapp. }
    rewrite (memmove_app big ((c :: entries l) ++ enc_entry e) (entries r) ([ZIPMAP_END] ++ j ++ [ZIPMAP_END]) ((c :: entries l) ++ x ++ entries r ++ [ZIPMAP_END]) _ _ _ ((c :: entries l) ++ x ++ entries r ++ [ZIPMAP_END]));
      [|unfold big, m; bapp|rewrite len_app, len_cons; lia|lia|done|done]. ret.
    eexists x, _, _, _. split; [done|]. split; [|lia]. unfold room_at. split_and!; [done|blen..].
  - eexists (enc_entry e), _, _, _. split; [done|]. split; [|lia]. unfold room_at. split_and!; [done|done|blen|done|lia].
Qed.

Lemma set_finish k v m a x b n p f u : room_at m a x b n p f -> len (enc_entry (mkZ k v [])) <= f ->
  exists j, fits (mkZ k v j) /\ ('(zm, vempty) ← set_trim fresh m n p f (len (enc_entry (mkZ k v []))); zm ← set_write zm p k v vempty; mret (zm, u : bool))
    = Ret (a ++ enc_entry (mkZ k v j) ++ b ++ [ZIPMAP_END], u).
Proof.
  intros (-> & -> & -> & -> & Hm) Hf. set (req := len (enc_entry (mkZ k v []))) in *. unfold set_trim. rewrite !len_app, len_cons, len_nil in *.
  pose proof (len_pos a). pose proof (len_pos x). pose proof (len_pos b). assert (0 <= req) by apply len_pos. rewrite (wrap_u_small 32 (len x - req)) by lia. unfold ZIPMAP_VALUE_MAX_FREE in *.
  destruct (Z.leb_spec 4 (len x - req)).
  - destruct (cut x req) as (x1 & x2 & -> & E1); [lia|]. rewrite !len_app in *. rewrite (wrap_u_small 32 (_ - (_ + _))) by lia. rewrite (wrap_u_small 32 (_ - (_ - _))) by lia.
    destruct (cut (x2 ++ b) (len b)) as (y1 & y2 & Ey & E2); [blen|]. assert (len y2 = len x2) as E3 by (apply (f_equal len) in Ey; blen). destruct y2 as [|y y2]; [rewrite len_nil in E3; lia|].
    rewrite (memmove_app _ (a ++ x1 ++ x2) b [ZIPMAP_END] ((a ++ x1 ++ b) ++ y :: y2 ++ [ZIPMAP_END]) _ _ _ ((a ++ x1 ++ b) ++ y :: y2 ++ [ZIPMAP_END])); [|bapp|blen|lia| |done].
    + ret. rewrite resize_shrink by blen. ret. destruct (write_entry ((a ++ x1 ++ b) ++ [ZIPMAP_END]) a x1 (b ++ [ZIPMAP_END]) k v 0) as (j & Ej & ->); [bapp|done|lia|].
      exists j. split; [|done]. unfold fits. cbn. rewrite Ej. done.
    + rewrite (store_app _ (a ++ x1) y1 _ (y :: y2 ++ [ZIPMAP_END])); [f_equal; bapp| |blen|lia].
      transitivity (a ++ x1 ++ (x2 ++ b) ++ [ZIPMAP_END]); [bapp|]. rewrite Ey. bapp.
  - ret. destruct (write_entry (a ++ x ++ b ++ [ZIPMAP_END]) a x (b ++ [ZIPMAP_END]) k v (len x - req)) as (j & Ej & ->); [done|unfold ZIPMAP_VALUE_MAX_FREE; lia|lia|].
    exists j. split; [|done]. unfold fits, ZIPMAP_VALUE_MAX_FREE. cbn. lia.
Qed.

Lemma entry_size k v : 0 < len (enc_entry (mkZ k v [])) <= len k + len v + 11.
Proof.
  rewrite len_enc_entry, len_enc_val. cbn. rewrite len_nil. pose proof (LEN_BYTES_cases (len k)). pose proof (LEN_BYTES_cases (len v)). pose proof (len_pos k). pose proof (len_pos v). lia.
Qed.

(** A key that is new is added at the end, any other keeps its place. *)
Lemma zipmapSet_new k v c es : Forall fits es -> len (zipmap_of c es) + len k + len v + 11 < 2 ^ 32 -> k ∉ zkey <$> es ->
  exists j, fits (mkZ k v j) /\ zipmapSet fresh (zipmap_of c es) k v = Ret (zipmap_of (count_up c 1) (es ++ [mkZ k v j]), false).
Proof.
  intros Hf Hb Hk. pose proof (entry_size k v). pose proof (len_pos (zipmap_of c es)). unfold zipmapSet. rewrite required_length by lia.
  destruct (set_room_new k c es (len (enc_entry (mkZ k v [])))) as (x & m & n & -> & R); [done|lia|lia|done|]. ret.
  destruct (set_finish k v _ _ _ _ _ _ _ false R) as (j & Hj & ->); [lia|]. exists j. split; [done|]. do 2 f_equal. unfold zipmap_of. rewrite entries_app, entries_cons, entries_nil. bapp.
Qed.

Lemma zipmapSet_old k v c es : Forall fits es -> len (zipmap_of c es) + len k + len v + 11 < 2 ^ 32 -> k ∈ zkey <$> es ->
  exists j l e r, fits (mkZ k v j) /\ es = l ++ e :: r /\ zkey e = k /\ zipmapSet fresh (zipmap_of c es) k v = Ret (zipmap_of c (l ++ mkZ k v j :: r), true).
Proof.
  intros Hf Hb Hk. pose proof (entry_size k v). pose proof (len_pos (zipmap_of c es)). destruct (place k 1 es) as [q|] eqn:Ep; [|by apply place_None in Ep].
  pose proof Ep as (l & e & r & -> & Ek & ->)%place_Some. unfold zipmapSet. rewrite required_length by lia.
  destruct (set_room_old k c l e r (len (enc_entry (mkZ k v [])))) as (x & m & n & f & -> & R & Hq); [done|lia|lia|done|done|]. ret.
  destruct (set_finish k v _ _ _ _ _ _ _ true R) as (j & Hj & ->); [lia|]. exists j, l, e, r. split_and!; [done..|]. do 2 f_equal. unfold zipmap_of. rewrite entries_app, entries_cons. bapp.
Qed.

Lemma zipmapDel_new k c es : Forall fits es -> len (zipmap_of c es) < 2 ^ 32 -> k ∉ zkey <$> es -> zipmapDel fresh (zipmap_of c es) k = Ret (zipmap_of c es, false).
Proof. intros Hf Hb Hk. unfold zipmapDel. rewrite lookupRaw_total by done. cbn [mbind option_bind]. by rewrite (proj2 (place_None k es 1)). Qed.

Lemma zipmapDel_old k c es : Forall fits es -> len (zipmap_of c es) < 2 ^ 32 -> k ∈ zkey <$> es ->
  exists l e r, es = l ++ e :: r /\ zkey e = k /\ zipmapDel fresh (zipmap_of c es) k = Ret (zipmap_of (count_up c (-1)) (l ++ r), true).
Proof.
  intros Hf Hb Hk. destruct (place k 1 es) as [q|] eqn:Ep; [|by apply place_None in Ep]. unfold zipmapDel. rewrite lookupRaw_total by done. cbn [mbind option_bind]. rewrite Ep. ret.
  apply place_Some in Ep as (l & e & r & -> & Ek & ->). exists l, e, r. split_and!; [done..|]. rewrite len_zipmap_of, entries_app, entries_cons, !len_app in *.
  pose proof (len_pos (entries l)). pose proof (len_pos (entries r)). pose proof (len_enc_entry e) as El. pose proof (LEN_BYTES_cases (len (zkey e))). pose proof (len_pos (zkey e)). pose proof (len_pos (enc_val e)).
  assert (zipmap_of c (l ++ e :: r) = (c :: entries l) ++ enc_entry e ++ entries r ++ [ZIPMAP_END]) as -> by (unfold zipmap_of; rewrite entries_app, entries_cons; bapp).
  apply Forall_app in Hf as [_ Hf]. inversion Hf as [|? ? He _]; subst.
  rewrite (raw_entry_length _ (c :: entries l) e (entries r ++ [ZIPMAP_END])); [|done|rewrite len_cons; lia|done|lia]. ret.
  destruct (cut (enc_entry e ++ entries r) (len (entries r))) as (y1 & y2 & Ey & E2); [blen|]. assert (len y2 = len (enc_entry e)) as E3 by (apply (f_equal len) in Ey; blen).
  destruct y2 as [|y y2]; [rewrite len_nil in E3; lia|].
  rewrite (memmove_app _ ((c :: entries l) ++ enc_entry e) (entries r) [ZIPMAP_END] ((c :: entries l ++ entries r) ++ y :: y2 ++ [ZIPMAP_END]) _ _ _ ((c :: entries l ++ entries r) ++ y :: y2 ++ [ZIPMAP_END])); [|bapp|blen|blen| |done].
  - ret. rewrite (wrap_u_small 32) by lia. rewrite resize_shrink by blen. ret. cbn [app]. rewrite count_by_spec. ret. unfold zipmap_of, count_up. by rewrite entries_app.
  - rewrite (store_app _ (c :: entries l) y1 _ (y :: y2 ++ [ZIPMAP_END])); [f_equal; bapp| |blen|lia].
    transitivity ((c :: entries l) ++ (enc_entry e ++ entries r) ++ [ZIPMAP_END]); [bapp|]. rewrite Ey. bapp.
Qed.
End Setting.

(** ** Reading *)

Lemma value_at m a e c : m = a ++ enc_val e ++ c -> len (enc_val e) < 2 ^ 32 ->
  zipmapDecodeLength m (len a) = Ret (len (zval e)) /\ load m (len a + 1 + ZIPMAP_LEN_BYTES (len (zval e))) (len (zval e)) = Ret (zval e).
Proof.
  intros -> He. rewrite len_enc_val in He. pose proof (len_pos (zval e)). pose proof (len_pos (zfree e)). pose proof (LEN_BYTES_cases (len (zval e))). split.
  - apply (decode_map_length _ a _ ([len (zfree e)] ++ zval e ++ zfree e ++ c)); [unfold enc_val; bapp|done|lia].
  - apply (load_app _ (a ++ enc_len (len (zval e)) ++ [len (zfree e)]) (zval e) (zfree e ++ c)); [unfold enc_val; bapp|rewrite !len_app, len_enc_len, len_cons, len_nil; lia|done].
Qed.

Lemma entry_split m a e c : m = a ++ enc_entry e ++ c -> m = (a ++ enc_len (len (zkey e)) ++ zkey e) ++ enc_val e ++ c.
Proof. intros ->. unfold enc_entry. bapp. Qed.

Lemma zipmapNext_end m a p : m = a ++ [ZIPMAP_END] -> p = len a -> zipmapNext m p = Ret None.
Proof. intros -> ->. unfold zipmapNext. by rewrite (byte_at_app _ a ZIPMAP_END []). Qed.

Lemma zipmapNext_entry m a e c p : m = a ++ enc_entry e ++ c -> p = len a -> fits e -> len (enc_entry e) < 2 ^ 32 ->
  zipmapNext m p = Ret (Some (len (a ++ enc_entry e), zkey e, zval e)).
Proof.
  intros Em -> Hf He. pose proof (len_enc_entry e) as El. pose proof (LEN_BYTES_cases (len (zkey e))). pose proof (len_pos (zkey e)). pose proof (len_pos (enc_val e)).
  unfold zipmapNext. destruct (enc_len_head (len (zkey e))) as (b & x & Eb & Hb); [done|].
  rewrite (byte_at_app _ a b (x ++ zkey e ++ enc_val e ++ c)); [|rewrite Em; unfold enc_entry; rewrite Eb; bapp|done]. ret. rewrite (proj2 (Z.eqb_neq b ZIPMAP_END)) by (unfold ZIPMAP_END; lia).
  rewrite (decode_map_length _ a (len (zkey e)) (zkey e ++ enc_val e ++ c)); [|rewrite Em; unfold enc_entry; bapp|done|lia]. ret.
  rewrite (load_app _ (a ++ enc_len (len (zkey e))) (zkey e) (enc_val e ++ c)); [|rewrite Em; unfold enc_entry; bapp|rewrite len_app, len_enc_len; lia|done]. ret.
  rewrite (raw_key_length m a e c) by done. ret. apply entry_split in Em. set (a' := a ++ enc_len (len (zkey e)) ++ zkey e) in *.
  replace (len a + _) with (len a') by (unfold a'; rewrite !len_app, len_enc_len; lia). destruct (value_at m a' e c Em) as [-> E]; [lia|]. ret. rewrite E. ret.
  rewrite (raw_value_length m a' e c) by (done || lia). ret. do 4 f_equal. unfold a'. rewrite !len_app, len_enc_len. lia.
Qed.

Lemma walk_spec es : forall fuel pre, Forall fits es -> len pre + len (entries es) < 2 ^ 32 -> (length es < fuel)%nat ->
  walk_loop fuel (pre ++ entries es ++ [ZIPMAP_END]) (len pre) = Ret ((λ e, (zkey e, zval e)) <$> es).
Proof.
  induction es as [|e es IH]; intros [|fuel] pre Hf Hb Hfuel; cbn in Hfuel; try lia; cbn [walk_loop].
  - by rewrite (zipmapNext_end _ pre).
  - inversion Hf as [|? ? He Hes]; subst. rewrite entries_cons, len_app in *. pose proof (len_pos pre). pose proof (len_pos (entries es)).
    rewrite (zipmapNext_entry _ pre e (entries es ++ [ZIPMAP_END])); [|bapp|done|done|lia]. ret.
    replace (pre ++ (enc_entry e ++ entries es) ++ [ZIPMAP_END]) with ((pre ++ enc_entry e) ++ entries es ++ [ZIPMAP_END]) by bapp. rewrite IH; [done|done|rewrite len_app; lia|lia].
Qed.

Lemma walk_entries c es : Forall fits es -> len (zipmap_of c es) < 2 ^ 32 -> walk (zipmap_of c es) = Ret ((λ e, (zkey e, zval e)) <$> es).
Proof.
  intros Hf Hb. rewrite len_zipmap_of in Hb. apply (walk_spec es _ [c]); [done|rewrite len_cons, len_nil; lia|]. unfold zipmap_of. cbn [length]. rewrite length_app. pose proof (entries_length es). lia.
Qed.

Lemma zipmapGet_old c l e r : Forall fits (l ++ e :: r) -> len (zipmap_of c (l ++ e :: r)) < 2 ^ 32 -> zkey e ∉ zkey <$> l ->
  zipmapGet (zipmap_of c (l ++ e :: r)) (zkey e) = Ret (Some (zval e)).
Proof.
  intros Hf Hb Hk. unfold zipmapGet. destruct (lookupRaw_spec (Some (zkey e)) false c (l ++ e :: r)) as (n & -> & _); [done..|]. cbn [mbind option_bind].
  assert (forall p, place (zkey e) p (l ++ e :: r) = Some (p + len (entries l))) as Ep.
  { clear -Hk. induction l as [|x l IH]; intros p; cbn [app place].
    - rewrite bool_decide_eq_true_2 by done. rewrite entries_nil, len_nil. f_equal. lia.
    - rewrite fmap_cons, not_elem_of_cons in Hk. destruct Hk as [Hx Hk]. rewrite bool_decide_eq_false_2 by done. rewrite IH, entries_cons, len_app by done. f_equal. lia. }
  rewrite Ep. ret. rewrite len_zipmap_of, entries_app, entries_cons, !len_app in Hb. pose proof (len_pos (entries l)). pose proof (len_pos (entries r)).
  assert (zipmap_of c (l ++ e :: r) = (c :: entries l) ++ enc_entry e ++ entries r ++ [ZIPMAP_END]) as Em by (unfold zipmap_of; rewrite entries_app, entries_cons; bapp).
  rewrite (raw_key_length _ (c :: entries l) e (entries r ++ [ZIPMAP_END])); [|done|rewrite len_cons; lia|lia]. ret. apply entry_split in Em.
  set (a' := (c :: entries l) ++ enc_len (len (zkey e)) ++ zkey e) in *. replace (1 + len (entries l) + _) with (len a') by (unfold a'; rewrite !len_app, len_enc_len, len_cons; lia).
  pose proof (len_enc_entry e) as El. pose proof (LEN_BYTES_cases (len (zkey e))). pose proof (len_pos (zkey e)).
  destruct (value_at _ a' e (entries r ++ [ZIPMAP_END]) Em) as [-> E]; [lia|]. ret. replace (len a' + _ + 1) with (len a' + 1 + ZIPMAP_LEN_BYTES (len (zval e))) by lia. by rewrite E.
Qed.

(** ** The map *)

Definition pairs (es : list zentry) : list (bytes * bytes) := (λ e, (zkey e, zval e)) <$> es.

(** [zm] holds the map [m]. *)
Definition holds_map (zm : bytes) (m : gmap bytes bytes) : Prop :=
  exists c es, zm = zipmap_of c es /\ Forall fits es /\ NoDup (zkey <$> es) /\ m = list_to_map (pairs es) /\ 0 <= c <= ZIPMAP_BIGLEN /\ (c < ZIPMAP_BIGLEN -> c = Z.of_nat (length es)).

Lemma pairs_fst es : (pairs es).*1 = zkey <$> es.
Proof. unfold pairs. rewrite <- list_fmap_compose. by apply list_fmap_ext. Qed.

Lemma map_size es : NoDup (zkey <$> es) -> size (list_to_map (pairs es) : gmap bytes bytes) = length es.
Proof.
  rewrite <- pairs_fst. intros H. rewrite map_size_list_to_map by done. unfold pairs. apply length_fmap.
Qed.

Inductive zop := ZSet (k v : bytes) | ZDel (k : bytes) | ZLen.

(** An operation and what it tells: [*update], [*deleted] or the number of entries. *)
Definition zstep (fresh : nat -> Z) (zm : bytes) (o : zop) : cres (bytes * Z) :=
  match o with
  | ZSet k v => '(zm, b) ← zipmapSet fresh zm k v; mret (zm, Z.b2z b)
  | ZDel k => '(zm, b) ← zipmapDel fresh zm k; mret (zm, Z.b2z b)
  | ZLen => zipmapLen zm
  end.

Fixpoint zrun (fresh : nat -> Z) (zm : bytes) (ops : list zop) : cres (bytes * list Z) :=
  match ops with [] => mret (zm, []) | o :: ops => '(zm, a) ← zstep fresh zm o; '(zm, l) ← zrun fresh zm ops; mret (zm, a :: l) end.

Definition mstep (m : gmap bytes bytes) (o : zop) : gmap bytes bytes * Z :=
  match o with
  | ZSet k v => (<[k := v]> m, Z.b2z (bool_decide (is_Some (m !! k))))
  | ZDel k => (delete k m, Z.b2z (bool_decide (is_Some (m !! k))))
  | ZLen => (m, Z.of_nat (size m))
  end.

Fixpoint mrun (m : gmap bytes bytes) (ops : list zop) : gmap bytes bytes * list Z :=
  match ops with [] => (m, []) | o :: ops => let '(m, a) := mstep m o in let '(m, l) := mrun m ops in (m, a :: l) end.

(** How much an operation can add to the block. *)
Definition zcost (o : zop) : Z := match o with ZSet k v => len k + len v + 14 | _ => 0 end.

Lemma lookup_pairs es k : is_Some ((list_to_map (pairs es) : gmap bytes bytes) !! k) <-> k ∈ zkey <$> es.
Proof. rewrite <- pairs_fst, <- not_eq_None_Some, <- not_elem_of_list_to_map. destruct (decide (k ∈ (pairs es).*1)); naive_solver. Qed.

Lemma pairs_middle l e r : NoDup (zkey <$> l ++ e :: r) -> (list_to_map (pairs (l ++ e :: r)) : gmap bytes bytes) = <[zkey e := zval e]> (list_to_map (pairs (l ++ r))).
Proof.
  intros H. unfold pairs. rewrite (list_to_map_proper _ ((zkey e, zval e) :: pairs (l ++ r))); [done| |].
  - fold (pairs (l ++ e :: r)). by rewrite pairs_fst.
  - unfold pairs. rewrite !fmap_app, fmap_cons. symmetry. apply Permutation_middle.
Qed.

Lemma keys_middle l e r : NoDup (zkey <$> l ++ e :: r) -> zkey e ∉ zkey <$> l ++ r /\ NoDup (zkey <$> l ++ r).
Proof.
  rewrite !fmap_app, fmap_cons. intros H. assert (NoDup (zkey e :: (zkey <$> l) ++ (zkey <$> r))) as H' by (by rewrite Permutation_middle). by apply NoDup_cons in H'.
Qed.

Lemma entry_size_free k v j : fits (mkZ k v j) -> len (enc_entry (mkZ k v j)) <= len k + len v + 14.
Proof.
  intros Hj. unfold fits, ZIPMAP_VALUE_MAX_FREE in Hj. rewrite len_enc_entry, len_enc_val. cbn in *. pose proof (LEN_BYTES_cases (len k)). pose proof (LEN_BYTES_cases (len v)). lia.
Qed.

Lemma set_step fresh zm m k v : holds_map zm m -> len zm + zcost (ZSet k v) < 2 ^ 32 ->
  exists zm', zipmapSet fresh zm k v = Ret (zm', bool_decide (is_Some (m !! k))) /\ holds_map zm' (<[k := v]> m) /\ len zm' <= len zm + zcost (ZSet k v).
Proof.
  intros (c & es & -> & Hf & Hn & -> & Hc & Hl) Hb. cbn [zcost] in *. destruct (decide (k ∈ zkey <$> es)) as [Hk|Hk].
  - rewrite bool_decide_eq_true_2 by (by apply lookup_pairs). destruct (zipmapSet_old fresh k v c es) as (j & l & e & r & Hj & -> & <- & ->); [done|lia|done|]. eexists. split; [done|]. split.
    + exists c, (l ++ mkZ (zkey e) v j :: r). assert (zkey <$> l ++ mkZ (zkey e) v j :: r = zkey <$> l ++ e :: r) as Ek by (rewrite !fmap_app; done). split_and!; [done| |by rewrite Ek| |lia..|].
      * apply Forall_app in Hf as [H1 H2]. inversion H2; subst. apply Forall_app. split; [done|by constructor].
      * rewrite (pairs_middle l e r), (pairs_middle l (mkZ (zkey e) v j) r) by (done || by rewrite Ek). cbn [zkey zval]. by rewrite insert_insert_eq.
      * intros ->%Hl. by rewrite !length_app.
    + rewrite !len_zipmap_of, !entries_app, !entries_cons, !len_app. pose proof (entry_size_free _ _ _ Hj). pose proof (len_pos (enc_entry e)). lia.
  - rewrite bool_decide_eq_false_2 by (by rewrite lookup_pairs). destruct (zipmapSet_new fresh k v c es) as (j & Hj & ->); [done|lia|done|]. eexists. split; [done|]. split.
    + exists (count_up c 1), (es ++ [mkZ k v j]). split_and!; [done| | | | | |].
      * apply Forall_app. split; [done|by constructor].
      * rewrite fmap_app. apply NoDup_app. split_and!; [done| |apply NoDup_singleton]. cbn. intros x Hx ->%list_elem_of_singleton. done.
      * rewrite (pairs_middle es (mkZ k v j) []), app_nil_r; [done|]. rewrite fmap_app. apply NoDup_app. split_and!; [done| |apply NoDup_singleton]. cbn. intros x Hx ->%list_elem_of_singleton. done.
      * unfold count_up. destruct (_ <? _); [|lia]. apply Z.mod_pos_bound. lia.
      * unfold count_up, ZIPMAP_BIGLEN in *. destruct (Z.ltb_spec c 254); [|lia]. rewrite wrap_u_small; lia.
      * unfold count_up, ZIPMAP_BIGLEN in *. destruct (Z.ltb_spec c 254); [|lia]. rewrite wrap_u_small by lia. rewrite length_app. cbn. lia.
    + rewrite !len_zipmap_of, !entries_app, !entries_cons, !len_app, entries_nil, len_nil. pose proof (entry_size_free _ _ _ Hj). lia.
Qed.

Lemma del_step fresh zm m k : holds_map zm m -> len zm < 2 ^ 32 ->
  exists zm', zipmapDel fresh zm k = Ret (zm', bool_decide (is_Some (m !! k))) /\ holds_map zm' (delete k m) /\ len zm' <= len zm.
Proof.
  intros (c & es & -> & Hf & Hn & -> & Hc & Hl) Hb. destruct (decide (k ∈ zkey <$> es)) as [Hk|Hk].
  - rewrite bool_decide_eq_true_2 by (by apply lookup_pairs). destruct (zipmapDel_old fresh k c es) as (l & e & r & -> & <- & ->); [done..|]. eexists. split; [done|].
    destruct (keys_middle l e r Hn) as [Hk' Hn']. split.
    + exists (count_up c (-1)), (l ++ r). rewrite length_app in Hl. cbn in Hl. split_and!; [done| |done| | | |].
      * apply Forall_app in Hf as [H1 H2]. inversion H2; subst. by apply Forall_app.
      * rewrite pairs_middle by done. rewrite delete_insert_id; [done|]. apply not_elem_of_list_to_map_1. by rewrite pairs_fst.
      * unfold count_up. destruct (_ <? _); [|lia]. apply Z.mod_pos_bound. lia.
      * unfold count_up, ZIPMAP_BIGLEN in *. destruct (Z.ltb_spec c 254); [|lia]. rewrite wrap_u_small; lia.
      * unfold count_up, ZIPMAP_BIGLEN in *. destruct (Z.ltb_spec c 254); [|lia]. rewrite wrap_u_small by lia. rewrite length_app. lia.
    + rewrite !len_zipmap_of, !entries_app, !entries_cons, !len_app. pose proof (len_pos (enc_entry e)). lia.
  - rewrite bool_decide_eq_false_2 by (by rewrite lookup_pairs). rewrite zipmapDel_new by done. eexists. split; [done|]. split; [|lia].
    exists c, es. split_and!; try done; try lia. rewrite delete_id; [done|]. apply not_elem_of_list_to_map_1. by rewrite pairs_fst.
Qed.

Lemma len_step zm m : holds_map zm m -> len zm < 2 ^ 32 ->
  exists zm', zipmapLen zm = Ret (zm', Z.of_nat (size m)) /\ holds_map zm' m /\ len zm' = len zm.
Proof.
  intros (c & es & -> & Hf & Hn & -> & Hc & Hl) Hb. rewrite map_size by done. unfold zipmapLen. rewrite (byte_at_app _ [] c (entries es ++ [ZIPMAP_END])) by done. ret. destruct (Z.ltb_spec c ZIPMAP_BIGLEN) as [Hs|Hs].
  - rewrite <- Hl by done. eexists. split; [done|]. split; [|done]. exists c, es. split_and!; try done; lia.
  - rewrite walk_entries by done. ret. rewrite length_fmap, wrap_u_small.
    + destruct (Z.ltb_spec (Z.of_nat (length es)) ZIPMAP_BIGLEN).
      * rewrite (store_app _ [] [c] _ (entries es ++ [ZIPMAP_END])) by done. ret. eexists. split; [done|]. split; [|by rewrite !len_zipmap_of; cbn; blen].
        exists (Z.of_nat (length es)), es. split_and!; try done; lia.
      * ret. eexists. split; [done|]. split; [|done]. exists c, es. split_and!; try done; lia.
    + rewrite len_zipmap_of in Hb. pose proof (entries_length es). unfold len in Hb. lia.
Qed.

Lemma zstep_spec fresh zm m o : holds_map zm m -> len zm + zcost o < 2 ^ 32 ->
  exists zm', zstep fresh zm o = Ret (zm', (mstep m o).2) /\ holds_map zm' (mstep m o).1 /\ len zm' <= len zm + zcost o.
Proof.
  intros H Hb. destruct o as [k v|k|]; cbn [zstep mstep fst snd].
  - destruct (set_step fresh zm m k v H Hb) as (zm' & -> & H' & Hl). by exists zm'.
  - cbn in Hb. destruct (del_step fresh zm m k H) as (zm' & -> & H' & Hl); [lia|]. exists zm'. cbn. split_and!; [done..|lia].
  - cbn in Hb. destruct (len_step zm m H) as (zm' & -> & H' & Hl); [lia|]. exists zm'. cbn. split_and!; [done..|lia].
Qed.

Definition zcosts (ops : list zop) : Z := foldr (λ o n, zcost o + n) 0 ops.

Lemma zcosts_pos ops : 0 <= zcosts ops.
Proof. unfold zcosts. induction ops as [|o ops IH]; cbn; [lia|]. destruct o as [k v|k|]; cbn; try lia. pose proof (len_pos k). pose proof (len_pos v). lia. Qed.

Lemma zrun_spec fresh ops : forall zm m, holds_map zm m -> len zm + zcosts ops < 2 ^ 32 ->
  exists zm', zrun fresh zm ops = Ret (zm', (mrun m ops).2) /\ holds_map zm' (mrun m ops).1 /\ len zm' < 2 ^ 32.
Proof.
  induction ops as [|o ops IH]; intros zm m H Hb; cbn in Hb; [exists zm; split_and!; [done..|lia]|]. pose proof (zcosts_pos ops). cbn [zrun mrun].
  destruct (zstep_spec fresh zm m o H) as (zm1 & -> & H1 & Hl1); [unfold zcosts in *; lia|]. destruct (mstep m o) as [m1 a]. cbn [fst snd] in *. ret.
  destruct (IH zm1 m1 H1) as (zm2 & -> & H2 & Hl2); [unfold zcosts in *; lia|]. ret. destruct (mrun m1 ops). by exists zm2.
Qed.

Lemma new_holds : holds_map zipmapNew ∅.
Proof. exists 0, []. unfold ZIPMAP_BIGLEN. split_and!; done || constructor. Qed.

Lemma get_holds zm m k : holds_map zm m -> len zm < 2 ^ 32 -> zipmapGet zm k = Ret (m !! k) /\ zipmapExists zm k = Ret (bool_decide (is_Some (m !! k))).
Proof.
  intros (c & es & -> & Hf & Hn & -> & Hc & Hl) Hb. split.
  - destruct (decide (k ∈ zkey <$> es)) as [Hk|Hk].
    + apply list_elem_of_fmap in Hk as (e & -> & (l & r & ->)%list_elem_of_split). destruct (keys_middle l e r Hn) as [Hk' _]. rewrite zipmapGet_old.
      * by rewrite pairs_middle, lookup_insert_eq by done.
      * done.
      * done.
      * rewrite fmap_app, not_elem_of_app in Hk'. tauto.
    + unfold zipmapGet. destruct (lookupRaw_spec (Some k) false c es) as (n & -> & _); [done..|]. cbn [mbind option_bind]. rewrite (proj2 (place_None k es 1)) by done. ret.
      by rewrite (not_elem_of_list_to_map_1 (M := gmap bytes)) by (by rewrite pairs_fst).
  - unfold zipmapExists. destruct (lookupRaw_spec (Some k) false c es) as (n & -> & _); [done..|]. cbn [mbind option_bind]. ret. f_equal. apply bool_decide_ext. rewrite lookup_pairs.
    rewrite <- not_eq_None_Some, (place_None k es 1). destruct (decide (k ∈ zkey <$> es)); naive_solver.
Qed.

Lemma walk_holds zm m : holds_map zm m -> len zm < 2 ^ 32 -> (exists l, walk zm = Ret l /\ l ≡ₚ map_to_list m) /\ zipmapBlobLen zm = Ret (len zm).
Proof.
  intros (c & es & -> & Hf & Hn & -> & Hc & Hl) Hb. split.
  - eexists. split; [by apply walk_entries|]. rewrite map_to_list_to_map; [done|]. by rewrite pairs_fst.
  - unfold zipmapBlobLen. by rewrite lookupRaw_total.
Qed.

(** [C32] A zipmap is a finite map in one block of bytes.  Any sequence of settings, deletions
    and counts, from an empty map, runs without leaving the block as long as the block stays
    below 2^32 bytes, and answers what the operations on a finite map answer: whether the key was
    there, how many entries there are.  Afterwards every key reads the value the map has, the
    iterator passes every entry once, and the length of the block is the one computed from its
    bytes.  This holds for every content of the memory the allocator gives. *)
Theorem zipmap_refines_map fresh ops : 2 + zcosts ops < 2 ^ 32 ->
  exists zm, zrun fresh zipmapNew ops = Ret (zm, (mrun ∅ ops).2)
    /\ (forall k, zipmapGet zm k = Ret ((mrun ∅ ops).1 !! k) /\ zipmapExists zm k = Ret (bool_decide (is_Some ((mrun ∅ ops).1 !! k))))
    /\ (exists l, walk zm = Ret l /\ l ≡ₚ map_to_list (mrun ∅ ops).1)
    /\ zipmapBlobLen zm = Ret (len zm).
Proof.
  intros H. destruct (zrun_spec fresh ops zipmapNew ∅ new_holds) as (zm & -> & Hm & Hl); [done|]. exists zm. split; [done|]. split; [intros k; by apply get_holds|by apply walk_holds].
Qed.

Lemma zipmap_refines_map_witness :
  exists zm, zrun (λ _, 7) zipmapNew [ZSet (lit "foo") (lit "bar"); ZSet (lit "x") (lit "1"); ZSet (lit "foo") (lit "a"); ZDel (lit "x"); ZLen] = Ret (zm, [0; 0; 1; 1; 1]).
Proof.
  destruct (zipmap_refines_map (λ _, 7) [ZSet (lit "foo") (lit "bar"); ZSet (lit "x") (lit "1"); ZSet (lit "foo") (lit "a"); ZDel (lit "x"); ZLen]) as (zm & E & _).
  - vm_compute. done.
  - exists zm. rewrite E. vm_compute. done.
Defined.
