(* ===== verification/Ziplist.v ===== *)
(** * ziplist.c: lists in one block

    A list of strings and integers as one block of bytes, src/src/ziplist.c: a header with the
    size of the block, the place of the last entry and the number of entries, the entries, and
    the byte 255.  An entry begins with the size of the entry before it, in one byte or in five;
    a change of that size can spread through the list.  A pointer is an offset in the block.  The
    functions that encode give the bytes they write; with a NULL pointer the code uses only their
    number.  Byte order macros do nothing on a little endian machine. *)

From Stdlib Require Import ZArith Lia.
From stdpp Require Import base tactics numbers list strings.
From S2P Require Import Prelude Util Endian Block.

Local Open Scope Z_scope.

Definition ZIP_END : Z := 255.
Definition ZIP_BIGLEN : Z := 254.
Definition ZIP_STR_MASK : Z := 0xc0.
Definition ZIP_STR_06B : Z := Z.shiftl 0 6.
Definition ZIP_STR_14B : Z := Z.shiftl 1 6.
Definition ZIP_STR_32B : Z := Z.shiftl 2 6.
Definition ZIP_INT_16B : Z := Z.lor 0xc0 (Z.shiftl 0 4).
Definition ZIP_INT_32B : Z := Z.lor 0xc0 (Z.shiftl 1 4).
Definition ZIP_INT_64B : Z := Z.lor 0xc0 (Z.shiftl 2 4).
Definition ZIP_INT_24B : Z := Z.lor 0xc0 (Z.shiftl 3 4).
Definition ZIP_INT_8B : Z := 0xfe.
Definition ZIP_INT_IMM_MASK : Z := 0x0f.
Definition ZIP_INT_IMM_MIN : Z := 0xf1.
Definition ZIP_INT_IMM_MAX : Z := 0xfd.
Definition INT24_MAX : Z := 0x7fffff.
Definition INT24_MIN : Z := - INT24_MAX - 1.
Definition ZIP_IS_STR (enc : Z) : bool := Z.land enc ZIP_STR_MASK <? ZIP_STR_MASK.

(** ** Header *)

Definition ZIPLIST_HEADER_SIZE : Z := 4 * 2 + 2.
Definition ZIPLIST_BYTES (zl : bytes) : cres Z := x ← load zl 0 4; mret (of_mem x).
Definition ZIPLIST_TAIL_OFFSET (zl : bytes) : cres Z := x ← load zl 4 4; mret (of_mem x).
Definition ZIPLIST_LENGTH (zl : bytes) : cres Z := x ← load zl (4 * 2) 2; mret (of_mem x).
Definition set_bytes (zl : bytes) (v : Z) : cres bytes := store zl 0 (mem_of 4 (wrap_u32 v)).
Definition set_tail (zl : bytes) (v : Z) : cres bytes := store zl 4 (mem_of 4 (wrap_u32 v)).
Definition set_length (zl : bytes) (v : Z) : cres bytes := store zl (4 * 2) (mem_of 2 (wrap_u 16 v)).

Definition UINT16_MAX : Z := 2 ^ 16 - 1.

Definition ZIPLIST_INCR_LENGTH (zl : bytes) (incr : Z) : cres bytes :=
  l ← ZIPLIST_LENGTH zl; if l <? UINT16_MAX then set_length zl (l + incr) else mret zl.

(** ** Entries *)

Record zlentry := mkZl { prevrawlensize : Z; prevrawlen : Z; lensize : Z; elen : Z; headersize : Z; encoding : Z; ep : Z }.

Definition zipIntSize (encoding : Z) : Z :=
  if encoding =? ZIP_INT_8B then 1 else if encoding =? ZIP_INT_16B then 2 else if encoding =? ZIP_INT_24B then 3
  else if encoding =? ZIP_INT_32B then 4 else if encoding =? ZIP_INT_64B then 8 else 0.

Definition zipEncodeLength (encoding rawlen : Z) : bytes :=
  if ZIP_IS_STR encoding then
    if rawlen <=? 0x3f then [Z.lor ZIP_STR_06B rawlen]
    else if rawlen <=? 0x3fff then [Z.lor ZIP_STR_14B (Z.land (Z.shiftr rawlen 8) 0x3f); Z.land rawlen 0xff]
    else [ZIP_STR_32B; Z.land (Z.shiftr rawlen 24) 0xff; Z.land (Z.shiftr rawlen 16) 0xff; Z.land (Z.shiftr rawlen 8) 0xff; Z.land rawlen 0xff]
  else [encoding].

(** Encoding, size of the field, length of the payload. *)
Definition ZIP_DECODE_LENGTH (m : bytes) (p : Z) : cres (Z * Z * Z) :=
  b ← byte_at m p;
  let encoding := if b <? ZIP_STR_MASK then Z.land b ZIP_STR_MASK else b in
  if encoding <? ZIP_STR_MASK then
    if encoding =? ZIP_STR_06B then mret (encoding, 1, Z.land b 0x3f)
    else if encoding =? ZIP_STR_14B then
      b1 ← byte_at m (p + 1); mret (encoding, 2, Z.lor (Z.shiftl (Z.land b 0x3f) 8) b1)
    else if encoding =? ZIP_STR_32B then
      b1 ← byte_at m (p + 1); b2 ← byte_at m (p + 2); b3 ← byte_at m (p + 3); b4 ← byte_at m (p + 4);
      mret (encoding, 5, wrap_u32 (Z.lor (Z.lor (Z.lor (Z.shiftl b1 24) (Z.shiftl b2 16)) (Z.shiftl b3 8)) b4))
    else Exit
  else mret (encoding, 1, zipIntSize encoding).

Definition zipPrevEncodeLength (l : Z) : bytes := if l <? ZIP_BIGLEN then [l] else ZIP_BIGLEN :: mem_of 4 l.
Definition zipPrevEncodeLengthForceLarge (l : Z) : bytes := ZIP_BIGLEN :: mem_of 4 l.

Definition ZIP_DECODE_PREVLENSIZE (m : bytes) (p : Z) : cres Z := b ← byte_at m p; mret (if b <? ZIP_BIGLEN then 1 else 5).

Definition ZIP_DECODE_PREVLEN (m : bytes) (p : Z) : cres (Z * Z) :=
  s ← ZIP_DECODE_PREVLENSIZE m p;
  if s =? 1 then b ← byte_at m p; mret (s, b) else x ← load m (p + 1) 4; mret (s, of_mem x).

(** The difference of two sizes, as an [int]. *)
Definition zipPrevLenByteDiff (m : bytes) (p l : Z) : cres Z :=
  s ← ZIP_DECODE_PREVLENSIZE m p; mret (wrap_s32 (len (zipPrevEncodeLength l) - s)).

Definition zipRawEntryLength (m : bytes) (p : Z) : cres Z :=
  s ← ZIP_DECODE_PREVLENSIZE m p;
  '(_, lensize, l) ← ZIP_DECODE_LENGTH m (p + s);
  mret (wrap_u32 (s + lensize + l)).

Definition zipTryEncoding (s : bytes) : option (Z * Z) :=
  if (32 <=? len s) || (len s =? 0) then None else
  match string2ll s with
  | None => None
  | Some value =>
      Some (value,
        if (0 <=? value) && (value <=? 12) then ZIP_INT_IMM_MIN + value
        else if (- 2 ^ 7 <=? value) && (value <=? 2 ^ 7 - 1) then ZIP_INT_8B
        else if (- 2 ^ 15 <=? value) && (value <=? 2 ^ 15 - 1) then ZIP_INT_16B
        else if (INT24_MIN <=? value) && (value <=? INT24_MAX) then ZIP_INT_24B
        else if (- 2 ^ 31 <=? value) && (value <=? 2 ^ 31 - 1) then ZIP_INT_32B
        else ZIP_INT_64B)
  end.

Definition zipSaveInteger (value encoding : Z) : cres bytes :=
  if encoding =? ZIP_INT_8B then mret [wrap_u 8 value]
  else if encoding =? ZIP_INT_16B then mret (mem_of 2 (wrap_u 16 value))
  else if encoding =? ZIP_INT_24B then mret (drop 1 (mem_of 4 (wrap_u32 (Z.shiftl value 8))))
  else if encoding =? ZIP_INT_32B then mret (mem_of 4 (wrap_u32 value))
  else if encoding =? ZIP_INT_64B then mret (mem_of 8 (wrap_u64 value))
  else if (ZIP_INT_IMM_MIN <=? encoding) && (encoding <=? ZIP_INT_IMM_MAX) then mret []
  else Exit.

Definition zipLoadInteger (m : bytes) (p encoding : Z) : cres Z :=
  if encoding =? ZIP_INT_8B then b ← byte_at m p; mret (wrap_s 8 b)
  else if encoding =? ZIP_INT_16B then x ← load m p 2; mret (wrap_s 16 (of_mem x))
  else if encoding =? ZIP_INT_32B then x ← load m p 4; mret (wrap_s32 (of_mem x))
  else if encoding =? ZIP_INT_24B then x ← load m p 3; mret (Z.shiftr (wrap_s32 (of_mem (0 :: x))) 8)
  else if encoding =? ZIP_INT_64B then x ← load m p 8; mret (wrap_s64 (of_mem x))
  else if (ZIP_INT_IMM_MIN <=? encoding) && (encoding <=? ZIP_INT_IMM_MAX) then mret (Z.land encoding ZIP_INT_IMM_MASK - 1)
  else Exit.

Definition zipEntry (m : bytes) (p : Z) : cres zlentry :=
  '(s, prev) ← ZIP_DECODE_PREVLEN m p;
  '(enc, lensize, l) ← ZIP_DECODE_LENGTH m (p + s);
  mret (mkZl s prev lensize l (wrap_u32 (s + lensize)) enc p).

(** [e.headersize + e.len] *)
Definition rawlen_of (e : zlentry) : Z := wrap_u32 (headersize e + elen e).

(** ** The list *)

Definition ziplistNew : bytes := mem_of 4 (ZIPLIST_HEADER_SIZE + 1) ++ mem_of 4 ZIPLIST_HEADER_SIZE ++ mem_of 2 0 ++ [ZIP_END].

Section Ziplist.
Context (fresh : nat -> Z).

Definition ziplistResize (zl : bytes) (n : Z) : cres bytes :=
  zl ← set_bytes (realloc fresh zl n) n; store zl (n - 1) [ZIP_END].

(** The loop of [__ziplistCascadeUpdate]. *)
Fixpoint cascade_loop (fuel : nat) (zl : bytes) (p curlen : Z) : cres bytes :=
  match fuel with
  | O => Undef
  | S fuel =>
      b ← byte_at zl p;
      if b =? ZIP_END then mret zl else
      cur ← zipEntry zl p;
      let rawlen := rawlen_of cur in
      let rawlensize := len (zipPrevEncodeLength rawlen) in
      b ← byte_at zl (p + rawlen);
      if b =? ZIP_END then mret zl else
      next ← zipEntry zl (p + rawlen);
      if prevrawlen next =? rawlen then mret zl else
      if prevrawlensize next <? rawlensize then
        let extra := rawlensize - prevrawlensize next in
        zl ← ziplistResize zl (wrap_u32 (curlen + extra));
        let np := p + rawlen in
        t ← ZIPLIST_TAIL_OFFSET zl;
        zl ← (if negb (t =? np) then set_tail zl (t + extra) else mret zl);
        zl ← memmove zl (np + rawlensize) (np + prevrawlensize next) (wrap_u64 (curlen - np - prevrawlensize next - 1));
        zl ← store zl np (zipPrevEncodeLength rawlen);
        cascade_loop fuel zl np (curlen + extra)
      else
        store zl (p + rawlen) (if rawlensize <? prevrawlensize next then zipPrevEncodeLengthForceLarge rawlen else zipPrevEncodeLength rawlen)
  end.

(** Every round passes an entry. *)
Definition ziplistCascadeUpdate (zl : bytes) (p : Z) : cres bytes :=
  curlen ← ZIPLIST_BYTES zl; cascade_loop (S (length zl)) zl p curlen.

(** [for (i = 0; p[0] != ZIP_END && i < num; i++)] *)
Fixpoint delete_loop (fuel : nat) (zl : bytes) (p i num deleted : Z) : cres (Z * Z) :=
  match fuel with
  | O => Undef
  | S fuel =>
      b ← byte_at zl p;
      if negb (b =? ZIP_END) && (i <? num) then
        n ← zipRawEntryLength zl p; delete_loop fuel zl (p + n) (i + 1) num (deleted + 1)
      else mret (p, deleted)
  end.

(** Moving the entries from [p] on over those that are deleted: the block, [nextdiff]. *)
Definition delete_move (zl : bytes) (first : zlentry) (p totlen : Z) : cres (bytes * Z) :=
  b ← byte_at zl p;
  if negb (b =? ZIP_END) then
    nextdiff ← zipPrevLenByteDiff zl p (prevrawlen first);
    let p := p - nextdiff in
    zl ← store zl p (zipPrevEncodeLength (prevrawlen first));
    t ← ZIPLIST_TAIL_OFFSET zl;
    zl ← set_tail zl (t - totlen);
    tail ← zipEntry zl p;
    b ← byte_at zl (p + rawlen_of tail);
    zl ← (if negb (b =? ZIP_END) then t ← ZIPLIST_TAIL_OFFSET zl; set_tail zl (t + nextdiff) else mret zl);
    n ← ZIPLIST_BYTES zl;
    zl ← memmove zl (ep first) p (wrap_u64 (n - p - 1));
    mret (zl, nextdiff)
  else
    zl ← set_tail zl (ep first - prevrawlen first);
    mret (zl, 0).

(** [__ziplistDelete] *)
Definition ziplist_delete (zl : bytes) (p num : Z) : cres bytes :=
  first ← zipEntry zl p;
  '(p, deleted) ← delete_loop (S (length zl)) zl p 0 num 0;
  let totlen := wrap_u32 (p - ep first) in
  if 0 <? totlen then
    '(zl, nextdiff) ← delete_move zl first p totlen;
    n ← ZIPLIST_BYTES zl;
    zl ← ziplistResize zl (wrap_u32 (n - totlen + nextdiff));
    zl ← ZIPLIST_INCR_LENGTH zl (- deleted);
    if negb (nextdiff =? 0) then ziplistCascadeUpdate zl (ep first) else mret zl
  else mret zl.

(** The size of the entry before [p]. *)
Definition insert_prevlen (zl : bytes) (p : Z) : cres Z :=
  b ← byte_at zl p;
  if negb (b =? ZIP_END) then entry ← zipEntry zl p; mret (prevrawlen entry)
  else
    ptail ← ZIPLIST_TAIL_OFFSET zl;
    b ← byte_at zl ptail;
    if negb (b =? ZIP_END) then zipRawEntryLength zl ptail else mret 0.

(** Making room for [reqlen] bytes at [p]. *)
Definition insert_room (zl : bytes) (p curlen reqlen nextdiff : Z) : cres bytes :=
  zl ← ziplistResize zl (wrap_u32 (curlen + reqlen + nextdiff));
  b ← byte_at zl p;
  if negb (b =? ZIP_END) then
    zl ← memmove zl (p + reqlen) (p - nextdiff) (wrap_u64 (curlen - p - 1 + nextdiff));
    zl ← store zl (p + reqlen) (zipPrevEncodeLength (wrap_u32 reqlen));
    t ← ZIPLIST_TAIL_OFFSET zl;
    zl ← set_tail zl (t + reqlen);
    tail ← zipEntry zl (p + reqlen);
    b ← byte_at zl (p + (reqlen + headersize tail + elen tail));
    if negb (b =? ZIP_END) then t ← ZIPLIST_TAIL_OFFSET zl; set_tail zl (t + nextdiff) else mret zl
  else set_tail zl p.

(** Room for [reqlen] bytes at [p], with the entries behind it brought up to date. *)
Definition insert_space (zl : bytes) (p curlen reqlen : Z) : cres bytes :=
  b ← byte_at zl p;
  nextdiff ← (if negb (b =? ZIP_END) then zipPrevLenByteDiff zl p (wrap_u32 reqlen) else mret 0);
  zl ← insert_room zl p curlen reqlen nextdiff;
  if negb (nextdiff =? 0) then ziplistCascadeUpdate zl (p + reqlen) else mret zl.

(** "Write the entry" *)
Definition insert_write (zl : bytes) (p prevlen value enc : Z) (s : bytes) : cres bytes :=
  zl ← store zl p (zipPrevEncodeLength prevlen);
  let p := p + len (zipPrevEncodeLength prevlen) in
  zl ← store zl p (zipEncodeLength enc (len s));
  let p := p + len (zipEncodeLength enc (len s)) in
  if ZIP_IS_STR enc then store zl p s else x ← zipSaveInteger value enc; store zl p x.

(** [__ziplistInsert] *)
Definition ziplist_insert (zl : bytes) (p : Z) (s : bytes) : cres bytes :=
  curlen ← ZIPLIST_BYTES zl;
  prevlen ← insert_prevlen zl p;
  let '(value, enc, reqlen) := match zipTryEncoding s with Some (v, enc) => (v, enc, zipIntSize enc) | None => (123456789, 0, len s) end in
  let reqlen := reqlen + len (zipPrevEncodeLength prevlen) in
  let reqlen := reqlen + len (zipEncodeLength enc (len s)) in
  zl ← insert_space zl p curlen reqlen;
  zl ← insert_write zl p prevlen value enc s;
  ZIPLIST_INCR_LENGTH zl 1.

Definition ziplistInsert (zl : bytes) (p : Z) (s : bytes) : cres bytes := ziplist_insert zl p s.

(** [head]: [where == ZIPLIST_HEAD]. *)
Definition ziplistPush (zl s : bytes) (head : bool) : cres bytes :=
  p ← (if head then mret ZIPLIST_HEADER_SIZE else n ← ZIPLIST_BYTES zl; mret (n - 1));
  ziplist_insert zl p s.

(** The block and the offset of the entry behind the deleted one. *)
Definition ziplistDelete (zl : bytes) (p : Z) : cres (bytes * Z) := zl ← ziplist_delete zl p 1; mret (zl, p).
End Ziplist.

(** [while (p[0] != ZIP_END && index--)] *)
Fixpoint index_loop (fuel : nat) (zl : bytes) (p index : Z) : cres (Z * Z) :=
  match fuel with
  | O => Undef
  | S fuel =>
      b ← byte_at zl p;
      if b =? ZIP_END then mret (p, index)
      else if index =? 0 then mret (p, index - 1)
      else n ← zipRawEntryLength zl p; index_loop fuel zl (p + n) (index - 1)
  end.

(** [while (entry.prevrawlen > 0 && index--)] *)
Fixpoint index_back (fuel : nat) (zl : bytes) (p index : Z) : cres (Z * Z) :=
  match fuel with
  | O => Undef
  | S fuel =>
      entry ← zipEntry zl p;
      if 0 <? prevrawlen entry then
        if index =? 0 then mret (p, index - 1) else index_back fuel zl (p - prevrawlen entry) (index - 1)
      else mret (p, index)
  end.

(** [-index] overflows for the least [int]. *)
Definition ziplistIndex (zl : bytes) (index : Z) : cres (option Z) :=
  '(p, index) ← (if index <? 0 then
      _ ← require (- 2 ^ 31 <? index);
      let index := - index - 1 in
      p ← ZIPLIST_TAIL_OFFSET zl;
      b ← byte_at zl p;
      if negb (b =? ZIP_END) then index_back (S (length zl)) zl p index else mret (p, index)
    else index_loop (S (length zl)) zl ZIPLIST_HEADER_SIZE index);
  b ← byte_at zl p;
  mret (if (b =? ZIP_END) || (0 <? index) then None else Some p).

(** The index is converted from [unsigned int] to [int]. *)
Definition ziplistDeleteRange (fresh : nat -> Z) (zl : bytes) (index num : Z) : cres bytes :=
  p ← ziplistIndex zl (wrap_s32 index);
  match p with None => mret zl | Some p => ziplist_delete fresh zl p num end.

Definition ziplistNext (zl : bytes) (p : Z) : cres (option Z) :=
  b ← byte_at zl p;
  if b =? ZIP_END then mret None else
  n ← zipRawEntryLength zl p;
  let p := p + n in
  b ← byte_at zl p;
  mret (if b =? ZIP_END then None else Some p).

Definition ziplistPrev (zl : bytes) (p : Z) : cres (option Z) :=
  b ← byte_at zl p;
  if b =? ZIP_END then
    p ← ZIPLIST_TAIL_OFFSET zl; b ← byte_at zl p; mret (if b =? ZIP_END then None else Some p)
  else if p =? ZIPLIST_HEADER_SIZE then mret None
  else
    entry ← zipEntry zl p;
    _ ← prez_assert (0 <? prevrawlen entry);
    mret (Some (p - prevrawlen entry)).

(** What an entry holds: a string, or an integer. *)
Inductive zvalue := ZStr (s : bytes) | ZInt (v : Z).

(** [p] is [None] for NULL; the result is [None] for 0.  A string is the bytes its pointer points
    to. *)
Definition ziplistGet (zl : bytes) (p : option Z) : cres (option zvalue) :=
  match p with
  | None => mret None
  | Some p =>
      b ← byte_at zl p;
      if b =? ZIP_END then mret None else
      entry ← zipEntry zl p;
      if ZIP_IS_STR (encoding entry) then s ← load zl (p + headersize entry) (elen entry); mret (Some (ZStr s))
      else v ← zipLoadInteger zl (p + headersize entry) (encoding entry); mret (Some (ZInt v))
  end.

Definition ziplistCompare (zl : bytes) (p : Z) (s : bytes) : cres bool :=
  b ← byte_at zl p;
  if b =? ZIP_END then mret false else
  entry ← zipEntry zl p;
  if ZIP_IS_STR (encoding entry) then
    if elen entry =? len s then x ← load zl (p + headersize entry) (len s); mret (bool_decide (x = s)) else mret false
  else
    match zipTryEncoding s with
    | Some (sval, _) => zval ← zipLoadInteger zl (p + headersize entry) (encoding entry); mret (zval =? sval)
    | None => mret false
    end.

(** The loop of [ziplistFind]; [tried] is [vencoding != 0], [vll] the integer when there is one
    ([vencoding != UCHAR_MAX]). *)
Fixpoint find_loop (fuel : nat) (zl : bytes) (p : Z) (s : bytes) (skip skipcnt : Z) (tried : bool) (vll : option Z) : cres (option Z) :=
  match fuel with
  | O => Undef
  | S fuel =>
      b ← byte_at zl p;
      if b =? ZIP_END then mret None else
      prevlensize ← ZIP_DECODE_PREVLENSIZE zl p;
      '(enc, lensize, l) ← ZIP_DECODE_LENGTH zl (p + prevlensize);
      let q := p + prevlensize + lensize in
      if skipcnt =? 0 then
        if ZIP_IS_STR enc then
          hit ← (if l =? len s then x ← load zl q (len s); mret (bool_decide (x = s)) else mret false);
          if (hit : bool) then mret (Some p) else find_loop fuel zl (q + l) s skip skip tried vll
        else
          let vll := if tried then vll else fst <$> zipTryEncoding s in
          hit ← match vll with Some v => ll ← zipLoadInteger zl q enc; mret (ll =? v) | None => mret false end;
          if (hit : bool) then mret (Some p) else find_loop fuel zl (q + l) s skip skip true vll
      else find_loop fuel zl (q + l) s skip (skipcnt - 1) tried vll
  end.

Definition ziplistFind (zl : bytes) (p : Z) (s : bytes) (skip : Z) : cres (option Z) := find_loop (S (length zl)) zl p s skip 0 false None.

Fixpoint len_loop (fuel : nat) (zl : bytes) (p n : Z) : cres Z :=
  match fuel with
  | O => Undef
  | S fuel =>
      b ← byte_at zl p;
      if b =? ZIP_END then mret n else r ← zipRawEntryLength zl p; len_loop fuel zl (p + r) (n + 1)
  end.

(** The list with its length written back, and the number of entries. *)
Definition ziplistLen (zl : bytes) : cres (bytes * Z) :=
  l ← ZIPLIST_LENGTH zl;
  if l <? UINT16_MAX then mret (zl, l) else
  n ← len_loop (S (length zl)) zl ZIPLIST_HEADER_SIZE 0;
  zl ← (if n <? UINT16_MAX then set_length zl n else mret zl);
  mret (zl, n).

Definition ziplistBlobLen (zl : bytes) : cres Z := ZIPLIST_BYTES zl.
