(* ===== verification/ZiplistFacts.v ===== *)
(** * The entries of a ziplist

    Encoding and decoding of the entries of [Ziplist]: an entry is the size of the entry before
    it, the header of its content and the content. *)

From Stdlib Require Import ZArith Lia.
From stdpp Require Import base tactics numbers list strings.
From S2P Require Import Prelude Util Endian Block Ziplist.

Local Open Scope Z_scope.

(** ** Content *)

Definition enc_of (s : bytes) : Z :=
  match zipTryEncoding s with
  | Some (_, e) => e
  | None => if len s <=? 0x3f then ZIP_STR_06B else if len s <=? 0x3fff then ZIP_STR_14B else ZIP_STR_32B
  end.

Definition hdr (s : bytes) : bytes := zipEncodeLength (match zipTryEncoding s with Some (_, e) => e | None => 0 end) (len s).

Definition pay (s : bytes) : bytes := match zipTryEncoding s with Some (v, e) => match zipSaveInteger v e with Ret x => x | _ => [] end | None => s end.

Definition body (s : bytes) : bytes := hdr s ++ pay s.

(** Reading back an integer. *)
Definition loads (x : bytes) (e v : Z) : Prop := forall m a c p, m = a ++ x ++ c -> p = len a -> zipLoadInteger m p e = Ret v.

Definition saves (v e : Z) : Prop := exists x, zipSaveInteger v e = Ret x /\ len x = zipIntSize e /\ loads x e v.

Lemma len_mem n v : len (mem_of n v) = Z.of_nat n.
Proof. unfold len. by rewrite mem_of_length. Qed.

Lemma wrap_s_u w v : 0 < w -> - 2 ^ (w - 1) <= v < 2 ^ (w - 1) -> wrap_s w (wrap_u w v) = v.
Proof.
  intros Hw Hv. rewrite <- (wrap_s_small w v) at 2 by lia. unfold wrap_s, wrap_u. by rewrite Z.add_mod_idemp_l by lia.
Qed.

Lemma of_mem_wrap n w v : w = 8 * Z.of_nat n -> of_mem (mem_of n (wrap_u w v)) = wrap_u w v.
Proof. intros ->. apply of_mem_of. apply Z.mod_pos_bound. lia. Qed.

Lemma saves_8 v : - 2 ^ 7 <= v <= 2 ^ 7 - 1 -> saves v ZIP_INT_8B.
Proof.
  intros Hv. eexists. split; [done|]. split; [done|]. intros m a c p -> ->. unfold zipLoadInteger. cbn [Z.eqb]. change (ZIP_INT_8B =? ZIP_INT_8B) with true. cbn iota.
  erewrite byte_at_app by done. ret. rewrite wrap_s_u by lia. done.
Qed.

Lemma saves_words n e v : (n = 2 /\ e = ZIP_INT_16B \/ n = 4 /\ e = ZIP_INT_32B \/ n = 8 /\ e = ZIP_INT_64B)%nat ->
  - 2 ^ (8 * Z.of_nat n - 1) <= v < 2 ^ (8 * Z.of_nat n - 1) -> saves v e.
Proof.
  intros H Hv. exists (mem_of n (wrap_u (8 * Z.of_nat n) v)).
  destruct H as [[-> ->]|[[-> ->]|[-> ->]]]; (split; [reflexivity|]; split; [by rewrite len_mem|]; intros m a c p -> ->; unfold zipLoadInteger).
  all: repeat match goal with |- context [?x =? ?y] => let b := eval vm_compute in (x =? y) in change (x =? y) with b end; cbn iota.
  all: rewrite (load_app _ a _ c) by (done || by rewrite len_mem); ret.
  all: rewrite of_mem_wrap by done; rewrite wrap_s_u by lia; done.
Qed.

Lemma saves_24 v : INT24_MIN <= v <= INT24_MAX -> saves v ZIP_INT_24B.
Proof.
  intros Hv. unfold INT24_MIN, INT24_MAX in Hv. exists (drop 1 (mem_of 4 (wrap_u32 (Z.shiftl v 8)))). split; [done|]. split; [done|]. intros m a c p -> ->.
  unfold zipLoadInteger. change (ZIP_INT_24B =? ZIP_INT_8B) with false. change (ZIP_INT_24B =? ZIP_INT_16B) with false. change (ZIP_INT_24B =? ZIP_INT_32B) with false.
  change (ZIP_INT_24B =? ZIP_INT_24B) with true. cbn iota. erewrite load_app; [|reflexivity|done|done]. ret.
  assert (0 :: drop 1 (mem_of 4 (wrap_u32 (Z.shiftl v 8))) = mem_of 4 (wrap_u32 (Z.shiftl v 8))) as ->.
  { cbn [mem_of drop]. f_equal. unfold wrap_u. rewrite Z.shiftl_mul_pow2 by lia. change (2 ^ 32) with (2 ^ 24 * 2 ^ 8). rewrite Z.mul_mod_distr_r by lia. symmetry. by apply Z.mod_mul. }
  rewrite of_mem_wrap by done. rewrite wrap_s_u by (rewrite ?Z.shiftl_mul_pow2; lia). rewrite Z.shiftr_shiftl_l by lia. f_equal.
Qed.

Lemma saves_imm v : 0 <= v <= 12 -> saves v (ZIP_INT_IMM_MIN + v).
Proof.
  intros Hv. assert (v ∈ seqZ 0 13) as H by (apply elem_of_seqZ; lia). change (seqZ 0 13) with [0; 1; 2; 3; 4; 5; 6; 7; 8; 9; 10; 11; 12] in H.
  exists []. repeat (apply elem_of_cons in H as [->|H]; [split; [done|]; split; [done|]; intros m a c p -> ->; done|]). by apply not_elem_of_nil in H.
Qed.

Lemma try_encoding s v e : zipTryEncoding s = Some (v, e) -> string2ll s = Some v /\ ZIP_STR_MASK <= e < ZIP_END /\ saves v e.
Proof.
  unfold zipTryEncoding. destruct (_ || _); [done|]. destruct (string2ll s) as [v'|] eqn:E; [|done]. intros [= -> <-]. split; [done|].
  apply string2ll_iff in E as [Hv _]. unfold in_s64, LLONG_MIN, LLONG_MAX in Hv.
  destruct ((0 <=? v) && (v <=? 12)) eqn:E1; [split; [unfold ZIP_STR_MASK, ZIP_END, ZIP_INT_IMM_MIN; lia|apply saves_imm; lia]|].
  destruct ((- 2 ^ 7 <=? v) && _) eqn:E2; [split; [done|apply saves_8; lia]|].
  destruct ((- 2 ^ 15 <=? v) && _) eqn:E3; [split; [done|apply (saves_words 2); [auto|lia]]|].
  destruct ((INT24_MIN <=? v) && _) eqn:E4; [split; [done|apply saves_24; lia]|].
  destruct ((- 2 ^ 31 <=? v) && _) eqn:E5; [split; [done|apply (saves_words 4); [auto|lia]]|].
  split; [done|apply (saves_words 8); [auto|lia]].
Qed.

(** Integer encodings are those from 0xc0 on. *)
Lemma is_str_int e : ZIP_STR_MASK <= e < ZIP_END -> ZIP_IS_STR e = false.
Proof.
  unfold ZIP_STR_MASK, ZIP_END. intros He. assert (forallb (λ e, negb (ZIP_IS_STR e)) (seqZ 192 63) = true) as H by (vm_compute; done).
  rewrite forallb_forall in H. specialize (H e). rewrite <- list_elem_of_In in H. apply negb_true_iff, H, elem_of_seqZ. lia.
Qed.

(** Lengths of strings, in one, two and five bytes. *)
Lemma len_06 n : 0 <= n <= 0x3f -> let b := Z.lor ZIP_STR_06B n in (b <? ZIP_STR_MASK) = true /\ Z.land b ZIP_STR_MASK = ZIP_STR_06B /\ Z.land b 0x3f = n.
Proof.
  intros Hn. assert (forallb (λ n, let b := Z.lor ZIP_STR_06B n in (b <? ZIP_STR_MASK) && (Z.land b ZIP_STR_MASK =? ZIP_STR_06B) && (Z.land b 0x3f =? n)) (seqZ 0 64) = true) as H by (vm_compute; done).
  rewrite forallb_forall in H. specialize (H n). rewrite <- list_elem_of_In, elem_of_seqZ in H. specialize (H ltac:(lia)). cbn zeta in *. lia.
Qed.

Lemma len_14 n : 0 <= n <= 0x3fff -> let b := Z.lor ZIP_STR_14B (Z.land (Z.shiftr n 8) 0x3f) in
  (b <? ZIP_STR_MASK) = true /\ Z.land b ZIP_STR_MASK = ZIP_STR_14B /\ Z.lor (Z.shiftl (Z.land b 0x3f) 8) (Z.land n 0xff) = n.
Proof.
  intros Hn. assert (forallb (λ n, let b := Z.lor ZIP_STR_14B (Z.land (Z.shiftr n 8) 0x3f) in
    (b <? ZIP_STR_MASK) && (Z.land b ZIP_STR_MASK =? ZIP_STR_14B) && (Z.lor (Z.shiftl (Z.land b 0x3f) 8) (Z.land n 0xff) =? n)) (seqZ 0 16384) = true) as H by (vm_compute; done).
  rewrite forallb_forall in H. specialize (H n). rewrite <- list_elem_of_In, elem_of_seqZ in H. specialize (H ltac:(lia)). cbn zeta in *. lia.
Qed.

Lemma len_32 n : 0 <= n < 2 ^ 32 ->
  wrap_u32 (Z.lor (Z.lor (Z.lor (Z.shiftl (Z.land (Z.shiftr n 24) 0xff) 24) (Z.shiftl (Z.land (Z.shiftr n 16) 0xff) 16)) (Z.shiftl (Z.land (Z.shiftr n 8) 0xff) 8)) (Z.land n 0xff)) = n.
Proof.
  intros Hn. rewrite <- (Z.mod_small n (2 ^ 32)) at 5 by done. apply Z.bits_inj'. intros i Hi. unfold wrap_u. destruct (Z_lt_le_dec i 32); [|by rewrite !Z.mod_pow2_bits_high by lia].
  rewrite !Z.mod_pow2_bits_low by lia. change 0xff with (Z.ones 8). rewrite !Z.lor_spec, !Z.shiftl_spec, !Z.land_spec by lia.
  destruct (Z_lt_le_dec i 8), (Z_lt_le_dec i 16), (Z_lt_le_dec i 24); try lia.
  all: rewrite ?(Z.testbit_neg_r (Z.shiftr _ _)), ?(Z.testbit_neg_r (Z.ones _)) by lia; rewrite ?Z.shiftr_spec by lia.
  all: rewrite ?Z.testbit_ones by lia; repeat match goal with |- context [?a <=? ?b] => destruct (Z.leb_spec a b); try lia | |- context [?a <? ?b] => destruct (Z.ltb_spec a b); try lia end.
  all: cbn; rewrite ?andb_true_r, ?andb_false_r, ?orb_false_r; try done; f_equal; lia.
Qed.

Lemma decode_length m a s c p : m = a ++ hdr s ++ c -> p = len a -> len s < 2 ^ 32 -> ZIP_DECODE_LENGTH m p = Ret (enc_of s, len (hdr s), len (pay s)).
Proof.
  intros -> -> Hs. pose proof (len_pos s). unfold ZIP_DECODE_LENGTH, hdr, enc_of, pay, zipEncodeLength. destruct (zipTryEncoding s) as [[v e]|] eqn:E.
  - apply try_encoding in E as (_ & He & x & -> & Hx & _). rewrite is_str_int by done. cbn iota. cbn [app]. rewrite (byte_at_app _ a e c _ eq_refl eq_refl). ret.
    rewrite !(proj2 (Z.ltb_ge e ZIP_STR_MASK)) by lia. by rewrite Hx.
  - change (ZIP_IS_STR 0) with true. cbn iota. destruct (Z.leb_spec (len s) 0x3f); [|destruct (Z.leb_spec (len s) 0x3fff)].
    + destruct (len_06 (len s)) as (E1 & E2 & E3); [lia|]. cbn [app]. rewrite (byte_at_app _ a (Z.lor ZIP_STR_06B (len s)) c _ eq_refl eq_refl). ret. rewrite E1, E2, E3. done.
    + destruct (len_14 (len s)) as (E1 & E2 & E3); [lia|]. cbn [app]. rewrite (byte_at_app _ a _ (Z.land (len s) 0xff :: c) _ eq_refl eq_refl). ret. rewrite E1, E2.
      rewrite (byte_at_app _ (a ++ [Z.lor ZIP_STR_14B (Z.land (Z.shiftr (len s) 8) 63)]) (Z.land (len s) 0xff) c); [|bapp|blen]. ret. by rewrite E3.
    + set (b1 := Z.land (Z.shiftr (len s) 24) 0xff). set (b2 := Z.land (Z.shiftr (len s) 16) 0xff). set (b3 := Z.land (Z.shiftr (len s) 8) 0xff). set (b4 := Z.land (len s) 0xff). cbn [app].
      rewrite (byte_at_app _ a ZIP_STR_32B (b1 :: b2 :: b3 :: b4 :: c) _ eq_refl eq_refl). ret. cbn.
      rewrite (byte_at_app _ (a ++ [ZIP_STR_32B]) b1 (b2 :: b3 :: b4 :: c) (len a + 1)); [|bapp|blen]. ret.
      rewrite (byte_at_app _ (a ++ [ZIP_STR_32B; b1]) b2 (b3 :: b4 :: c) (len a + 2)); [|bapp|blen]. ret.
      rewrite (byte_at_app _ (a ++ [ZIP_STR_32B; b1; b2]) b3 (b4 :: c) (len a + 3)); [|bapp|blen]. ret.
      rewrite (byte_at_app _ (a ++ [ZIP_STR_32B; b1; b2; b3]) b4 c (len a + 4)); [|bapp|blen]. ret. unfold b1, b2, b3, b4. by rewrite len_32 by lia.
Qed.

Lemma len_hdr s : 1 <= len (hdr s) <= 5.
Proof. unfold hdr, zipEncodeLength. destruct (ZIP_IS_STR _); [|done]. destruct (_ <=? _); [done|]. by destruct (_ <=? _). Qed.

Lemma hdr_head s : exists b x, hdr s = b :: x.
Proof. unfold hdr, zipEncodeLength. destruct (ZIP_IS_STR _); [|by eexists _, _]. destruct (_ <=? _); [by eexists _, _|]. destruct (_ <=? _); by eexists _, _. Qed.

Lemma len_body s : len (body s) = len (hdr s) + len (pay s).
Proof. apply len_app. Qed.

Lemma text_small s : len (body s) < 2 ^ 32 -> len s < 2 ^ 32.
Proof.
  rewrite len_body. pose proof (len_hdr s). intros H1. unfold pay in H1. destruct (zipTryEncoding s) eqn:E; [|lia].
  unfold zipTryEncoding in E. destruct ((32 <=? len s) || (len s =? 0)) eqn:E'; [done|]. lia.
Qed.

(** ** Entries *)

(** A text, and whether the size of the entry before has five bytes. *)
Record zent := mkE { big : bool; text : bytes }.

Definition field (b : bool) (q : Z) : bytes := if b then zipPrevEncodeLengthForceLarge q else [q].
Definition fsize (b : bool) : Z := if b then 5 else 1.
Definition esize (e : zent) : Z := fsize (big e) + len (body (text e)).
Definition ent (q : Z) (e : zent) : bytes := field (big e) q ++ body (text e).

(** The size [q] fits into the field of [e]. *)
Definition takes (q : Z) (e : zent) : Prop := 0 <= q < 2 ^ 32 /\ (big e = false -> q < ZIP_BIGLEN).

Definition zl_entry (q : Z) (e : zent) (p : Z) : zlentry :=
  mkZl (fsize (big e)) q (len (hdr (text e))) (len (pay (text e))) (fsize (big e) + len (hdr (text e))) (enc_of (text e)) p.

Lemma len_field b q : len (field b q) = fsize b.
Proof. destruct b; [|done]. unfold field, zipPrevEncodeLengthForceLarge. by rewrite len_cons, len_mem. Qed.

Lemma fsize_cases b : fsize b = 5 /\ b = true \/ fsize b = 1 /\ b = false.
Proof. destruct b; auto. Qed.

Lemma len_ent q e : len (ent q e) = esize e.
Proof. unfold ent, esize. by rewrite len_app, len_field. Qed.

Lemma esize_pos e : 2 <= esize e.
Proof. unfold esize. rewrite len_body. pose proof (len_hdr (text e)). pose proof (len_pos (pay (text e))). destruct (fsize_cases (big e)); lia. Qed.

Lemma prev_field l : zipPrevEncodeLength l = field (ZIP_BIGLEN <=? l) l.
Proof. unfold zipPrevEncodeLength, field. destruct (Z.ltb_spec l ZIP_BIGLEN), (Z.leb_spec ZIP_BIGLEN l); done || lia. Qed.

Lemma field_head b q : (b = false -> q < ZIP_BIGLEN) -> exists x y, field b q = x :: y /\ x <> ZIP_END /\ (x <? ZIP_BIGLEN) = negb b.
Proof. unfold ZIP_BIGLEN, ZIP_END. destruct b; intros H; [by eexists _, _|]. exists q, []. specialize (H eq_refl). split_and!; [done|lia|]. by apply Z.ltb_lt. Qed.

Section Entry.
Context (m a : bytes) (q : Z) (e : zent) (c : bytes) (p : Z).
Hypotheses (Em : m = a ++ ent q e ++ c) (Ep : p = len a) (He : takes q e) (Hs : esize e < 2 ^ 32).

Lemma first_byte : exists b, byte_at m p = Ret b /\ b <> ZIP_END /\ (b <? ZIP_BIGLEN) = negb (big e).
Proof.
  destruct (field_head (big e) q) as (x & y & E & H); [apply He|]. exists x. split; [|done].
  apply (byte_at_app _ a x (y ++ body (text e) ++ c)); [|done]. rewrite Em. unfold ent. rewrite E. bapp.
Qed.

Lemma prevlensize_at : ZIP_DECODE_PREVLENSIZE m p = Ret (fsize (big e)).
Proof. unfold ZIP_DECODE_PREVLENSIZE. destruct first_byte as (b & -> & _ & Hb). ret. rewrite Hb. by destruct (big e). Qed.

Lemma content_at : ZIP_DECODE_LENGTH m (p + fsize (big e)) = Ret (enc_of (text e), len (hdr (text e)), len (pay (text e))).
Proof.
  apply (decode_length _ (a ++ field (big e) q) _ (pay (text e) ++ c)).
  - rewrite Em. unfold ent, body. bapp.
  - rewrite len_app, len_field. lia.
  - apply text_small. unfold esize in Hs. destruct (fsize_cases (big e)); lia.
Qed.

Lemma entry_at : zipEntry m p = Ret (zl_entry q e p).
Proof.
  unfold zipEntry, ZIP_DECODE_PREVLEN. rewrite prevlensize_at. ret. pose proof content_at as Hc. unfold esize in Hs. rewrite len_body in Hs. pose proof (len_hdr (text e)). pose proof (len_pos (pay (text e))).
  unfold zl_entry. destruct He as [Hq Hb]. unfold ent in Em. destruct (big e); cbn [fsize field] in *.
  - change (5 =? 1) with false. cbn iota. rewrite (load_app _ (a ++ [ZIP_BIGLEN]) (mem_of 4 q) (body (text e) ++ c)); [|rewrite Em; unfold zipPrevEncodeLengthForceLarge; bapp|blen|by rewrite len_mem]. ret.
    rewrite of_mem_of, Hc by done. ret. by rewrite wrap_u_small by lia.
  - change (1 =? 1) with true. cbn iota. rewrite (byte_at_app _ a q (body (text e) ++ c) p); [|rewrite Em; bapp|done]. ret. rewrite Hc. ret. by rewrite wrap_u_small by lia.
Qed.

Lemma raw_length_at : zipRawEntryLength m p = Ret (esize e).
Proof.
  unfold zipRawEntryLength. rewrite prevlensize_at. ret. rewrite content_at. ret. unfold esize in *. rewrite len_body in *. pose proof (len_hdr (text e)). pose proof (len_pos (pay (text e))).
  destruct (fsize_cases (big e)); rewrite wrap_u_small by lia; f_equal; lia.
Qed.

Lemma prev_diff_at l : zipPrevLenByteDiff m p l = Ret (fsize (ZIP_BIGLEN <=? l) - fsize (big e)).
Proof. unfold zipPrevLenByteDiff. rewrite prevlensize_at. ret. rewrite prev_field, len_field. by destruct (ZIP_BIGLEN <=? l), (big e). Qed.
End Entry.

Lemma rawlen_entry q e p : esize e < 2 ^ 32 -> rawlen_of (zl_entry q e p) = esize e.
Proof.
  intros H. unfold rawlen_of, zl_entry, esize in *. cbn [headersize elen]. rewrite len_body in *. pose proof (len_hdr (text e)). pose proof (len_pos (pay (text e))).
  destruct (fsize_cases (big e)); rewrite wrap_u_small by lia; lia.
Qed.

(** ** Layout *)

(** The entries, when the size of the entry before the first is [q]. *)
Fixpoint layout (q : Z) (es : list zent) : bytes := match es with [] => [] | e :: es => ent q e ++ layout (esize e) es end.

Fixpoint wf (q : Z) (es : list zent) : Prop := match es with [] => True | e :: es => takes q e /\ wf (esize e) es end.

Definition total (es : list zent) : Z := foldr (λ e n, esize e + n) 0 es.

(** Where the last entry begins. *)
Fixpoint last_off (es : list zent) : Z := match es with e :: (_ :: _) as es => esize e + last_off es | _ => 0 end.

Lemma len_layout es : forall q, len (layout q es) = total es.
Proof. induction es as [|e es IH]; intros q; [done|]. cbn [layout total foldr]. rewrite len_app, len_ent, IH. done. Qed.

Lemma total_cons e es : total (e :: es) = esize e + total es.
Proof. done. Qed.

Lemma total_pos es : 0 <= total es.
Proof. rewrite <- (len_layout es 0). apply len_pos. Qed.

Lemma total_length es : 2 * Z.of_nat (length es) <= total es.
Proof. induction es as [|e es IH]; [done|]. rewrite total_cons. cbn [length]. pose proof (esize_pos e). lia. Qed.

Definition head_of (n t l : Z) : bytes := mem_of 4 n ++ mem_of 4 t ++ mem_of 2 l.
Definition zl_of (n t l : Z) (x : bytes) : bytes := head_of n t l ++ x.

Lemma len_head_of n t l : len (head_of n t l) = 10.
Proof. unfold head_of. by rewrite !len_app, !len_mem. Qed.

Lemma len_zl_of n t l x : len (zl_of n t l x) = 10 + len x.
Proof. unfold zl_of. by rewrite len_app, len_head_of. Qed.

Section Header.
Context (n t l : Z) (x : bytes).

Lemma get_bytes : 0 <= n < 2 ^ 32 -> ZIPLIST_BYTES (zl_of n t l x) = Ret n.
Proof. intros Hn. unfold ZIPLIST_BYTES. rewrite (load_app _ [] (mem_of 4 n) (mem_of 4 t ++ mem_of 2 l ++ x)); [|unfold zl_of, head_of; bapp|done..]. ret. by rewrite of_mem_of. Qed.

Lemma get_tail : 0 <= t < 2 ^ 32 -> ZIPLIST_TAIL_OFFSET (zl_of n t l x) = Ret t.
Proof. intros Hn. unfold ZIPLIST_TAIL_OFFSET. rewrite (load_app _ (mem_of 4 n) (mem_of 4 t) (mem_of 2 l ++ x)); [|unfold zl_of, head_of; bapp|by rewrite len_mem..]. ret. by rewrite of_mem_of. Qed.

Lemma get_length : 0 <= l < 2 ^ 16 -> ZIPLIST_LENGTH (zl_of n t l x) = Ret l.
Proof.
  intros Hn. unfold ZIPLIST_LENGTH. rewrite (load_app _ (mem_of 4 n ++ mem_of 4 t) (mem_of 2 l) x); [|unfold zl_of, head_of; bapp|by rewrite len_app, !len_mem|by rewrite len_mem]. ret. by rewrite of_mem_of.
Qed.

Lemma set_bytes_of v : 0 <= v < 2 ^ 32 -> set_bytes (zl_of n t l x) v = Ret (zl_of v t l x).
Proof.
  intros Hv. unfold set_bytes. rewrite wrap_u_small by done. rewrite (store_app _ [] (mem_of 4 n) _ (mem_of 4 t ++ mem_of 2 l ++ x)); [|unfold zl_of, head_of; bapp|done|by rewrite !len_mem].
  f_equal; unfold zl_of, head_of; bapp.
Qed.

Lemma set_tail_of v : 0 <= v < 2 ^ 32 -> set_tail (zl_of n t l x) v = Ret (zl_of n v l x).
Proof.
  intros Hv. unfold set_tail. rewrite wrap_u_small by done. rewrite (store_app _ (mem_of 4 n) (mem_of 4 t) _ (mem_of 2 l ++ x)); [|unfold zl_of, head_of; bapp|by rewrite len_mem|by rewrite !len_mem].
  f_equal; unfold zl_of, head_of; bapp.
Qed.

Lemma set_length_of v : set_length (zl_of n t l x) v = Ret (zl_of n t (wrap_u 16 v) x).
Proof.
  unfold set_length. rewrite (store_app _ (mem_of 4 n ++ mem_of 4 t) (mem_of 2 l) _ x); [|unfold zl_of, head_of; bapp|by rewrite len_app, !len_mem|by rewrite !len_mem].
  f_equal; unfold zl_of, head_of; bapp.
Qed.

Lemma realloc_zl fresh N : 10 <= N -> realloc fresh (zl_of n t l x) N = zl_of n t l (realloc fresh x (N - 10)).
Proof.
  intros HN. unfold realloc, zl_of. pose proof (len_head_of n t l) as Hl. unfold len in Hl. rewrite take_app, length_app. rewrite take_ge by lia. rewrite <- app_assoc.
  replace (Z.to_nat N - length (head_of n t l))%nat with (Z.to_nat (N - 10)) by lia. replace (Z.to_nat N - (length (head_of n t l) + length x))%nat with (Z.to_nat (N - 10) - length x)%nat by lia. done.
Qed.
End Header.
