(* ===== verification/ZiplistRefine.v ===== *)
(** * Ziplists are lists

    What insertion, deletion and the update that spreads do to the entries of a ziplist, and the
    refinement of ziplists to lists of strings. *)

From Stdlib Require Import ZArith Lia.
From stdpp Require Import base tactics numbers list strings.
From S2P Require Import Prelude Util Endian Block Ziplist ZiplistFacts.

Local Open Scope Z_scope.

Section Change.
Context (fresh : nat -> Z).

Lemma resize_same n t l y N : 0 <= N < 2 ^ 32 -> 11 + len y <= N ->
  exists j, ziplistResize fresh (zl_of n t l (y ++ [ZIP_END])) N = Ret (zl_of N t l (y ++ j ++ [ZIP_END])) /\ len j = N - (11 + len y) /\ (j = [] \/ exists j', j = ZIP_END :: j').
Proof.
  intros HN Hy. unfold ziplistResize. pose proof (len_pos y). rewrite realloc_zl by lia. rewrite set_bytes_of by done. ret.
  destruct (Z.eq_dec N (11 + len y)) as [->|Hne].
  - exists []. rewrite len_nil. split_and!; [|lia|auto]. rewrite <- (app_nil_r (y ++ [ZIP_END])), realloc_shrink by blen.
    rewrite (store_app _ (head_of (11 + len y) t l ++ y) [ZIP_END] _ []); [f_equal; unfold zl_of; bapp|unfold zl_of; bapp|rewrite len_app, len_head_of; lia|done].
  - destruct (realloc_grow fresh (y ++ [ZIP_END]) (N - 10)) as (j & -> & Ej); [blen|]. destruct j as [|b j _] using rev_ind; [exfalso; blen|].
    exists (ZIP_END :: j). split_and!; [|blen|right; by exists j].
    rewrite (store_app _ (head_of N t l ++ y ++ [ZIP_END] ++ j) [b] _ []); [f_equal; unfold zl_of; bapp|unfold zl_of; bapp|rewrite len_app, len_head_of; blen|done].
Qed.

Lemma resize_less n t l y b z N : 0 <= N < 2 ^ 32 -> N = 11 + len y -> ziplistResize fresh (zl_of n t l (y ++ b :: z)) N = Ret (zl_of N t l (y ++ [ZIP_END])).
Proof.
  intros HN Hy. unfold ziplistResize. pose proof (len_pos y). rewrite realloc_zl by lia. rewrite set_bytes_of by done. ret. replace (y ++ b :: z) with ((y ++ [b]) ++ z) by bapp. rewrite realloc_shrink by blen.
  rewrite (store_app _ (head_of N t l ++ y) [b] _ []); [f_equal; unfold zl_of; bapp|unfold zl_of; bapp|rewrite len_app, len_head_of; lia|done].
Qed.

(** ** The update that spreads *)

Lemma last_off_bounds es : 0 <= last_off es <= total es.
Proof.
  induction es as [|e es IH]; [done|]. rewrite total_cons. pose proof (esize_pos e). pose proof (total_pos es). destruct es as [|e' es]; [cbn; lia|]. cbn [last_off] in *. fold (last_off (e' :: es)) in *. lia.
Qed.

Lemma last_off_cons e es : last_off (e :: es) = if bool_decide (es = []) then 0 else esize e + last_off es.
Proof. by destruct es. Qed.

Lemma last_off_head q es : last_off es = 0 -> wf q es -> (length es <= 1)%nat.
Proof. destruct es as [|e [|e' es]]; cbn; [lia..|]. intros E. pose proof (esize_pos e). pose proof (last_off_bounds (e' :: es)). cbn [last_off] in *. lia. Qed.

Lemma esize_big b e : esize (mkE b (text e)) = esize e + (fsize b - fsize (big e)).
Proof. unfold esize. cbn. lia. Qed.

Definition texts (es : list zent) : list bytes := text <$> es.

Lemma ent_layout q e es : ent q e ++ layout (esize e) es = layout q (e :: es).
Proof. done. Qed.

(** A field of one byte becomes one of five: what follows moves into the four new bytes. *)
Lemma expand_field N t l pre q e rest j v np k : big e = false -> len j = 4 -> np = 10 + len pre -> k = len (body (text e)) + len rest ->
  exists z, memmove (zl_of N t l ((pre ++ ent q e ++ rest) ++ j ++ [ZIP_END])) (np + 5) (np + 1) k = Ret z
    /\ store z np (field true v) = Ret (zl_of N t l (pre ++ ent v (mkE true (text e)) ++ rest ++ [ZIP_END])).
Proof.
  intros Eb Ej -> ->. unfold ent. rewrite Eb. cbn [field big text]. set (w := body (text e) ++ rest). set (h := head_of N t l).
  destruct (cut (w ++ j) 4) as (x & z & Ex & Lx); [blen|]. assert (len z = len w) as Lz by (apply (f_equal len) in Ex; blen).
  exists ((h ++ pre ++ [q] ++ x) ++ w ++ [ZIP_END]). split; [apply (memmove_app _ (h ++ pre ++ [q]) w (j ++ [ZIP_END]) ((h ++ pre ++ [q] ++ x) ++ w ++ [ZIP_END])); [unfold zl_of, w; bapp| | | |done]|].
  - unfold h. rewrite !len_app, len_head_of. blen.
  - unfold w. blen.
  - rewrite (store_app _ (h ++ pre ++ [q] ++ x) z w [ZIP_END]); [f_equal; bapp| |unfold h; rewrite !len_app, len_head_of; blen|done].
    transitivity (h ++ pre ++ [q] ++ (w ++ j) ++ [ZIP_END]); [unfold zl_of, w; bapp|]. rewrite Ex. bapp.
  - rewrite (store_app _ (h ++ pre) ([q] ++ x) _ (w ++ [ZIP_END])); [f_equal; unfold zl_of, w; bapp|bapp|unfold h; rewrite len_app, len_head_of; lia|]. rewrite (len_field true). cbn. blen.
Qed.

Lemma cascade_spec es : forall fuel pre q e q1 n t l, wf q1 es -> takes q e -> 0 <= t < 2 ^ 32 ->
  n = 11 + len pre + esize e + total es -> t = 10 + len pre + last_off (e :: es) -> n + 4 * Z.of_nat (length es) < 2 ^ 32 -> (length es < fuel)%nat ->
  exists es' n' t', cascade_loop fresh fuel (zl_of n t l (pre ++ ent q e ++ layout q1 es ++ [ZIP_END])) (10 + len pre) n = Ret (zl_of n' t' l (pre ++ ent q e ++ layout (esize e) es' ++ [ZIP_END]))
    /\ texts es' = texts es /\ wf (esize e) es' /\ n' = 11 + len pre + esize e + total es' /\ t' = 10 + len pre + last_off (e :: es') /\ n' <= n + 4 * Z.of_nat (length es).
Proof.
  induction es as [|e1 es IH]; intros [|fuel] pre q e q1 n t l Hwf He Ht En Et Hn Hfuel; cbn [length] in Hfuel; try lia;
    cbn [cascade_loop]; pose proof (len_pos pre) as Hpre; pose proof (esize_pos e) as Hse.
  - cbn [total foldr length] in *. assert (esize e < 2 ^ 32) as Hs by lia. set (m := zl_of n t l _). assert (m = (head_of n t l ++ pre) ++ ent q e ++ [ZIP_END]) as Em by (unfold m, zl_of; bapp).
    assert (10 + len pre = len (head_of n t l ++ pre)) as Ep by (rewrite len_app, len_head_of; done).
    destruct (first_byte m _ q e _ _ Em Ep He) as (b & -> & Hb & _). ret. rewrite (proj2 (Z.eqb_neq _ _)) by done.
    rewrite (entry_at m _ q e _ _ Em Ep He Hs). ret. rewrite rawlen_entry by done.
    rewrite (byte_at_app m ((head_of n t l ++ pre) ++ ent q e) ZIP_END []); [|rewrite Em; bapp|rewrite len_app, len_ent, <- Ep; done]. ret. change (ZIP_END =? ZIP_END) with true. cbn iota.
    exists [], n, t. cbn in *. split_and!; done || lia.
  - destruct Hwf as [He1 Hwf]. cbn [length] in Hn |- *. rewrite total_cons in En. pose proof (esize_pos e1) as Hse1. pose proof (total_pos es) as Htot.
    assert (esize e1 < 2 ^ 32) as Hs1 by lia. assert (esize e < 2 ^ 32) as Hs by lia.
    set (m := zl_of n t l _). assert (m = (head_of n t l ++ pre) ++ ent q e ++ layout q1 (e1 :: es) ++ [ZIP_END]) as Em by (unfold m, zl_of; bapp).
    assert (10 + len pre = len (head_of n t l ++ pre)) as Ep by (rewrite len_app, len_head_of; done).
    destruct (first_byte m _ q e _ _ Em Ep He) as (b & -> & Hb & _). ret. rewrite (proj2 (Z.eqb_neq _ _)) by done.
    rewrite (entry_at m _ q e _ _ Em Ep He Hs). ret. rewrite rawlen_entry by done.
    assert (m = ((head_of n t l ++ pre) ++ ent q e) ++ ent q1 e1 ++ layout (esize e1) es ++ [ZIP_END]) as Em1 by (rewrite Em; cbn [layout]; bapp).
    assert (10 + len pre + esize e = len ((head_of n t l ++ pre) ++ ent q e)) as Ep1 by (rewrite len_app, len_ent, <- Ep; done).
    destruct (first_byte m _ q1 e1 _ _ Em1 Ep1 He1) as (b1 & -> & Hb1 & _). ret. rewrite (proj2 (Z.eqb_neq _ _)) by done.
    rewrite (entry_at m _ q1 e1 _ _ Em1 Ep1 He1 Hs1). ret. cbn [prevrawlen prevrawlensize zl_entry].
    destruct (Z.eqb_spec q1 (esize e)) as [->|Hq].
    { exists (e1 :: es), n, t. split_and!; try done; lia. }
    rewrite prev_field, len_field. destruct (Z.ltb_spec (fsize (big e1)) (fsize (ZIP_BIGLEN <=? esize e))) as [Hlt|Hge].
    + assert (big e1 = false /\ (ZIP_BIGLEN <=? esize e) = true) as [Eb Ebig] by (destruct (big e1), (ZIP_BIGLEN <=? esize e); cbn in Hlt; lia || done).
      rewrite Eb, Ebig. cbn [fsize].
      rewrite (wrap_u_small 32) by lia. assert (exists j, ziplistResize fresh m (n + (5 - 1)) = Ret (zl_of (n + 4) t l (((pre ++ ent q e) ++ ent q1 e1 ++ layout (esize e1) es) ++ j ++ [ZIP_END])) /\ len j = 4) as (j & -> & Lj).
      { destruct (resize_same n t l ((pre ++ ent q e) ++ ent q1 e1 ++ layout (esize e1) es) (n + (5 - 1))) as (j & Ej & Lj & _); [lia|rewrite !len_app, !len_ent, len_layout; lia|].
        exists j. rewrite !len_app, !len_ent, len_layout in Lj. split; [|lia]. replace (n + (5 - 1)) with (n + 4) in * by lia. rewrite <- Ej. f_equal. unfold m. cbn [layout]. f_equal. bapp. }
      ret. rewrite get_tail by done. ret. rewrite last_off_cons, bool_decide_eq_false_2 in Et by done.
      set (t' := if bool_decide (es = []) then t else t + 4).
      assert (forall x, (if negb (t =? 10 + len pre + esize e) then set_tail (zl_of (n + 4) t l x) (t + (5 - 1)) else mret (zl_of (n + 4) t l x)) = Ret (zl_of (n + 4) t' l x)) as ->.
      { intros x. unfold t'. rewrite last_off_cons in Et. pose proof (last_off_bounds es). destruct (decide (es = [])) as [->|Hes].
        - rewrite bool_decide_eq_true_2 in * by done. by rewrite (proj2 (Z.eqb_eq _ _)) by lia.
        - rewrite bool_decide_eq_false_2 in * by done. rewrite (proj2 (Z.eqb_neq _ _)) by lia. cbn [negb]. rewrite set_tail_of by (pose proof (last_off_bounds es); lia). do 2 f_equal. }
      ret. rewrite wrap_u64_id by (unfold in_u64, ULLONG_MAX; lia).
      assert (len (body (text e1)) = esize e1 - 1) as Lb by (unfold esize; rewrite Eb; cbn; lia).
      destruct (expand_field (n + 4) t' l (pre ++ ent q e) q1 e1 (layout (esize e1) es) j (esize e) (10 + len pre + esize e) (n - (10 + len pre + esize e) - 1 - 1) Eb Lj) as (z & -> & Ez);
        [rewrite len_app, len_ent; lia|rewrite len_layout; lia|]. ret. rewrite Ez. ret.
      set (e1' := mkE true (text e1)) in *. assert (esize e1' = esize e1 + 4) as Es1 by (unfold e1', esize; rewrite Eb; cbn; lia).
      destruct (IH fuel (pre ++ ent q e) (esize e) e1' (esize e1) (n + 4) t' l) as (es' & n' & t'' & E & Htx & Hw & En' & Et' & Hle).
      * done.
      * unfold takes, e1'. cbn. split; [lia|done].
      * unfold t'. pose proof (last_off_bounds (e1 :: es)). rewrite total_cons in *. case_bool_decide; lia.
      * rewrite len_app, len_ent. lia.
      * rewrite len_app, len_ent. unfold t'. rewrite last_off_cons in Et |- *. case_bool_decide; lia.
      * lia.
      * lia.
      * rewrite len_app, len_ent, Z.add_assoc in E. replace (n + (5 - 1)) with (n + 4) by lia. rewrite E. exists (e1' :: es'), n', t''. split_and!.
        -- f_equal. f_equal. cbn [layout]. bapp.
        -- unfold texts in *. cbn. by rewrite Htx.
        -- cbn [wf]. split; [|done]. unfold takes, e1'. cbn. split; [lia|done].
        -- rewrite total_cons. rewrite En', len_app, len_ent. lia.
        -- rewrite Et', len_app, len_ent. rewrite (last_off_cons e), bool_decide_eq_false_2 by done. lia.
        -- lia.
    + assert (store m (10 + len pre + esize e) (if fsize (ZIP_BIGLEN <=? esize e) <? fsize (big e1) then zipPrevEncodeLengthForceLarge (esize e) else field (ZIP_BIGLEN <=? esize e) (esize e))
        = Ret (zl_of n t l (pre ++ ent q e ++ layout (esize e) (e1 :: es) ++ [ZIP_END]))) as ->.
      { assert ((if fsize (ZIP_BIGLEN <=? esize e) <? fsize (big e1) then zipPrevEncodeLengthForceLarge (esize e) else field (ZIP_BIGLEN <=? esize e) (esize e)) = field (big e1) (esize e)) as ->
          by (destruct (big e1), (ZIP_BIGLEN <=? esize e); cbn in Hge |- *; lia || done).
        rewrite (store_app _ ((head_of n t l ++ pre) ++ ent q e) (field (big e1) q1) _ (body (text e1) ++ layout (esize e1) es ++ [ZIP_END])).
        - f_equal. unfold zl_of. cbn [layout]. unfold ent at 3. bapp.
        - rewrite Em1. unfold ent at 2. bapp.
        - by rewrite <- Ep1.
        - by rewrite !len_field. }
      exists (e1 :: es), n, t. split_and!; try done; try lia. split; [|done]. split; [lia|]. intros Eb. rewrite Eb in Hge. unfold ZIP_BIGLEN in *. destruct (Z.leb_spec 254 (esize e)); cbn in Hge; lia.
Qed.

(** ** Parts of a list *)

(** The size of the last entry of [l], or [q]. *)
Definition prev_of (q : Z) (l : list zent) : Z := match last l with Some e => esize e | None => q end.

Lemma prev_of_cons q e l : prev_of q (e :: l) = prev_of (esize e) l.
Proof. unfold prev_of. destruct l as [|x l _] using rev_ind; [done|]. by rewrite app_comm_cons, !last_snoc. Qed.

Lemma layout_app l : forall q r, layout q (l ++ r) = layout q l ++ layout (prev_of q l) r.
Proof. induction l as [|e l IH]; intros q r; [done|]. cbn [layout app]. rewrite IH, prev_of_cons. bapp. Qed.

Lemma wf_app l : forall q r, wf q (l ++ r) <-> wf q l /\ wf (prev_of q l) r.
Proof. induction l as [|e l IH]; intros q r; cbn [wf app]; [tauto|]. rewrite IH, prev_of_cons. tauto. Qed.

Lemma total_app l r : total (l ++ r) = total l + total r.
Proof. induction l as [|e l IH]; [done|]. cbn [app]. rewrite !total_cons, IH. lia. Qed.

Lemma last_off_app l : forall e r, last_off (l ++ e :: r) = total l + last_off (e :: r).
Proof.
  induction l as [|x l IH]; intros e r; [done|]. cbn [app]. rewrite last_off_cons, bool_decide_eq_false_2 by (by destruct l). rewrite IH, total_cons. lia.
Qed.

(** From the last entry to the end. *)
Lemma last_off_prev l : last_off l = total l - prev_of 0 l.
Proof.
  destruct l as [|x l _] using rev_ind; [done|]. rewrite last_off_app, total_app. unfold prev_of. rewrite last_snoc. cbn. lia.
Qed.

Lemma prev_of_bounds l : 0 <= prev_of 0 l <= total l.
Proof. pose proof (last_off_bounds l). rewrite last_off_prev in *. unfold prev_of in *. destruct (last l) as [e|]; [pose proof (esize_pos e)|]; lia. Qed.

(** How much a list of texts can take, with all the fields at their largest, and some more. *)
Definition lroom (xs : list bytes) : Z := foldr (λ s n, len s + 22 + n) 0 xs.

Lemma lroom_app xs ys : lroom (xs ++ ys) = lroom xs + lroom ys.
Proof. unfold lroom. induction xs as [|x xs IH]; cbn in *; lia. Qed.

Lemma lroom_pos xs : 0 <= lroom xs.
Proof. unfold lroom. induction xs as [|x xs IH]; cbn in *; [lia|]. pose proof (len_pos x). lia. Qed.

Lemma int_size_bounds e : 0 <= zipIntSize e <= 8.
Proof. unfold zipIntSize. repeat (destruct (_ =? _); [lia|]). lia. Qed.

Lemma pay_size s : len (pay s) = match zipTryEncoding s with Some (_, e) => zipIntSize e | None => len s end.
Proof. unfold pay. destruct (zipTryEncoding s) as [[v e]|] eqn:E; [|done]. apply try_encoding in E as (_ & _ & x & -> & -> & _). done. Qed.

Lemma esize_room e : esize e <= len (text e) + 18.
Proof.
  unfold esize. rewrite len_body, pay_size. pose proof (len_hdr (text e)). pose proof (len_pos (text e)). destruct (fsize_cases (big e)); destruct (zipTryEncoding (text e)) as [[v i]|]; try pose proof (int_size_bounds i); lia.
Qed.

Lemma total_room es : total es + 4 * Z.of_nat (length es) <= lroom (texts es).
Proof.
  induction es as [|e es IH]; [done|]. rewrite total_cons. unfold texts in *. cbn [fmap list_fmap length lroom foldr] in *. fold (lroom (text <$> es)). pose proof (esize_room e). lia.
Qed.

(** ** What a block holds *)

Definition count_ok (c : Z) (k : nat) : Prop := 0 <= c <= UINT16_MAX /\ (c < UINT16_MAX -> c = Z.of_nat k).
Definition head_small (es : list zent) : Prop := match es with [] => True | e :: _ => big e = false end.

Definition holds_entries (zl : bytes) (es : list zent) : Prop :=
  exists c, zl = zl_of (11 + total es) (10 + last_off es) c (layout 0 es ++ [ZIP_END]) /\ wf 0 es /\ head_small es /\ count_ok c (length es).

(** ** Deletion *)

Lemma delete_loop_spec d : forall fuel m a q r i num k, m = a ++ layout q d ++ layout (prev_of q d) r ++ [ZIP_END] -> wf q (d ++ r) -> total (d ++ r) < 2 ^ 32 -> (length d < fuel)%nat ->
  (i + Z.of_nat (length d) = num \/ r = [] /\ i + Z.of_nat (length d) <= num) -> delete_loop fuel m (len a) i num k = Ret (len a + total d, k + Z.of_nat (length d)).
Proof.
  induction d as [|e d IH]; intros [|fuel] m a q r i num k Em Hwf Ht Hfuel Hi; cbn [length] in *; try lia; cbn [delete_loop].
  - cbn [app total foldr layout] in *. rewrite !Z.add_0_r in *. destruct r as [|e r].
    + rewrite (byte_at_app m a ZIP_END []) by done. ret. done.
    + destruct Hwf as [He Hwf]. cbn [prev_of last] in Em. destruct (first_byte m a q e (layout (esize e) r ++ [ZIP_END]) (len a)) as (b & -> & Hb & _); [rewrite Em; cbn [layout]; bapp|done..|]. ret.
      rewrite (proj2 (Z.ltb_ge i num)) by (destruct Hi as [|[? ?]]; [lia|done]). by rewrite andb_false_r.
  - cbn [app] in *. destruct Hwf as [He Hwf]. rewrite total_cons in *. pose proof (total_pos (d ++ r)). pose proof (esize_pos e).
    assert (m = a ++ ent q e ++ layout (esize e) d ++ layout (prev_of (esize e) d) r ++ [ZIP_END]) as Em' by (rewrite Em, prev_of_cons; cbn [layout]; bapp).
    destruct (first_byte m a q e _ (len a) Em' eq_refl He) as (b & -> & Hb & _). ret. rewrite (proj2 (Z.eqb_neq _ _)) by done. rewrite (proj2 (Z.ltb_lt i num)) by (destruct Hi as [|[? ?]]; lia). cbn [negb andb].
    rewrite (raw_length_at m a q e _ (len a) Em' eq_refl He) by lia. ret. replace (len a + esize e) with (len (a ++ ent q e)) by (rewrite len_app, len_ent; done).
    rewrite (IH fuel m (a ++ ent q e) (esize e) r (i + 1) num (k + 1)); [f_equal; rewrite len_app, len_ent; f_equal; lia|rewrite Em'; bapp|done|lia|lia|].
    destruct Hi as [|[? ?]]; [left|right]; try split; try done; lia.
Qed.

(** The field of the entry behind the deleted ones is written where they end. *)
Lemma move_tail pre D b q' tx rest n t c q : (b = false -> q' < ZIP_BIGLEN) -> (fsize (ZIP_BIGLEN <=? q) - fsize b < len D) ->
  let nextdiff := fsize (ZIP_BIGLEN <=? q) - fsize b in
  let p := 10 + len pre + len D - nextdiff in
  exists X, len X = len D - nextdiff /\
    store (zl_of n t c (pre ++ D ++ (field b q' ++ body tx) ++ rest ++ [ZIP_END])) p (zipPrevEncodeLength q) = Ret (zl_of n t c (pre ++ X ++ ent q (mkE (ZIP_BIGLEN <=? q) tx) ++ rest ++ [ZIP_END])).
Proof.
  intros Hb HX nextdiff p. destruct (cut (D ++ field b q') (len D - nextdiff)) as (X & Y & E & LX).
  { rewrite len_app, len_field. unfold nextdiff. destruct (fsize_cases b), (fsize_cases (ZIP_BIGLEN <=? q)); lia. }
  exists X. split; [done|]. assert (len Y = fsize (ZIP_BIGLEN <=? q)) as LY by (apply (f_equal len) in E; rewrite !len_app, len_field in E; unfold nextdiff in *; lia).
  rewrite (store_app _ ((head_of n t c ++ pre) ++ X) Y _ (body tx ++ rest ++ [ZIP_END])).
  - f_equal. unfold zl_of, ent. cbn [big text]. rewrite prev_field. bapp.
  - transitivity ((head_of n t c ++ pre) ++ (D ++ field b q') ++ body tx ++ rest ++ [ZIP_END]); [unfold zl_of; bapp|]. rewrite E. bapp.
  - unfold p. rewrite !len_app, len_head_of. lia.
  - by rewrite prev_field, len_field.
Qed.

(** The byte behind an entry tells whether it is the last one. *)
Lemma byte_behind m a q r p : m = a ++ layout q r ++ [ZIP_END] -> p = len a -> wf q r -> exists b, byte_at m p = Ret b /\ (b =? ZIP_END) = bool_decide (r = []).
Proof.
  intros Em Ep Hwf. destruct r as [|e r].
  - exists ZIP_END. split; [by apply (byte_at_app _ a _ [])|done].
  - destruct Hwf as [He _]. destruct (first_byte m a q e (layout (esize e) r ++ [ZIP_END]) p) as (b & E & Hb & _); [rewrite Em; cbn [layout]; bapp|done..|].
    exists b. split; [done|]. rewrite bool_decide_eq_false_2 by done. by apply Z.eqb_neq.
Qed.

Lemma big_first q d0 : takes q d0 -> fsize (ZIP_BIGLEN <=? q) <= fsize (big d0).
Proof. intros [_ Hb]. destruct (big d0); cbn; [destruct (_ <=? _); cbn; lia|]. rewrite (proj2 (Z.leb_gt _ _)) by (by apply Hb). done. Qed.

Lemma delete_move_next l d0 d e r n t c : wf 0 (l ++ (d0 :: d) ++ e :: r) -> n = 11 + total (l ++ (d0 :: d) ++ e :: r) -> t = 10 + last_off (l ++ (d0 :: d) ++ e :: r) -> n + 4 < 2 ^ 32 ->
  let q := prev_of 0 l in let p0 := 10 + total l in let e' := mkE (ZIP_BIGLEN <=? q) (text e) in let nextdiff := fsize (ZIP_BIGLEN <=? q) - fsize (big e) in
  exists z, len z = total (d0 :: d) - nextdiff /\ 0 < len z /\
    delete_move (zl_of n t c (layout 0 (l ++ (d0 :: d) ++ e :: r) ++ [ZIP_END])) (zl_entry q d0 p0) (p0 + total (d0 :: d)) (total (d0 :: d))
    = Ret (zl_of n (p0 + last_off (e' :: r)) c (layout 0 l ++ ent q e' ++ layout (esize e) r ++ z ++ [ZIP_END]), nextdiff).
Proof.
  intros Hwf En Et Hn q p0 e' nextdiff. apply wf_app in Hwf as [Hwl Hwf]. apply wf_app in Hwf as [Hwd [He Hwr]]. fold q in Hwd, He.
  rewrite app_assoc, last_off_app, total_app in Et. rewrite !total_app, (total_cons e) in En. set (D := layout q (d0 :: d)). assert (len D = total (d0 :: d)) as LD by apply len_layout. rewrite <- LD in *.
  set (q' := prev_of q (d0 :: d)) in *. set (pre := layout 0 l). assert (len pre = total l) as Lpre by apply len_layout.
  pose proof (total_pos l). pose proof (total_pos r). pose proof (esize_pos e). pose proof (last_off_bounds (e :: r)) as Hlo. rewrite total_cons in Hlo.
  assert (0 <= q < 2 ^ 32 /\ fsize (ZIP_BIGLEN <=? q) <= fsize (big d0)) as [Hq Hbig] by (destruct Hwd as [Hd0 _]; split; [apply Hd0|by apply big_first]).
  assert (fsize (big d0) < len D) as HD. { rewrite LD, total_cons. pose proof (total_pos d). unfold esize. rewrite len_body. pose proof (len_hdr (text d0)). pose proof (len_pos (pay (text d0))). lia. }
  assert (- 4 <= nextdiff <= 4 /\ nextdiff < len D) as [Hnd HndD] by (unfold nextdiff; destruct (fsize_cases (big e)), (fsize_cases (ZIP_BIGLEN <=? q)); lia).
  assert (esize e' = esize e + nextdiff) as Ee by apply esize_big.
  assert (0 < esize e' < 2 ^ 32) as Hse' by (pose proof (esize_pos e'); lia).
  assert (takes q e') as He'. { split; [done|]. cbn. intros Hb. by apply Z.leb_gt. }
  assert (layout 0 (l ++ (d0 :: d) ++ e :: r) ++ [ZIP_END] = pre ++ D ++ ent q' e ++ layout (esize e) r ++ [ZIP_END]) as El by (rewrite !layout_app; unfold pre, D, q', q; cbn [layout]; bapp).
  rewrite El. unfold delete_move. set (m := zl_of n t c _).
  assert (m = (head_of n t c ++ pre ++ D) ++ ent q' e ++ layout (esize e) r ++ [ZIP_END]) as Em by (unfold m, zl_of; bapp).
  assert (p0 + len D = len (head_of n t c ++ pre ++ D)) as Ep by (rewrite !len_app, len_head_of; unfold p0; lia).
  destruct (first_byte m _ q' e _ _ Em Ep He) as (b & -> & Hb & _). ret. rewrite (proj2 (Z.eqb_neq _ _)) by done. cbn [negb]. cbn [prevrawlen zl_entry ep].
  rewrite (prev_diff_at m _ q' e _ _ Em Ep He q). ret. fold nextdiff.
  destruct (move_tail pre D (big e) q' (text e) (layout (esize e) r) n t c q) as (X & LX & ES); [apply He|done|]. fold nextdiff in LX, ES.
  replace (10 + len pre + len D - nextdiff) with (p0 + len D - nextdiff) in ES by (unfold p0; lia). fold e' in ES.
  assert (store m (p0 + len D - nextdiff) (zipPrevEncodeLength q) = Ret (zl_of n t c (pre ++ X ++ ent q e' ++ layout (esize e) r ++ [ZIP_END]))) as -> by exact ES. ret.
  rewrite get_tail by lia. ret. rewrite set_tail_of by lia. ret. replace (t - len D) with (p0 + last_off (e :: r)) by (unfold p0; lia).
  set (t1 := p0 + last_off (e :: r)). set (m1 := zl_of n t1 c _).
  assert (m1 = (head_of n t1 c ++ pre ++ X) ++ ent q e' ++ layout (esize e) r ++ [ZIP_END]) as Em1 by (unfold m1, zl_of; bapp).
  assert (p0 + len D - nextdiff = len (head_of n t1 c ++ pre ++ X)) as Ep1 by (rewrite !len_app, len_head_of; unfold p0; lia).
  rewrite (entry_at m1 _ q e' _ _ Em1 Ep1 He') by lia. ret. rewrite rawlen_entry by lia.
  destruct (byte_behind m1 _ (esize e) r (p0 + len D - nextdiff + esize e') (eq_trans Em1 (app_assoc _ _ _))) as (b1 & -> & Hb1); [rewrite len_app, len_ent, <- Ep1; done|done|].
  ret. rewrite Hb1. set (t2 := p0 + last_off (e' :: r)).
  assert ((if negb (bool_decide (r = [])) then t ← ZIPLIST_TAIL_OFFSET m1; set_tail m1 (t + nextdiff) else mret m1) = Ret (zl_of n t2 c (pre ++ X ++ ent q e' ++ layout (esize e) r ++ [ZIP_END]))) as ->.
  { unfold m1, t2, t1. rewrite !last_off_cons. case_bool_decide as Hr; cbn [negb]; [done|]. pose proof (last_off_bounds r). pose proof (esize_pos e'). rewrite get_tail by (unfold p0; lia). ret. rewrite set_tail_of by (unfold p0; lia). do 2 f_equal. lia. }
  ret. rewrite get_bytes by lia. ret. set (M := ent q e' ++ layout (esize e) r). assert (len M = esize e' + total r) as LM by (unfold M; rewrite len_app, len_ent, len_layout; done).
  rewrite wrap_u64_id by (unfold in_u64, ULLONG_MAX, p0; lia).
  destruct (cut (X ++ M) (len M)) as (Y & z & EY & LY); [pose proof (len_pos X); blen|]. assert (len z = len X) as Lz by (apply (f_equal len) in EY; blen).
  exists z. split_and!; [lia|lia|].
  rewrite (memmove_app _ (head_of n t2 c ++ pre ++ X) M [ZIP_END] (zl_of n t2 c (pre ++ M ++ z ++ [ZIP_END])) _ _ _ (zl_of n t2 c (pre ++ M ++ z ++ [ZIP_END]))).
  - ret. unfold M. do 3 f_equal. bapp.
  - unfold zl_of, M. bapp.
  - rewrite !len_app, len_head_of. unfold p0. lia.
  - unfold p0. lia.
  - rewrite (store_app _ (head_of n t2 c ++ pre) Y _ (z ++ [ZIP_END])); [f_equal; unfold zl_of; bapp| |rewrite len_app, len_head_of; unfold p0; lia|done].
    transitivity (head_of n t2 c ++ pre ++ (X ++ M) ++ [ZIP_END]); [unfold zl_of, M; bapp|]. rewrite EY. bapp.
  - done.
Qed.

Lemma incr_length n t c x k k' d : count_ok c k -> Z.of_nat k' = Z.of_nat k + d -> d <= 1 ->
  exists c', ZIPLIST_INCR_LENGTH (zl_of n t c x) d = Ret (zl_of n t c' x) /\ count_ok c' k'.
Proof.
  intros [Hc Hk] Hd H1. unfold ZIPLIST_INCR_LENGTH, UINT16_MAX in *. rewrite get_length by lia. ret. destruct (Z.ltb_spec c (2 ^ 16 - 1)).
  - exists (c + d). rewrite set_length_of, wrap_u_small by lia. split; [done|]. unfold count_ok, UINT16_MAX. lia.
  - exists c. split; [done|]. unfold count_ok, UINT16_MAX. lia.
Qed.

Lemma cascade_update pre q e q1 es n t l : wf q1 es -> takes q e -> n = 11 + len pre + esize e + total es -> t = 10 + len pre + last_off (e :: es) -> n + 4 * Z.of_nat (length es) < 2 ^ 32 ->
  exists es', ziplistCascadeUpdate fresh (zl_of n t l (pre ++ ent q e ++ layout q1 es ++ [ZIP_END])) (10 + len pre)
      = Ret (zl_of (11 + len pre + esize e + total es') (10 + len pre + last_off (e :: es')) l (pre ++ ent q e ++ layout (esize e) es' ++ [ZIP_END]))
    /\ texts es' = texts es /\ wf (esize e) es'.
Proof.
  intros Hwf He En Et Hn. pose proof (len_pos pre). pose proof (esize_pos e). pose proof (total_pos es). pose proof (last_off_bounds (e :: es)) as Hlo. rewrite total_cons in Hlo.
  unfold ziplistCascadeUpdate. rewrite get_bytes by lia. ret. set (m := zl_of n t l _).
  assert (length es < S (length m))%nat as Hf.
  { assert (len m = n) as Lm by (unfold m; rewrite len_zl_of, !len_app, len_ent, len_layout, len_cons, len_nil; lia). pose proof (total_length es). unfold len in Lm. lia. }
  destruct (cascade_spec es (S (length m)) pre q e q1 n t l Hwf He) as (es' & n' & t' & E & Htx & Hw & -> & -> & _); [lia|done|done|done|done|]. exists es'. split_and!; [exact E|done..].
Qed.

Lemma cons_of (y : bytes) : 0 < len y -> exists b z, y = b :: z.
Proof. destruct y as [|b z]; [rewrite len_nil; lia|]. by exists b, z. Qed.

(** [__ziplistDelete]: the entries of [d] go, the others keep their texts. *)
Lemma ziplist_delete_spec zl l d0 d r num : holds_entries zl (l ++ (d0 :: d) ++ r) -> 11 + lroom (texts (l ++ (d0 :: d) ++ r)) < 2 ^ 32 ->
  (num = Z.of_nat (length (d0 :: d)) \/ r = [] /\ Z.of_nat (length (d0 :: d)) <= num) ->
  exists zl' es', ziplist_delete fresh zl (10 + total l) num = Ret zl' /\ holds_entries zl' es' /\ texts es' = texts (l ++ r).
Proof.
  intros (c & -> & Hwf & Hh & Hc) Hb Hnum. pose proof (total_room (l ++ (d0 :: d) ++ r)) as Hr. set (q := prev_of 0 l). set (n := 11 + total (l ++ (d0 :: d) ++ r)) in *. set (t := 10 + last_off (l ++ (d0 :: d) ++ r)).
  assert (total (l ++ (d0 :: d) ++ r) = total l + (total (d0 :: d) + total r)) as Etot by (by rewrite !total_app).
  pose proof (total_pos l). pose proof (total_pos r). pose proof (total_pos d). pose proof (esize_pos d0). pose proof (total_cons d0 d) as Ed. pose proof (prev_of_bounds l) as Hq. fold q in Hq.
  pose proof Hwf as [Hwl [Hwd Hwr]%wf_app]%wf_app. fold q in Hwd, Hwr. destruct Hwd as [Hd0 Hwd].
  set (m := zl_of n t c (layout 0 (l ++ (d0 :: d) ++ r) ++ [ZIP_END])).
  assert (m = (head_of n t c ++ layout 0 l) ++ layout q (d0 :: d) ++ layout (prev_of q (d0 :: d)) r ++ [ZIP_END]) as Em by (unfold m, zl_of; rewrite !layout_app; fold q; bapp).
  assert (10 + total l = len (head_of n t c ++ layout 0 l)) as Ep by (rewrite len_app, len_head_of, len_layout; done).
  unfold ziplist_delete. rewrite (entry_at m (head_of n t c ++ layout 0 l) q d0 (layout (esize d0) d ++ layout (prev_of q (d0 :: d)) r ++ [ZIP_END]));
    [|rewrite Em; cbn [layout]; bapp|done|done|lia]. ret. rewrite Ep.
  rewrite (delete_loop_spec (d0 :: d) _ m _ q r 0 num 0 Em); [|by apply wf_app|rewrite total_app; lia| |destruct Hnum as [|[]]; [left|right]; try split; try done; lia].
  2: { assert (len m = n) as Lm by (unfold m; rewrite len_zl_of, len_app, len_layout, len_cons, len_nil; unfold n; lia). pose proof (total_length (d0 :: d)). unfold len in Lm. unfold n in Lm. lia. }
  ret. cbn [ep zl_entry]. rewrite <- Ep. replace (10 + total l + total (d0 :: d) - (10 + total l)) with (total (d0 :: d)) by lia. rewrite (wrap_u_small 32) by lia.
  rewrite (proj2 (Z.ltb_lt 0 _)) by lia. rewrite Z.add_0_l. destruct r as [|e r].
  - assert (total [] = 0) by done. unfold delete_move. rewrite (byte_at_app m ((head_of n t c ++ layout 0 l) ++ layout q (d0 :: d)) ZIP_END [] (10 + total l + total (d0 :: d))); [|rewrite Em; cbn [layout app]; bapp|rewrite len_app, len_layout; lia]. ret.
    change (ZIP_END =? ZIP_END) with true. cbn [negb prevrawlen zl_entry ep]. unfold m. rewrite set_tail_of by lia. ret. rewrite get_bytes by lia. ret. rewrite (wrap_u_small 32) by lia.
    destruct (cons_of (layout q (d0 :: d) ++ [ZIP_END])) as (b & z & Ez); [rewrite len_app, len_layout; blen|].
    replace (layout 0 (l ++ (d0 :: d) ++ []) ++ [ZIP_END]) with (layout 0 l ++ b :: z) by (rewrite <- Ez, app_nil_r, layout_app; fold q; bapp).
    rewrite resize_less by (rewrite ?len_layout; lia). ret.
    destruct (incr_length (n - total (d0 :: d) + 0) (10 + total l - q) c (layout 0 l ++ [ZIP_END]) _ (length l) (- Z.of_nat (length (d0 :: d))) Hc) as (c' & -> & Hc'); [rewrite app_nil_r, length_app; lia|lia|]. ret.
    eexists _, l. split; [done|]. split; [|by rewrite app_nil_r]. exists c'. split_and!; [|done| |done].
    + f_equal; [unfold n; lia|]. rewrite last_off_prev. fold q. lia.
    + destruct l; [done|]. done.
  - pose proof (total_pos r). rewrite !length_app in Hr. cbn [length] in Hr. destruct (delete_move_next l d0 d e r n t c Hwf eq_refl eq_refl) as (z & Lz & Hz & E); [lia|]. fold q in E, Lz. set (e' := mkE (ZIP_BIGLEN <=? q) (text e)) in *.
    set (nextdiff := fsize (ZIP_BIGLEN <=? q) - fsize (big e)) in *. unfold m. rewrite E. ret. rewrite get_bytes by lia. ret. rewrite !total_cons in *. pose proof (esize_pos e). pose proof (esize_pos e').
    assert (esize e' = esize e + nextdiff) as Ee by apply esize_big. rewrite (wrap_u_small 32) by lia.
    destruct (cons_of (z ++ [ZIP_END])) as (b & z' & Ez); [blen|]. rewrite Ez.
    replace (layout 0 l ++ ent q e' ++ layout (esize e) r ++ b :: z') with ((layout 0 l ++ ent q e' ++ layout (esize e) r) ++ b :: z') by bapp.
    rewrite resize_less by (rewrite ?len_app, ?len_ent, ?len_layout; lia). ret.
    destruct (incr_length (n - (esize d0 + total d) + nextdiff) (10 + total l + last_off (e' :: r)) c ((layout 0 l ++ ent q e' ++ layout (esize e) r) ++ [ZIP_END]) _ (length (l ++ e' :: r)) (- Z.of_nat (length (d0 :: d))) Hc) as (c' & -> & Hc');
      [rewrite !length_app; cbn [length]; lia|lia|]. ret.
    assert (takes q e') as He'. { split; [lia|]. cbn. intros Hb'. by apply Z.leb_gt. } destruct Hwr as [He Hwr].
    assert (head_small (l ++ e' :: r)) as Hh'. { destruct l; [|done]. done. }
    replace ((layout 0 l ++ ent q e' ++ layout (esize e) r) ++ [ZIP_END]) with (layout 0 l ++ ent q e' ++ layout (esize e) r ++ [ZIP_END]) by bapp. destruct (Z.eqb_spec nextdiff 0) as [E0|E0]; cbn [negb].
    + assert (esize e' = esize e) as Ee' by lia. eexists _, (l ++ e' :: r). split; [done|]. split; [|unfold texts; by rewrite !fmap_app]. exists c'. split_and!; [|apply wf_app; split; [done|split; [done|by rewrite Ee']]|done|done].
      rewrite last_off_app, layout_app, total_app. fold q. cbn [layout]. rewrite Ee'. f_equal; [rewrite total_cons; lia|lia|bapp].
    + replace (10 + total l) with (10 + len (layout 0 l)) by (by rewrite len_layout). destruct (cascade_update (layout 0 l) q e' (esize e) r (n - (esize d0 + total d) + nextdiff) (10 + len (layout 0 l) + last_off (e' :: r)) c' Hwr He') as (r' & -> & Htx & Hw).
      * rewrite len_layout. lia.
      * done.
      * lia.
      * eexists _, (l ++ e' :: r'). split; [done|]. split; [|unfold texts in *; rewrite !fmap_app, !fmap_cons, Htx; done]. exists c'. split_and!; [|apply wf_app; by split_and!|by destruct l|].
        -- rewrite last_off_app, layout_app, total_app. fold q. cbn [layout]. rewrite len_layout. f_equal; [rewrite total_cons; lia|lia|bapp].
        -- replace (length (l ++ e' :: r')) with (length (l ++ e' :: r)); [done|]. apply (f_equal length) in Htx. unfold texts in Htx. rewrite !length_fmap in Htx. rewrite !length_app. cbn. lia.
Qed.

(** ** Insertion *)

Lemma insert_prevlen_spec zl l r : holds_entries zl (l ++ r) -> 11 + lroom (texts (l ++ r)) < 2 ^ 32 -> insert_prevlen zl (10 + total l) = Ret (prev_of 0 l).
Proof.
  intros (c & -> & Hwf & _ & _) Hb. pose proof (total_room (l ++ r)) as Hr. rewrite total_app in Hr. pose proof (total_pos l). pose proof (total_pos r). pose proof Hwf as [Hwl Hwr]%wf_app. set (q := prev_of 0 l) in *.
  unfold insert_prevlen. set (n := 11 + total (l ++ r)). set (t := 10 + last_off (l ++ r)). set (m := zl_of n t c _).
  assert (m = (head_of n t c ++ layout 0 l) ++ layout q r ++ [ZIP_END]) as Em by (unfold m, zl_of; rewrite layout_app; fold q; bapp).
  assert (10 + total l = len (head_of n t c ++ layout 0 l)) as Ep by (rewrite len_app, len_head_of, len_layout; done).
  destruct (byte_behind m _ q r _ Em Ep Hwr) as (b & -> & Hb'). ret. rewrite Hb'. destruct r as [|e r].
  - rewrite bool_decide_eq_true_2 by done. cbn [negb]. pose proof (last_off_bounds l). assert (m = zl_of n (10 + last_off l) c (layout 0 l ++ [ZIP_END])) as E by (unfold m, t; by rewrite app_nil_r).
    rewrite E. rewrite get_tail by lia. ret. clearbody n.
    destruct l as [|x l _] using rev_ind; [done|]. unfold q, prev_of. rewrite last_snoc. rewrite layout_app. cbn [layout]. rewrite last_off_app. cbn [last_off]. rewrite Z.add_0_r. apply wf_app in Hwl as [Hwl [Hx _]].
    rewrite total_app in Hr. cbn [total foldr] in Hr. pose proof (total_pos l).
    set (k := zl_of _ _ _ _). assert (k = (head_of n (10 + total l) c ++ layout 0 l) ++ ent (prev_of 0 l) x ++ [ZIP_END]) as Ek by (unfold k, zl_of; bapp).
    assert (10 + total l = len (head_of n (10 + total l) c ++ layout 0 l)) as Ep' by (rewrite len_app, len_head_of, len_layout; done).
    destruct (first_byte k _ _ x _ _ Ek Ep' Hx) as (b1 & -> & Hb1 & _). ret. rewrite (proj2 (Z.eqb_neq _ _)) by done. cbn [negb]. apply (raw_length_at k _ _ x _ _ Ek Ep' Hx). lia.
  - rewrite bool_decide_eq_false_2 by done. cbn [negb]. destruct Hwr as [He _]. rewrite total_cons in Hr. pose proof (total_pos r). rewrite (entry_at m (head_of n t c ++ layout 0 l) q e (layout (esize e) r ++ [ZIP_END]) (10 + total l)); [done|rewrite Em; cbn [layout]; bapp|done|done|lia].
Qed.

(** Room at the end. *)
Lemma insert_room_end l n t c reqlen : n = 11 + total l -> 0 < reqlen -> n + reqlen < 2 ^ 32 ->
  exists w, len w = reqlen /\ insert_room fresh (zl_of n t c (layout 0 l ++ [ZIP_END])) (10 + total l) n reqlen 0 = Ret (zl_of (n + reqlen) (10 + total l) c (layout 0 l ++ w ++ [ZIP_END])).
Proof.
  intros En Hq Hn. pose proof (total_pos l). unfold insert_room. replace (n + reqlen + 0) with (n + reqlen) by lia. rewrite (wrap_u_small 32 (n + reqlen)) by lia.
  destruct (resize_same n t c (layout 0 l) (n + reqlen)) as (w & -> & Lw & Hw); [lia|rewrite len_layout; lia|]. ret. rewrite len_layout in Lw. destruct Hw as [->|[w' ->]]; [rewrite len_nil in Lw; lia|].
  exists (ZIP_END :: w'). split; [lia|].
  rewrite (byte_at_app _ (head_of (n + reqlen) t c ++ layout 0 l) ZIP_END (w' ++ [ZIP_END]) (10 + total l)); [|unfold zl_of; bapp|rewrite len_app, len_head_of, len_layout; lia]. ret.
  change (ZIP_END =? ZIP_END) with true. cbn [negb]. apply set_tail_of. lia.
Qed.

(** Room in front of [e], whose field takes the size of the new entry. *)
Lemma insert_room_before pre q e r n t c reqlen nextdiff : takes q e -> wf (esize e) r -> n = 11 + len pre + total (e :: r) -> t = 10 + len pre + last_off (e :: r) ->
  nextdiff = fsize (ZIP_BIGLEN <=? reqlen) - fsize (big e) -> 0 < reqlen -> 0 <= reqlen + nextdiff -> n + reqlen + 4 < 2 ^ 32 ->
  let e' := mkE (ZIP_BIGLEN <=? reqlen) (text e) in
  exists w, len w = reqlen /\ insert_room fresh (zl_of n t c (pre ++ ent q e ++ layout (esize e) r ++ [ZIP_END])) (10 + len pre) n reqlen nextdiff
    = Ret (zl_of (n + reqlen + nextdiff) (10 + len pre + reqlen + last_off (e' :: r)) c (pre ++ w ++ ent reqlen e' ++ layout (esize e) r ++ [ZIP_END])).
Proof.
  intros He Hwr En Et End Hq Hroom Hn e'. rewrite total_cons in En. pose proof (len_pos pre). pose proof (total_pos r). pose proof (esize_pos e). pose proof (esize_pos e').
  assert (- 4 <= nextdiff <= 4) as Hnd by (rewrite End; destruct (fsize_cases (big e)), (fsize_cases (ZIP_BIGLEN <=? reqlen)); lia).
  assert (esize e' = esize e + nextdiff) as Ee by (unfold e', esize; cbn [big text]; lia). pose proof (last_off_bounds (e :: r)) as Hlo. rewrite total_cons in Hlo.
  unfold insert_room. rewrite (wrap_u_small 32 (n + _ + _)) by lia. set (B := ent q e ++ layout (esize e) r). assert (len B = esize e + total r) as LB by (unfold B; rewrite len_app, len_ent, len_layout; done).
  replace (pre ++ ent q e ++ layout (esize e) r ++ [ZIP_END]) with ((pre ++ B) ++ [ZIP_END]) by (unfold B; bapp).
  set (N := n + reqlen + nextdiff). destruct (resize_same n t c (pre ++ B) N) as (j & -> & Lj & _); [unfold N; lia|rewrite len_app; unfold N; lia|]. ret. rewrite len_app in Lj.
  set (m := zl_of N t c _). set (h := head_of N t c). assert (len h = 10) as Lh by apply len_head_of.
  destruct (first_byte m (h ++ pre) q e (layout (esize e) r ++ j ++ [ZIP_END]) (10 + len pre)) as (b & -> & Hb & _); [unfold m, zl_of, B; bapp|rewrite len_app; lia|done|]. ret. rewrite (proj2 (Z.eqb_neq _ _)) by done. cbn [negb].
  rewrite wrap_u64_id by (unfold in_u64, ULLONG_MAX; lia).
  destruct (cut ((h ++ pre) ++ field (big e) q) (10 + len pre - nextdiff)) as (X & Y & EX & LX); [rewrite !len_app, len_field; destruct (fsize_cases (big e)), (fsize_cases (ZIP_BIGLEN <=? reqlen)); lia|].
  assert (len Y = fsize (ZIP_BIGLEN <=? reqlen)) as LY by (apply (f_equal len) in EX; rewrite !len_app, len_field in EX; lia).
  destruct (cut (B ++ j) reqlen) as (w & v & Ew & Lw); [unfold N in *; blen|]. set (M := Y ++ body (text e) ++ layout (esize e) r).
  assert (len M = esize e + total r + nextdiff) as LM by (unfold M; rewrite !len_app, len_layout, LY, End; unfold esize; lia).
  assert (len v = len M) as Lv by (apply (f_equal len) in Ew; rewrite !len_app in Ew; unfold N in *; lia).
  rewrite (memmove_app _ X M (j ++ [ZIP_END]) ((h ++ pre) ++ w ++ M ++ [ZIP_END]) _ _ _ ((h ++ pre) ++ w ++ M ++ [ZIP_END])).
  2: { transitivity (((h ++ pre) ++ field (big e) q) ++ body (text e) ++ layout (esize e) r ++ j ++ [ZIP_END]); [unfold m, zl_of, B, ent; bapp|]. rewrite EX. unfold M. bapp. }
  2, 3: lia.
  2: { rewrite (store_app _ ((h ++ pre) ++ w) v _ [ZIP_END]); [f_equal; bapp| |rewrite !len_app; lia|lia].
       transitivity ((h ++ pre) ++ (B ++ j) ++ [ZIP_END]); [unfold m, zl_of; bapp|]. rewrite Ew. bapp. }
  2: done.
  ret. rewrite (wrap_u_small 32 reqlen) by lia. rewrite (store_app _ ((h ++ pre) ++ w) Y _ (body (text e) ++ layout (esize e) r ++ [ZIP_END])); [|unfold M; bapp|rewrite !len_app; lia|by rewrite prev_field, len_field].
  ret. exists w. split; [done|].
  replace (((h ++ pre) ++ w) ++ zipPrevEncodeLength reqlen ++ body (text e) ++ layout (esize e) r ++ [ZIP_END]) with (zl_of N t c (pre ++ w ++ ent reqlen e' ++ layout (esize e) r ++ [ZIP_END])) by (unfold zl_of, ent; cbn [big text e']; rewrite prev_field; bapp).
  rewrite get_tail by lia. ret. rewrite set_tail_of by lia. ret. set (t1 := t + reqlen). set (m1 := zl_of N t1 c _).
  assert (takes reqlen e') as He'. { split; [lia|]. cbn. intros Hb'. by apply Z.leb_gt. }
  assert (m1 = (head_of N t1 c ++ pre ++ w) ++ ent reqlen e' ++ layout (esize e) r ++ [ZIP_END]) as Em1 by (unfold m1, zl_of; bapp).
  assert (10 + len pre + reqlen = len (head_of N t1 c ++ pre ++ w)) as Ep1 by (rewrite !len_app, len_head_of; lia).
  rewrite (entry_at m1 _ reqlen e' _ _ Em1 Ep1 He') by lia. ret. cbn [headersize elen zl_entry].
  destruct (byte_behind m1 _ (esize e) r (10 + len pre + (reqlen + (fsize (big e') + len (hdr (text e'))) + len (pay (text e')))) (eq_trans Em1 (app_assoc _ _ _))) as (b1 & -> & Hb1); [|done|].
  { rewrite len_app, len_ent, <- Ep1. unfold esize. rewrite len_body. lia. }
  ret. rewrite Hb1. unfold m1, t1. rewrite (last_off_cons e'). rewrite last_off_cons in Et, Hlo. pose proof (last_off_bounds r). case_bool_decide as Hr0; cbn [negb].
  - f_equal. f_equal. lia.
  - rewrite get_tail by lia. ret. rewrite set_tail_of by lia. do 2 f_equal. lia.
Qed.

(** What [__ziplistInsert] does with the text. *)
Lemma encode_choice s : exists value enc,
  match zipTryEncoding s with Some (v, enc) => (v, enc, zipIntSize enc) | None => (123456789, 0, len s) end = (value, enc, len (pay s))
  /\ zipEncodeLength enc (len s) = hdr s /\ forall zl p, (if ZIP_IS_STR enc then store zl p s else x ← zipSaveInteger value enc; store zl p x) = store zl p (pay s).
Proof.
  rewrite pay_size. unfold hdr, pay. destruct (zipTryEncoding s) as [[v e]|] eqn:E.
  - exists v, e. split_and!; [done..|]. intros zl p. apply try_encoding in E as (_ & He & x & -> & _). by rewrite is_str_int.
  - by exists 123456789, 0.
Qed.

(** Field, header and content written over [w]. *)
Lemma write_ent n t c pre w rest q s value enc : len w = esize (mkE (ZIP_BIGLEN <=? q) s) ->
  zipEncodeLength enc (len s) = hdr s -> (forall zl p, (if ZIP_IS_STR enc then store zl p s else x ← zipSaveInteger value enc; store zl p x) = store zl p (pay s)) ->
  insert_write (zl_of n t c (pre ++ w ++ rest)) (10 + len pre) q value enc s = Ret (zl_of n t c (pre ++ ent q (mkE (ZIP_BIGLEN <=? q) s) ++ rest)).
Proof.
  unfold esize, ent, insert_write. cbn [big text]. rewrite len_body, prev_field, len_field. intros Lw -> Epay. set (h := head_of n t c). assert (len h = 10) as Lh by apply len_head_of.
  set (f := field _ q). assert (len f = fsize (ZIP_BIGLEN <=? q)) as Lf by apply len_field.
  pose proof (len_hdr s). pose proof (len_pos (pay s)). pose proof (fsize_cases (ZIP_BIGLEN <=? q)).
  destruct (cut w (len f)) as (w1 & w' & -> & L1); [lia|]. rewrite len_app in Lw. destruct (cut w' (len (hdr s))) as (w2 & w3 & -> & L2); [lia|]. rewrite len_app in Lw.
  rewrite (store_app _ (h ++ pre) w1 f (w2 ++ w3 ++ rest)); [|unfold zl_of; bapp|blen|lia]. ret.
  rewrite (store_app _ ((h ++ pre) ++ f) w2 (hdr s) (w3 ++ rest)); [|bapp|rewrite !len_app; lia|lia]. ret. rewrite Epay.
  rewrite (store_app _ (((h ++ pre) ++ f) ++ hdr s) w3 (pay s) rest); [|bapp|rewrite !len_app; lia|lia]. f_equal. unfold zl_of, body. bapp.
Qed.

(** There is room for the new text in front of [r]: the field of the next entry does not give
    back more than the new entry takes. *)
Definition insert_ok (n : Z) (r : list zent) : Prop := match r with [] => True | e :: _ => 0 <= n + (fsize (ZIP_BIGLEN <=? n) - fsize (big e)) end.

Lemma insert_space_spec l r x c : wf 0 (l ++ r) -> 11 + total (l ++ r) + 4 * Z.of_nat (length (l ++ r)) + esize x < 2 ^ 32 -> insert_ok (esize x) r ->
  exists w r', insert_space fresh (zl_of (11 + total (l ++ r)) (10 + last_off (l ++ r)) c (layout 0 (l ++ r) ++ [ZIP_END])) (10 + total l) (11 + total (l ++ r)) (esize x)
      = Ret (zl_of (11 + total (l ++ x :: r')) (10 + last_off (l ++ x :: r')) c (layout 0 l ++ w ++ layout (esize x) r' ++ [ZIP_END]))
    /\ len w = esize x /\ texts r' = texts r /\ wf (esize x) r'.
Proof.
  intros [Hwl Hwr]%wf_app Hb Hok. set (q := prev_of 0 l) in *. pose proof (total_pos l). pose proof (total_pos r). pose proof (esize_pos x). rewrite total_app, length_app in Hb.
  assert (len (layout 0 l) = total l) as Ll by apply len_layout. unfold insert_space. set (n := 11 + total (l ++ r)). assert (n = 11 + total l + total r) as En by (unfold n; rewrite total_app; lia).
  set (t := 10 + last_off (l ++ r)). set (m := zl_of n t c _).
  assert (m = (head_of n t c ++ layout 0 l) ++ layout q r ++ [ZIP_END]) as Em by (unfold m, zl_of; rewrite layout_app; fold q; bapp).
  assert (10 + total l = len (head_of n t c ++ layout 0 l)) as Ep by (rewrite len_app, len_head_of; lia).
  destruct (byte_behind m _ q r _ Em Ep Hwr) as (b & -> & Hb'). ret. rewrite Hb'. destruct r as [|e r].
  - rewrite bool_decide_eq_true_2 by done. cbn [negb]. ret. replace m with (zl_of n t c (layout 0 l ++ [ZIP_END])) by (unfold m; by rewrite app_nil_r). change (total []) with 0 in *.
    destruct (insert_room_end l n t c (esize x)) as (w & Lw & ->); [lia..|]. ret. exists w, []. split_and!; try done. rewrite last_off_app, total_app, total_cons. change (total []) with 0. change (last_off [x]) with 0. cbn [layout app]. do 2 f_equal; lia.
  - rewrite bool_decide_eq_false_2 by done. cbn [negb]. destruct Hwr as [He Hwr]. rewrite total_cons in *. cbn [length] in Hb. pose proof (total_pos r). pose proof (esize_pos e). rewrite (wrap_u_small 32) by lia.
    rewrite (prev_diff_at m (head_of n t c ++ layout 0 l) q e (layout (esize e) r ++ [ZIP_END]) _); [|rewrite Em; cbn [layout]; bapp|done|done]. ret. cbn [insert_ok] in Hok.
    set (nd := fsize (ZIP_BIGLEN <=? esize x) - fsize (big e)) in *. set (e' := mkE (ZIP_BIGLEN <=? esize x) (text e)). assert (esize e' = esize e + nd) as Ee by apply esize_big.
    destruct (insert_room_before (layout 0 l) q e r n t c (esize x) nd He Hwr) as (w & Lw & E); [rewrite total_cons; lia|unfold t; rewrite last_off_app; lia|done|lia|lia|lia|]. fold e' in E.
    replace m with (zl_of n t c (layout 0 l ++ ent q e ++ layout (esize e) r ++ [ZIP_END])) by (unfold m; rewrite layout_app; fold q; cbn [layout]; f_equal; bapp). rewrite <- Ll, E. ret.
    assert (takes (esize x) e') as He'. { split; [lia|]. cbn. intros Hb''. by apply Z.leb_gt. } destruct (Z.eqb_spec nd 0) as [E0|E0]; cbn [negb].
    + exists w, (e' :: r). assert (esize e' = esize e) as Ee' by lia. split_and!; [|done|done|cbn [wf]; by rewrite Ee'].
      rewrite last_off_app, total_app, !total_cons. rewrite (last_off_cons x), bool_decide_eq_false_2 by done. cbn [layout]. rewrite Ee'. do 2 f_equal; [lia..|]. bapp.
    + replace (10 + len (layout 0 l) + esize x) with (10 + len (layout 0 l ++ w)) by (rewrite len_app; lia).
      destruct (cascade_update (layout 0 l ++ w) (esize x) e' (esize e) r (n + esize x + nd) (10 + len (layout 0 l ++ w) + last_off (e' :: r)) c Hwr He') as (r' & E' & Htx & Hw); [rewrite len_app; lia|done|destruct (fsize_cases (big e)), (fsize_cases (ZIP_BIGLEN <=? esize x)); lia|].
      replace (layout 0 l ++ w ++ ent (esize x) e' ++ layout (esize e) r ++ [ZIP_END]) with ((layout 0 l ++ w) ++ ent (esize x) e' ++ layout (esize e) r ++ [ZIP_END]) by bapp.
      replace (10 + len (layout 0 l) + esize x + last_off (e' :: r)) with (10 + len (layout 0 l ++ w) + last_off (e' :: r)) by (rewrite len_app; lia). rewrite E'. exists w, (e' :: r'). split_and!; [|done| |done].
      * rewrite last_off_app, total_app, !total_cons. rewrite (last_off_cons x), bool_decide_eq_false_2 by done. cbn [layout]. rewrite len_app. do 2 f_equal; [lia..|]. bapp.
      * unfold texts in *. cbn. by rewrite Htx.
Qed.

(** [__ziplistInsert]: the text stands between [l] and [r]. *)
Lemma ziplist_insert_spec zl l r s : holds_entries zl (l ++ r) -> 11 + lroom (texts (l ++ r)) + lroom [s] < 2 ^ 32 -> insert_ok (esize (mkE (ZIP_BIGLEN <=? prev_of 0 l) s)) r ->
  exists zl' es', ziplist_insert fresh zl (10 + total l) s = Ret zl' /\ holds_entries zl' es' /\ texts es' = texts l ++ s :: texts r.
Proof.
  intros Hzl Hb Hok. pose proof (insert_prevlen_spec zl l r Hzl) as Eprev. destruct Hzl as (c & -> & Hwf & Hh & Hc). pose proof (total_room (l ++ r)) as Hr. pose proof (total_pos (l ++ r)).
  set (q := prev_of 0 l) in *. set (x := mkE (ZIP_BIGLEN <=? q) s) in *. pose proof (esize_room x) as Hx. cbn [text x] in Hx. unfold lroom in Hb at 2. cbn [foldr] in Hb. pose proof (len_pos s). pose proof (prev_of_bounds l) as Hq. fold q in Hq.
  assert (total l <= total (l ++ r)) as Hl by (rewrite total_app; pose proof (total_pos r); lia).
  assert (takes q x) as Htx. { split; [lia|]. cbn. intros Hb'. by apply Z.leb_gt. } destruct (insert_space_spec l r x c Hwf) as (w & r' & Es & Lw & Htr & Hwr'); [lia|done|].
  unfold ziplist_insert. rewrite get_bytes by lia. ret. rewrite Eprev by lia. ret. destruct (encode_choice s) as (value & enc & -> & Ehdr & Epay).
  rewrite Ehdr. replace (len (pay s) + len (zipPrevEncodeLength q) + len (hdr s)) with (esize x) by (unfold x, esize; cbn [big text]; rewrite len_body, prev_field, len_field; lia).
  rewrite Es. ret. replace (10 + total l) with (10 + len (layout 0 l)) by (by rewrite len_layout). rewrite write_ent by done. ret. fold x.
  assert (length r' = length r) as Lr by (apply (f_equal length) in Htr; unfold texts in Htr; by rewrite !length_fmap in Htr).
  destruct (incr_length (11 + total (l ++ x :: r')) (10 + last_off (l ++ x :: r')) c (layout 0 l ++ ent q x ++ layout (esize x) r' ++ [ZIP_END]) (length (l ++ r)) (length (l ++ x :: r')) 1 Hc) as (c' & -> & Hc'); [rewrite !length_app; cbn; lia|lia|].
  eexists _, (l ++ x :: r'). split; [done|]. apply wf_app in Hwf as [Hwl _]. split; [exists c'; split_and!|unfold texts in *; rewrite fmap_app, fmap_cons, Htr; done].
  - f_equal. rewrite layout_app. fold q. cbn [layout]. bapp.
  - apply wf_app. by split_and!.
  - destruct l; [|done]. done.
  - done.
Qed.
End Change.
