(* ===== verification/ZiplistList.v ===== *)
(** * Reading ziplists, and their refinement to lists

    What the functions that read find in a ziplist, by position, from both ends and by content,
    and the refinement of ziplists to lists of strings under every sequence of operations. *)

From Stdlib Require Import ZArith Lia.
From stdpp Require Import base tactics numbers list strings.
From S2P Require Import Prelude Util Endian Block Ziplist ZiplistFacts ZiplistRefine.

Local Open Scope Z_scope.

(** ** One entry *)

(** What [ziplistGet] tells of a text. *)
Definition value_of (s : bytes) : zvalue := match zipTryEncoding s with Some (v, _) => ZInt v | None => ZStr s end.

Definition zvalue_text (v : zvalue) : bytes := match v with ZStr s => s | ZInt v => ll_repr v end.

Lemma value_text s : zvalue_text (value_of s) = s.
Proof. unfold value_of. destruct (zipTryEncoding s) as [[v e]|] eqn:E; [|done]. apply try_encoding in E as [E _]. by apply string2ll_iff in E as [_ ->]. Qed.

Lemma enc_str s : zipTryEncoding s = None -> ZIP_IS_STR (enc_of s) = true.
Proof. unfold enc_of. intros ->. destruct (_ <=? _); [done|]. by destruct (_ <=? _). Qed.

Section Entry.
Context (m a : bytes) (q : Z) (e : zent) (c : bytes) (p : Z).
Hypotheses (Em : m = a ++ ent q e ++ c) (Ep : p = len a) (He : takes q e) (Hs : esize e < 2 ^ 32).

Lemma payload_at s : zipTryEncoding (text e) = None -> len s = len (text e) -> load m (p + (fsize (big e) + len (hdr (text e)))) (len s) = Ret (text e).
Proof.
  intros E ->. apply (load_app _ (a ++ field (big e) q ++ hdr (text e)) (text e) c); [|rewrite !len_app, len_field; lia|done]. rewrite Em. unfold ent, body, pay. rewrite E. bapp.
Qed.

Lemma integer_at v i : zipTryEncoding (text e) = Some (v, i) -> zipLoadInteger m (p + (fsize (big e) + len (hdr (text e)))) i = Ret v.
Proof.
  intros E. pose proof E as (_ & _ & x & Ex & _ & Hl)%try_encoding. apply (Hl m (a ++ field (big e) q ++ hdr (text e)) c); [|rewrite !len_app, len_field; lia].
  rewrite Em. unfold ent, body, pay. rewrite E, Ex. bapp.
Qed.

Lemma get_at : ziplistGet m (Some p) = Ret (Some (value_of (text e))).
Proof.
  unfold ziplistGet. destruct (first_byte m a q e c p Em Ep He) as (b & -> & Hb & _). ret. rewrite (proj2 (Z.eqb_neq _ _)) by done. rewrite (entry_at m a q e c p) by done. ret. cbn [encoding headersize elen zl_entry].
  unfold value_of. destruct (zipTryEncoding (text e)) as [[v i]|] eqn:E.
  - unfold enc_of. rewrite E. pose proof E as (_ & Hi & _)%try_encoding. rewrite is_str_int by done. by rewrite (integer_at v i).
  - rewrite enc_str by done. unfold pay. rewrite E. by rewrite payload_at.
Qed.

(** A text is equal to an entry when it is its text. *)
Lemma same_text s : (if ZIP_IS_STR (enc_of (text e)) then
      if len (pay (text e)) =? len s then x ← load m (p + (fsize (big e) + len (hdr (text e)))) (len s); mret (bool_decide (x = s)) else mret false
    else match fst <$> zipTryEncoding s with Some v => ll ← zipLoadInteger m (p + (fsize (big e) + len (hdr (text e)))) (enc_of (text e)); mret (ll =? v) | None => mret false end)
  = Ret (bool_decide (text e = s)).
Proof.
  destruct (zipTryEncoding (text e)) as [[v i]|] eqn:E.
  - unfold enc_of. rewrite E. pose proof E as (Ev & Hi & _)%try_encoding. rewrite is_str_int by done. destruct (zipTryEncoding s) as [[v' i']|] eqn:E'; cbn [fmap option_fmap option_map fst].
    + rewrite (integer_at v i) by done. ret. f_equal. pose proof E' as (Ev' & _)%try_encoding. apply string2ll_iff in Ev as [_ Ev]. apply string2ll_iff in Ev' as [_ Ev'].
      destruct (Z.eqb_spec v v') as [->|Hv]; [rewrite bool_decide_eq_true_2; [done|congruence]|]. rewrite bool_decide_eq_false_2; [done|]. intros Es. rewrite Es in E. congruence.
    + rewrite bool_decide_eq_false_2; [done|]. intros Es. rewrite Es in E. congruence.
  - rewrite enc_str by done. unfold pay. rewrite E. destruct (Z.eqb_spec (len (text e)) (len s)) as [El|El].
    + by rewrite payload_at.
    + rewrite bool_decide_eq_false_2; [done|]. intros Es. by rewrite Es in El.
Qed.

Lemma compare_at s : ziplistCompare m p s = Ret (bool_decide (text e = s)).
Proof.
  unfold ziplistCompare. destruct (first_byte m a q e c p Em Ep He) as (b & -> & Hb & _). ret. rewrite (proj2 (Z.eqb_neq _ _)) by done. rewrite (entry_at m a q e c p) by done. ret. cbn [encoding headersize elen zl_entry].
  rewrite <- same_text. destruct (ZIP_IS_STR _); [done|]. by destruct (zipTryEncoding s) as [[v i]|].
Qed.
End Entry.

(** ** Positions *)

Definition pos (es : list zent) (i : nat) : Z := 10 + total (take i es).

(** The first text equal to [s] among every ([skip] + 1)-th, counted from [i] on. *)
Fixpoint find_text (s : bytes) (skip cnt : Z) (i : nat) (xs : list bytes) : option nat :=
  match xs with
  | [] => None
  | x :: xs => if cnt =? 0 then if bool_decide (x = s) then Some i else find_text s skip skip (S i) xs else find_text s skip (cnt - 1) (S i) xs
  end.

(** Results that are pairs of a position and a number. *)
Ltac pair_eq := f_equal; apply pair_equal_spec; split; [f_equal; lia || done|lia || done].

Section Read.
Context (m h : bytes) (es : list zent).
Hypotheses (Em : m = h ++ layout 0 es ++ [ZIP_END]) (Lh : len h = 10) (Hwf : wf 0 es) (Ht : total es < 2 ^ 32).

Lemma split_at l r : es = l ++ r -> m = (h ++ layout 0 l) ++ layout (prev_of 0 l) r ++ [ZIP_END] /\ pos es (length l) = len (h ++ layout 0 l) /\ wf (prev_of 0 l) r /\ total r < 2 ^ 32.
Proof.
  intros ->. apply wf_app in Hwf as [_ Hr]. rewrite total_app in Ht. pose proof (total_pos l). split_and!; [rewrite Em, layout_app; bapp| |done|lia].
  unfold pos. rewrite take_app_length, len_app, len_layout. lia.
Qed.

Lemma entry_pos l e r : es = l ++ e :: r -> m = (h ++ layout 0 l) ++ ent (prev_of 0 l) e ++ (layout (esize e) r ++ [ZIP_END]) /\ pos es (length l) = len (h ++ layout 0 l) /\ takes (prev_of 0 l) e /\ esize e < 2 ^ 32.
Proof.
  intros H. destruct (split_at l (e :: r) H) as (E & Ep & [He _] & Hs). rewrite total_cons in Hs. pose proof (total_pos r). split_and!; [rewrite E; cbn [layout]; bapp|done|done|lia].
Qed.

Lemma at_end : byte_at m (pos es (length es)) = Ret ZIP_END.
Proof. destruct (split_at es []) as (E & Ep & _); [by rewrite app_nil_r|]. apply (byte_at_app _ (h ++ layout 0 es) _ []); [rewrite E; bapp|done]. Qed.

Lemma pos_next l e r : es = l ++ e :: r -> pos es (length l) + esize e = pos es (S (length l)).
Proof. intros ->. unfold pos. rewrite take_app_length. replace (l ++ e :: r) with ((l ++ [e]) ++ r) by bapp. replace (S (length l)) with (length (l ++ [e])) by (rewrite length_app; cbn; lia). rewrite take_app_length, total_app. cbn. lia. Qed.

Lemma byte_pos i : (i <= length es)%nat -> exists b, byte_at m (pos es i) = Ret b /\ (b =? ZIP_END) = bool_decide (i = length es).
Proof.
  intros Hi. assert (length (take i es) = i) as Li by (rewrite length_take; lia). destruct (split_at (take i es) (drop i es)) as (E & Ep & Hr & _); [by rewrite take_drop|]. rewrite Li in Ep.
  destruct (byte_behind m _ _ _ _ E Ep Hr) as (b & Eb & Hb). exists b. split; [done|]. rewrite Hb. apply bool_decide_ext. split; [intros Ed%(f_equal length); rewrite length_drop in Ed; cbn in Ed; lia|intros ->; apply drop_ge; lia].
Qed.

Lemma raw_pos i : (i < length es)%nat -> zipRawEntryLength m (pos es i) = Ret (pos es (S i) - pos es i).
Proof.
  intros Hi. destruct (lookup_lt_is_Some_2 es i Hi) as [e He]. apply list_elem_of_split_length in He as (l & r & El & ->). destruct (entry_pos l e r El) as (E & Ep & Hte & Hs).
  rewrite (raw_length_at m _ _ e _ _ E Ep Hte Hs). rewrite <- (pos_next l e r El). f_equal. lia.
Qed.

(** Forward. *)
Lemma index_loop_spec n : forall fuel i index, (i + n = length es)%nat -> 0 <= index -> (n < fuel)%nat ->
  index_loop fuel m (pos es i) index = Ret (if index <? Z.of_nat n then (pos es (i + Z.to_nat index), -1) else (pos es (length es), index - Z.of_nat n)).
Proof.
  induction n as [|n IH]; intros [|fuel] i index Hi H0 Hf; try lia; cbn [index_loop]; destruct (byte_pos i) as (b & -> & Hb); try lia; ret; rewrite Hb.
  - rewrite bool_decide_eq_true_2 by lia. rewrite (proj2 (Z.ltb_ge index _)) by lia. pair_eq.
  - rewrite bool_decide_eq_false_2 by lia. destruct (Z.eqb_spec index 0) as [->|Hx].
    + rewrite (proj2 (Z.ltb_lt 0 _)) by lia. pair_eq.
    + rewrite raw_pos by lia. ret. replace (pos es i + (pos es (S i) - pos es i)) with (pos es (S i)) by lia. rewrite IH by lia.
      destruct (Z.ltb_spec (index - 1) (Z.of_nat n)), (Z.ltb_spec index (Z.of_nat (S n))); try lia; pair_eq.
Qed.

(** Backward: [i] entries are in front. *)
Lemma index_back_spec i : forall fuel k, (i < length es)%nat -> 0 <= k -> (i < fuel)%nat ->
  index_back fuel m (pos es i) k = Ret (if k <? Z.of_nat i then (pos es (i - Z.to_nat k), -1) else (pos es 0, k - Z.of_nat i)).
Proof.
  induction i as [i IH] using lt_wf_ind. intros [|fuel] k Hi H0 Hf; try lia; cbn [index_back].
  destruct (lookup_lt_is_Some_2 es i Hi) as [e He]. apply list_elem_of_split_length in He as (l & r & El & Ei). destruct (entry_pos l e r El) as (E & Ep & Hte & Hs).
  rewrite Ei, (entry_at m _ _ e _ _ E Ep Hte Hs). ret. cbn [prevrawlen zl_entry]. destruct l as [|x l _] using rev_ind.
  - cbn [length]. change (Z.of_nat 0) with 0. change (0 <? prev_of 0 []) with false. cbn iota. rewrite (proj2 (Z.ltb_ge k 0)) by lia. pair_eq.
  - rewrite length_app in *. cbn [length] in *. unfold prev_of. rewrite last_snoc. pose proof (esize_pos x). rewrite (proj2 (Z.ltb_lt 0 _)) by lia.
    assert (pos es (length l + 1) - esize x = pos es (length l)) as Ex by (pose proof (pos_next l x (e :: r) ltac:(rewrite El; bapp)) as Hn; rewrite Nat.add_comm in *; cbn [Nat.add] in *; lia).
    destruct (Z.eqb_spec k 0) as [->|Hk].
    + rewrite (proj2 (Z.ltb_lt 0 _)) by lia. pair_eq.
    + rewrite Ex, (IH (length l)) by lia. destruct (Z.ltb_spec (k - 1) (Z.of_nat (length l))), (Z.ltb_spec k (Z.of_nat (length l + 1))); try lia; pair_eq.
Qed.

Lemma len_loop_spec n : forall fuel i k, (i + n = length es)%nat -> (n < fuel)%nat -> len_loop fuel m (pos es i) k = Ret (k + Z.of_nat n).
Proof.
  induction n as [|n IH]; intros [|fuel] i k Hi Hf; try lia; cbn [len_loop]; destruct (byte_pos i) as (b & -> & Hb); try lia; ret; rewrite Hb.
  - rewrite bool_decide_eq_true_2 by lia. f_equal. lia.
  - rewrite bool_decide_eq_false_2 by lia. rewrite raw_pos by lia. ret. replace (pos es i + (pos es (S i) - pos es i)) with (pos es (S i)) by lia. rewrite IH by lia. f_equal. lia.
Qed.

Lemma next_pos i : (i < length es)%nat -> ziplistNext m (pos es i) = Ret (if bool_decide (S i = length es) then None else Some (pos es (S i))).
Proof.
  intros Hi. unfold ziplistNext. destruct (byte_pos i) as (b & -> & Hb); [lia|]. ret. rewrite Hb, bool_decide_eq_false_2 by lia. rewrite raw_pos by lia. ret.
  replace (pos es i + (pos es (S i) - pos es i)) with (pos es (S i)) by lia. destruct (byte_pos (S i)) as (b' & -> & Hb'); [lia|]. ret. by rewrite Hb'.
Qed.

Lemma pos_lt i j : (i < j <= length es)%nat -> pos es i < pos es j.
Proof.
  intros Hij. unfold pos. assert (take j es = take i es ++ take (j - i) (drop i es)) as -> by (rewrite take_take_drop; f_equal; lia).
  rewrite total_app. assert (0 < total (take (j - i) (drop i es))); [|lia]. pose proof (total_length (take (j - i) (drop i es))) as Hl. rewrite length_take, length_drop in Hl. lia.
Qed.

Lemma prev_pos i : (i < length es)%nat -> ziplistPrev m (pos es i) = Ret (match i with O => None | S j => Some (pos es j) end).
Proof.
  intros Hi. unfold ziplistPrev. destruct (byte_pos i) as (b & -> & Hb); [lia|]. ret. rewrite Hb, bool_decide_eq_false_2 by lia. destruct i as [|j].
  - done.
  - assert (pos es 0 = ZIPLIST_HEADER_SIZE) as E0 by (unfold pos; by rewrite take_0). pose proof (pos_lt 0 (S j) ltac:(lia)). rewrite (proj2 (Z.eqb_neq _ _)) by lia.
    destruct (lookup_lt_is_Some_2 es (S j) Hi) as [e He]. apply list_elem_of_split_length in He as (l & r & El & Ei). destruct (entry_pos l e r El) as (E & Ep & Hte & Hs).
    rewrite Ei, (entry_at m _ _ e _ _ E Ep Hte Hs). ret. cbn [prevrawlen zl_entry]. destruct l as [|x l _] using rev_ind; [done|]. unfold prev_of. rewrite last_snoc. pose proof (esize_pos x). rewrite (proj2 (Z.ltb_lt 0 _)) by lia. cbn [prez_assert]. ret.
    rewrite length_app in *. cbn [length] in *. assert (j = length l) as -> by lia. pose proof (pos_next l x (e :: r) ltac:(rewrite El; bapp)) as Hn. do 2 f_equal. replace (length l + 1)%nat with (S (length l)) by lia. lia.
Qed.

Lemma find_loop_spec s skip n : forall fuel i cnt tried vll, (i + n = length es)%nat -> (tried = true -> vll = fst <$> zipTryEncoding s) -> (n < fuel)%nat ->
  find_loop fuel m (pos es i) s skip cnt tried vll = Ret (pos es <$> find_text s skip cnt i (drop i (texts es))).
Proof.
  induction n as [|n IH]; intros [|fuel] i cnt tried vll Hi Hv Hf; try lia; cbn [find_loop]; destruct (byte_pos i) as (b & -> & Hb); try lia; ret; rewrite Hb.
  - rewrite bool_decide_eq_true_2 by lia. rewrite drop_ge; [done|]. unfold texts. rewrite length_fmap. lia.
  - rewrite bool_decide_eq_false_2 by lia. destruct (lookup_lt_is_Some_2 es i) as [e He]; [lia|]. assert (texts es !! i = Some (text e)) as Hx by (unfold texts; by rewrite list_lookup_fmap, He).
    rewrite (drop_S _ _ _ Hx). cbn [find_text]. apply list_elem_of_split_length in He as (l & r & El & Ei). destruct (entry_pos l e r El) as (E & Ep & Hte & Hs). rewrite <- Ei in Ep.
    rewrite (prevlensize_at m _ _ e _ _ E Ep Hte). ret. rewrite (content_at m _ _ e _ _ E Ep Hs). ret.
    pose proof (pos_next l e r El) as En. rewrite <- Ei in En. assert (pos es i + fsize (big e) + len (hdr (text e)) + len (pay (text e)) = pos es (S i)) as -> by (rewrite <- En; unfold esize; rewrite len_body; lia).
    destruct (Z.eqb_spec cnt 0) as [->|Hcnt]; [|apply IH; [lia|done|lia]].
    rewrite <- (Z.add_assoc (pos es i)). pose proof (same_text m _ _ e _ _ E Ep s) as Hsame.
    assert ((if tried then vll else fst <$> zipTryEncoding s) = fst <$> zipTryEncoding s) as Ev by (destruct tried; [by apply Hv|done]). rewrite Ev.
    destruct (ZIP_IS_STR (enc_of (text e))); rewrite Hsame; ret; (case_bool_decide; [done|]); apply IH; [lia|done|lia|lia|done|lia].
Qed.
End Read.

(** ** A block *)

Lemma holds_block zl es : holds_entries zl es -> 11 + lroom (texts es) < 2 ^ 32 ->
  exists c h, zl = zl_of (11 + total es) (10 + last_off es) c (layout 0 es ++ [ZIP_END]) /\ zl = h ++ layout 0 es ++ [ZIP_END] /\ len h = 10 /\ wf 0 es /\ total es + 4 * Z.of_nat (length es) < 2 ^ 32 - 11 /\ count_ok c (length es) /\ (length es < S (length zl))%nat.
Proof.
  intros (c & E & Hwf & _ & Hc) Hb. exists c, (head_of (11 + total es) (10 + last_off es) c). pose proof (total_room es). pose proof (total_length es).
  split_and!; [done|done|apply len_head_of|done|lia|done|]. assert (len zl = 11 + total es) as Lz by (rewrite E, len_zl_of, len_app, len_layout, len_cons, len_nil; lia). unfold len in Lz. lia.
Qed.

(** The place of an index that may count from the end. *)
Definition place_of (n : nat) (i : Z) : option nat :=
  if i <? 0 then if - i <=? Z.of_nat n then Some (Z.to_nat (Z.of_nat n + i)) else None else if i <? Z.of_nat n then Some (Z.to_nat i) else None.

Lemma last_pos es : es <> [] -> 10 + last_off es = pos es (length es - 1).
Proof.
  destruct es as [|e es _] using rev_ind; [done|]. intros _. unfold pos. rewrite last_off_app, length_app. cbn [length last_off]. replace (length es + 1 - 1)%nat with (length es) by lia. rewrite take_app_length. lia.
Qed.

Lemma index_spec zl es i : holds_entries zl es -> 11 + lroom (texts es) < 2 ^ 32 -> - 2 ^ 31 < i < 2 ^ 31 -> ziplistIndex zl i = Ret (pos es <$> place_of (length es) i).
Proof.
  intros Hzl Hb Hi. destruct (holds_block zl es Hzl Hb) as (c & h & Ez & Em & Lh & Hwf & Ht & Hc & Hf). assert (total es < 2 ^ 32) as Ht' by lia.
  unfold ziplistIndex, place_of. pose proof (last_off_bounds es). destruct (Z.ltb_spec i 0).
  - rewrite (proj2 (Z.ltb_lt (- 2 ^ 31) i)) by lia. cbn [require]. ret. assert (ZIPLIST_TAIL_OFFSET zl = Ret (10 + last_off es)) as -> by (rewrite Ez; apply get_tail; lia). ret. destruct (decide (es = [])) as [->|Hne].
    + pose proof (at_end zl h [] Em Lh Hwf Ht') as Ee. change (pos [] (length [])) with (10 + last_off []) in Ee. rewrite Ee. ret. change (ZIP_END =? ZIP_END) with true. cbn [negb]. ret. rewrite Ee. ret.
      rewrite (proj2 (Z.leb_gt _ _)) by (cbn; lia). done.
    + rewrite last_pos by done. assert (length es <> 0)%nat by (by destruct es). destruct (byte_pos zl h es Em Lh Hwf Ht' (length es - 1)) as (b & -> & Hb1); [lia|]. ret. rewrite Hb1, bool_decide_eq_false_2 by lia. cbn [negb].
      rewrite (index_back_spec zl h es Em Lh Hwf Ht') by lia. ret.
      assert (forall j k, (j < length es)%nat -> (b ← byte_at zl (pos es j); mret (if (b =? ZIP_END) || (0 <? k) then None else Some (pos es j))) = Ret (if 0 <? k then None else Some (pos es j))) as Hfin.
      { intros j k Hj. destruct (byte_pos zl h es Em Lh Hwf Ht' j) as (b2 & -> & Hb2); [lia|]. ret. by rewrite Hb2, bool_decide_eq_false_2 by lia. }
      destruct (Z.ltb_spec (- i - 1) (Z.of_nat (length es - 1))).
      * rewrite Hfin by lia. rewrite (proj2 (Z.leb_le _ _)) by lia. cbn. do 3 f_equal. lia.
      * rewrite Hfin by lia. destruct (Z.leb_spec (- i) (Z.of_nat (length es))).
        -- rewrite (proj2 (Z.ltb_ge 0 _)) by lia. cbn. do 3 f_equal. lia.
        -- by rewrite (proj2 (Z.ltb_lt 0 _)) by lia.
  - change ZIPLIST_HEADER_SIZE with (pos es 0). rewrite (index_loop_spec zl h es Em Lh Hwf Ht' (length es)) by lia. ret. destruct (Z.ltb_spec i (Z.of_nat (length es))).
    + destruct (byte_pos zl h es Em Lh Hwf Ht' (0 + Z.to_nat i)) as (b & -> & Hb1); [lia|]. ret. by rewrite Hb1, bool_decide_eq_false_2 by lia.
    + rewrite (at_end zl h es Em Lh Hwf Ht'). done.
Qed.

Lemma get_spec zl es i : holds_entries zl es -> 11 + lroom (texts es) < 2 ^ 32 -> (i < length es)%nat -> ziplistGet zl (Some (pos es i)) = Ret (value_of <$> texts es !! i).
Proof.
  intros Hzl Hb Hi. destruct (holds_block zl es Hzl Hb) as (c & h & Ez & Em & Lh & Hwf & Ht & Hc & Hf). assert (total es < 2 ^ 32) as Ht' by lia.
  destruct (lookup_lt_is_Some_2 es i Hi) as [e He]. assert (texts es !! i = Some (text e)) as -> by (unfold texts; by rewrite list_lookup_fmap, He).
  apply list_elem_of_split_length in He as (l & r & El & ->). destruct (entry_pos zl h es Em Lh Hwf Ht' l e r El) as (E & Ep & Hte & Hs). by apply (get_at zl _ _ e _ _ E Ep Hte Hs).
Qed.

(** ** Operations *)

(** Pushing, inserting at an index, deleting at an index, deleting a range, counting. *)
Inductive lop := LPush (head : bool) (s : bytes) | LInsert (i : Z) (s : bytes) | LDelete (i : Z) | LRange (i num : Z) | LLen.

Definition lstep (fresh : nat -> Z) (zl : bytes) (o : lop) : cres (bytes * Z) :=
  match o with
  | LPush head s => zl ← ziplistPush fresh zl s head; mret (zl, 0)
  | LInsert i s =>
      p ← ziplistIndex zl i;
      zl ← (match p with Some p => ziplistInsert fresh zl p s | None => mret zl end);
      mret (zl, 0)
  | LDelete i =>
      p ← ziplistIndex zl i;
      zl ← (match p with Some p => '(zl, _) ← ziplistDelete fresh zl p; mret zl | None => mret zl end);
      mret (zl, 0)
  | LRange i num => zl ← ziplistDeleteRange fresh zl i num; mret (zl, 0)
  | LLen => ziplistLen zl
  end.

Fixpoint lrun (fresh : nat -> Z) (zl : bytes) (ops : list lop) : cres (bytes * list Z) :=
  match ops with [] => mret (zl, []) | o :: ops => '(zl, a) ← lstep fresh zl o; '(zl, l) ← lrun fresh zl ops; mret (zl, a :: l) end.

Definition astep (xs : list bytes) (o : lop) : list bytes * Z :=
  match o with
  | LPush head s => (if head then s :: xs else xs ++ [s], 0)
  | LInsert i s => (match place_of (length xs) i with Some k => take k xs ++ s :: drop k xs | None => xs end, 0)
  | LDelete i => (match place_of (length xs) i with Some k => delete k xs | None => xs end, 0)
  | LRange i num => (match place_of (length xs) i with Some k => take k xs ++ drop (k + Z.to_nat num) xs | None => xs end, 0)
  | LLen => (xs, Z.of_nat (length xs))
  end.

Fixpoint arun (xs : list bytes) (ops : list lop) : list bytes * list Z :=
  match ops with [] => (xs, []) | o :: ops => let '(xs, a) := astep xs o in let '(xs, l) := arun xs ops in (xs, a :: l) end.

(** Indices and numbers of their types; an inserted text has a content of three bytes at least,
    which every text has that is neither shorter than two characters nor a small integer. *)
Definition op_ok (o : lop) : Prop :=
  match o with
  | LInsert i s => - 2 ^ 31 < i < 2 ^ 31 /\ 3 <= len (body s)
  | LDelete i => - 2 ^ 31 < i < 2 ^ 31
  | LRange i num => 0 <= i < 2 ^ 31 /\ 0 <= num < 2 ^ 32
  | _ => True
  end.

Definition lcost (o : lop) : Z := match o with LPush _ s | LInsert _ s => lroom [s] | _ => 0 end.

Lemma place_lt n i k : place_of n i = Some k -> (k < n)%nat.
Proof. unfold place_of. destruct (Z.ltb_spec i 0); [destruct (Z.leb_spec (- i) (Z.of_nat n))|destruct (Z.ltb_spec i (Z.of_nat n))]; intros [= <-]; lia. Qed.

Lemma lroom_cons s xs : lroom (s :: xs) = lroom [s] + lroom xs.
Proof. apply (lroom_app [s] xs). Qed.

Lemma lroom_part xs k j : lroom (take k xs ++ drop (k + j) xs) <= lroom xs.
Proof.
  assert (xs = take k xs ++ take j (drop k xs) ++ drop (k + j) xs) as E by (by rewrite <- drop_drop, !take_drop).
  apply (f_equal lroom) in E. rewrite !lroom_app in *. pose proof (lroom_pos (take j (drop k xs))). lia.
Qed.

Lemma astep_room xs o : lroom (astep xs o).1 <= lroom xs + lcost o.
Proof.
  destruct o as [[] s|i s|i|i num|]; cbn [astep fst lcost].
  - rewrite lroom_cons. lia.
  - rewrite lroom_app. lia.
  - pose proof (lroom_pos [s]). destruct (place_of _ i) as [k|]; [|lia]. pose proof (f_equal lroom (take_drop k xs)) as E. rewrite !lroom_app, lroom_cons in *. lia.
  - destruct (place_of _ i) as [k|]; [|lia]. rewrite delete_take_drop. replace (S k) with (k + 1)%nat by lia. pose proof (lroom_part xs k 1). lia.
  - destruct (place_of _ i) as [k|]; [|lia]. pose proof (lroom_part xs k (Z.to_nat num)). lia.
  - lia.
Qed.

Section Step.
Context (fresh : nat -> Z).

Lemma insert_at_place zl es k s : holds_entries zl es -> 11 + lroom (texts es) + lroom [s] < 2 ^ 32 -> (k <= length es)%nat ->
  (k = 0%nat \/ k = length es \/ 3 <= len (body s)) ->
  exists zl' es', ziplist_insert fresh zl (pos es k) s = Ret zl' /\ holds_entries zl' es' /\ texts es' = take k (texts es) ++ s :: drop k (texts es).
Proof.
  intros Hzl Hb Hk Hs. assert (es = take k es ++ drop k es) as Ees by (by rewrite take_drop). pose proof (fmap_take text k es) as Et. pose proof (fmap_drop text k es) as Ed. unfold texts in *.
  rewrite <- Et, <- Ed. apply ziplist_insert_spec; [by rewrite take_drop|by rewrite take_drop|]. unfold insert_ok. destruct (drop k es) as [|e r] eqn:Er; [done|].
  destruct Hs as [->|[->|Hs]].
  - rewrite drop_0 in Er. destruct Hzl as (c & _ & _ & Hh & _). rewrite Er in Hh. cbn in Hh. rewrite Hh. pose proof (esize_pos (mkE (ZIP_BIGLEN <=? prev_of 0 (take 0 es)) s)). destruct (fsize_cases (ZIP_BIGLEN <=? esize (mkE (ZIP_BIGLEN <=? prev_of 0 (take 0 es)) s))); cbn [fsize]; lia.
  - rewrite drop_ge in Er by lia. done.
  - set (x := mkE _ s). assert (4 <= esize x) by (unfold esize; cbn; destruct (fsize_cases (ZIP_BIGLEN <=? prev_of 0 (take k es))); lia).
    destruct (fsize_cases (ZIP_BIGLEN <=? esize x)), (fsize_cases (big e)); lia.
Qed.

Lemma delete_at_place zl es k num : holds_entries zl es -> 11 + lroom (texts es) < 2 ^ 32 -> (k < length es)%nat -> 0 <= num < 2 ^ 32 ->
  exists zl' es', ziplist_delete fresh zl (pos es k) num = Ret zl' /\ holds_entries zl' es' /\ texts es' = take k (texts es) ++ drop (k + Z.to_nat num) (texts es).
Proof.
  intros Hzl Hb Hk Hnum. unfold texts in *. rewrite <- fmap_take, <- fmap_drop, <- fmap_app. destruct (Z.eq_dec num 0) as [->|Hn0].
  - exists zl, es. split_and!; [|done|by rewrite Nat.add_0_r, take_drop]. destruct (holds_block zl es Hzl Hb) as (c & h & Ez & Em & Lh & Hwf & Ht & Hc & Hf). assert (total es < 2 ^ 32) as Ht' by lia.
    destruct (lookup_lt_is_Some_2 es k Hk) as [e He]. apply list_elem_of_split_length in He as (l & r & El & Ek). destruct (entry_pos zl h es Em Lh Hwf Ht' l e r El) as (E & Ep & Hte & Hs).
    unfold ziplist_delete. rewrite Ek, (entry_at zl _ _ e _ _ E Ep Hte Hs). ret. cbn [delete_loop]. destruct (first_byte zl _ _ e _ _ E Ep Hte) as (b & -> & Hb1 & _). ret.
    change (0 <? 0) with false. rewrite andb_false_r. ret. cbn [ep zl_entry]. rewrite Z.sub_diag. done.
  - set (j := Z.to_nat num). destruct (take j (drop k es)) as [|d0 d] eqn:Ed; [apply (f_equal length) in Ed; rewrite length_take, length_drop in Ed; cbn in Ed; lia|].
    assert (es = take k es ++ (d0 :: d) ++ drop (k + j) es) as Ees by (by rewrite <- Ed, <- drop_drop, !take_drop).
    apply (ziplist_delete_spec fresh zl (take k es) d0 d (drop (k + j) es) num); [by rewrite <- Ees|by rewrite <- Ees|]. apply (f_equal length) in Ed. rewrite length_take, length_drop in Ed. rewrite <- Ed.
    destruct (decide (length es <= k + j)%nat); [right; split; [by apply drop_ge|lia]|left; lia].
Qed.

Lemma push_step zl es head s : holds_entries zl es -> 11 + lroom (texts es) + lroom [s] < 2 ^ 32 ->
  exists zl' es', ziplistPush fresh zl s head = Ret zl' /\ holds_entries zl' es' /\ texts es' = if head then s :: texts es else texts es ++ [s].
Proof.
  intros Hzl Hb. pose proof (lroom_pos [s]). unfold ziplistPush. destruct head.
  - ret. change ZIPLIST_HEADER_SIZE with (pos es 0). destruct (insert_at_place zl es 0 s) as (zl' & es' & E & H' & Et); [done|done|lia|auto|]. exists zl', es'. by rewrite Et.
  - destruct (holds_block zl es Hzl) as (c & h & Ez & Em & Lh & Hwf & Ht & Hc & Hf); [lia|]. assert (ZIPLIST_BYTES zl = Ret (11 + total es)) as -> by (rewrite Ez; apply get_bytes; pose proof (total_pos es); lia). ret.
    replace (11 + total es - 1) with (pos es (length es)) by (unfold pos; rewrite firstn_all; lia). destruct (insert_at_place zl es (length es) s) as (zl' & es' & E & H' & Et); [done|done|lia|auto|].
    exists zl', es'. split_and!; [done|done|]. rewrite Et. assert (length es = length (texts es)) as -> by (unfold texts; by rewrite length_fmap). by rewrite firstn_all, drop_all.
Qed.

Lemma len_spec zl es : holds_entries zl es -> 11 + lroom (texts es) < 2 ^ 32 -> exists zl', ziplistLen zl = Ret (zl', Z.of_nat (length es)) /\ holds_entries zl' es.
Proof.
  intros Hzl Hb. pose proof Hzl as (_ & _ & _ & Hh & _). destruct (holds_block zl es Hzl Hb) as (c & h & Ez & Em & Lh & Hwf & Ht & Hc & Hf). assert (total es < 2 ^ 32) as Ht' by lia. destruct Hc as [Hc Hk].
  unfold ziplistLen. assert (ZIPLIST_LENGTH zl = Ret c) as -> by (rewrite Ez; apply get_length; unfold UINT16_MAX in Hc; lia). ret. destruct (Z.ltb_spec c UINT16_MAX).
  - exists zl. rewrite <- Hk by done. done.
  - change ZIPLIST_HEADER_SIZE with (pos es 0). rewrite (len_loop_spec zl h es Em Lh Hwf Ht' (length es)) by lia. ret. destruct (Z.ltb_spec (0 + Z.of_nat (length es)) UINT16_MAX).
    + rewrite Ez, set_length_of. ret. eexists. split; [done|]. eexists. split_and!; [done..|]. unfold UINT16_MAX in *. rewrite wrap_u_small by lia. unfold count_ok, UINT16_MAX. lia.
    + ret. exists zl. done.
Qed.

Lemma lstep_spec zl es o : holds_entries zl es -> op_ok o -> 11 + lroom (texts es) + lcost o < 2 ^ 32 ->
  exists zl' es', lstep fresh zl o = Ret (zl', (astep (texts es) o).2) /\ holds_entries zl' es' /\ texts es' = (astep (texts es) o).1.
Proof.
  intros Hzl Ho Hb. assert (length (texts es) = length es) as Lt by apply length_fmap. destruct o as [head s|i s|i|i num|]; cbn [lstep astep fst snd lcost op_ok] in *; rewrite ?Lt.
  - destruct (push_step zl es head s Hzl Hb) as (zl' & es' & -> & H). by exists zl', es'.
  - destruct Ho as [Hi Hs]. pose proof (lroom_pos [s]). rewrite (index_spec zl es) by (done || lia). ret. destruct (place_of (length es) i) as [k|] eqn:Ep; cbn [fmap option_fmap option_map].
    + apply place_lt in Ep. destruct (insert_at_place zl es k s Hzl Hb) as (zl' & es' & E & H'); [lia|auto|]. unfold ziplistInsert. rewrite E. by exists zl', es'.
    + by exists zl, es.
  - rewrite (index_spec zl es) by (done || lia). ret. destruct (place_of (length es) i) as [k|] eqn:Ep; cbn [fmap option_fmap option_map].
    + apply place_lt in Ep. destruct (delete_at_place zl es k 1 Hzl) as (zl' & es' & E & H' & Et); [lia|done|lia|]. unfold ziplistDelete. rewrite E. ret. exists zl', es'. split_and!; [done|done|]. rewrite Et, delete_take_drop. do 2 f_equal. lia.
    + by exists zl, es.
  - destruct Ho as [Hi Hnum]. unfold ziplistDeleteRange. rewrite wrap_s32_id by (unfold in_s32; lia). rewrite (index_spec zl es) by (done || lia). ret. destruct (place_of (length es) i) as [k|] eqn:Ep; cbn [fmap option_fmap option_map].
    + apply place_lt in Ep. destruct (delete_at_place zl es k num Hzl) as (zl' & es' & -> & H'); [lia|done|lia|]. by exists zl', es'.
    + by exists zl, es.
  - destruct (len_spec zl es Hzl) as (zl' & -> & H'); [lia|]. by exists zl', es.
Qed.
End Step.

(** ** The refinement *)

(** Clients that walk through the list in both directions. *)
Fixpoint walk_next (fuel : nat) (zl : bytes) (p : option Z) : cres (list zvalue) :=
  match fuel, p with
  | S fuel, Some q => v ← ziplistGet zl p; p ← ziplistNext zl q; l ← walk_next fuel zl p; mret (option_list v ++ l)
  | _, _ => mret []
  end.

Fixpoint walk_prev (fuel : nat) (zl : bytes) (p : option Z) : cres (list zvalue) :=
  match fuel, p with
  | S fuel, Some q => v ← ziplistGet zl p; p ← ziplistPrev zl q; l ← walk_prev fuel zl p; mret (option_list v ++ l)
  | _, _ => mret []
  end.

(** Reading [zl] gives the texts [xs]. *)
Definition reads (zl : bytes) (xs : list bytes) : Prop :=
  (forall i, - 2 ^ 31 < i < 2 ^ 31 -> (p ← ziplistIndex zl i; ziplistGet zl p) = Ret (place_of (length xs) i ≫= λ k, value_of <$> xs !! k))
  /\ (p ← ziplistIndex zl 0; walk_next (length xs) zl p) = Ret (value_of <$> xs)
  /\ (p ← ziplistIndex zl (-1); walk_prev (length xs) zl p) = Ret (value_of <$> reverse xs)
  /\ (forall s skip, 0 <= skip -> ziplistFind zl ZIPLIST_HEADER_SIZE s skip = match find_text s skip 0 0 xs with Some k => ziplistIndex zl (Z.of_nat k) | None => Ret None end)
  /\ ziplistBlobLen zl = Ret (len zl).

Lemma find_text_lt s skip xs : forall cnt i k, find_text s skip cnt i xs = Some k -> (i <= k < i + length xs)%nat.
Proof.
  induction xs as [|x xs IH]; intros cnt i k; cbn [find_text length]; [done|]. destruct (cnt =? 0); [case_bool_decide; [intros [= <-]; lia|]|]; intros Hx%IH; lia.
Qed.

Section Reading.
Context (zl : bytes) (es : list zent).
Hypotheses (Hzl : holds_entries zl es) (Hb : 11 + lroom (texts es) < 2 ^ 32).

Lemma walk_next_spec n : forall i, (i + n = length es)%nat -> walk_next n zl (if bool_decide (i = length es) then None else Some (pos es i)) = Ret (value_of <$> drop i (texts es)).
Proof.
  destruct (holds_block zl es Hzl Hb) as (c & h & Ez & Em & Lh & Hwf & Ht & Hc & Hf). assert (total es < 2 ^ 32) as Ht' by lia. assert (length (texts es) = length es) as Lt by apply length_fmap.
  induction n as [|n IH]; intros i Hi.
  - rewrite drop_ge by lia. done.
  - rewrite bool_decide_eq_false_2 by lia. cbn [walk_next]. rewrite (get_spec zl es) by (done || lia). ret. rewrite (next_pos zl h es) by (done || lia). ret. rewrite (IH (S i)) by lia. ret.
    destruct (lookup_lt_is_Some_2 (texts es) i) as [x Hx]; [lia|]. by rewrite Hx, (drop_S _ _ _ Hx).
Qed.

Lemma walk_prev_spec n : forall fuel, (n <= length es)%nat -> (n <= fuel)%nat -> walk_prev fuel zl (match n with O => None | S j => Some (pos es j) end) = Ret (value_of <$> reverse (take n (texts es))).
Proof.
  destruct (holds_block zl es Hzl Hb) as (c & h & Ez & Em & Lh & Hwf & Ht & Hc & Hf). assert (total es < 2 ^ 32) as Ht' by lia. assert (length (texts es) = length es) as Lt by apply length_fmap.
  induction n as [|n IH]; intros fuel Hn Hfu; [by destruct fuel|]. destruct fuel as [|fuel]; [lia|]. cbn [walk_prev]. rewrite (get_spec zl es) by (done || lia). ret. rewrite (prev_pos zl h es) by (done || lia). ret. rewrite IH by lia. ret.
  destruct (lookup_lt_is_Some_2 (texts es) n) as [x Hx]; [lia|]. rewrite Hx, (take_S_r _ _ _ Hx), reverse_app. done.
Qed.

Lemma reads_texts : reads zl (texts es).
Proof.
  destruct (holds_block zl es Hzl Hb) as (c & h & Ez & Em & Lh & Hwf & Ht & Hc & Hf). assert (total es < 2 ^ 32) as Ht' by lia. assert (length (texts es) = length es) as Lt by apply length_fmap. pose proof (total_length es). unfold reads. rewrite Lt. split_and!.
  - intros i Hi. rewrite (index_spec zl es) by done. ret. destruct (place_of (length es) i) as [k|] eqn:Ek; [|done]. apply place_lt in Ek. by apply (get_spec zl es).
  - rewrite (index_spec zl es) by (done || lia). ret. rewrite <- (drop_0 (texts es)), <- (walk_next_spec (length es) 0) by lia. f_equal. unfold place_of. cbn [Z.ltb Z.compare]. change (0 <? 0) with false. cbn iota.
    destruct (Z.ltb_spec 0 (Z.of_nat (length es))); [by rewrite bool_decide_eq_false_2 by lia|by rewrite bool_decide_eq_true_2 by lia].
  - rewrite (index_spec zl es) by (done || lia). ret. rewrite <- (firstn_all (texts es)) at 1. rewrite Lt, <- (walk_prev_spec (length es) (length es)) by lia. f_equal. unfold place_of. change (-1 <? 0) with true. cbn iota. change (- -1) with 1.
    destruct (length es) as [|j] eqn:El; [done|]. rewrite (proj2 (Z.leb_le _ _)) by lia. cbn [fmap option_fmap option_map]. do 2 f_equal. lia.
  - intros s skip Hs. unfold ziplistFind. change ZIPLIST_HEADER_SIZE with (pos es 0). rewrite (find_loop_spec zl h es Em Lh Hwf Ht' s skip (length es)) by (done || lia). rewrite drop_0.
    destruct (find_text s skip 0 0 (texts es)) as [k|] eqn:Ek; [|done]. apply find_text_lt in Ek. rewrite (index_spec zl es) by (done || lia). cbn [fmap option_fmap option_map]. unfold place_of. rewrite (proj2 (Z.ltb_ge _ 0)), (proj2 (Z.ltb_lt _ _)) by lia. cbn. by rewrite Nat2Z.id.
  - unfold ziplistBlobLen. rewrite Ez, get_bytes by (pose proof (total_pos es); lia). rewrite len_zl_of, len_app, len_layout, len_cons, len_nil. f_equal. lia.
Qed.
End Reading.

Definition lcosts (ops : list lop) : Z := foldr (λ o n, lcost o + n) 0 ops.

Lemma lcosts_pos ops : 0 <= lcosts ops.
Proof. unfold lcosts. induction ops as [|o ops IH]; cbn [foldr]; [lia|]. destruct o as [h s|i s|i|i num|]; cbn [lcost]; try lia; pose proof (lroom_pos [s]); lia. Qed.

Lemma lrun_spec fresh ops : forall zl es, Forall op_ok ops -> holds_entries zl es -> 11 + lroom (texts es) + lcosts ops < 2 ^ 32 ->
  exists zl' es', lrun fresh zl ops = Ret (zl', (arun (texts es) ops).2) /\ holds_entries zl' es' /\ texts es' = (arun (texts es) ops).1 /\ 11 + lroom (texts es') < 2 ^ 32.
Proof.
  induction ops as [|o ops IH]; intros zl es Hok Hzl Hb; [exists zl, es; split_and!; [done..|cbn in Hb; lia]|]. inversion Hok as [|? ? Ho Hos]; subst. change (lcosts (o :: ops)) with (lcost o + lcosts ops) in Hb. pose proof (lcosts_pos ops).
  cbn [lrun arun]. destruct (lstep_spec fresh zl es o Hzl Ho) as (zl1 & es1 & -> & H1 & Et1); [lia|]. pose proof (astep_room (texts es) o) as Hr. destruct (astep (texts es) o) as [xs a]. cbn [fst snd] in *. subst xs. ret.
  destruct (IH zl1 es1 Hos H1) as (zl2 & es2 & -> & H2 & Et2 & Hb2); [lia|]. ret. destruct (arun (texts es1) ops) as [ys as_]. by exists zl2, es2.
Qed.

Lemma new_holds_list : holds_entries ziplistNew [].
Proof. exists 0. split_and!; done. Qed.

(** [C31] A ziplist is a list of strings in one block of bytes.  Any sequence of pushes at both
    ends, insertions, deletions and counts, from an empty list, runs without leaving the block
    and ends with a block that reads as the list the operations give, as long as the block stays
    below 2^32 bytes: every index from both ends, both directions of walking, searching with
    skipped entries, and the length.  Integers are stored as integers and read back with the same
    text.  The update of the sizes of preceding entries, which can spread through the whole
    list, is part of this.  Texts inserted in the middle must have a content of at least three
    bytes. *)
Theorem ziplist_refines_list fresh ops : Forall op_ok ops -> 11 + lcosts ops < 2 ^ 32 ->
  exists zl, lrun fresh ziplistNew ops = Ret (zl, (arun [] ops).2) /\ reads zl (arun [] ops).1 /\ forall s, zvalue_text (value_of s) = s.
Proof.
  intros Hok Hb. destruct (lrun_spec fresh ops ziplistNew [] Hok new_holds_list) as (zl & es & E & H & Et & Hb'); [cbn; lia|]. exists zl. cbn [texts fmap list_fmap] in *. split; [done|]. split; [rewrite <- Et; by apply reads_texts|apply value_text].
Qed.

Lemma ziplist_refines_list_witness :
  exists zl, lrun (λ _, 7) ziplistNew [LPush false (lit "hello"); LPush true (lit "1024"); LInsert 1 (lit "-70000"); LDelete (-1); LLen] = Ret (zl, [0; 0; 0; 0; 2]).
Proof.
  destruct (ziplist_refines_list (λ _, 7) [LPush false (lit "hello"); LPush true (lit "1024"); LInsert 1 (lit "-70000"); LDelete (-1); LLen]) as (zl & E & _).
  - repeat constructor; vm_compute; done.
  - vm_compute. done.
  - exists zl. rewrite E. vm_compute. done.
Defined.

(** A list whose second entry has a field of five bytes for a size that needs one: a long entry
    in front was deleted, and fields never shrink when an update spreads. *)
Definition shrunk : cres (bytes * list Z) := lrun (λ _, 7) ziplistNew [LPush false (replicate 300 97); LPush false (replicate 248 98); LPush false (lit "hello"); LDelete 0].

