(* ===== verification/Pqsort.v ===== *)
(** * pqsort.c: partial quicksort

    [pqsort] of src/src/pqsort.c sorts an array just as far as is needed for the places [lrange]
    to [rrange] to hold what they would hold in the sorted array.  The array is a list of
    elements; a pointer is the index of an element, counted from the start of the array.  How
    the bytes of two elements are exchanged ([SWAPINIT], [swapfunc]) depends on their size, and
    does not show.  The comparison is a parameter. *)

From Stdlib Require Import ZArith Lia.
From stdpp Require Import base tactics numbers list.
From S2P Require Import Prelude.

Local Open Scope Z_scope.

Section Pqsort.
Context {A : Type} (cmp : A -> A -> Z).

Definition cmp_at (l : list A) (i j : nat) : cres Z := x ← of_ptr (l !! i); y ← of_ptr (l !! j); mret (cmp x y).

Definition swap (i j : nat) (l : list A) : cres (list A) :=
  x ← of_ptr (l !! i); y ← of_ptr (l !! j); mret (<[j := x]> (<[i := y]> l)).

(** Blocks of [n] elements. *)
Fixpoint vecswap (n : nat) (i j : nat) (l : list A) : cres (list A) :=
  match n with O => mret l | S n => l ← swap i j l; vecswap n (S i) (S j) l end.

Definition med3 (l : list A) (a b c : nat) : cres nat :=
  r ← cmp_at l a b;
  if r <? 0 then
    r ← cmp_at l b c;
    if r <? 0 then mret b else r ← cmp_at l a c; mret (if r <? 0 then c else a)
  else
    r ← cmp_at l b c;
    if 0 <? r then mret b else r ← cmp_at l a c; mret (if r <? 0 then a else c).

(** ** Short arrays *)

(** [for (pl = pm; pl > a && cmp(pl - es, pl) > 0; pl -= es) swap(pl, pl - es)], with
    [pl = a + k]. *)
Fixpoint sink (a k : nat) (l : list A) : cres (list A) :=
  match k with
  | O => mret l
  | S k' =>
      r ← cmp_at l (a + k') (a + k);
      if 0 <? r then l ← swap (a + k) (a + k') l; sink a k' l else mret l
  end.

(** [pm = a + k], [m] rounds. *)
Fixpoint insertion (m a k : nat) (l : list A) : cres (list A) :=
  match m with O => mret l | S m => l ← sink a k l; insertion m a (S k) l end.

(** ** Partition *)

(** The loop that moves [pb] up, and the one that moves [pc] down. *)
Fixpoint scan_up (fuel : nat) (a pa pb pc : nat) (l : list A) : cres (nat * nat * list A) :=
  match fuel with
  | O => Undef
  | S fuel =>
      if (pb <=? pc)%nat then
        r ← cmp_at l pb a;
        if r <=? 0 then
          '(pa, l) ← (if r =? 0 then l ← swap pa pb l; mret (S pa, l) else mret (pa, l));
          scan_up fuel a pa (S pb) pc l
        else mret (pa, pb, l)
      else mret (pa, pb, l)
  end.

Fixpoint scan_down (fuel : nat) (a pb pc pd : nat) (l : list A) : cres (nat * nat * list A) :=
  match fuel with
  | O => Undef
  | S fuel =>
      if (pb <=? pc)%nat then
        r ← cmp_at l pc a;
        if 0 <=? r then
          '(pd, l) ← (if r =? 0 then l ← swap pc pd l; mret (pd - 1, l)%nat else mret (pd, l));
          scan_down fuel a pb (pc - 1) pd l
        else mret (pc, pd, l)
      else mret (pc, pd, l)
  end.

Fixpoint partition (fuel : nat) (a pa pb pc pd : nat) (l : list A) : cres (nat * nat * nat * nat * list A) :=
  match fuel with
  | O => Undef
  | S fuel =>
      '(pa, pb, l) ← scan_up (2 + pc - pb) a pa pb pc l;
      '(pc, pd, l) ← scan_down (2 + pc - pb) a pb pc pd l;
      if (pc <? pb)%nat then mret (pa, pb, pc, pd, l) else
      l ← swap pb pc l;
      partition fuel a pa (S pb) (pc - 1) pd l
  end.

(** The middle of three, or of three times three, elements. *)
Definition pivot (a n : nat) (l : list A) : cres nat :=
  let pm := (a + n / 2)%nat in
  if (7 <? n)%nat then
    let pl := a in
    let pn := (a + (n - 1))%nat in
    '(pl, pm, pn) ← (if (40 <? n)%nat then
        let d := (n / 8)%nat in
        pl ← med3 l pl (pl + d) (pl + 2 * d);
        pm ← med3 l (pm - d) pm (pm + d);
        pn ← med3 l (pn - 2 * d) (pn - d) pn;
        mret (pl, pm, pn)
      else mret (pl, pm, pn));
    med3 l pl pm pn
  else mret pm.

(** Whether the part from [a] of [n] elements has to do with the range. *)
Definition wanted (lr rr a n : nat) : bool := negb (((lr <? a) && (rr <? a)) || ((a + n <=? lr) && (a + n <=? rr)))%nat.

Fixpoint pqsort_at (fuel : nat) (a n lr rr : nat) (l : list A) : cres (list A) :=
  match fuel with
  | O => Undef
  | S fuel =>
      if (n <? 7)%nat then insertion (n - 1) a 1 l else
      pm ← pivot a n l;
      l ← swap a pm l;
      '(pa, pb, pc, pd, l) ← partition n a (a + 1) (a + 1) (a + (n - 1)) (a + (n - 1)) l;
      let pn := (a + n)%nat in
      let r := Nat.min (pa - a) (pb - pa) in
      l ← vecswap r a (pb - r) l;
      let r := Nat.min (pd - pc) (pn - pd - 1) in
      l ← vecswap r pb (pn - r) l;
      let r := (pb - pa)%nat in
      l ← (if (1 <? r)%nat && wanted lr rr a r then pqsort_at fuel a r lr rr l else mret l);
      let r := (pd - pc)%nat in
      if (1 <? r)%nat && wanted lr rr (pn - r) r then pqsort_at fuel (pn - r) r lr rr l else mret l
  end.

(** Every call and every jump has a shorter part than the one before. *)
Definition pqsort (l : list A) (lrange rrange : nat) : cres (list A) := pqsort_at (S (length l)) 0 (length l) lrange rrange l.
End Pqsort.

Example pqsort_small : pqsort Z.sub [5; 3; 9; 1; 7; 3; 8; 2; 6; 4; 0] 2 4 = Ret [0; 1; 2; 3; 3; 5; 8; 7; 6; 4; 9].
Proof. vm_compute. reflexivity. Qed.
