(* ===== verification/PqsortFacts.v ===== *)
(** * pqsort.c: the range is sorted

    The array is a concatenation of parts; every loop of [pqsort] is described by what it does to
    the parts.  The result: the array is permuted, and every place of the range holds an element
    that none before it exceeds and none after it is below of. *)

From Stdlib Require Import ZArith Lia.
From stdpp Require Import base tactics numbers list sets sorting.
From S2P Require Import Prelude Pqsort.

Local Open Scope Z_scope.

(** Equality of concatenations. *)
Ltac lassoc := repeat progress (rewrite <- ?app_assoc; cbn [app]); reflexivity.

Section Facts.
Context {A : Type} (cmp : A -> A -> Z).

(** What the library relies on in the comparison: the sign of a total preorder. *)
Class ComparisonOk : Prop := {
  cmp_opp x y : 0 < cmp x y <-> cmp y x < 0;
  cmp_trans x y z : cmp x y <= 0 -> cmp y z <= 0 -> cmp x z <= 0;
}.

Context `{!ComparisonOk}.

Definition le (x y : A) : Prop := cmp x y <= 0.
Definition lt (x y : A) : Prop := cmp x y < 0.
Definition eqv (x y : A) : Prop := cmp x y = 0.

Lemma cmp_refl x : cmp x x = 0.
Proof. pose proof (cmp_opp x x). lia. Qed.

Lemma cmp_sym x y : cmp x y = 0 <-> cmp y x = 0.
Proof. pose proof (cmp_opp x y). pose proof (cmp_opp y x). lia. Qed.

Lemma le_total x y : le x y \/ le y x.
Proof. unfold le. pose proof (cmp_opp x y). lia. Qed.

(** ** Exchanging elements *)

Lemma insert_mid (p q : list A) x y i : i = length p -> <[i := y]> (p ++ x :: q) = p ++ y :: q.
Proof. intros ->. rewrite <- (Nat.add_0_r (length p)) at 1. by rewrite insert_app_r. Qed.

Lemma lookup_mid (p q : list A) x i : i = length p -> (p ++ x :: q) !! i = Some x.
Proof. intros ->. by apply list_lookup_middle. Qed.

Lemma swap_mid (p m q : list A) x y i j : i = length p -> j = (length p + S (length m))%nat ->
  swap i j (p ++ x :: m ++ y :: q) = Ret (p ++ y :: m ++ x :: q) /\ swap j i (p ++ x :: m ++ y :: q) = Ret (p ++ y :: m ++ x :: q).
Proof.
  intros Hi Hj. assert (forall a b, p ++ a :: m ++ b :: q = (p ++ a :: m) ++ b :: q) as E by (intros; by rewrite <- app_assoc).
  assert (j = length (p ++ x :: m)) as Hj1 by (rewrite length_app; cbn; lia). assert (j = length (p ++ y :: m)) as Hj2 by (rewrite length_app; cbn; lia).
  unfold swap. assert ((p ++ x :: m ++ y :: q) !! j = Some y) as Ey by (rewrite E; by apply lookup_mid). rewrite (lookup_mid p _ x i Hi), Ey. cbn [of_ptr mbind cres_bind].
  split; unfold mret, cres_ret; f_equal.
  - rewrite (insert_mid p _ x y i Hi). rewrite !E. by apply insert_mid.
  - rewrite E, (insert_mid (p ++ x :: m) q y x j Hj1), <- E. by apply insert_mid.
Qed.

Lemma swap_self (p q : list A) x i : i = length p -> swap i i (p ++ x :: q) = Ret (p ++ x :: q).
Proof. intros Hi. unfold swap. rewrite (lookup_mid p q x i Hi). cbn [of_ptr mbind cres_bind]. unfold mret, cres_ret. f_equal. by rewrite !(insert_mid p) by done. Qed.

Lemma vecswap_spec r : forall (p a m b q : list A) i j, length a = r -> length b = r -> i = length p -> j = (length p + r + length m)%nat ->
  vecswap r i j (p ++ a ++ m ++ b ++ q) = Ret (p ++ b ++ m ++ a ++ q).
Proof.
  induction r as [|r IH]; intros p a m b q i j Ha Hb Hi Hj.
  { apply nil_length_inv in Ha, Hb. by subst. }
  destruct a as [|x a], b as [|y b]; try done. cbn [vecswap length] in *.
  assert (p ++ (x :: a) ++ m ++ (y :: b) ++ q = p ++ x :: (a ++ m) ++ y :: (b ++ q)) as -> by (cbn; by rewrite <- !app_assoc).
  destruct (swap_mid p (a ++ m) (b ++ q) x y i j) as [-> _]; [done|rewrite length_app; lia|]. cbn [mbind cres_bind].
  replace (p ++ y :: (a ++ m) ++ x :: (b ++ q)) with ((p ++ [y]) ++ a ++ (m ++ [x]) ++ b ++ q) by lassoc.
  rewrite (IH (p ++ [y]) a (m ++ [x]) b q); [by rewrite <- !app_assoc|lia|lia|rewrite length_app; cbn; lia|rewrite !length_app; cbn; lia].
Qed.

(** ** Short arrays *)

Lemma cmp_at_mid (p m q : list A) x y i j : i = length p -> j = (length p + S (length m))%nat ->
  cmp_at cmp (p ++ x :: m ++ y :: q) i j = Ret (cmp x y).
Proof.
  intros Hi Hj. unfold cmp_at. rewrite (lookup_mid p _ x i Hi). cbn [of_ptr mbind cres_bind].
  assert (p ++ x :: m ++ y :: q = (p ++ x :: m) ++ y :: q) as -> by lassoc. rewrite lookup_mid; [done|]. rewrite length_app. cbn. lia.
Qed.

Abbreviation sorted := (StronglySorted le).

Lemma sorted_app (s t : list A) : sorted (s ++ t) <-> sorted s /\ sorted t /\ forall x y, x ∈ s -> y ∈ t -> le x y.
Proof.
  rewrite StronglySorted_app. naive_solver.
Qed.

Lemma lt_le x y : lt x y -> le x y.
Proof. unfold lt, le. lia. Qed.

(** [x] sinks to its place in the sorted part before it; [t] are the larger elements it passed. *)
Lemma sink_spec (s : list A) : forall (t p q : list A) x, sorted (s ++ t) -> Forall (λ y, lt x y) t ->
  exists s', sink cmp (length p) (length s) (p ++ s ++ x :: t ++ q) = Ret (p ++ s' ++ q) /\ s' ≡ₚ s ++ x :: t /\ sorted s'.
Proof.
  induction s as [|y s IH] using rev_ind; intros t p q x Hs Hx.
  { exists (x :: t). split; [done|]. split; [done|]. constructor; [done|]. eapply Forall_impl; [exact Hx|]. apply lt_le. }
  rewrite length_app, Nat.add_1_r. cbn [sink].
  assert (p ++ (s ++ [y]) ++ x :: t ++ q = (p ++ s) ++ y :: [] ++ x :: t ++ q) as E by lassoc. rewrite E.
  rewrite (cmp_at_mid (p ++ s) [] (t ++ q) y x); [|by rewrite length_app|rewrite length_app; cbn; lia]. cbn [mbind cres_bind].
  destruct (Z.ltb_spec 0 (cmp y x)) as [Hgt|Hle].
  - destruct (swap_mid (p ++ s) [] (t ++ q) y x (length p + length s) (length p + S (length s))) as [_ ->]; [by rewrite length_app|rewrite length_app; cbn; lia|].
    cbn [mbind cres_bind]. destruct (IH (y :: t) p q x) as (s' & E' & P & S'); [by rewrite <- app_assoc in Hs|constructor; [by apply cmp_opp|done]|].
    exists s'. split; [by rewrite <- app_assoc|]. split; [|done]. rewrite P. rewrite <- app_assoc. f_equiv. constructor.
  - exists ((s ++ [y]) ++ x :: t). split; [by rewrite <- E, <- !app_assoc|]. split; [done|]. apply sorted_app in Hs as (H1 & H2 & H3). apply sorted_app. split_and!; [done| |].
    + constructor; [done|]. eapply Forall_impl; [exact Hx|]. apply lt_le.
    + intros a b Ha [->|Hb]%elem_of_cons; [|by apply H3]. apply elem_of_app in Ha as [Ha|Ha]; [|by apply list_elem_of_singleton in Ha as ->].
      apply sorted_app in H1 as (_ & _ & H1). apply (cmp_trans a y x); [|done]. apply H1; set_solver.
Qed.

Lemma insertion_spec m : forall (s u p q : list A), length u = m -> sorted s ->
  exists s', insertion cmp m (length p) (length s) (p ++ s ++ u ++ q) = Ret (p ++ s' ++ q) /\ s' ≡ₚ s ++ u /\ sorted s'.
Proof.
  induction m as [|m IH]; intros s u p q Hu Hs.
  { apply nil_length_inv in Hu as ->. exists s. split; [done|]. by rewrite app_nil_r. }
  destruct u as [|x u]; [done|]. cbn [insertion]. destruct (sink_spec s [] p (u ++ q) x) as (s1 & E1 & P1 & S1); [by rewrite app_nil_r|done|].
  cbn [app] in *. rewrite E1. cbn [mbind cres_bind]. assert (length s1 = S (length s)) as Hl by (rewrite P1, length_app; cbn; lia). rewrite <- Hl.
  destruct (IH s1 u p q) as (s2 & E2 & P2 & S2); [by injection Hu|done|]. exists s2. split; [done|]. split; [|done]. by rewrite P2, P1, <- app_assoc.
Qed.

(** ** Partition *)

Lemma cmp_at_lookup (l : list A) i j x y : l !! i = Some x -> l !! j = Some y -> cmp_at cmp l i j = Ret (cmp x y).
Proof. intros Ei Ej. unfold cmp_at. by rewrite Ei, Ej. Qed.

Definition eqs (v : A) (l : list A) : Prop := Forall (λ x, cmp x v = 0) l.
Definition lts (v : A) (l : list A) : Prop := Forall (λ x, cmp x v < 0) l.
Definition gts (v : A) (l : list A) : Prop := Forall (λ x, 0 < cmp x v) l.

(** The unknown part [u] loses elements at its front: those equal to the pivot [v] go to [e], the
    smaller ones to [s]. *)
Lemma scan_up_spec (p t : list A) v : forall u e s fuel pc, (length u < fuel)%nat -> eqs v e -> lts v s ->
  S pc = (length p + S (length e) + length s + length u)%nat ->
  exists e' s' u', scan_up cmp fuel (length p) (length p + S (length e)) (length p + S (length e) + length s) pc (p ++ v :: e ++ s ++ u ++ t)
      = Ret (length p + S (length e'), length p + S (length e') + length s', p ++ v :: e' ++ s' ++ u' ++ t)%nat
    /\ eqs v e' /\ lts v s' /\ e' ++ s' ++ u' ≡ₚ e ++ s ++ u /\ (length u' <= length u)%nat /\ (u' = [] \/ exists x u2, u' = x :: u2 /\ 0 < cmp x v).
Proof.
  induction u as [|x u IH]; intros e s fuel pc Hf He Hs Hpc; destruct fuel as [|fuel]; try lia; cbn [scan_up].
  - rewrite (proj2 (Nat.leb_gt _ _)) by (cbn in Hpc; lia). exists e, s, []. split_and!; try done. by left.
  - cbn [length] in *. rewrite (proj2 (Nat.leb_le _ _)) by lia.
    assert (forall e s, (p ++ v :: e ++ s ++ (x :: u) ++ t) !! (length p + S (length e) + length s)%nat = Some x) as Hpb.
    { intros e0 s0. replace (p ++ v :: e0 ++ s0 ++ (x :: u) ++ t) with ((p ++ v :: e0 ++ s0) ++ x :: u ++ t) by lassoc.
      apply lookup_mid. rewrite length_app. cbn. rewrite length_app. lia. }
    rewrite (cmp_at_lookup _ _ _ x v) by (apply Hpb || by apply lookup_mid). cbn [mbind cres_bind].
    destruct (Z.leb_spec (cmp x v) 0) as [Hle|Hgt]; [|exists e, s, (x :: u); split_and!; try done; right; by exists x, u].
    destruct (Z.eqb_spec (cmp x v) 0) as [Heq|Hne].
    + assert (exists s', swap (length p + S (length e)) (length p + S (length e) + length s) (p ++ v :: e ++ s ++ (x :: u) ++ t) = Ret (p ++ v :: (e ++ [x]) ++ s' ++ u ++ t) /\ s' ≡ₚ s) as (s' & -> & Ps).
      { destruct s as [|y s].
        - exists []. split; [|done]. rewrite Nat.add_0_r. cbn [app]. replace (p ++ v :: e ++ x :: u ++ t) with ((p ++ v :: e) ++ x :: u ++ t) by lassoc.
          rewrite swap_self by (rewrite length_app; cbn; lia). f_equal. lassoc.
        - exists (s ++ [y]). split; [|by rewrite Permutation_app_comm]. cbn [app].
          replace (p ++ v :: e ++ y :: s ++ x :: u ++ t) with ((p ++ v :: e) ++ y :: s ++ x :: u ++ t) by lassoc.
          destruct (swap_mid (p ++ v :: e) s (u ++ t) y x (length p + S (length e)) (length p + S (length e) + length (y :: s))) as [-> _];
            [rewrite length_app; cbn; lia|rewrite length_app; cbn; lia|]. f_equal. lassoc. }
      cbn [mbind cres_bind mret cres_ret]. assert (length s' = length s) as Ls by (by rewrite Ps).
      destruct (IH (e ++ [x]) s' fuel pc) as (e' & s2 & u' & E & He' & Hs' & P' & Hl & Hu); [lia|apply Forall_app; split; [done|by repeat constructor]|by unfold lts; rewrite Ps|rewrite length_app; cbn; lia|].
      replace (S (length p + S (length e))) with (length p + S (length (e ++ [x])))%nat by (rewrite length_app; cbn; lia).
      replace (S (length p + S (length e) + length s)) with (length p + S (length (e ++ [x])) + length s')%nat by (rewrite length_app; cbn; lia).
      exists e', s2, u'. split; [exact E|]. split_and!; try done; [|lia]. rewrite P', Ps, <- app_assoc. f_equiv. cbn. by rewrite Permutation_middle.
    + cbn [mbind cres_bind mret cres_ret]. destruct (IH e (s ++ [x]) fuel pc) as (e' & s2 & u' & E & He' & Hs' & P' & Hl & Hu); [lia|done|apply Forall_app; split; [done|repeat constructor; lia]|rewrite length_app; cbn; lia|].
      replace (S (length p + S (length e) + length s)) with (length p + S (length e) + length (s ++ [x]))%nat by (rewrite length_app; cbn; lia).
      replace (p ++ v :: e ++ s ++ (x :: u) ++ t) with (p ++ v :: e ++ (s ++ [x]) ++ u ++ t) by lassoc.
      exists e', s2, u'. split; [exact E|]. split_and!; try done; [|lia]. by rewrite P', <- app_assoc.
Qed.

(** It loses elements at its end: those equal to the pivot go to [e], the larger ones to [g]. *)
Lemma scan_down_spec (f q : list A) a v : f !! a = Some v -> (a < length f)%nat -> forall u g e fuel pc pd, (length u < fuel)%nat -> gts v g -> eqs v e ->
  S pc = (length f + length u)%nat -> pd = (pc + length g)%nat ->
  exists u' g' e' pc', scan_down cmp fuel a (length f) pc pd (f ++ u ++ g ++ e ++ q) = Ret (pc', pc' + length g', f ++ u' ++ g' ++ e' ++ q)%nat
    /\ S pc' = (length f + length u')%nat /\ gts v g' /\ eqs v e' /\ u' ++ g' ++ e' ≡ₚ u ++ g ++ e /\ u' `prefix_of` u /\ (u' = [] \/ exists x u2, u' = u2 ++ [x] /\ cmp x v < 0).
Proof.
  intros Ha Hlt. induction u as [|x u IH] using rev_ind; intros g e fuel pc pd Hf Hg He Hpc Hpd; destruct fuel as [|fuel]; try lia; cbn [scan_down].
  - rewrite (proj2 (Nat.leb_gt _ _)) by (cbn in Hpc; lia). exists [], g, e, pc. subst pd. split_and!; try done. by left.
  - rewrite length_app in *. cbn [length] in *. rewrite (proj2 (Nat.leb_le _ _)) by lia. rewrite <- !app_assoc. cbn [app].
    replace (f ++ u ++ x :: g ++ e ++ q) with ((f ++ u) ++ x :: g ++ e ++ q) by lassoc.
    rewrite (cmp_at_lookup _ _ _ x v); [|apply lookup_mid; rewrite length_app; lia|rewrite <- app_assoc; by apply lookup_app_l_Some]. cbn [mbind cres_bind].
    destruct (Z.leb_spec 0 (cmp x v)) as [Hge|Hless].
    2:{ exists (u ++ [x]), g, e, pc. subst pd. split_and!; try done; [f_equal; f_equal; lassoc|rewrite length_app; cbn; lia|rewrite <- !app_assoc; done|]. right. by exists x, u. }
    destruct (Z.eqb_spec (cmp x v) 0) as [Heq|Hne].
    + assert (exists g', swap pc pd ((f ++ u) ++ x :: g ++ e ++ q) = Ret (f ++ u ++ g' ++ (x :: e) ++ q) /\ g' ≡ₚ g) as (g' & -> & Pg).
      { destruct g as [|y g _] using rev_ind.
        - exists []. split; [|done]. cbn in Hpd. rewrite Nat.add_0_r in Hpd. subst pd. rewrite swap_self by (rewrite length_app; lia). by rewrite <- app_assoc.
        - exists (y :: g). split; [|by rewrite <- Permutation_cons_append]. rewrite length_app in Hpd. cbn in Hpd. rewrite <- (app_assoc g). cbn [app].
          destruct (swap_mid (f ++ u) g (e ++ q) x y pc pd) as [-> _]; [rewrite length_app; lia|rewrite length_app; lia|]. f_equal. lassoc. }
      cbn [mbind cres_bind mret cres_ret]. assert (length g' = length g) as Lg by (by rewrite Pg).
      destruct (IH g' (x :: e) fuel (pc - 1)%nat (pd - 1)%nat) as (u' & g2 & e2 & pc' & E & Hp & Hg' & He' & P' & Hpre & Hu); [lia|by unfold gts; rewrite Pg|by constructor|lia|lia|].
      exists u', g2, e2, pc'. split; [exact E|]. split_and!; try done; [|by apply prefix_app_r]. rewrite P', Pg. f_equiv. by rewrite <- Permutation_middle.
    + cbn [mbind cres_bind mret cres_ret]. destruct (IH (x :: g) e fuel (pc - 1)%nat pd) as (u' & g2 & e2 & pc' & E & Hp & Hg' & He' & P' & Hpre & Hu); [lia|constructor; [lia|done]|done|lia|cbn; lia|].
      exists u', g2, e2, pc'. split; [rewrite <- E; f_equal; lassoc|]. split_and!; try done. by apply prefix_app_r.
Qed.

Lemma partition_spec (p q : list A) v : forall fuel e1 s u g e2 pa pb pc pd, (length u < fuel)%nat -> eqs v e1 -> lts v s -> gts v g -> eqs v e2 ->
  pa = (length p + S (length e1))%nat -> pb = (pa + length s)%nat -> S pc = (pb + length u)%nat -> pd = (pc + length g)%nat ->
  exists e1' s' g' e2' pa' pb' pc' pd', partition cmp fuel (length p) pa pb pc pd (p ++ v :: e1 ++ s ++ u ++ g ++ e2 ++ q) = Ret (pa', pb', pc', pd', p ++ v :: e1' ++ s' ++ g' ++ e2' ++ q)
    /\ eqs v e1' /\ lts v s' /\ gts v g' /\ eqs v e2' /\ e1' ++ s' ++ g' ++ e2' ≡ₚ e1 ++ s ++ u ++ g ++ e2
    /\ pa' = (length p + S (length e1'))%nat /\ pb' = (pa' + length s')%nat /\ S pc' = pb' /\ pd' = (pc' + length g')%nat.
Proof.
  induction fuel as [|fuel IH]; intros e1 s u g e2 pa pb pc pd Hf He1 Hs Hg He2 Hpa Hpb Hpc Hpd; [lia|]. cbn [partition]. subst pa pb.
  destruct (scan_up_spec p (g ++ e2 ++ q) v u e1 s (2 + pc - (length p + S (length e1) + length s)) pc) as (e1' & s1 & u1 & -> & He1' & Hs1 & P1 & Hl1 & Hu1); [lia|done|done|lia|].
  cbn [mbind cres_bind]. assert (length (e1' ++ s1 ++ u1) = length (e1 ++ s ++ u)) as L1 by (by rewrite P1). rewrite !length_app in L1.
  set (f := p ++ v :: e1' ++ s1). assert (length f = length p + S (length e1') + length s1)%nat as Hlf by (unfold f; rewrite length_app; cbn; rewrite length_app; lia).
  assert (f !! length p = Some v) as Hv by (by apply lookup_mid).
  assert (forall r, p ++ v :: e1' ++ s1 ++ r = f ++ r) as Ef by (intros r; unfold f; lassoc). rewrite Ef, <- Hlf.
  destruct (scan_down_spec f q (length p) v Hv ltac:(lia) u1 g e2 (2 + pc - length f) pc pd) as (u2 & g' & e2' & pc' & -> & Hpc' & Hg' & He2' & P2 & Hpre & Hu2); [lia|done|done|lia|done|].
  cbn [mbind cres_bind]. destruct u2 as [|x u2].
  - cbn [length] in Hpc'. rewrite (proj2 (Nat.ltb_lt _ _)) by lia. cbn [app] in *. rewrite <- Ef. eexists e1', s1, g', e2', _, _, _, _. split; [done|]. split_and!; try done; try lia.
    rewrite P2, !app_assoc. rewrite <- (app_assoc e1'), P1. lassoc.
  - destruct Hpre as [u3 ->]. destruct Hu1 as [?|(x' & u4 & [= <- _] & Hx)]; [done|]. destruct Hu2 as [?|(y & w & Ey & Hy)]; [done|].
    destruct w as [|x' w]; [injection Ey as -> ->; lia|]. injection Ey as <- ->. rewrite (proj2 (Nat.ltb_ge _ _)) by (cbn in Hpc'; lia).
    assert (f ++ (x :: w ++ [y]) ++ g' ++ e2' ++ q = f ++ x :: w ++ y :: g' ++ e2' ++ q) as -> by lassoc.
    cbn [length] in Hpc'. rewrite length_app in Hpc'. cbn in Hpc'.
    destruct (swap_mid f w (g' ++ e2' ++ q) x y (length f) pc') as [-> _]; [done|lia|]. cbn [mbind cres_bind].
    assert (f ++ y :: w ++ x :: g' ++ e2' ++ q = p ++ v :: e1' ++ (s1 ++ [y]) ++ w ++ (x :: g') ++ e2' ++ q) as -> by (unfold f; lassoc).
    destruct (IH e1' (s1 ++ [y]) w (x :: g') e2' (length p + S (length e1'))%nat (S (length f)) (pc' - 1)%nat (pc' + length g')%nat)
      as (e3 & s3 & g3 & e4 & pa3 & pb3 & pc3 & pd3 & E3 & ? & ? & ? & ? & P3 & ? & ? & ? & ?); try done.
    + rewrite length_app in Hl1. cbn in Hl1. rewrite length_app in Hl1. cbn in Hl1. lia.
    + apply Forall_app. split; [done|by repeat constructor].
    + by constructor.
    + rewrite length_app. cbn. lia.
    + lia.
    + cbn. lia.
    + exists e3, s3, g3, e4, pa3, pb3, pc3, pd3. split; [done|]. split_and!; try done. rewrite P3. transitivity ((e1' ++ s1) ++ ((x :: w ++ [y]) ++ g' ++ e2')); [solve_Permutation|].
      rewrite P2. transitivity ((e1' ++ s1 ++ (x :: w ++ [y]) ++ u3) ++ g ++ e2); [solve_Permutation|]. rewrite P1. solve_Permutation.
Qed.

(** ** The whole sort *)

Lemma block_swap (p x y q : list A) i j : i = length p -> j = (length p + length x + length y - Nat.min (length x) (length y))%nat ->
  exists x' y', vecswap (Nat.min (length x) (length y)) i j (p ++ x ++ y ++ q) = Ret (p ++ y' ++ x' ++ q) /\ x' ≡ₚ x /\ y' ≡ₚ y.
Proof.
  intros Hi Hj. destruct (Nat.le_ge_cases (length x) (length y)) as [Hle|Hge].
  - rewrite Nat.min_l in * by done. set (m := take (length y - length x) y). set (b := drop (length y - length x) y).
    assert (y = m ++ b) as Ey by (unfold m, b; by rewrite take_drop). assert (length b = length x) as Hb by (unfold b; rewrite length_drop; lia).
    assert (length m = length y - length x)%nat as Hm by (unfold m; rewrite length_take; lia). exists x, (b ++ m). rewrite Ey, <- !app_assoc.
    rewrite (vecswap_spec (length x) p x m b q i j) by (done || lia). split_and!; [done|done|solve_Permutation].
  - rewrite Nat.min_r in * by done. set (a := take (length y) x). set (m := drop (length y) x).
    assert (x = a ++ m) as Ex by (unfold a, m; by rewrite take_drop). assert (length a = length y) as Ha by (unfold a; rewrite length_take; lia).
    assert (length m = length x - length y)%nat as Hm by (unfold m; rewrite length_drop; lia). exists (m ++ a), y. rewrite Ex, <- !app_assoc.
    rewrite (vecswap_spec (length y) p a m y q i j) by (done || lia). split_and!; [done|solve_Permutation|done].
Qed.

Lemma cmp_at_total (l : list A) i j : (i < length l)%nat -> (j < length l)%nat -> exists r, cmp_at cmp l i j = Ret r.
Proof.
  intros Hi Hj. destruct (lookup_lt_is_Some_2 l i Hi) as [x Ex], (lookup_lt_is_Some_2 l j Hj) as [y Ey]. exists (cmp x y). by apply cmp_at_lookup.
Qed.

Lemma med3_spec (l : list A) a b c : (a < length l)%nat -> (b < length l)%nat -> (c < length l)%nat ->
  exists m, med3 cmp l a b c = Ret m /\ (m = a \/ m = b \/ m = c).
Proof.
  intros Ha Hb Hc. unfold med3. destruct (cmp_at_total l a b Ha Hb) as [r1 ->], (cmp_at_total l b c Hb Hc) as [r2 ->], (cmp_at_total l a c Ha Hc) as [r3 ->].
  cbn [mbind cres_bind]. destruct (r1 <? 0), (r2 <? 0), (0 <? r2), (r3 <? 0); eexists; (split; [done|]); auto.
Qed.

Lemma pivot_spec (l : list A) a n : (7 <= n)%nat -> (a + n <= length l)%nat -> exists pm, pivot cmp a n l = Ret pm /\ (a <= pm < a + n)%nat.
Proof.
  intros Hn Hl. unfold pivot. assert (n / 2 < n)%nat by (apply Nat.div_lt; lia). pose proof (Nat.div_mod n 2 ltac:(lia)). pose proof (Nat.mod_upper_bound n 2 ltac:(lia)).
  pose proof (Nat.div_mod n 8 ltac:(lia)). pose proof (Nat.mod_upper_bound n 8 ltac:(lia)). destruct (Nat.ltb_spec 7 n); [|eexists; split; [done|lia]].
  assert (forall x y z, (a <= x < a + n)%nat -> (a <= y < a + n)%nat -> (a <= z < a + n)%nat -> exists m, med3 cmp l x y z = Ret m /\ (a <= m < a + n)%nat) as Hmed.
  { intros x y z Hx Hy Hz. destruct (med3_spec l x y z) as (m & E & [-> |[-> | ->]]); [lia..| | |]; eexists; (split; [done|lia]). }
  destruct (Nat.ltb_spec 40 n); [|cbn [mbind cres_bind mret cres_ret]; apply Hmed; lia].
  destruct (Hmed a (a + n / 8) (a + 2 * (n / 8)))%nat as (m1 & -> & ?); [lia..|]. destruct (Hmed (a + n / 2 - n / 8) (a + n / 2) (a + n / 2 + n / 8))%nat as (m2 & -> & ?); [lia..|].
  destruct (Hmed (a + (n - 1) - 2 * (n / 8)) (a + (n - 1) - n / 8) (a + (n - 1)))%nat as (m3 & -> & ?); [lia..|]. cbn [mbind cres_bind mret cres_ret]. apply Hmed; lia.
Qed.

(** The pivot comes first. *)
Lemma swap_pivot (p s q : list A) pm : (length p <= pm < length p + length s)%nat ->
  exists v s', swap (length p) pm (p ++ s ++ q) = Ret (p ++ v :: s' ++ q) /\ v :: s' ≡ₚ s.
Proof.
  intros Hpm. destruct s as [|x s]; [cbn in Hpm; lia|]. destruct (decide (pm = length p)) as [->|Hne].
  { exists x, s. split; [by apply swap_self|done]. }
  cbn [length] in Hpm. destruct (lookup_lt_is_Some_2 s (pm - length p - 1)) as [v Ev]; [lia|]. apply list_elem_of_split_length in Ev as (s1 & s2 & -> & Hl).
  exists v, (s1 ++ x :: s2). cbn [app]. rewrite <- app_assoc. cbn [app]. destruct (swap_mid p s1 (s2 ++ q) x v (length p) pm) as [-> _]; [done|lia|].
  split; [f_equal; lassoc|]. solve_Permutation.
Qed.

(** The element [i] is where it belongs. *)
Definition placed (s : list A) (i : nat) : Prop :=
  exists x, s !! i = Some x /\ Forall (λ y, le y x) (take i s) /\ Forall (le x) (drop (S i) s).

Lemma placed_sorted s i : sorted s -> (i < length s)%nat -> placed s i.
Proof.
  intros Hs Hi. destruct (lookup_lt_is_Some_2 s i Hi) as [x Ex]. exists x. split; [done|]. rewrite <- (take_drop_middle s i x Ex) in Hs.
  apply sorted_app in Hs as (_ & H2 & H3). inversion H2 as [|? ? H4 H5]; subst. split; [|done]. apply Forall_forall. intros y Hy. apply H3; set_solver.
Qed.

(** Parts below, equal to and above a pivot. *)
Lemma placed_parts (s e g : list A) v i : lts v s -> eqs v e -> gts v g -> ((i < length s)%nat -> placed s i) ->
  ((length s + length e <= i)%nat -> placed g (i - length s - length e)) -> (i < length s + length e + length g)%nat -> placed (s ++ e ++ g) i.
Proof.
  intros Hs He Hg Ps Pg Hi. unfold lts, eqs, gts in *. rewrite Forall_forall in Hs, He, Hg.
  assert (forall x y, cmp x v <= 0 -> 0 <= cmp y v -> le x y) as Hxy.
  { intros x y Hx Hy. apply (cmp_trans x v y); [done|]. pose proof (cmp_opp y v). pose proof (cmp_sym y v). lia. }
  assert (forall x, x ∈ s -> cmp x v <= 0) as Ls by (intros x Hx; specialize (Hs x Hx); lia). assert (forall x, x ∈ g -> 0 <= cmp x v) as Lg by (intros x Hx; specialize (Hg x Hx); lia).
  assert (forall x, x ∈ e -> cmp x v <= 0 /\ 0 <= cmp x v) as Le by (intros x Hx; specialize (He x Hx); lia).
  destruct (decide (i < length s)%nat) as [H1|H1]; [|destruct (decide (i < length s + length e)%nat) as [H2|H2]].
  - destruct (Ps H1) as (x & Ex & F1 & F2). exists x. rewrite lookup_app_l by done. split; [done|]. rewrite take_app_le, drop_app_le by lia. split; [done|].
    apply list_elem_of_lookup_2 in Ex. rewrite !Forall_app. split_and!; [done|apply Forall_forall; intros y Hy; apply Hxy; [by apply Ls|by apply Le]|].
    apply Forall_forall. intros y Hy. apply Hxy; [by apply Ls|by apply Lg].
  - destruct (lookup_lt_is_Some_2 e (i - length s) ltac:(lia)) as [x Ex]. exists x. rewrite lookup_app_r, lookup_app_l by lia. split; [done|]. apply list_elem_of_lookup_2 in Ex.
    rewrite take_app_ge, drop_app_ge by lia. rewrite take_app_le, drop_app_le by lia. rewrite !Forall_app. split_and!; apply Forall_forall; intros y Hy.
    + apply Hxy; [by apply Ls|by apply Le].
    + apply Hxy; apply Le; [|done]. rewrite <- (take_drop (i - length s) e). set_solver.
    + apply Hxy; apply Le; [done|]. rewrite <- (take_drop (S i - length s) e). set_solver.
    + apply Hxy; [by apply Le|by apply Lg].
  - destruct (Pg ltac:(lia)) as (x & Ex & F1 & F2). exists x. rewrite lookup_app_r, lookup_app_r by lia. split; [done|]. apply list_elem_of_lookup_2 in Ex.
    rewrite take_app_ge, drop_app_ge by lia. rewrite (take_app_ge e), (drop_app_ge e) by lia. replace (S i - length s - length e)%nat with (S (i - length s - length e)) by lia.
    rewrite !Forall_app. split_and!; [| |done|done]; apply Forall_forall; intros y Hy; (apply Hxy; [|by apply Lg]); [by apply Ls|by apply Le].
Qed.

(** A part is sorted when it has to do with the range; otherwise nothing is to be done. *)
Lemma sub_sort lr rr fuel (p t q : list A) n : length t = n -> (n < fuel)%nat ->
  (forall p s q : list A, (length s < fuel)%nat -> exists s', pqsort_at cmp fuel (length p) (length s) lr rr (p ++ s ++ q) = Ret (p ++ s' ++ q) /\ s' ≡ₚ s
    /\ forall i, (i < length s)%nat -> (lr <= length p + i <= rr)%nat -> placed s' i) ->
  exists t', (if (1 <? n)%nat && wanted lr rr (length p) n then pqsort_at cmp fuel (length p) n lr rr (p ++ t ++ q) else mret (p ++ t ++ q)) = Ret (p ++ t' ++ q)
    /\ t' ≡ₚ t /\ forall i, (i < n)%nat -> (lr <= length p + i <= rr)%nat -> placed t' i.
Proof.
  intros <- Hf IH. destruct (Nat.ltb_spec 1 (length t)) as [H1|H1]; cbn [andb].
  - destruct (wanted lr rr (length p) (length t)) eqn:Ew; [by apply IH|]. exists t. split_and!; [done|done|]. intros i Hi Hr. exfalso. unfold wanted in Ew.
    apply negb_false_iff, orb_prop in Ew as [Ew|Ew]; apply andb_prop in Ew as [E1 E2]; rewrite ?Nat.ltb_lt, ?Nat.leb_le in *; lia.
  - exists t. split_and!; [done|done|]. intros i Hi _. apply placed_sorted; [|done]. destruct t as [|x [|]]; [constructor|repeat constructor|cbn in H1; lia].
Qed.

Lemma pqsort_at_spec lr rr : forall fuel (p s q : list A), (length s < fuel)%nat ->
  exists s', pqsort_at cmp fuel (length p) (length s) lr rr (p ++ s ++ q) = Ret (p ++ s' ++ q) /\ s' ≡ₚ s
    /\ forall i, (i < length s)%nat -> (lr <= length p + i <= rr)%nat -> placed s' i.
Proof.
  induction fuel as [|fuel IH]; intros p s q Hf; [lia|]. cbn [pqsort_at].
  assert (forall (p t q : list A) n, length t = n -> (n < fuel)%nat -> exists t',
    (if (1 <? n)%nat && wanted lr rr (length p) n then pqsort_at cmp fuel (length p) n lr rr (p ++ t ++ q) else mret (p ++ t ++ q)) = Ret (p ++ t' ++ q)
    /\ t' ≡ₚ t /\ forall i, (i < n)%nat -> (lr <= length p + i <= rr)%nat -> placed t' i) as Hsub by (intros; by apply sub_sort).
  destruct (Nat.ltb_spec (length s) 7) as [H7|H7].
  { destruct s as [|x s]; [exists []; split; [done|split; [done|cbn; lia]]|]. cbn [length]. rewrite Nat.sub_succ, Nat.sub_0_r.
    destruct (insertion_spec (length s) [x] s p q eq_refl) as (s' & E & P & S'); [repeat constructor|]. exists s'. split; [exact E|]. split; [done|].
    intros i Hi _. apply placed_sorted; [done|]. by rewrite P. }
  destruct (pivot_spec (p ++ s ++ q) (length p) (length s) H7) as (pm & -> & Hpm); [rewrite !length_app; lia|]. cbn [mbind cres_bind].
  destruct (swap_pivot p s q pm Hpm) as (v & s0 & -> & P0). cbn [mbind cres_bind]. assert (length s = S (length s0)) as Hls by (by rewrite <- P0).
  destruct (partition_spec p q v (length s) [] [] s0 [] [] (length p + 1) (length p + 1) (length p + (length s - 1)) (length p + (length s - 1)))%nat
    as (e1 & sm & g & e2 & pa & pb & pc & pd & E & He1 & Hsm & Hg & He2 & P1 & -> & -> & Hpc & ->); [lia|constructor|constructor|constructor|constructor|cbn; lia..|].
  cbn [app] in E. rewrite E. cbn [mbind cres_bind]. rewrite app_nil_r in P1. cbn [app] in P1. assert (length s0 = length e1 + length sm + length g + length e2)%nat as Hl0 by (rewrite <- P1, !length_app; lia).
  replace (length p + S (length e1) - length p)%nat with (length (v :: e1)) by (cbn; lia). replace (length p + S (length e1) + length sm - (length p + S (length e1)))%nat with (length sm) by lia.
  replace (p ++ v :: e1 ++ sm ++ g ++ e2 ++ q) with (p ++ (v :: e1) ++ sm ++ g ++ e2 ++ q) by done.
  destruct (block_swap p (v :: e1) sm (g ++ e2 ++ q) (length p) (length p + S (length e1) + length sm - Nat.min (length (v :: e1)) (length sm))) as (e1' & sm' & -> & Pe1 & Psm); [done|cbn [length]; lia|].
  cbn [mbind cres_bind]. assert (length e1' = S (length e1)) as Le1 by (by rewrite Pe1). assert (length sm' = length sm) as Lsm by (by rewrite Psm).
  replace (pc + length g - pc)%nat with (length g) by lia. replace (length p + length s - (pc + length g) - 1)%nat with (length e2) by lia.
  replace (p ++ sm' ++ e1' ++ g ++ e2 ++ q) with ((p ++ sm' ++ e1') ++ g ++ e2 ++ q) by lassoc.
  destruct (block_swap (p ++ sm' ++ e1') g e2 q (length p + S (length e1) + length sm) (length p + length s - Nat.min (length g) (length e2))) as (g' & e2' & -> & Pg & Pe2); [rewrite !length_app; lia|rewrite !length_app; lia|].
  cbn [mbind cres_bind]. assert (length g' = length g) as Lg by (by rewrite Pg). assert (length e2' = length e2) as Le2 by (by rewrite Pe2).
  destruct (Hsub p sm' ((e1' ++ e2') ++ g' ++ q) (length sm)) as (sm2 & E2 & Psm2 & Hsm2); [done|lia|].
  replace ((p ++ sm' ++ e1') ++ e2' ++ g' ++ q) with (p ++ sm' ++ (e1' ++ e2') ++ g' ++ q) by lassoc. rewrite E2. cbn [mbind cres_bind].
  assert (length sm2 = length sm) as Lsm2 by (rewrite Psm2; done).
  destruct (Hsub (p ++ sm2 ++ e1' ++ e2') g' q (length g)) as (g2 & E3 & Pg2 & Hg2); [done|lia|].
  assert (length (p ++ sm2 ++ e1' ++ e2') = length p + length s - length g)%nat as Lp by (rewrite !length_app; lia). rewrite Lp in E3, Hg2.
  replace (p ++ sm2 ++ (e1' ++ e2') ++ g' ++ q) with ((p ++ sm2 ++ e1' ++ e2') ++ g' ++ q) by lassoc. rewrite E3. exists (sm2 ++ (e1' ++ e2') ++ g2). split; [f_equal; lassoc|]. split.
  - rewrite Psm2, Psm, Pe1, Pe2, Pg2, Pg, <- P0, <- P1. solve_Permutation.
  - intros i Hi Hr. unfold lts, eqs, gts in *. apply (placed_parts sm2 (e1' ++ e2') g2 v).
    + unfold lts. by rewrite Psm2, Psm.
    + apply Forall_app. split; [rewrite Pe1; constructor; [apply cmp_refl|done]|by rewrite Pe2].
    + unfold gts. by rewrite Pg2, Pg.
    + intros Hlt. apply Hsm2; lia.
    + intros Hge. rewrite length_app in *. apply Hg2; lia.
    + rewrite length_app. rewrite Pg2. lia.
Qed.

(** [C36] [pqsort] sorts the range.  For a comparison that is a total preorder, any array and any
    range: no element outside the array is touched or read, the recursion ends, the array is a
    permutation of what it was, and every place from [lrange] to [rrange] holds its element of
    the sorted array: no element before it is greater and none after it is less.  With the
    range of all places the array is sorted. *)
Theorem pqsort_sorts_range (l : list A) (lrange rrange : nat) :
  exists l', pqsort cmp l lrange rrange = Ret l' /\ l' ≡ₚ l
    /\ forall i, (lrange <= i <= rrange)%nat -> (i < length l)%nat -> placed l' i.
Proof.
  destruct (pqsort_at_spec lrange rrange (S (length l)) [] l []) as (l' & E & P & Hp); [lia|]. cbn [app length] in E. rewrite !app_nil_r in E.
  exists l'. split_and!; [done|done|]. intros i Hr Hi. by apply Hp.
Qed.
End Facts.

#[global] Instance sub_comparison : ComparisonOk Z.sub.
Proof. split; intros; lia. Qed.

Lemma pqsort_sorts_range_witness : exists l', pqsort Z.sub [5; 3; 9; 1; 7; 3; 8; 2; 6; 4; 0] 2 4 = Ret l' /\ placed Z.sub l' 3.
Proof.
  destruct (pqsort_sorts_range Z.sub [5; 3; 9; 1; 7; 3; 8; 2; 6; 4; 0] 2 4) as (l' & E & _ & Hp). exists l'. split; [done|]. apply Hp; cbn; lia.
Defined.
