(* ===== verification/Adlist.v ===== *)
(** * adlist.c: the doubly linked list

    The list of src/src/adlist.c as it is in memory: nodes in a heap, linked by
    [prev] and [next] pointers, and the [list] header with [head], [tail] and
    [len].  The operations follow the pointer manipulation of the source.
    [rep h l xs] says that the heap [h] and the header [l] hold the sequence
    [xs] of (address, value) pairs; every operation is shown to implement the
    corresponding operation on sequences and to leave the rest of the heap
    alone.  The other components use the sequence operations ([list_index] and
    friends) this refinement justifies. *)

From Stdlib Require Import ZArith Lia.
From stdpp Require Import base tactics numbers list gmap sets.
From S2P Require Import Prelude.

Local Open Scope Z_scope.

(** ** Memory *)

Abbreviation ptr := positive.

Section Adlist.
Context {A : Type}.

Record listNode := mkNode {
  prev : option ptr;
  next : option ptr;
  value : A;
}.

(** The header.  [dup], [free] and [match] are the optional methods a client
    installs: [free] hands a value back to the client and does not touch the
    list, so only its presence is recorded by the values the operations
    return. *)
Record adlist := mkList {
  head : option ptr;
  tail : option ptr;
  len : Z;
  dup : option (A -> option A);
  match_ : option (A -> A -> bool);
}.

Record listIter := mkIter {
  iter_next : option ptr;
  direction : Z;
}.

Definition AL_START_HEAD : Z := 0.
Definition AL_START_TAIL : Z := 1.

Abbreviation heap := (gmap ptr listNode).

Definition set_prev (q : option ptr) (n : listNode) : listNode := mkNode q (next n) (value n).
Definition set_next (q : option ptr) (n : listNode) : listNode := mkNode (prev n) q (value n).

Definition set_head (q : option ptr) (l : adlist) : adlist :=
  mkList q (tail l) (len l) (dup l) (match_ l).
Definition set_tail (q : option ptr) (l : adlist) : adlist :=
  mkList (head l) q (len l) (dup l) (match_ l).
Definition set_len (n : Z) (l : adlist) : adlist :=
  mkList (head l) (tail l) n (dup l) (match_ l).

(** [p->field = v] through a pointer that must be valid. *)
Definition store (h : heap) (p : option ptr) (f : listNode -> listNode) : cres heap :=
  p ← of_ptr p;
  n ← of_ptr (h !! p);
  mret (<[p := f n]> h).

Definition load (h : heap) (p : ptr) : cres listNode := of_ptr (h !! p).

(** ** The operations of adlist.c

    [p] is the address [zmalloc] returned for the new node ([zmalloc] ends the
    process rather than returning NULL). *)

Definition listCreate : adlist := mkList None None 0 None None.

Definition listAddNodeHead (h : heap) (l : adlist) (p : ptr) (v : A) : cres (heap * adlist) :=
  if len l =? 0 then
    mret (<[p := mkNode None None v]> h, set_len (len l + 1) (set_tail (Some p) (set_head (Some p) l)))
  else
    let h := <[p := mkNode None (head l) v]> h in
    h ← store h (head l) (set_prev (Some p));
    mret (h, set_len (len l + 1) (set_head (Some p) l)).

Definition listAddNodeTail (h : heap) (l : adlist) (p : ptr) (v : A) : cres (heap * adlist) :=
  if len l =? 0 then
    mret (<[p := mkNode None None v]> h, set_len (len l + 1) (set_tail (Some p) (set_head (Some p) l)))
  else
    let h := <[p := mkNode (tail l) None v]> h in
    h ← store h (tail l) (set_next (Some p));
    mret (h, set_len (len l + 1) (set_tail (Some p) l)).

Definition listInsertNode (h : heap) (l : adlist) (old_node : ptr) (p : ptr) (v : A) (after : bool)
    : cres (heap * adlist) :=
  old ← load h old_node;
  let '(node, l) :=
    if after then
      (mkNode (Some old_node) (next old) v,
       if decide (tail l = Some old_node) then set_tail (Some p) l else l)
    else
      (mkNode (prev old) (Some old_node) v,
       if decide (head l = Some old_node) then set_head (Some p) l else l) in
  let h := <[p := node]> h in
  h ← (match prev node with Some q => store h (Some q) (set_next (Some p)) | None => mret h end);
  h ← (match next node with Some q => store h (Some q) (set_prev (Some p)) | None => mret h end);
  mret (h, set_len (len l + 1) l).

(** The value of the deleted node is returned: it is what [free] receives. *)
Definition listDelNode (h : heap) (l : adlist) (node : ptr) : cres (heap * adlist * A) :=
  n ← load h node;
  '(h, l) ← (match prev n with
             | Some q => h ← store h (Some q) (set_next (next n)); mret (h, l)
             | None => mret (h, set_head (next n) l)
             end);
  n ← load h node;
  '(h, l) ← (match next n with
             | Some q => h ← store h (Some q) (set_prev (prev n)); mret (h, l)
             | None => mret (h, set_tail (prev n) l)
             end);
  n ← load h node;
  mret (delete node h, set_len (len l - 1) l, value n).

Definition listGetIterator (l : adlist) (dir : Z) : listIter :=
  mkIter (if dir =? AL_START_HEAD then head l else tail l) dir.

Definition listRewind (l : adlist) : listIter := mkIter (head l) AL_START_HEAD.
Definition listRewindTail (l : adlist) : listIter := mkIter (tail l) AL_START_TAIL.

(** The returned node and the advanced iterator. *)
Definition listNext (h : heap) (it : listIter) : cres (option ptr * listIter) :=
  match iter_next it with
  | None => mret (None, it)
  | Some p =>
      n ← load h p;
      mret (Some p, mkIter (if direction it =? AL_START_HEAD then next n else prev n) (direction it))
  end.

(** [while (index-- && n) n = n->next], by the count of steps. *)
Fixpoint walk (step : listNode -> option ptr) (h : heap) (index : nat) (n : option ptr)
    : cres (option ptr) :=
  match index, n with
  | O, _ => mret n
  | _, None => mret None
  | S index, Some p => c ← load h p; walk step h index (step c)
  end.

Definition listIndex (h : heap) (l : adlist) (index : Z) : cres (option ptr) :=
  if index <? 0 then walk prev h (Z.to_nat (- index - 1)) (tail l)
  else walk next h (Z.to_nat index) (head l).

Definition listRotate (h : heap) (l : adlist) : cres (heap * adlist) :=
  if len l <=? 1 then mret (h, l) else
  t ← of_ptr (tail l);
  tn ← load h t;
  let l := set_tail (prev tn) l in
  h ← store h (tail l) (set_next None);
  h ← store h (head l) (set_prev (Some t));
  h ← store h (Some t) (set_prev None);
  h ← store h (Some t) (set_next (head l));
  mret (h, set_head (Some t) l).

(** [listRelease]: free [len] nodes from the head. *)
Fixpoint release_loop (n : nat) (h : heap) (current : option ptr) : cres heap :=
  match n with
  | O => mret h
  | S n =>
      p ← of_ptr current;
      c ← load h p;
      release_loop n (delete p h) (next c)
  end.

Definition listRelease (h : heap) (l : adlist) : cres heap :=
  release_loop (Z.to_nat (len l)) h (head l).

(** [listSearchKey]: the first node, from the head, whose value matches; [eqb] is
    the pointer comparison used when there is no [match] method. *)
Fixpoint search_loop (fuel : nat) (eqb : A -> A -> bool) (h : heap) (l : adlist) (it : listIter) (key : A)
    : cres (option ptr) :=
  match fuel with
  | O => mret None
  | S fuel =>
      '(node, it) ← listNext h it;
      match node with
      | None => mret None
      | Some p =>
          n ← load h p;
          if (match match_ l with Some m => m (value n) key | None => eqb key (value n) end)
          then mret (Some p) else search_loop fuel eqb h l it key
      end
  end.

Definition listSearchKey (eqb : A -> A -> bool) (h : heap) (l : adlist) (key : A) : cres (option ptr) :=
  search_loop (S (Z.to_nat (len l))) eqb h l (listGetIterator l AL_START_HEAD) key.

(** [listDup]: copy node by node with the [dup] method; [ps] are the addresses of
    the new nodes.  [None] is the NULL the source returns when [dup] fails. *)
Fixpoint dup_loop (fuel : nat) (h : heap) (copy : adlist) (it : listIter) (ps : list ptr)
    : cres (option (heap * adlist)) :=
  match fuel with
  | O => mret None
  | S fuel =>
      '(node, it) ← listNext h it;
      match node with
      | None => mret (Some (h, copy))
      | Some p =>
          n ← load h p;
          match (match dup copy with Some d => d (value n) | None => Some (value n) end) with
          | None => h ← listRelease h copy; mret None
          | Some v =>
              q ← of_ptr (ps !! 0%nat);
              '(h, copy) ← listAddNodeTail h copy q v;
              dup_loop fuel h copy it (drop 1 ps)
          end
      end
  end.

Definition listDup (h : heap) (orig : adlist) (ps : list ptr) : cres (option (heap * adlist)) :=
  let copy := mkList None None 0 (dup orig) (match_ orig) in
  dup_loop (S (Z.to_nat (len orig))) h copy (listGetIterator orig AL_START_HEAD) ps.

(** ** The sequence a list holds *)

Definition prev_of (xs : list (ptr * A)) (i : nat) : option ptr :=
  match i with O => None | S j => fst <$> xs !! j end.
Definition next_of (xs : list (ptr * A)) (i : nat) : option ptr := fst <$> xs !! S i.

Record rep (h : heap) (l : adlist) (xs : list (ptr * A)) : Prop := {
  rep_nodes : forall i p v, xs !! i = Some (p, v) ->
    h !! p = Some (mkNode (prev_of xs i) (next_of xs i) v);
  rep_nodup : NoDup (fst <$> xs);
  rep_head : head l = fst <$> xs !! 0%nat;
  rep_tail : tail l = fst <$> last xs;
  rep_len : len l = Z.of_nat (length xs);
}.

(** Only the addresses [ps] may differ between the heaps. *)
Definition frame (ps : list ptr) (h h' : heap) : Prop :=
  forall q, q ∉ ps -> h' !! q = h !! q.

(** The sequence operation of [listIndex]: the position counted from the head, or
    from the tail for a negative index. *)
Definition index_pos {B} (xs : list B) (index : Z) : option nat :=
  let n := Z.of_nat (length xs) in
  if index <? 0 then if - index <=? n then Some (Z.to_nat (n + index)) else None
  else if index <? n then Some (Z.to_nat index) else None.

Definition list_index {B} (xs : list B) (index : Z) : option B :=
  i ← index_pos xs index; xs !! i.

(** ** Facts about the representation *)

Implicit Types (h : heap) (l : adlist) (xs : list (ptr * A)) (p q : ptr).

Lemma prev_of_app_l xs ys i :
  (i <= length xs)%nat -> prev_of (xs ++ ys) i = prev_of xs i.
Proof. destruct i; [done|]. cbn. intros. by rewrite lookup_app_l by lia. Qed.

Lemma next_of_app_l xs ys i :
  (S i < length xs)%nat -> next_of (xs ++ ys) i = next_of xs i.
Proof. intros. unfold next_of. by rewrite lookup_app_l by lia. Qed.

Lemma fst_lookup xs i p v : xs !! i = Some (p, v) -> (fst <$> xs) !! i = Some p.
Proof. intros E. by rewrite list_lookup_fmap, E. Qed.

Lemma rep_inj h l xs i j p v w :
  rep h l xs -> xs !! i = Some (p, v) -> xs !! j = Some (p, w) -> i = j.
Proof.
  intros R Ei Ej. apply (NoDup_lookup (fst <$> xs) i j p (rep_nodup _ _ _ R)); eauto using fst_lookup.
Qed.

Lemma rep_fresh h l xs p : rep h l xs -> h !! p = None -> p ∉ fst <$> xs.
Proof.
  intros R Hp ([q v] & -> & [i E]%list_elem_of_lookup)%list_elem_of_fmap.
  cbn in Hp. by rewrite (rep_nodes _ _ _ R i q v E) in Hp.
Qed.

Lemma rep_fresh_ne h l xs p i q v :
  rep h l xs -> h !! p = None -> xs !! i = Some (q, v) -> q ≠ p.
Proof. intros R Hp E ->. by rewrite (rep_nodes _ _ _ R i p v E) in Hp. Qed.

Lemma last_lookup_S {B} (ys : list B) y : last ys = Some y -> ys !! (length ys - 1)%nat = Some y.
Proof. rewrite last_lookup. by replace (pred (length ys)) with (length ys - 1)%nat by lia. Qed.

Lemma rep_empty : rep ∅ listCreate [].
Proof. split; try done. constructor. Qed.

(** Linking in a node at position [k]: what the heap must hold afterwards. *)
Lemma rep_insert h l xs k p v h' l' :
  rep h l xs -> (k <= length xs)%nat -> p ∉ fst <$> xs ->
  h' !! p = Some (mkNode (prev_of xs k) (fst <$> xs !! k) v) ->
  (forall i q w, xs !! i = Some (q, w) -> h' !! q = Some (mkNode
     (if decide (i = k) then Some p else prev_of xs i)
     (if decide (S i = k) then Some p else next_of xs i) w)) ->
  head l' = (if decide (k = O) then Some p else head l) ->
  tail l' = (if decide (k = length xs) then Some p else tail l) ->
  len l' = len l + 1 ->
  rep h' l' (insert_at k (p, v) xs).
Proof.
  intros R Hk Hp Hn Ho Hh Ht Hl. split.
  - intros i q w. rewrite lookup_insert_at by done. dsplit; intros E.
    + rewrite (Ho _ _ _ E), decide_False by lia. f_equal. f_equal.
      * destruct i as [|i]; [done|]. cbn. by rewrite lookup_insert_at, decide_True by lia.
      * unfold next_of. rewrite lookup_insert_at by done. by dsplit.
    + injection E as <- <-. subst i. rewrite Hn. f_equal. f_equal.
      * destruct k as [|k]; [done|]. cbn. by rewrite lookup_insert_at, decide_True by lia.
      * unfold next_of. rewrite lookup_insert_at by done.
        dsplit. f_equal. f_equal. lia.
    + rewrite (Ho _ _ _ E), (decide_False (P := S _ = k)) by lia. f_equal. f_equal.
      * destruct i as [|i]; [lia|]. cbn. rewrite lookup_insert_at by done.
        dsplit; [done|]. destruct i as [|i]; [lia|]. cbn. by rewrite Nat.sub_0_r.
      * unfold next_of. rewrite lookup_insert_at by done.
        dsplit. f_equal. f_equal. lia.
  - rewrite insert_at_perm. cbn. by apply NoDup_cons_2; [|apply R].
  - rewrite Hh, lookup_insert_at by done. dsplit; [by subst|apply R].
  - rewrite Ht, last_lookup, length_insert_at. cbn. rewrite lookup_insert_at by done.
    dsplit; [done|]. rewrite (rep_tail _ _ _ R), last_lookup.
    do 2 f_equal. lia.
  - rewrite Hl, (rep_len _ _ _ R), length_insert_at. lia.
Qed.

(** Unlinking the node at position [k]. *)
Lemma rep_delete h l xs k p v h' l' :
  rep h l xs -> xs !! k = Some (p, v) ->
  (forall i q w, xs !! i = Some (q, w) -> i ≠ k -> h' !! q = Some (mkNode
     (if decide (i = S k) then prev_of xs k else prev_of xs i)
     (if decide (S i = k) then next_of xs k else next_of xs i) w)) ->
  head l' = (if decide (k = O) then next_of xs k else head l) ->
  tail l' = (if decide (S k = length xs) then prev_of xs k else tail l) ->
  len l' = len l - 1 ->
  rep h' l' (delete k xs).
Proof.
  intros R Ek Ho Hh Ht Hl. pose proof (lookup_lt_Some _ _ _ Ek) as Hk. split.
  - intros i q w. rewrite lookup_delete_list. destruct (decide (i < k)%nat) as [Hik|Hik]; intros E.
    + rewrite (Ho _ _ _ E) by lia. rewrite decide_False by lia. f_equal. f_equal.
      * destruct i as [|i]; [done|]. cbn. by rewrite lookup_delete_list, decide_True by lia.
      * unfold next_of. rewrite lookup_delete_list.
        dsplit; [|done]. by replace (S k) with (S (S i)) by lia.
    + rewrite (Ho _ _ _ E) by lia. rewrite (decide_False (P := S (S i) = k)) by lia. f_equal. f_equal.
      * destruct (decide (S i = S k)) as [Hs|Hs].
        -- replace i with k by lia. destruct k as [|k]; [done|]. cbn.
           by rewrite lookup_delete_list, decide_True by lia.
        -- destruct i as [|i]; [lia|]. cbn. by rewrite lookup_delete_list, decide_False by lia.
      * unfold next_of. by rewrite lookup_delete_list, decide_False by lia.
  - rewrite list_fmap_delete. apply (sublist_NoDup _ (fst <$> xs)); [apply R|apply sublist_delete].
  - rewrite Hh, lookup_delete_list. dsplit; [by subst|apply R].
  - rewrite Ht, last_lookup, length_delete by eauto. rewrite lookup_delete_list.
    destruct (decide (S k = length xs)) as [Hlast|Hlast].
    + destruct k as [|k]; cbn.
      * dsplit. by rewrite lookup_ge_None_2 by lia.
      * rewrite decide_True by lia. do 2 f_equal. lia.
    + rewrite decide_False by lia. rewrite (rep_tail _ _ _ R), last_lookup. do 2 f_equal. lia.
  - rewrite Hl, (rep_len _ _ _ R), length_delete by eauto. lia.
Qed.

(** Reading the heap after stores at other addresses. *)
Lemma rep_ne h l xs i j p q v w :
  rep h l xs -> xs !! i = Some (p, v) -> xs !! j = Some (q, w) -> i ≠ j -> p ≠ q.
Proof. intros R Ei Ej Hij ->. by pose proof (rep_inj _ _ _ _ _ _ _ _ R Ei Ej). Qed.

Lemma elem_addr xs i p v : xs !! i = Some (p, v) -> p ∈ fst <$> xs.
Proof. intros E. apply list_elem_of_lookup. exists i. by eapply fst_lookup. Qed.

Lemma rep_unique h l xs i p v n :
  rep h l xs -> xs !! i = Some (p, v) -> h !! p = Some n ->
  n = mkNode (prev_of xs i) (next_of xs i) v.
Proof. intros R E Hn. rewrite (rep_nodes _ _ _ R _ _ _ E) in Hn. congruence. Qed.

(** The first and the last node. *)
Lemma rep_nonempty h l xs :
  rep h l xs -> len l ≠ 0 ->
  exists p v q w, xs !! 0%nat = Some (p, v) /\ head l = Some p
    /\ xs !! (length xs - 1)%nat = Some (q, w) /\ tail l = Some q /\ (0 < length xs)%nat.
Proof.
  intros R Hl. rewrite (rep_len _ _ _ R) in Hl.
  destruct (lookup_lt_is_Some_2 xs 0 ltac:(lia)) as [[p v] E0].
  destruct (lookup_lt_is_Some_2 xs (length xs - 1) ltac:(lia)) as [[q w] E1].
  exists p, v, q, w. rewrite (rep_head _ _ _ R), (rep_tail _ _ _ R), last_lookup.
  replace (pred (length xs)) with (length xs - 1)%nat by lia. rewrite E0, E1.
  repeat split; (done || lia).
Qed.

Lemma rep_len_zero h l xs : rep h l xs -> len l = 0 -> xs = [].
Proof. intros R E. rewrite (rep_len _ _ _ R) in E. by destruct xs. Qed.

Lemma frame_insert ps h p n : p ∈ ps -> frame ps h (<[p := n]> h).
Proof. intros Hp q Hq. rewrite lookup_insert_ne; [done|]. by intros ->. Qed.

Lemma frame_trans ps h1 h2 h3 : frame ps h1 h2 -> frame ps h2 h3 -> frame ps h1 h3.
Proof. intros H1 H2 q Hq. by rewrite H2, H1. Qed.

Lemma frame_refl ps h : frame ps h h.
Proof. by intros q. Qed.

(** Every operation below returns, represents the updated sequence and changes
    the list's own nodes only. *)
Definition implements (r : cres (heap * adlist)) (h : heap) (ps : list ptr) (xs' : list (ptr * A)) : Prop :=
  exists h' l', r = Ret (h', l') /\ rep h' l' xs' /\ frame ps h h'.

Lemma listAdd_empty h l p v :
  rep h l [] -> h !! p = None ->
  implements (mret (<[p := mkNode None None v]> h,
      set_len (len l + 1) (set_tail (Some p) (set_head (Some p) l)))) h [p] [(p, v)].
Proof.
  intros R Hp. do 2 eexists. split; [done|]. split; [|by apply frame_insert; set_solver].
  apply (rep_insert h l [] 0 p v); cbn; try done; [set_solver|by rewrite lookup_insert_eq].
Qed.

Lemma listAddNodeTail_rep h l xs p v :
  rep h l xs -> h !! p = None ->
  implements (listAddNodeTail h l p v) h (p :: (fst <$> xs)) (xs ++ [(p, v)]).
Proof.
  intros R Hp. unfold listAddNodeTail. destruct (Z.eqb_spec (len l) 0) as [E|E].
  { pose proof (rep_len_zero _ _ _ R E) as ->. by apply listAdd_empty. }
  destruct (rep_nonempty _ _ _ R E) as (_ & _ & t & tv & _ & _ & Et & Ht & Hn).
  pose proof (rep_fresh_ne _ _ _ _ _ _ _ R Hp Et) as Htp.
  rewrite Ht. cbn. rewrite lookup_insert_ne, (rep_nodes _ _ _ R _ _ _ Et) by done. cbn.
  do 2 eexists. split; [done|]. split.
  2: { eapply frame_trans; apply frame_insert; [left|right; by eapply elem_addr]. }
  rewrite <- insert_at_length. apply (rep_insert h l); cbn; dsplit; try (done || lia).
  - by eapply rep_fresh.
  - rewrite lookup_insert_ne, lookup_insert_eq by done. do 2 f_equal.
    + destruct (length xs) as [|n]; [lia|]. cbn. replace (S n - 1)%nat with n in Et by lia. by rewrite Et.
    + by rewrite lookup_ge_None_2.
  - intros i q w Ei. pose proof (lookup_lt_Some _ _ _ Ei). dsplit.
    + replace i with (length xs - 1)%nat in * by lia. rewrite Et in Ei. injection Ei as <- <-.
      by rewrite lookup_insert_eq.
    + rewrite !lookup_insert_ne; [by apply R| |].
      * intros <-. by apply (rep_fresh_ne _ _ _ _ _ _ _ R Hp Ei).
      * apply (rep_ne _ _ _ _ _ _ _ _ _ R Et Ei). lia.
Qed.

Lemma listAddNodeHead_rep h l xs p v :
  rep h l xs -> h !! p = None ->
  implements (listAddNodeHead h l p v) h (p :: (fst <$> xs)) ((p, v) :: xs).
Proof.
  intros R Hp. unfold listAddNodeHead. destruct (Z.eqb_spec (len l) 0) as [E|E].
  { pose proof (rep_len_zero _ _ _ R E) as ->. by apply listAdd_empty. }
  destruct (rep_nonempty _ _ _ R E) as (t & tv & _ & _ & Et & Ht & _ & _ & Hn).
  pose proof (rep_fresh_ne _ _ _ _ _ _ _ R Hp Et) as Htp.
  rewrite Ht. cbn. rewrite lookup_insert_ne, (rep_nodes _ _ _ R _ _ _ Et) by done. cbn.
  do 2 eexists. split; [done|]. split.
  2: { eapply frame_trans; apply frame_insert; [left|right; by eapply elem_addr]. }
  rewrite <- insert_at_0. apply (rep_insert h l); cbn; dsplit; try (done || lia).
  - by eapply rep_fresh.
  - rewrite lookup_insert_ne, lookup_insert_eq by done. by rewrite Et.
  - intros i q w Ei. dsplit.
    + subst i. rewrite Et in Ei. injection Ei as <- <-. by rewrite lookup_insert_eq.
    + rewrite !lookup_insert_ne; [by apply R| |].
      * intros <-. by apply (rep_fresh_ne _ _ _ _ _ _ _ R Hp Ei).
      * apply (rep_ne _ _ _ _ _ _ _ _ _ R Et Ei). lia.
Qed.

(** The last part of [listInsertNode]: pointing the neighbours at the node. *)
Definition link_neighbours (h : heap) (p : ptr) (node : listNode) : cres heap :=
  h ← (match prev node with Some q => store h (Some q) (set_next (Some p)) | None => mret h end);
  match next node with Some q => store h (Some q) (set_prev (Some p)) | None => mret h end.

(** The prev pointer of position [k] names the node at [k - 1]. *)
Lemma prev_of_Some h l xs k q :
  rep h l xs -> prev_of xs k = Some q ->
  exists j w, k = S j /\ xs !! j = Some (q, w) /\ h !! q = Some (mkNode (prev_of xs j) (next_of xs j) w).
Proof.
  intros R. destruct k as [|j]; cbn; [done|]. intros ([q' w] & E & ->)%fmap_Some.
  exists j, w. cbn. eauto using rep_nodes.
Qed.

Lemma fst_Some h l xs k q :
  rep h l xs -> fst <$> xs !! k = Some q ->
  exists w, xs !! k = Some (q, w) /\ h !! q = Some (mkNode (prev_of xs k) (next_of xs k) w).
Proof.
  intros R ([q' w] & E & ->)%fmap_Some. exists w. cbn. eauto using rep_nodes.
Qed.

Lemma fst_None xs k : fst <$> xs !! k = None -> xs !! k = None.
Proof. apply fmap_None. Qed.

Lemma link_neighbours_rep h l xs k p v :
  rep h l xs -> h !! p = None -> (k <= length xs)%nat ->
  let node := mkNode (prev_of xs k) (fst <$> xs !! k) v in
  exists h', link_neighbours (<[p := node]> h) p node = Ret h'
    /\ h' !! p = Some node
    /\ (forall i q w, xs !! i = Some (q, w) -> h' !! q = Some (mkNode
          (if decide (i = k) then Some p else prev_of xs i)
          (if decide (S i = k) then Some p else next_of xs i) w))
    /\ frame (p :: (fst <$> xs)) h h'.
Proof.
  intros R Hp Hk node. unfold link_neighbours, node. cbn [prev next].
  (* the heap after the first store, described by what it holds *)
  assert (exists h1, (match prev_of xs k with
      | Some q => store (<[p := node]> h) (Some q) (set_next (Some p))
      | None => mret (<[p := node]> h) end) = Ret h1
    /\ h1 !! p = Some node
    /\ (forall i q w, xs !! i = Some (q, w) -> h1 !! q = Some (mkNode (prev_of xs i)
          (if decide (S i = k) then Some p else next_of xs i) w))
    /\ frame (p :: (fst <$> xs)) h h1) as (h1 & E1 & Hp1 & Hn1 & Hf1).
  { destruct (prev_of xs k) as [q|] eqn:Eq.
    - destruct (prev_of_Some _ _ _ _ _ R Eq) as (j & w & -> & Ej & Hq).
      pose proof (rep_fresh_ne _ _ _ _ _ _ _ R Hp Ej) as Hqp.
      cbn. rewrite lookup_insert_ne, Hq by done. cbn. eexists. split; [done|].
      split; [by rewrite lookup_insert_ne, lookup_insert_eq by done|]. split.
      + intros i q' w' Ei. destruct (decide (S i = S j)) as [[= ->]|Hi].
        * rewrite Ej in Ei. injection Ei as <- <-. by rewrite lookup_insert_eq.
        * rewrite !lookup_insert_ne; [by apply R| |].
          -- intros <-. by apply (rep_fresh_ne _ _ _ _ _ _ _ R Hp Ei).
          -- apply (rep_ne _ _ _ _ _ _ _ _ _ R Ej Ei). lia.
      + eapply frame_trans; apply frame_insert; [left|right; by eapply elem_addr].
    - eexists. split; [done|]. split; [by rewrite lookup_insert_eq|]. split.
      + intros i q' w' Ei. rewrite lookup_insert_ne.
        * rewrite decide_False; [by apply R|]. intros <-. cbn in Eq. by rewrite Ei in Eq.
        * intros <-. by apply (rep_fresh_ne _ _ _ _ _ _ _ R Hp Ei).
      + apply frame_insert. left. }
  fold node. rewrite E1. cbn [mbind cres_bind].
  destruct (fst <$> xs !! k) as [q|] eqn:Eq.
  - destruct (fst_Some _ _ _ _ _ R Eq) as (w & Ek & _).
    pose proof (rep_fresh_ne _ _ _ _ _ _ _ R Hp Ek) as Hqp.
    cbn. rewrite (Hn1 _ _ _ Ek), decide_False by lia. cbn. eexists. split; [done|].
    split; [by rewrite lookup_insert_ne by done|]. split.
    + intros i q' w' Ei. destruct (decide (i = k)) as [->|Hi].
      * rewrite Ek in Ei. injection Ei as <- <-. rewrite lookup_insert_eq. by rewrite decide_False by lia.
      * rewrite lookup_insert_ne; [by apply Hn1|]. by apply (rep_ne _ _ _ _ _ _ _ _ _ R Ek Ei).
    + eapply frame_trans; [done|]. apply frame_insert. right. by eapply elem_addr.
  - apply fst_None in Eq. eexists. split; [done|]. split; [done|]. split; [|done].
    intros i q' w' Ei. rewrite (Hn1 _ _ _ Ei). rewrite (decide_False (P := i = k)); [done|].
    intros ->. by rewrite Eq in Ei.
Qed.

Lemma rep_head_iff h l xs k p v :
  rep h l xs -> xs !! k = Some (p, v) -> head l = Some p <-> k = O.
Proof.
  intros R E. rewrite (rep_head _ _ _ R). split.
  - intros ([q w] & E0 & ->)%fmap_Some. cbn in *. by eapply rep_inj.
  - intros ->. by rewrite E.
Qed.

Lemma rep_tail_iff h l xs k p v :
  rep h l xs -> xs !! k = Some (p, v) -> tail l = Some p <-> S k = length xs.
Proof.
  intros R E. rewrite (rep_tail _ _ _ R), last_lookup. pose proof (lookup_lt_Some _ _ _ E). split.
  - intros ([q w] & E0 & ->)%fmap_Some. cbn in *.
    pose proof (rep_inj _ _ _ _ _ _ _ _ R E0 E). lia.
  - intros Hk. replace (pred (length xs)) with k by lia. by rewrite E.
Qed.

Lemma listInsertNode_rep h l xs k old ov p v after :
  rep h l xs -> xs !! k = Some (old, ov) -> h !! p = None ->
  implements (listInsertNode h l old p v after) h (p :: (fst <$> xs))
    (insert_at (if after then S k else k) (p, v) xs).
Proof.
  intros R Ek Hp. pose proof (lookup_lt_Some _ _ _ Ek) as Hk.
  pose proof (rep_head_iff _ _ _ _ _ _ R Ek) as Hhd. pose proof (rep_tail_iff _ _ _ _ _ _ R Ek) as Htl.
  unfold listInsertNode, load. rewrite (rep_nodes _ _ _ R _ _ _ Ek). cbn [of_ptr mbind cres_bind].
  destruct after.
  - destruct (link_neighbours_rep h l xs (S k) p v R Hp ltac:(lia)) as (h' & E & Hpn & Ho & Hf).
    cbn [prev_of] in E, Hpn. rewrite Ek in E, Hpn. cbn [prev next fmap option_fmap option_map fst] in *.
    change (fst <$> xs !! S k) with (next_of xs k) in *. unfold link_neighbours in E.
    cbn [prev next] in E. apply cres_bind_ret in E as (h1 & E1 & E2).
    cbn [prev next]. rewrite E1. cbn [mbind cres_bind]. rewrite E2. cbn.
    do 2 eexists. split; [done|]. split; [|done].
    apply (rep_insert h l); try done; try lia.
    + by eapply rep_fresh.
    + cbn [prev_of]. by rewrite Ek.
    + by destruct (decide (tail l = Some old)).
    + destruct (decide (tail l = Some old)) as [Ht|Ht]; cbn.
      * by rewrite decide_True by (by apply Htl).
      * rewrite decide_False; [done|]. by intros ?%Htl.
    + by destruct (decide (tail l = Some old)).
  - destruct (link_neighbours_rep h l xs k p v R Hp ltac:(lia)) as (h' & E & Hpn & Ho & Hf).
    rewrite Ek in E, Hpn. cbn [fmap option_fmap option_map fst] in *. unfold link_neighbours in E.
    cbn [prev next] in E. apply cres_bind_ret in E as (h1 & E1 & E2).
    cbn [prev next]. rewrite E1. cbn [mbind cres_bind]. rewrite E2. cbn.
    do 2 eexists. split; [done|]. split; [|done].
    apply (rep_insert h l); try done; try lia.
    + by eapply rep_fresh.
    + by rewrite Ek.
    + destruct (decide (head l = Some old)) as [Ht|Ht]; cbn.
      * by rewrite decide_True by (by apply Hhd).
      * rewrite decide_False; [done|]. by intros ?%Hhd.
    + rewrite (decide_False (P := k = length xs)) by lia. by destruct (decide (head l = Some old)).
    + by destruct (decide (head l = Some old)).
Qed.

(** First half of [listDelNode]: the predecessor (or the head) skips the node. *)
Lemma unlink_prev h l xs k p v :
  rep h l xs -> xs !! k = Some (p, v) ->
  exists h1 l1, (match prev_of xs k with
      | Some q => h ← store h (Some q) (set_next (next_of xs k)); mret (h, l)
      | None => mret (h, set_head (next_of xs k) l) end) = Ret (h1, l1)
    /\ (forall i q w, xs !! i = Some (q, w) -> h1 !! q = Some (mkNode (prev_of xs i)
          (if decide (S i = k) then next_of xs k else next_of xs i) w))
    /\ head l1 = (if decide (k = O) then next_of xs k else head l)
    /\ tail l1 = tail l /\ len l1 = len l /\ frame (fst <$> xs) h h1.
Proof.
  intros R Ek. destruct (prev_of xs k) as [q|] eqn:Eq.
  - destruct (prev_of_Some _ _ _ _ _ R Eq) as (j & w & -> & Ej & Hq).
    cbn. rewrite Hq. cbn. do 2 eexists. split; [done|]. split; [|split; [done|]].
    + intros i q' w' Ei. destruct (decide (S i = S j)) as [[= ->]|Hi].
      * rewrite Ej in Ei. injection Ei as <- <-. by rewrite lookup_insert_eq.
      * rewrite lookup_insert_ne; [by apply R|]. apply (rep_ne _ _ _ _ _ _ _ _ _ R Ej Ei). lia.
    + split; [done|]. split; [done|]. apply frame_insert. by eapply elem_addr.
  - do 2 eexists. split; [done|].
    assert (k = O) as ->.
    { destruct k as [|k]; [done|]. cbn in Eq. apply fst_None in Eq.
      pose proof (lookup_lt_Some _ _ _ Ek). apply lookup_ge_None in Eq. lia. }
    split; [|by repeat split]. intros i q' w' Ei. rewrite decide_False by lia. by apply R.
Qed.

Lemma listDelNode_rep h l xs k p v :
  rep h l xs -> xs !! k = Some (p, v) ->
  exists h' l', listDelNode h l p = Ret (h', l', v)
    /\ rep h' l' (delete k xs) /\ frame (fst <$> xs) h h' /\ h' !! p = None.
Proof.
  intros R Ek. pose proof (lookup_lt_Some _ _ _ Ek) as Hk.
  destruct (unlink_prev _ _ _ _ _ _ R Ek) as (h1 & l1 & E1 & Hn & Hh & Ht & Hl & Hf).
  unfold listDelNode, load. rewrite (rep_nodes _ _ _ R _ _ _ Ek).
  cbn [of_ptr mbind cres_bind prev next value]. rewrite E1. cbn [mbind cres_bind].
  rewrite (Hn _ _ _ Ek), decide_False by lia. cbn [of_ptr mbind cres_bind prev next value].
  destruct (next_of xs k) as [r|] eqn:Er.
  - destruct (fst_Some _ _ _ _ _ R Er) as (w & Es & _).
    assert (p ≠ r) as Hpr by (apply (rep_ne _ _ _ _ _ _ _ _ _ R Ek Es); lia).
    cbn [of_ptr mbind cres_bind store]. rewrite (Hn _ _ _ Es), decide_False by lia.
    cbn [of_ptr mbind cres_bind mret cres_ret]. rewrite lookup_insert_ne by done.
    rewrite (Hn _ _ _ Ek), decide_False by lia. cbn [of_ptr mbind cres_bind value].
    do 2 eexists. split; [done|]. split; [|split].
    + apply (rep_delete h l xs k p v); cbn; try done.
      * intros i q w' Ei Hi. pose proof (rep_ne _ _ _ _ _ _ _ _ _ R Ek Ei ltac:(lia)).
        rewrite lookup_delete_ne by done. destruct (decide (i = S k)) as [->|Hs].
        -- rewrite Es in Ei. injection Ei as <- <-. rewrite lookup_insert_eq.
           by rewrite decide_False by lia.
        -- rewrite lookup_insert_ne; [|apply (rep_ne _ _ _ _ _ _ _ _ _ R Es Ei); lia].
           by rewrite (Hn _ _ _ Ei), Er.
      * by rewrite Hh, Er.
      * rewrite Ht, decide_False; [done|]. intros Hlast.
        pose proof (lookup_lt_Some _ _ _ Es). lia.
      * by rewrite Hl.
    + intros q Hq. rewrite lookup_delete_ne by (intros <-; apply Hq; by eapply elem_addr).
      rewrite lookup_insert_ne by (intros <-; apply Hq; by eapply elem_addr). by apply Hf.
    + apply lookup_delete_eq.
  - cbn [of_ptr mbind cres_bind mret cres_ret]. rewrite (Hn _ _ _ Ek), decide_False by lia.
    cbn [of_ptr mbind cres_bind value].
    assert (S k = length xs) as Hlast.
    { apply fst_None, lookup_ge_None in Er. lia. }
    do 2 eexists. split; [done|]. split; [|split].
    + apply (rep_delete h l xs k p v); cbn; try done.
      * intros i q w' Ei Hi. pose proof (rep_ne _ _ _ _ _ _ _ _ _ R Ek Ei ltac:(lia)).
        pose proof (lookup_lt_Some _ _ _ Ei).
        rewrite lookup_delete_ne, (Hn _ _ _ Ei), Er by done. by rewrite (decide_False (P := i = S k)) by lia.
      * by rewrite Hh, Er.
      * by rewrite decide_True.
      * by rewrite Hl.
    + intros q Hq. rewrite lookup_delete_ne by (intros <-; apply Hq; by eapply elem_addr). by apply Hf.
    + apply lookup_delete_eq.
Qed.

(** Indexing from either end. *)
Lemma walk_next h l xs k i :
  rep h l xs -> walk next h k (fst <$> xs !! i) = Ret (fst <$> xs !! (i + k)%nat).
Proof.
  intros R. revert i. induction k as [|k IH]; intros i; cbn; [by rewrite Nat.add_0_r|].
  destruct (xs !! i) as [[p v]|] eqn:E; cbn.
  - unfold load. rewrite (rep_nodes _ _ _ R _ _ _ E). cbn. unfold next_of. rewrite IH.
    by rewrite Nat.add_succ_r.
  - apply lookup_ge_None in E. rewrite lookup_ge_None_2; [done|lia].
Qed.

Lemma walk_prev h l xs k i :
  rep h l xs -> (i < length xs)%nat ->
  walk prev h k (fst <$> xs !! i)
  = Ret (if decide (k <= i)%nat then fst <$> xs !! (i - k)%nat else None).
Proof.
  intros R. revert i. induction k as [|k IH]; intros i Hi; cbn [walk].
  - rewrite decide_True by lia. by rewrite Nat.sub_0_r.
  - destruct (lookup_lt_is_Some_2 xs i Hi) as [[p v] E]. rewrite E. cbn.
    unfold load. rewrite (rep_nodes _ _ _ R _ _ _ E). cbn. destruct i as [|i]; cbn [prev_of].
    + rewrite decide_False by lia. by destruct k.
    + rewrite IH by lia. destruct (decide (k <= i)%nat).
      * by rewrite decide_True by lia.
      * by rewrite decide_False by lia.
Qed.

Lemma listIndex_rep h l xs index :
  rep h l xs -> listIndex h l index = Ret (fst <$> list_index xs index).
Proof.
  intros R. unfold listIndex, list_index, index_pos.
  destruct (Z.ltb_spec index 0) as [Hneg|Hpos].
  - rewrite (rep_tail _ _ _ R), last_lookup.
    destruct (decide (xs = [])) as [->|Hne].
    { cbn. rewrite (proj2 (Z.leb_gt _ _)) by lia. by destruct (Z.to_nat _). }
    assert (0 < length xs)%nat by (destruct xs; [done|cbn; lia]).
    rewrite (walk_prev h l xs) by (done || lia).
    destruct (Z.leb_spec (- index) (Z.of_nat (length xs))).
    + rewrite decide_True by lia. cbn. do 3 f_equal. lia.
    + by rewrite decide_False by lia.
  - rewrite (rep_head _ _ _ R), (walk_next h l xs) by done. rewrite Nat.add_0_l.
    destruct (Z.ltb_spec index (Z.of_nat (length xs))); [done|].
    by rewrite lookup_ge_None_2 by lia.
Qed.

(** ** Iteration *)

Lemma listNext_head h l xs k :
  rep h l xs ->
  listNext h (mkIter (fst <$> xs !! k) AL_START_HEAD)
  = Ret (fst <$> xs !! k, mkIter (fst <$> xs !! (match xs !! k with Some _ => S k | None => k end)) AL_START_HEAD).
Proof.
  intros R. unfold listNext. cbn. destruct (xs !! k) as [[p v]|] eqn:E; cbn.
  - unfold load. by rewrite (rep_nodes _ _ _ R _ _ _ E).
  - by rewrite E.
Qed.

(** The loop of [logTruncate] (log.c): walk from a node to the end of the list
    and delete every node returned by [listNext]. *)
Fixpoint listDelFrom (fuel : nat) (h : heap) (l : adlist) (it : listIter) : cres (heap * adlist) :=
  match fuel with
  | O => mret (h, l)
  | S fuel =>
      '(ln, it) ← listNext h it;
      match ln with
      | None => mret (h, l)
      | Some p => '(h, l, _) ← listDelNode h l p; listDelFrom fuel h l it
      end
  end.

Lemma listDelFrom_rep fuel h l xs k :
  rep h l xs -> (length xs - k < fuel)%nat ->
  exists h' l', listDelFrom fuel h l (mkIter (fst <$> xs !! k) AL_START_HEAD) = Ret (h', l')
    /\ rep h' l' (take k xs) /\ frame (fst <$> xs) h h'.
Proof.
  revert h l xs. induction fuel as [|fuel IH]; intros h l xs R Hf; [lia|].
  cbn [listDelFrom]. rewrite (listNext_head h l xs) by done.
  destruct (xs !! k) as [[p v]|] eqn:E; cbn [fmap option_fmap option_map fst mbind cres_bind].
  - destruct (listDelNode_rep _ _ _ _ _ _ R E) as (h1 & l1 & -> & R1 & F1 & _).
    cbn [mbind cres_bind]. pose proof (lookup_lt_Some _ _ _ E) as Hk.
    replace (xs !! S k) with (delete k xs !! k) by (rewrite lookup_delete_list, decide_False by lia; done).
    destruct (IH h1 l1 (delete k xs) R1) as (h' & l' & -> & R' & F').
    { rewrite length_delete by eauto. lia. }
    do 2 eexists. split; [done|]. split.
    + rewrite delete_take_drop in R'.
      by rewrite take_app_length' in R' by (rewrite length_take; lia).
    + intros q Hq. rewrite F'; [by apply F1|]. rewrite list_fmap_delete.
      intros Hin. apply Hq. eapply elem_of_submseteq; [done|]. apply sublist_submseteq, sublist_delete.
  - do 2 eexists. split; [done|]. split; [|apply frame_refl].
    apply lookup_ge_None in E. by rewrite take_ge by lia.
Qed.

Lemma listRelease_rep h l xs :
  rep h l xs -> exists h', listRelease h l = Ret h'
    /\ (forall q, q ∈ fst <$> xs -> h' !! q = None) /\ frame (fst <$> xs) h h'.
Proof.
  intros R. unfold listRelease. rewrite (rep_len _ _ _ R), Nat2Z.id, (rep_head _ _ _ R).
  cut (forall n k h1, (n + k = length xs)%nat ->
    (forall i p v, xs !! i = Some (p, v) -> h1 !! p = if decide (i < k)%nat then None else h !! p) ->
    frame (fst <$> xs) h h1 ->
    exists h', release_loop n h1 (fst <$> xs !! k) = Ret h'
      /\ (forall q, q ∈ fst <$> xs -> h' !! q = None) /\ frame (fst <$> xs) h h').
  { intros H. apply (H (length xs) O h); [lia| |apply frame_refl]. intros. by rewrite decide_False by lia. }
  induction n as [|n IH]; intros k h1 Hn H1 F1; cbn [release_loop].
  - eexists. split; [done|]. split; [|done].
    intros q ([q' w] & -> & [i Ei]%list_elem_of_lookup)%list_elem_of_fmap. cbn.
    rewrite (H1 _ _ _ Ei). pose proof (lookup_lt_Some _ _ _ Ei). by rewrite decide_True by lia.
  - destruct (lookup_lt_is_Some_2 xs k ltac:(lia)) as [[p v] Ek].
    rewrite Ek. cbn [fmap option_fmap option_map fst of_ptr mbind cres_bind]. unfold load.
    rewrite (H1 _ _ _ Ek), decide_False by lia. rewrite (rep_nodes _ _ _ R _ _ _ Ek).
    cbn [of_ptr mbind cres_bind next]. apply IH; [lia| |].
    + intros i q w Ei. destruct (decide (i = k)) as [->|Hi].
      * rewrite Ek in Ei. injection Ei as <- <-. by rewrite lookup_delete_eq, decide_True by lia.
      * rewrite lookup_delete_ne by (by apply (rep_ne _ _ _ _ _ _ _ _ _ R Ek Ei)).
        rewrite (H1 _ _ _ Ei). by dsplit.
    + intros q Hq. rewrite lookup_delete_ne by (intros <-; apply Hq; by eapply elem_addr). by apply F1.
Qed.

(** The first position whose value matches. *)
Lemma listSearchKey_rep eqb h l xs key :
  rep h l xs ->
  let m := match match_ l with Some m => λ v, m v key | None => eqb key end in
  exists r, listSearchKey eqb h l key = Ret r /\
    match r with
    | None => Forall (λ '(_, v), m v = false) xs
    | Some p => exists k v, xs !! k = Some (p, v) /\ m v = true
                  /\ Forall (λ '(_, v), m v = false) (take k xs)
    end.
Proof.
  intros R m. unfold listSearchKey, listGetIterator. cbn [Z.eqb AL_START_HEAD].
  rewrite (rep_len _ _ _ R), Nat2Z.id, (rep_head _ _ _ R).
  cut (forall n k, (length xs < n + k)%nat -> Forall (λ '(_, v), m v = false) (take k xs) ->
    exists r, search_loop n eqb h l (mkIter (fst <$> xs !! k) AL_START_HEAD) key = Ret r /\
    match r with
    | None => Forall (λ '(_, v), m v = false) xs
    | Some p => exists k v, xs !! k = Some (p, v) /\ m v = true
                  /\ Forall (λ '(_, v), m v = false) (take k xs)
    end).
  { intros H. apply H; [lia|constructor]. }
  induction n as [|n IH]; intros k Hn Hk; cbn [search_loop].
  { eexists. split; [done|]. by rewrite take_ge in Hk by lia. }
  rewrite (listNext_head h l xs) by done.
  destruct (xs !! k) as [[p v]|] eqn:E; cbn [fmap option_fmap option_map fst mbind cres_bind].
  - unfold load. rewrite (rep_nodes _ _ _ R _ _ _ E). cbn [of_ptr mbind cres_bind value].
    replace (match match_ l with Some m => m v key | None => eqb key v end) with (m v)
      by (unfold m; by destruct (match_ l)).
    destruct (m v) eqn:Em.
    { eexists. split; [done|]. by exists k, v. }
    apply IH; [lia|].
    rewrite (take_S_r _ _ _ E). apply Forall_app. by repeat constructor.
  - eexists. split; [done|]. apply lookup_ge_None in E. by rewrite take_ge in Hk by lia.
Qed.

(** ** Rotation and duplication *)

(** The heap holds [f i v] at the address of every position [i]. *)
Definition holds (h : heap) (xs : list (ptr * A)) (f : nat -> A -> listNode) : Prop :=
  forall i p v, xs !! i = Some (p, v) -> h !! p = Some (f i v).

Lemma store_holds h xs f k p v g :
  NoDup (fst <$> xs) -> holds h xs f -> xs !! k = Some (p, v) ->
  exists h', store h (Some p) g = Ret h'
    /\ holds h' xs (λ i w, if decide (i = k) then g (f i w) else f i w)
    /\ frame (fst <$> xs) h h'.
Proof.
  intros Hnd H E. cbn. rewrite (H _ _ _ E). cbn. eexists. split; [done|]. split.
  - intros i q w Ei. destruct (decide (i = k)) as [->|Hi].
    + rewrite E in Ei. injection Ei as <- <-. by rewrite lookup_insert_eq.
    + rewrite lookup_insert_ne; [by apply H|]. intros <-. apply Hi.
      apply (NoDup_lookup (fst <$> xs) i k p Hnd); eauto using fst_lookup.
  - apply frame_insert. by eapply elem_addr.
Qed.

Lemma listRotate_rep h l xs t tv :
  rep h l (xs ++ [(t, tv)]) ->
  implements (listRotate h l) h (fst <$> (xs ++ [(t, tv)])) ((t, tv) :: xs).
Proof.
  intros R. unfold listRotate. rewrite (rep_len _ _ _ R), length_app. cbn [length].
  destruct (decide (xs = [])) as [->|Hne].
  { cbn. do 2 eexists. split; [done|]. split; [done|apply frame_refl]. }
  assert (0 < length xs)%nat as Hn by (destruct xs; [done|cbn; lia]).
  rewrite (proj2 (Z.leb_gt _ _)) by lia.
  destruct (lookup_lt_is_Some_2 xs 0 Hn) as [[p pv] E0].
  destruct (lookup_lt_is_Some_2 xs (length xs - 1) ltac:(lia)) as [[u uv] Eu].
  set (ws := xs ++ [(t, tv)]) in *.
  assert (ws !! length xs = Some (t, tv)) as Wt by (unfold ws; by rewrite list_lookup_middle).
  assert (ws !! 0%nat = Some (p, pv)) as W0 by (unfold ws; by rewrite lookup_app_l by lia).
  assert (ws !! (length xs - 1)%nat = Some (u, uv)) as Wu by (unfold ws; by rewrite lookup_app_l by lia).
  assert (prev_of ws (length xs) = Some u) as Hpu.
  { destruct (length xs) as [|n]; [lia|]. cbn. replace (S n - 1)%nat with n in Wu by lia. by rewrite Wu. }
  rewrite (rep_tail _ _ _ R). unfold ws at 1. rewrite last_snoc. cbn [fmap option_fmap option_map fst of_ptr mbind cres_bind].
  unfold load. rewrite (rep_nodes _ _ _ R _ _ _ Wt). cbn [of_ptr mbind cres_bind prev tail set_tail head].
  rewrite Hpu, (rep_head _ _ _ R), W0. cbn [fmap option_fmap option_map fst].
  pose proof (rep_nodup _ _ _ R) as Hnd.
  destruct (store_holds h ws _ _ _ _ (set_next None) Hnd (rep_nodes _ _ _ R) Wu) as (h1 & -> & H1 & F1).
  cbn [mbind cres_bind].
  destruct (store_holds h1 ws _ _ _ _ (set_prev (Some t)) Hnd H1 W0) as (h2 & -> & H2 & F2).
  cbn [mbind cres_bind].
  destruct (store_holds h2 ws _ _ _ _ (set_prev None) Hnd H2 Wt) as (h3 & -> & H3 & F3).
  cbn [mbind cres_bind].
  destruct (store_holds h3 ws _ _ _ _ (set_next (Some p)) Hnd H3 Wt) as (h4 & -> & H4 & F4).
  cbn [mbind cres_bind]. do 2 eexists. split; [done|].
  split; [|eauto using frame_trans]. clear F1 F2 F3 F4 H1 H2 H3. split.
  - intros i q w Ei. destruct i as [|i].
    + injection Ei as <- <-. rewrite (H4 _ _ _ Wt). dsplit. clear - E0. destruct xs as [|y ys]; [done|]. by injection E0 as ->.
    + pose proof (lookup_lt_Some _ _ _ Ei) as Hi. cbn in Hi. change (xs !! i = Some (q, w)) in Ei.
      assert (ws !! i = Some (q, w)) as Wi by (unfold ws; by rewrite lookup_app_l by lia).
      rewrite (H4 _ _ _ Wi). unfold set_prev, set_next, prev_of, next_of.
      assert (fst <$> ((t, tv) :: xs) !! S (S i)
              = if decide (i = length xs - 1)%nat then None else fst <$> ws !! S i) as ->.
      { change (((t, tv) :: xs) !! S (S i)) with (xs !! S i). dsplit.
        - by rewrite lookup_ge_None_2 by lia.
        - unfold ws. by rewrite lookup_app_l by lia. }
      destruct i as [|i]; dsplit; cbn [prev next value]; try done.
      all: change (((t, tv) :: xs) !! S i) with (xs !! i).
      all: unfold ws; by rewrite lookup_app_l by lia.
  - unfold ws in Hnd. rewrite fmap_app in Hnd. cbn in Hnd. by rewrite Permutation_app_comm in Hnd.
  - done.
  - cbn [tail set_head set_tail]. rewrite last_cons, last_lookup. replace (pred (length xs)) with (length xs - 1)%nat by lia. by rewrite Eu.
  - cbn [len set_head set_tail length]. rewrite (rep_len _ _ _ R). unfold ws. rewrite length_app. cbn. lia.
Qed.

Lemma rep_frame h h' l xs ps :
  rep h l xs -> frame ps h h' -> (forall q, q ∈ fst <$> xs -> q ∉ ps) -> rep h' l xs.
Proof.
  intros R F D. split; try apply R. intros i p v E. rewrite F; [by apply R|].
  apply D. by eapply elem_addr.
Qed.

Lemma dup_loop_rep fuel h orig xs copy ys ps k (d : A -> A) :
  rep h orig xs -> rep h copy ys -> (forall q, q ∈ fst <$> xs -> q ∉ fst <$> ys) ->
  NoDup ps -> (forall q, q ∈ ps -> h !! q = None) -> length ps = (length xs - k)%nat ->
  (length xs - k < fuel)%nat ->
  Forall (λ '(_, v), match dup copy with Some g => g v | None => Some v end = Some (d v)) xs ->
  exists h' copy', dup_loop fuel h copy (mkIter (fst <$> xs !! k) AL_START_HEAD) ps = Ret (Some (h', copy'))
    /\ rep h' orig xs /\ rep h' copy' (ys ++ zip ps (d ∘ snd <$> drop k xs)).
Proof.
  revert h copy ys ps k. induction fuel as [|fuel IH]; intros h copy ys ps k R C D Hnd Hfr Hps Hf Hd; [lia|].
  cbn [dup_loop]. rewrite (listNext_head h orig xs) by done.
  destruct (xs !! k) as [[p v]|] eqn:E; cbn [fmap option_fmap option_map fst mbind cres_bind].
  2: { do 2 eexists. split; [done|]. split; [done|]. apply lookup_ge_None in E.
       destruct ps; [|cbn in Hps; lia]. by rewrite app_nil_r. }
  pose proof (lookup_lt_Some _ _ _ E) as Hk.
  destruct ps as [|q ps]; [cbn in Hps; lia|]. cbn in Hps.
  unfold load. rewrite (rep_nodes _ _ _ R _ _ _ E). cbn [of_ptr mbind cres_bind value].
  assert (match dup copy with Some g => g v | None => Some v end = Some (d v)) as ->.
  { rewrite Forall_forall in Hd. apply (Hd (p, v)). by eapply list_elem_of_lookup_2. }
  change (of_ptr ((q :: ps) !! 0%nat)) with (Ret q). change (drop 1 (q :: ps)) with ps.
  cbn [mbind cres_bind].
  assert (h !! q = None) as Hq by (apply Hfr; left).
  pose proof (rep_fresh _ _ _ _ R Hq) as Hqx.
  destruct (listAddNodeTail_rep h copy ys q (d v) C Hq) as (h1 & c1 & Eadd & C1 & F1).
  rewrite Eadd. cbn [mbind cres_bind].
  assert (dup c1 = dup copy) as Hdup.
  { clear -Eadd. unfold listAddNodeTail in Eadd. destruct (len copy =? 0).
    - by injection Eadd as <- <-.
    - apply cres_bind_ret in Eadd as (h' & _ & [= <- <-]). done. }
  apply NoDup_cons in Hnd as [Hqp Hnd].
  destruct (IH h1 c1 (ys ++ [(q, d v)]) ps (S k)) as (h2 & c2 & -> & R2 & C2); try done; try lia.
  - eapply rep_frame; [done..|]. intros q' Hq'. apply not_elem_of_cons. split; [by intros ->|by apply D].
  - intros q' Hq'. rewrite fmap_app, not_elem_of_app. cbn. rewrite list_elem_of_singleton.
    split; [by apply D|]. by intros ->.
  - intros q' Hq'. rewrite F1; [by apply Hfr; right|]. apply not_elem_of_cons.
    split; [by intros ->|]. intros Hy. apply (rep_fresh _ _ _ q' C); [|done]. apply Hfr. by right.
  - by rewrite Hdup.
  - do 2 eexists. split; [done|]. split; [done|].
    rewrite (drop_S _ _ _ E). cbn. by rewrite <- app_assoc in C2.
Qed.

Lemma listDup_rep h orig xs ps (d : A -> A) :
  rep h orig xs -> NoDup ps -> (forall q, q ∈ ps -> h !! q = None) -> length ps = length xs ->
  Forall (λ '(_, v), match dup orig with Some g => g v | None => Some v end = Some (d v)) xs ->
  exists h' copy', listDup h orig ps = Ret (Some (h', copy'))
    /\ rep h' orig xs /\ rep h' copy' (zip ps (d ∘ snd <$> xs)).
Proof.
  intros R Hnd Hfr Hps Hd. unfold listDup, listGetIterator. cbn [Z.eqb AL_START_HEAD].
  rewrite (rep_len _ _ _ R), Nat2Z.id, (rep_head _ _ _ R).
  apply (dup_loop_rep _ h orig xs _ [] ps 0 d); try done; try lia.
  - split; try done. constructor.
  - intros. set_solver.
Qed.

(** ** Client view

    The operations a client composes, the positions being resolved with
    [listIndex] as the clients of the source do. *)
Inductive lop :=
  | AddHead (v : A)
  | AddTail (v : A)
  | InsertAt (index : Z) (v : A) (after : bool)
  | DelAt (index : Z)
  | Rotate.

(** On sequences; a position out of range leaves the sequence alone. *)
Definition seq_op (o : lop) (vs : list A) : list A :=
  match o with
  | AddHead v => v :: vs
  | AddTail v => vs ++ [v]
  | InsertAt i v after =>
      match index_pos vs i with
      | Some k => insert_at (if after then S k else k) v vs
      | None => vs
      end
  | DelAt i => match index_pos vs i with Some k => delete k vs | None => vs end
  | Rotate => match last vs with Some v => v :: take (length vs - 1) vs | None => vs end
  end.

(** In memory; [p] is a fresh address. *)
Definition mem_op (o : lop) (p : ptr) (h : heap) (l : adlist) : cres (heap * adlist) :=
  match o with
  | AddHead v => listAddNodeHead h l p v
  | AddTail v => listAddNodeTail h l p v
  | InsertAt i v after =>
      n ← listIndex h l i;
      match n with Some q => listInsertNode h l q p v after | None => mret (h, l) end
  | DelAt i =>
      n ← listIndex h l i;
      match n with Some q => '(h, l, _) ← listDelNode h l q; mret (h, l) | None => mret (h, l) end
  | Rotate => listRotate h l
  end.

Fixpoint mem_ops (os : list (lop * ptr)) (h : heap) (l : adlist) : cres (heap * adlist) :=
  match os with
  | [] => mret (h, l)
  | (o, p) :: os => '(h, l) ← mem_op o p h l; mem_ops os h l
  end.

Fixpoint seq_ops (os : list (lop * ptr)) (vs : list A) : list A :=
  match os with [] => vs | (o, _) :: os => seq_ops os (seq_op o vs) end.

Lemma index_pos_lt {B} (ys : list B) i k : index_pos ys i = Some k -> (k < length ys)%nat.
Proof.
  unfold index_pos. repeat case_match; intros [= <-]; lia.
Qed.

Lemma index_pos_fmap {B C} (f : B -> C) ys i : index_pos (f <$> ys) i = index_pos ys i.
Proof. unfold index_pos. by rewrite length_fmap. Qed.

Lemma insert_at_fmap {B C} (f : B -> C) k x ys : f <$> insert_at k x ys = insert_at k (f x) (f <$> ys).
Proof. unfold insert_at. by rewrite fmap_app, fmap_cons, fmap_take, fmap_drop. Qed.

Lemma implements_weaken r h ps ps' xs :
  implements r h ps xs -> ps ⊆ ps' -> implements r h ps' xs.
Proof. intros (h' & l' & ? & ? & F) Hs. exists h', l'. split; [done|]. split; [done|]. intros q Hq. apply F. set_solver. Qed.

Lemma mem_op_rep o p h l xs :
  rep h l xs -> h !! p = None ->
  exists xs', implements (mem_op o p h l) h (p :: (fst <$> xs)) xs'
    /\ snd <$> xs' = seq_op o (snd <$> xs) /\ (forall q, q ∈ fst <$> xs' -> q ∈ p :: (fst <$> xs)).
Proof.
  intros R Hp. destruct o as [v|v|i v after|i|]; cbn [mem_op seq_op].
  - eexists. split; [by apply listAddNodeHead_rep|]. done.
  - eexists. split; [by apply listAddNodeTail_rep|]. rewrite !fmap_app. split; [done|]. set_solver.
  - rewrite (listIndex_rep h l xs), index_pos_fmap by done. unfold list_index.
    destruct (index_pos xs i) as [k|] eqn:Ei; cbn [mbind option_bind cres_bind].
    + destruct (lookup_lt_is_Some_2 xs k (index_pos_lt _ _ _ Ei)) as [[q w] Ek].
      rewrite Ek. cbn. eexists. split; [by eapply listInsertNode_rep|].
      rewrite insert_at_fmap. split; [done|]. intros q'. by rewrite insert_at_perm.
    + exists xs. split; [|split; [done|set_solver]]. do 2 eexists. split; [done|]. split; [done|apply frame_refl].
  - rewrite (listIndex_rep h l xs), index_pos_fmap by done. unfold list_index.
    destruct (index_pos xs i) as [k|] eqn:Ei; cbn [mbind option_bind cres_bind].
    + destruct (lookup_lt_is_Some_2 xs k (index_pos_lt _ _ _ Ei)) as [[q w] Ek].
      rewrite Ek. cbn. destruct (listDelNode_rep _ _ _ _ _ _ R Ek) as (h' & l' & -> & R' & F & _).
      exists (delete k xs). cbn. split; [|split; [by rewrite list_fmap_delete|]].
      * do 2 eexists. split; [done|]. split; [done|]. intros q' Hq. apply F. set_solver.
      * intros q' Hq. right. eapply elem_of_submseteq; [done|].
        rewrite list_fmap_delete. apply sublist_submseteq, sublist_delete.
    + exists xs. split; [|split; [done|set_solver]]. do 2 eexists. split; [done|]. split; [done|apply frame_refl].
  - destruct xs as [|x xs' _] using rev_ind.
    + exists []. split; [|split; [done|set_solver]]. unfold listRotate. rewrite (rep_len _ _ _ R). cbn.
      do 2 eexists. split; [done|]. split; [done|apply frame_refl].
    + destruct x as [t tv]. exists ((t, tv) :: xs'). split; [|split].
      * eapply implements_weaken; [by apply listRotate_rep|]. intros q Hq. by right.
      * rewrite fmap_app. cbn. rewrite last_snoc, length_app. cbn.
        by rewrite take_app_length' by lia.
      * intros q. rewrite fmap_app. cbn. set_solver.
Qed.

Lemma mem_ops_rep os h l xs :
  rep h l xs -> NoDup (snd <$> os) -> (forall q, q ∈ snd <$> os -> h !! q = None) ->
  exists h' l' xs', mem_ops os h l = Ret (h', l') /\ rep h' l' xs'
    /\ snd <$> xs' = seq_ops os (snd <$> xs).
Proof.
  revert h l xs. induction os as [|[o p] os IH]; intros h l xs R Hnd Hfr; cbn [mem_ops seq_ops].
  { by exists h, l, xs. }
  cbn in Hnd. apply NoDup_cons in Hnd as [Hp Hnd].
  assert (h !! p = None) as Hpn by (apply Hfr; left).
  destruct (mem_op_rep o p h l xs R Hpn) as (xs1 & (h1 & l1 & -> & R1 & F1) & <- & Hin).
  cbn [mbind cres_bind]. apply IH; [done..|].
  intros q Hq. rewrite F1; [apply Hfr; by right|]. apply not_elem_of_cons.
  split; [by intros ->|]. intros Hx. apply (rep_fresh _ _ _ q R); [|done]. apply Hfr. by right.
Qed.

(** ** Properties *)

(** [C22] The pointer implementation of adlist.c refines sequences: any program of
    head and tail insertions, insertions before or after an indexed node,
    deletions of an indexed node and rotations, run on a list created by
    [listCreate], never touches an invalid pointer and ends in a well-linked
    list (both directions, head, tail and length) that holds exactly the values
    the same program computes on sequences. *)
Theorem adlist_refines_sequences (os : list (lop * ptr)) :
  NoDup (snd <$> os) ->
  exists h l xs, mem_ops os ∅ listCreate = Ret (h, l) /\ rep h l xs
    /\ snd <$> xs = seq_ops os [].
Proof.
  intros Hnd. destruct (mem_ops_rep os ∅ listCreate [] rep_empty Hnd) as (h & l & xs & H).
  - intros q _. apply lookup_empty.
  - eauto.
Qed.

(** [listIndex] returns the node at the index counted from the head for an
    index >= 0, the node counted from the tail (-1 is the last) for a negative
    one, and NULL out of range, for every well-formed list. *)
Theorem listIndex_correct h l xs index :
  rep h l xs ->
  listIndex h l index
  = Ret (fst <$> (let n := Z.of_nat (length xs) in
                  if decide (0 <= index < n) then xs !! Z.to_nat index
                  else if decide (- n <= index < 0) then xs !! Z.to_nat (n + index)
                  else None)).
Proof.
  intros R. rewrite (listIndex_rep h l xs index R). do 2 f_equal.
  unfold list_index, index_pos. cbv zeta.
  destruct (Z.ltb_spec index 0); [destruct (Z.leb_spec (- index) (Z.of_nat (length xs)))
    |destruct (Z.ltb_spec index (Z.of_nat (length xs)))]; dsplit; done.
Qed.

(** Deleting every node an iterator returns, from a given node to the end of
    the list (the loop of [logTruncate]), terminates, touches valid nodes only
    and leaves exactly the nodes before the start. *)
Theorem listDelFrom_truncates h l xs k :
  rep h l xs ->
  exists h' l', listDelFrom (S (length xs)) h l (mkIter (fst <$> xs !! k) AL_START_HEAD) = Ret (h', l')
    /\ rep h' l' (take k xs).
Proof.
  intros R. destruct (listDelFrom_rep (S (length xs)) h l xs k R ltac:(lia)) as (h' & l' & E & R' & _).
  eauto.
Qed.

End Adlist.

Arguments listNode : clear implicits.
Arguments adlist : clear implicits.

(** Four operations on a list of numbers, as a concrete instance. *)
Definition ops_example : list (lop * ptr) :=
  [(AddTail 10, 1%positive); (AddHead 20, 2%positive); (InsertAt (-1) 30 false, 3%positive);
   (DelAt 0, 4%positive); (Rotate, 5%positive); (AddTail 40, 6%positive)].

Lemma adlist_refines_sequences_witness :
  exists h l xs, mem_ops ops_example ∅ listCreate = Ret (h, l) /\ rep h l xs
    /\ snd <$> xs = [10; 30; 40].
Proof.
  exact (adlist_refines_sequences ops_example ltac:(vm_compute; repeat constructor; set_solver)).
Defined.

Lemma listIndex_correct_witness :
  exists h l, rep h l [(1%positive, 7)] /\ listIndex h l (-1) = Ret (Some 1%positive).
Proof.
  exists {[1%positive := mkNode None None 7]}, (mkList (Some 1%positive) (Some 1%positive) 1 None None).
  assert (rep {[1%positive := mkNode None None 7]}
    (mkList (Some 1%positive) (Some 1%positive) 1 None None) [(1%positive, 7)]) as R.
  { split; try done.
    - intros i p v [-> [= <- <-]]%list_lookup_singleton_Some. by rewrite lookup_singleton_eq.
    - apply NoDup_singleton. }
  split; [exact R|]. exact (listIndex_correct _ _ _ (-1) R).
Defined.

Lemma listDelFrom_truncates_witness :
  exists h l h' l', rep h l [(1%positive, 7)]
    /\ listDelFrom 2 h l (mkIter (Some 1%positive) AL_START_HEAD) = Ret (h', l') /\ rep h' l' [].
Proof.
  assert (rep {[1%positive := mkNode None None 7]}
    (mkList (Some 1%positive) (Some 1%positive) 1 None None) [(1%positive, 7)]) as R.
  { split; try done.
    - intros i p v [-> [= <- <-]]%list_lookup_singleton_Some. by rewrite lookup_singleton_eq.
    - apply NoDup_singleton. }
  destruct (listDelFrom_truncates _ _ _ O R) as (h' & l' & E & R').
  exists {[1%positive := mkNode None None 7]}, (mkList (Some 1%positive) (Some 1%positive) 1 None None), h', l'.
  split; [exact R|]. split; [exact E|exact R'].
Defined.
