(* ===== verification/Dict.v ===== *)
(** * dict.c: hash tables with incremental rehashing

    The two tables of a dict, the operations that add, find, replace and delete, the
    incremental rehashing every one of them may advance, and the iterators, from
    src/src/dict.c.  A chain of entries is a list, in the order of its links.  The hash
    function is a parameter; the keys are compared by equality, as the sds keys of the
    server are.  The main facts: every operation keeps the tables well formed, and the
    operations behave like those of a finite map, whatever the state of a rehashing. *)

From Stdlib Require Import ZArith Lia.
From stdpp Require Import base tactics numbers list gmap.
From S2P Require Import Prelude.

Local Open Scope Z_scope.

Definition DICT_OK : Z := 0.
Definition DICT_ERR : Z := 1.
Definition DICT_HT_INITIAL_SIZE : Z := 4.
Definition LONG_MAX : Z := 2 ^ 63 - 1.
Definition dict_force_resize_ratio : Z := 5.

Section Dict.
Context {K V : Type} `{!EqDecision K}.
(** [dictHashKey] *)
Context (hash : K -> Z).

Abbreviation chain := (list (K * V)).

Record dictht := mkHt {
  table : list chain;
  size : Z;
  sizemask : Z;
  used : Z;
}.

Record dict := mkDict {
  ht0 : dictht;
  ht1 : dictht;
  rehashidx : Z;
  iterators : Z;
}.

Definition dictIsRehashing (d : dict) : bool := negb (rehashidx d =? -1).
Definition dictSize (d : dict) : Z := used (ht0 d) + used (ht1 d).
Definition dictSlots (d : dict) : Z := size (ht0 d) + size (ht1 d).

(** ** Creation and size *)

Definition _dictReset : dictht := mkHt [] 0 0 0.
Definition dictCreate : dict := mkDict _dictReset _dictReset (-1) 0.

(** The loop that doubles [i]; 61 rounds reach 2^63. *)
Fixpoint next_power (fuel : nat) (i size : Z) : Z :=
  if size <=? i then i
  else match fuel with O => i | S fuel => next_power fuel (i * 2) size end.

Definition _dictNextPower (size : Z) : Z :=
  if LONG_MAX <=? size then LONG_MAX else next_power 61 DICT_HT_INITIAL_SIZE size.

Definition dictExpand (d : dict) (size : Z) : dict * Z :=
  let realsize := _dictNextPower size in
  if dictIsRehashing d || (size <? used (ht0 d)) then (d, DICT_ERR) else
  let n := mkHt (replicate (Z.to_nat realsize) []) realsize (realsize - 1) 0 in
  if bool_decide (table (ht0 d) = []) then (mkDict n (ht1 d) (rehashidx d) (iterators d), DICT_OK)
  else (mkDict (ht0 d) n 0 (iterators d), DICT_OK).

(** [can]: the global [dict_can_resize]. *)
Definition dictResize (can : bool) (d : dict) : dict * Z :=
  if negb can || dictIsRehashing d then (d, DICT_ERR) else
  let minimal := wrap_s32 (used (ht0 d)) in
  let minimal := if minimal <? DICT_HT_INITIAL_SIZE then DICT_HT_INITIAL_SIZE else minimal in
  dictExpand d minimal.

Definition _dictExpandIfNeeded (can : bool) (d : dict) : dict * Z :=
  if dictIsRehashing d then (d, DICT_OK) else
  if size (ht0 d) =? 0 then dictExpand d DICT_HT_INITIAL_SIZE else
  if (size (ht0 d) <=? used (ht0 d))
     && (can || (dict_force_resize_ratio <? used (ht0 d) / size (ht0 d)))
  then dictExpand d (used (ht0 d) * 2)
  else (d, DICT_OK).

(** ** Rehashing *)

(** [while(table[rehashidx] == NULL) rehashidx++], on the chains from [rehashidx] on. *)
Fixpoint skip_empty (cs : list chain) (i : Z) : cres Z :=
  match cs with
  | [] => Undef
  | [] :: cs => skip_empty cs (i + 1)
  | _ :: _ => mret i
  end.

(** The index of a key in a table, and the chain there. *)
Definition slot (ht : dictht) (k : K) : nat := Z.to_nat (Z.land (hash k) (sizemask ht)).

Definition chain_at (ht : dictht) (k : K) : cres chain := of_ptr (table ht !! slot ht k).

(** Put an entry in front of the chain [h]. *)
Definition ht_push (ht : dictht) (h : nat) (k : K) (v : V) : cres dictht :=
  c ← of_ptr (table ht !! h);
  mret (mkHt (<[h := (k, v) :: c]> (table ht)) (size ht) (sizemask ht) (used ht + 1)).

(** Move the entries of a chain, one by one. *)
Fixpoint move_chain (c : chain) (used0 : Z) (t1 : dictht) : cres (Z * dictht) :=
  match c with
  | [] => mret (used0, t1)
  | (k, v) :: c => t1 ← ht_push t1 (slot t1 k) k v; move_chain c (used0 - 1) t1
  end.

Fixpoint rehash_loop (n : nat) (d : dict) : cres (dict * Z) :=
  match n with
  | O => mret (d, 1)
  | S n =>
      if used (ht0 d) =? 0 then mret (mkDict (ht1 d) _dictReset (-1) (iterators d), 0) else
      _ ← prez_assert (rehashidx d <? size (ht0 d));
      i ← skip_empty (drop (Z.to_nat (rehashidx d)) (table (ht0 d))) (rehashidx d);
      c ← of_ptr (table (ht0 d) !! Z.to_nat i);
      '(used0, t1) ← move_chain c (used (ht0 d)) (ht1 d);
      let t0 := mkHt (<[Z.to_nat i := []]> (table (ht0 d))) (size (ht0 d)) (sizemask (ht0 d)) used0 in
      rehash_loop n (mkDict t0 t1 (i + 1) (iterators d))
  end.

Definition dictRehash (d : dict) (n : nat) : cres (dict * Z) :=
  if dictIsRehashing d then rehash_loop n d else mret (d, 0).

Definition _dictRehashStep (d : dict) : cres dict :=
  if iterators d =? 0 then '(d, _) ← dictRehash d 1; mret d else mret d.

(** The step most operations begin with. *)
Definition maybe_step (d : dict) : cres dict :=
  if dictIsRehashing d then _dictRehashStep d else mret d.

(** ** Lookup and update *)

Fixpoint chain_find (c : chain) (k : K) : option V :=
  match c with
  | [] => None
  | (k', v) :: c => if decide (k = k') then Some v else chain_find c k
  end.

Fixpoint chain_del (c : chain) (k : K) : option chain :=
  match c with
  | [] => None
  | (k', v) :: c => if decide (k = k') then Some c else (λ c', (k', v) :: c') <$> chain_del c k
  end.

Fixpoint chain_set (c : chain) (k : K) (v : V) : chain :=
  match c with
  | [] => []
  | (k', v') :: c => if decide (k = k') then (k', v) :: c else (k', v') :: chain_set c k v
  end.

(** The loop over the one or two tables: the value of the key, if there is one. *)
Definition tables_find (d : dict) (k : K) : cres (option V) :=
  c ← chain_at (ht0 d) k;
  match chain_find c k with
  | Some v => mret (Some v)
  | None =>
      if dictIsRehashing d then c ← chain_at (ht1 d) k; mret (chain_find c k)
      else mret None
  end.

Definition dictFind (d : dict) (k : K) : cres (dict * option V) :=
  if size (ht0 d) =? 0 then mret (d, None) else
  d ← maybe_step d;
  r ← tables_find d k;
  mret (d, r).

Definition dictFetchValue : dict -> K -> cres (dict * option V) := dictFind.

(** [_dictKeyIndex]: the table is expanded first; the index is an [int], in the last table
    that was searched, and -1 when the key exists. *)
Definition _dictKeyIndex (can : bool) (d : dict) (k : K) : cres (dict * Z) :=
  let '(d, r) := _dictExpandIfNeeded can d in
  if r =? DICT_ERR then mret (d, -1) else
  f ← tables_find d k;
  match f with
  | Some _ => mret (d, -1)
  | None =>
      let ht := if dictIsRehashing d then ht1 d else ht0 d in
      mret (d, wrap_s32 (Z.land (hash k) (sizemask ht)))
  end.

(** Link a new entry in front of its chain, in the new table during a rehashing; [false] is
    the NULL of a key that exists.  The value is the one the caller stores in the entry. *)
Definition dictAddRaw (can : bool) (d : dict) (k : K) (v : V) : cres (dict * bool) :=
  d ← maybe_step d;
  '(d, index) ← _dictKeyIndex can d k;
  if index =? -1 then mret (d, false) else
  _ ← require (0 <=? index);
  if dictIsRehashing d then
    t1 ← ht_push (ht1 d) (Z.to_nat index) k v;
    mret (mkDict (ht0 d) t1 (rehashidx d) (iterators d), true)
  else
    t0 ← ht_push (ht0 d) (Z.to_nat index) k v;
    mret (mkDict t0 (ht1 d) (rehashidx d) (iterators d), true).

Definition dictAdd (can : bool) (d : dict) (k : K) (v : V) : cres (dict * Z) :=
  '(d, entry) ← dictAddRaw can d k v;
  mret (d, if (entry : bool) then DICT_OK else DICT_ERR).

(** Overwrite the value of the entry that [dictFind] returned. *)
Definition ht_set (ht : dictht) (k : K) (v : V) : cres dictht :=
  c ← chain_at ht k;
  mret (mkHt (<[slot ht k := chain_set c k v]> (table ht)) (size ht) (sizemask ht) (used ht)).

Definition entry_set (d : dict) (k : K) (v : V) : cres dict :=
  c ← chain_at (ht0 d) k;
  match chain_find c k with
  | Some _ => t0 ← ht_set (ht0 d) k v; mret (mkDict t0 (ht1 d) (rehashidx d) (iterators d))
  | None => t1 ← ht_set (ht1 d) k v; mret (mkDict (ht0 d) t1 (rehashidx d) (iterators d))
  end.

(** 1: the key was added, 0: its value was replaced. *)
Definition dictReplace (can : bool) (d : dict) (k : K) (v : V) : cres (dict * Z) :=
  '(d, r) ← dictAdd can d k v;
  if r =? DICT_OK then mret (d, 1) else
  '(d, f) ← dictFind d k;
  _ ← of_ptr f;
  d ← entry_set d k v;
  mret (d, 0).

Definition ht_del (ht : dictht) (k : K) : cres (option dictht) :=
  c ← chain_at ht k;
  match chain_del c k with
  | Some c' => mret (Some (mkHt (<[slot ht k := c']> (table ht)) (size ht) (sizemask ht) (used ht - 1)))
  | None => mret None
  end.

Definition dictGenericDelete (d : dict) (k : K) : cres (dict * Z) :=
  if size (ht0 d) =? 0 then mret (d, DICT_ERR) else
  d ← maybe_step d;
  r ← ht_del (ht0 d) k;
  match r with
  | Some t0 => mret (mkDict t0 (ht1 d) (rehashidx d) (iterators d), DICT_OK)
  | None =>
      if dictIsRehashing d then
        r ← ht_del (ht1 d) k;
        match r with
        | Some t1 => mret (mkDict (ht0 d) t1 (rehashidx d) (iterators d), DICT_OK)
        | None => mret (d, DICT_ERR)
        end
      else mret (d, DICT_ERR)
  end.

Definition dictDelete : dict -> K -> cres (dict * Z) := dictGenericDelete.

(** The loop of [_dictClear], which ends early when [used] is 0: the entries it frees, in
    order. *)
Fixpoint clear_loop (cs : list chain) (used : Z) : chain :=
  match cs with
  | [] => []
  | c :: cs => if 0 <? used then c ++ clear_loop cs (used - Z.of_nat (length c)) else []
  end.

Definition _dictClear (ht : dictht) : dictht * chain := (_dictReset, clear_loop (table ht) (used ht)).

Definition dictEmpty (d : dict) : dict * chain :=
  let '(t0, f0) := _dictClear (ht0 d) in
  let '(t1, f1) := _dictClear (ht1 d) in
  (mkDict t0 t1 (-1) 0, f0 ++ f1).

(** The entries [dictRelease] frees. *)
Definition dictRelease (d : dict) : chain := (_dictClear (ht0 d)).2 ++ (_dictClear (ht1 d)).2.

(** ** Iterators *)

(** [it_chain]: the entries of the current chain from [nextEntry] on; [it_entry]: there is a
    current entry. *)
Record dictIterator := mkIt {
  it_table : Z;
  it_index : Z;
  it_safe : bool;
  it_entry : bool;
  it_next : chain;
}.

Definition dictGetIterator : dictIterator := mkIt 0 (-1) false false [].
Definition dictGetSafeIterator : dictIterator := mkIt 0 (-1) true false [].

Definition set_iterators (d : dict) (n : Z) : dict := mkDict (ht0 d) (ht1 d) (rehashidx d) n.

(** [&iter->d->ht[iter->table]] *)
Definition it_ht (d : dict) (tb : Z) : dictht := if tb =? 0 then ht0 d else ht1 d.

(** [iter->index++] and the test of the end of a table: the table and the index of the next
    chain, or [None] for the [break]. *)
Definition next_slot (d : dict) (tb ix : Z) : option (Z * Z) :=
  let index := ix + 1 in
  if wrap_s32 (size (it_ht d tb)) <=? index then
    if dictIsRehashing d && (tb =? 0) then Some (1, 0) else None
  else Some (tb, index).

(** [dictNext]; every round moves to a new chain or ends.  The result is the entry, [None] at
    the end. *)
Fixpoint next_loop (fuel : nat) (d : dict) (it : dictIterator)
    : cres (dict * dictIterator * option (K * V)) :=
  match fuel with
  | O => Undef
  | S fuel =>
      if it_entry it then
        match it_next it with
        | e :: c => mret (d, mkIt (it_table it) (it_index it) (it_safe it) true c, Some e)
        | [] => next_loop fuel d (mkIt (it_table it) (it_index it) (it_safe it) false [])
        end
      else
        let d := if (it_index it =? -1) && (it_table it =? 0) && it_safe it
                 then set_iterators d (iterators d + 1) else d in
        match next_slot d (it_table it) (it_index it) with
        | None => mret (d, mkIt (it_table it) (it_index it + 1) (it_safe it) false [], None)
        | Some (tb, ix) =>
            c ← of_ptr (table (it_ht d tb) !! Z.to_nat ix);
            match c with
            | e :: c => mret (d, mkIt tb ix (it_safe it) true c, Some e)
            | [] => next_loop fuel d (mkIt tb ix (it_safe it) false [])
            end
        end
  end.

Definition dictNext (d : dict) (it : dictIterator) : cres (dict * dictIterator * option (K * V)) :=
  next_loop (S (S (Z.to_nat (dictSlots d)))) d it.

Definition dictReleaseIterator (d : dict) (it : dictIterator) : dict :=
  if negb ((it_index it =? -1) && (it_table it =? 0)) && it_safe it
  then set_iterators d (iterators d - 1) else d.

(** ** Well-formed tables *)

Record ht_wf (ht : dictht) : Prop := {
  hw_size : size ht = Z.of_nat (length (table ht));
  hw_pow : ht = _dictReset \/ exists n, 0 <= n <= 30 /\ size ht = 2 ^ n /\ sizemask ht = size ht - 1;
  hw_used : used ht = Z.of_nat (length (concat (table ht)));
  hw_slot i c k v : table ht !! i = Some c -> (k, v) ∈ c -> slot ht k = i;
}.

(** All entries, in the order of an iteration. *)
Definition contents (d : dict) : chain := concat (table (ht0 d)) ++ concat (table (ht1 d)).

Record dict_wf (d : dict) : Prop := {
  dw_ht0 : ht_wf (ht0 d);
  dw_ht1 : ht_wf (ht1 d);
  dw_keys : NoDup (contents d).*1;
  dw_state : (rehashidx d = -1 /\ ht1 d = _dictReset)
    \/ (0 <= rehashidx d /\ 0 < size (ht0 d) /\ 0 < size (ht1 d)
        /\ forall i c, (i < Z.to_nat (rehashidx d))%nat -> table (ht0 d) !! i = Some c -> c = []);
}.

Lemma reset_wf : ht_wf _dictReset.
Proof. constructor; cbn; [done|by left|done|done]. Qed.

Lemma dictCreate_wf : dict_wf dictCreate /\ contents dictCreate = [].
Proof.
  split; [|done]. constructor; [apply reset_wf|apply reset_wf|constructor|by left].
Qed.

Lemma slot_bound ht k : ht_wf ht -> 0 < size ht -> (slot ht k < length (table ht))%nat.
Proof.
  intros [Hs [->|(n & Hn & Ep & Em)] _ _] Hz; [cbn in Hz; lia|].
  unfold slot. rewrite Em, Ep. replace (2 ^ n - 1) with (Z.ones n) by (rewrite Z.ones_equiv; lia).
  rewrite Z.land_ones by lia. pose proof (Z.mod_pos_bound (hash k) (2 ^ n) ltac:(lia)). lia.
Qed.

Lemma chain_at_ret ht k : ht_wf ht -> 0 < size ht ->
  exists c, table ht !! slot ht k = Some c /\ chain_at ht k = Ret c.
Proof.
  intros W Hz. destruct (lookup_lt_is_Some_2 _ _ (slot_bound ht k W Hz)) as [c E].
  exists c. unfold chain_at. by rewrite E.
Qed.

(** ** Chains *)

Lemma concat_perm (l l' : list chain) : l ≡ₚ l' -> concat l ≡ₚ concat l'.
Proof.
  induction 1 as [|x l l' _ IH|x y l|l l' l'' _ IH1 _ IH2]; cbn; [done|by rewrite IH| |by rewrite IH1].
  rewrite !app_assoc. f_equiv. apply Permutation_app_comm.
Qed.

Lemma concat_split (t : list chain) i c : t !! i = Some c -> concat t ≡ₚ c ++ concat (delete i t).
Proof. intros E. by rewrite (concat_perm _ _ (delete_Permutation t i c E)). Qed.

(** Replacing one chain. *)
Lemma concat_insert (t : list chain) i c c' : t !! i = Some c ->
  concat (<[i := c']> t) ≡ₚ c' ++ concat (delete i t).
Proof.
  intros E. assert (i < length t)%nat as Hi by (by eapply lookup_lt_Some).
  rewrite (concat_split (<[i := c']> t) i c') by (by apply list_lookup_insert_eq).
  by rewrite !delete_take_drop, take_insert_ge, drop_insert_lt by lia.
Qed.

Lemma elem_of_concat (t : list chain) e : e ∈ concat t <-> exists c, e ∈ c /\ c ∈ t.
Proof.
  induction t as [|c t IH]; cbn; [split; [by intros ?%elem_of_nil|by intros (c & _ & ?%elem_of_nil)]|].
  rewrite elem_of_app, IH. setoid_rewrite elem_of_cons. naive_solver.
Qed.

Lemma slot_of ht k v : ht_wf ht -> (k, v) ∈ concat (table ht) ->
  exists c, table ht !! slot ht k = Some c /\ (k, v) ∈ c.
Proof.
  intros W (c & Hc & Hin)%elem_of_concat.
  apply list_elem_of_lookup in Hin as [i Ei]. exists c. by rewrite (hw_slot ht W i c k v Ei Hc).
Qed.

Lemma chain_find_Some c k v : NoDup c.*1 -> chain_find c k = Some v <-> (k, v) ∈ c.
Proof.
  induction c as [|[k' v'] c IH]; cbn; intros Hnd; [by rewrite elem_of_nil|].
  apply NoDup_cons in Hnd as [Hk Hnd]. rewrite elem_of_cons. destruct (decide (k = k')) as [->|Hne].
  - split; [intros [= ->]; by left|]. intros [[= ->]|Hin]; [done|].
    exfalso. apply Hk. apply list_elem_of_fmap. by exists (k', v).
  - rewrite IH by done. split; [by right|]. by intros [[= -> _]|?].
Qed.

Lemma chain_find_None c k : chain_find c k = None <-> k ∉ c.*1.
Proof.
  induction c as [|[k' v'] c IH]; cbn; [split; [by intros _ ?%elem_of_nil|done]|].
  rewrite elem_of_cons. destruct (decide (k = k')) as [->|Hne]; [naive_solver|]. rewrite IH. naive_solver.
Qed.

Lemma chain_del_Some c k c' : chain_del c k = Some c' -> exists v, c ≡ₚ (k, v) :: c'.
Proof.
  revert c'. induction c as [|[k' v'] c IH]; cbn; [done|]. intros c'.
  destruct (decide (k = k')) as [->|Hne]; [intros [= ->]; by exists v'|].
  destruct (chain_del c k) as [c1|]; [|done]. intros [= <-]. destruct (IH c1 eq_refl) as [v E].
  exists v. rewrite E. apply perm_swap.
Qed.

Lemma chain_del_None c k : chain_del c k = None <-> k ∉ c.*1.
Proof.
  induction c as [|[k' v'] c IH]; cbn; [split; [by intros _ ?%elem_of_nil|done]|].
  rewrite elem_of_cons. destruct (decide (k = k')) as [->|Hne]; [naive_solver|].
  rewrite fmap_None, IH. naive_solver.
Qed.

Lemma chain_set_perm c k v v0 : (k, v0) ∈ c -> exists v1 c', c ≡ₚ (k, v1) :: c' /\ chain_set c k v ≡ₚ (k, v) :: c'.
Proof.
  induction c as [|[k' v'] c IH]; [by intros ?%elem_of_nil|]. intros Hin. cbn.
  destruct (decide (k = k')) as [->|Hne]; [by exists v', c|].
  apply elem_of_cons in Hin as [E|Hin]; [by injection E as -> _|]. destruct (IH Hin) as (v1 & c' & E & E').
  exists v1, ((k', v') :: c'). split; [rewrite E|rewrite E']; apply perm_swap.
Qed.

(** ** One table *)

(** A table with one chain replaced. *)
Lemma ht_replace_wf ht k c c' u :
  ht_wf ht -> table ht !! slot ht k = Some c ->
  (forall k' v', (k', v') ∈ c' -> (k', v') ∈ c \/ k' = k) ->
  u = used ht + Z.of_nat (length c') - Z.of_nat (length c) ->
  let ht' := mkHt (<[slot ht k := c']> (table ht)) (size ht) (sizemask ht) u in
  ht_wf ht' /\ exists r, concat (table ht) ≡ₚ c ++ r /\ concat (table ht') ≡ₚ c' ++ r.
Proof.
  intros [Hs Hp Hu Hsl] E Hin -> ht'.
  assert (concat (table ht) ≡ₚ c ++ concat (delete (slot ht k) (table ht))) as P1 by (by apply concat_split).
  assert (concat (table ht') ≡ₚ c' ++ concat (delete (slot ht k) (table ht))) as P2 by (by eapply concat_insert).
  split; [|by eexists]. constructor.
  - cbn. by rewrite length_insert.
  - right. destruct Hp as [->|Hp]; [done|exact Hp].
  - cbn [used ht']. rewrite Hu, (Permutation_length P1), (Permutation_length P2), !length_app. lia.
  - intros i b k' v'. cbn [table ht']. intros Ei Hb. change (slot ht' k') with (slot ht k').
    destruct (decide (i = slot ht k)) as [->|Hne].
    + rewrite list_lookup_insert_eq in Ei by (by eapply lookup_lt_Some). injection Ei as <-.
      destruct (Hin k' v' Hb) as [Hc| ->]; [by eapply Hsl|done].
    + rewrite list_lookup_insert_ne in Ei by done. by eapply Hsl.
Qed.

Lemma ht_push_spec ht k v : ht_wf ht -> 0 < size ht ->
  exists ht', ht_push ht (slot ht k) k v = Ret ht' /\ ht_wf ht' /\ size ht' = size ht
    /\ concat (table ht') ≡ₚ (k, v) :: concat (table ht).
Proof.
  intros W Hz. destruct (chain_at_ret ht k W Hz) as (c & E & _). unfold ht_push. rewrite E.
  cbn [of_ptr mbind cres_bind]. eexists. split; [done|].
  destruct (ht_replace_wf ht k c ((k, v) :: c) (used ht + 1) W E) as (W' & r & P1 & P2).
  - intros k' v' [[= -> _]|?]%elem_of_cons; auto.
  - cbn [length]. lia.
  - split_and!; [done|done|]. rewrite P2, P1. done.
Qed.

Lemma move_chain_spec c : forall u t, ht_wf t -> 0 < size t ->
  exists t', move_chain c u t = Ret (u - Z.of_nat (length c), t') /\ ht_wf t' /\ size t' = size t
    /\ concat (table t') ≡ₚ c ++ concat (table t).
Proof.
  induction c as [|[k v] c IH]; intros u t W Hz; cbn [move_chain length].
  { exists t. split_and!; try done. f_equal. f_equal. lia. }
  destruct (ht_push_spec t k v W Hz) as (t1 & -> & W1 & S1 & P1). cbn [mbind cres_bind].
  destruct (IH (u - 1) t1 W1) as (t2 & -> & W2 & S2 & P2); [lia|]. exists t2. split_and!; [|done|lia|].
  - do 2 f_equal. lia.
  - rewrite P2, P1. cbn. by rewrite Permutation_middle.
Qed.

(** ** Rehashing keeps the contents *)

Lemma skip_empty_spec (cs : list chain) : forall i, concat cs <> [] ->
  exists j e c, skip_empty cs i = Ret (i + Z.of_nat j) /\ cs !! j = Some (e :: c)
    /\ forall m b, (m < j)%nat -> cs !! m = Some b -> b = [].
Proof.
  induction cs as [|b cs IH]; intros i Hne; [done|]. destruct b as [|e c].
  - destruct (IH (i + 1)) as (j & e & c & E & Ej & Hj); [done|]. exists (S j), e, c.
    cbn [skip_empty]. rewrite E. split_and!; [f_equal; lia|done|].
    intros [|m] b Hm Eb; [by injection Eb|]. apply (Hj m); [lia|done].
  - exists 0%nat, e, c. cbn. split_and!; [unfold mret, cres_ret; f_equal; lia|done|intros; lia].
Qed.

Lemma concat_all_nil (t : list chain) : (forall i c, t !! i = Some c -> c = []) -> concat t = [].
Proof.
  induction t as [|c t IH]; intros H; [done|]. cbn. rewrite (H 0%nat c eq_refl). cbn. apply IH.
  intros i c' E. by apply (H (S i)).
Qed.

Definition keys_of (c : chain) : list K := c.*1.

Lemma perm_keys (c c' : chain) : c ≡ₚ c' -> NoDup c.*1 -> NoDup c'.*1.
Proof. intros P. by rewrite P. Qed.

(** One round on a dict that still has entries in the old table. *)
Lemma rehash_round d :
  dict_wf d -> 0 <= rehashidx d -> 0 < size (ht0 d) -> 0 < size (ht1 d) -> used (ht0 d) <> 0 ->
  (forall i c, (i < Z.to_nat (rehashidx d))%nat -> table (ht0 d) !! i = Some c -> c = []) ->
  exists i c t1,
    (rehashidx d <? size (ht0 d)) = true /\ rehashidx d <= i
    /\ skip_empty (drop (Z.to_nat (rehashidx d)) (table (ht0 d))) (rehashidx d) = Ret i
    /\ table (ht0 d) !! Z.to_nat i = Some c
    /\ move_chain c (used (ht0 d)) (ht1 d) = Ret (used (ht0 d) - Z.of_nat (length c), t1)
    /\ let d' := mkDict (mkHt (<[Z.to_nat i := []]> (table (ht0 d))) (size (ht0 d))
                          (sizemask (ht0 d)) (used (ht0 d) - Z.of_nat (length c))) t1 (i + 1)
                   (iterators d) in
       dict_wf d' /\ contents d' ≡ₚ contents d /\ dictIsRehashing d' = true.
Proof.
  intros [W0 W1 Hk _] Hr Hs0 Hs1 Hu Hlow. set (j := Z.to_nat (rehashidx d)) in *.
  assert (concat (drop j (table (ht0 d))) <> []) as Hne.
  { intros E. apply Hu. rewrite (hw_used _ W0), <- (take_drop j (table (ht0 d))), concat_app, E, app_nil_r.
    rewrite (concat_all_nil (take j (table (ht0 d)))); [done|]. intros i c Ei.
    apply lookup_take_Some in Ei as [Ei Hi]. by eapply Hlow. }
  destruct (skip_empty_spec (drop j (table (ht0 d))) (rehashidx d) Hne) as (m & e & c & Es & Em & Hm).
  rewrite lookup_drop in Em. set (i := rehashidx d + Z.of_nat m) in *.
  assert (Z.to_nat i = (j + m)%nat) as Ei by (unfold i, j; lia). rewrite <- Ei in Em.
  pose proof (lookup_lt_Some _ _ _ Em) as Hlt. pose proof (hw_size _ W0) as Hsz.
  destruct (move_chain_spec (e :: c) (used (ht0 d)) (ht1 d) W1 Hs1) as (t1 & Et & Wt & St & Pt).
  exists i, (e :: c), t1. split_and!; [apply Z.ltb_lt; unfold i in *; lia|unfold i; lia|done|done|done|].
  assert (exists k v, e = (k, v)) as (k & v & ->) by (by destruct e; eauto).
  assert (slot (ht0 d) k = Z.to_nat i) as Esl by (eapply (hw_slot _ W0); [exact Em|by left]).
  pose proof (ht_replace_wf (ht0 d) k ((k, v) :: c) [] (used (ht0 d) - Z.of_nat (length ((k, v) :: c))) W0)
    as Hrep. rewrite Esl in Hrep. destruct (Hrep Em) as (Wn & r & P1 & P2);
    [by intros ? ? ?%elem_of_nil|cbn; lia|]. cbn [app] in P2. cbv zeta.
  assert (contents (mkDict (mkHt (<[Z.to_nat i := []]> (table (ht0 d))) (size (ht0 d)) (sizemask (ht0 d))
    (used (ht0 d) - Z.of_nat (length ((k, v) :: c)))) t1 (i + 1) (iterators d)) ≡ₚ contents d) as Pc.
  { unfold contents. cbn [ht0 ht1]. rewrite P2, Pt, P1. rewrite app_assoc. f_equiv. apply Permutation_app_comm. }
  split_and!; [|done|unfold dictIsRehashing, i; cbn; rewrite (proj2 (Z.eqb_neq _ _)); [done|lia]].
  constructor; [done|done| |].
  - eapply perm_keys; [symmetry; exact Pc|done].
  - right. cbn [rehashidx ht0 ht1 size table]. split_and!; [unfold i; lia|done|lia|].
    intros x b Hx Eb. destruct (decide (x = Z.to_nat i)) as [->|Hxi].
    + rewrite list_lookup_insert_eq in Eb by done. by injection Eb.
    + rewrite list_lookup_insert_ne in Eb by done. destruct (decide (x < j)%nat); [by eapply Hlow|].
      apply (Hm (x - j)%nat); [lia|]. rewrite lookup_drop. rewrite <- Eb. f_equal. lia.
Qed.

Lemma rehash_loop_spec n : forall d, dict_wf d -> dictIsRehashing d = true ->
  exists d' r, rehash_loop n d = Ret (d', r) /\ dict_wf d' /\ contents d' ≡ₚ contents d
    /\ iterators d' = iterators d /\ 0 < size (ht0 d')
    /\ (Z.max 0 (size (ht0 d) - rehashidx d) < Z.of_nat n -> r = 0 /\ dictIsRehashing d' = false).
Proof.
  induction n as [|n IH]; intros d W Hr;
    (destruct (dw_state d W) as [[E _]|(Hr0 & Hs0 & Hs1 & Hlow)];
      [unfold dictIsRehashing in Hr; by rewrite E in Hr|]).
  { exists d, 1. split_and!; try done; lia. }
  cbn [rehash_loop].
  destruct (Z.eqb_spec (used (ht0 d)) 0) as [Hu|Hu].
  - exists (mkDict (ht1 d) _dictReset (-1) (iterators d)), 0. split; [done|].
    destruct W as [W0 W1 Hk _].
    assert (concat (table (ht0 d)) = []) as E0.
    { apply nil_length_inv. pose proof (hw_used _ W0). lia. }
    unfold contents in *. rewrite E0 in *. cbn [app ht0 ht1 table concat] in *.
    rewrite !app_nil_r. split_and!; [|done|done|done|done].
    constructor; [done|apply reset_wf| |by left]. unfold contents. cbn. by rewrite app_nil_r.
  - destruct (rehash_round d W Hr0 Hs0 Hs1 Hu Hlow) as (i & c & t1 & Hlt & Hi & -> & Et & Em & W' & P' & R').
    rewrite Hlt.
    cbn [prez_assert mbind cres_bind]. rewrite Et. cbn [of_ptr mbind cres_bind]. rewrite Em.
    cbn [mbind cres_bind]. destruct (IH _ W' R') as (d' & r & -> & Wd & Pd & Id & Hz & Hend).
    exists d', r. split_and!; [done|done|by rewrite Pd|by rewrite Id|done|].
    intros Hn. apply Hend. apply Z.ltb_lt in Hlt. cbn. lia.
Qed.

Lemma dictRehash_spec n d : dict_wf d ->
  exists d' r, dictRehash d n = Ret (d', r) /\ dict_wf d' /\ contents d' ≡ₚ contents d
    /\ iterators d' = iterators d /\ (0 < size (ht0 d) -> 0 < size (ht0 d'))
    /\ (Z.max 0 (size (ht0 d) - rehashidx d) < Z.of_nat n -> r = 0 /\ dictIsRehashing d' = false).
Proof.
  intros W. unfold dictRehash. destruct (dictIsRehashing d) eqn:E; [|by exists d, 0].
  destruct (rehash_loop_spec n d W E) as (d' & r & ? & ? & ? & ? & ? & ?). by exists d', r.
Qed.

Lemma maybe_step_spec d : dict_wf d ->
  exists d', maybe_step d = Ret d' /\ dict_wf d' /\ contents d' ≡ₚ contents d
    /\ iterators d' = iterators d /\ (0 < size (ht0 d) -> 0 < size (ht0 d')).
Proof.
  intros W. unfold maybe_step, _dictRehashStep. destruct (dictIsRehashing d); [|by exists d].
  destruct (iterators d =? 0); [|by exists d].
  destruct (dictRehash_spec 1 d W) as (d' & r & -> & ? & ? & ? & ? & _). by exists d'.
Qed.

(** ** Expansion *)

Lemma next_power_spec m fuel : forall a size, 0 <= a <= m -> size <= 2 ^ m -> m <= a + Z.of_nat fuel ->
  exists b, a <= b <= m /\ next_power fuel (2 ^ a) size = 2 ^ b /\ size <= 2 ^ b.
Proof.
  induction fuel as [|fuel IH]; intros a size Ha Hs Hm; cbn [next_power];
    (destruct (Z.leb_spec size (2 ^ a)); [exists a; split_and!; [lia|lia|done|done]|]).
  - replace m with a in Hs by lia. lia.
  - assert (a < m) by (apply (Z.pow_lt_mono_r_iff 2); lia).
    replace (2 ^ a * 2) with (2 ^ (a + 1)) by (rewrite Z.pow_add_r; lia).
    destruct (IH (a + 1) size) as (b & Hb & E & Hle); [lia|done|lia|].
    exists b. split_and!; [lia|lia|done|done].
Qed.

Lemma dictNextPower_spec size : size <= 2 ^ 30 ->
  exists b, 2 <= b <= 30 /\ _dictNextPower size = 2 ^ b /\ size <= 2 ^ b.
Proof.
  intros Hs. unfold _dictNextPower, LONG_MAX. rewrite (proj2 (Z.leb_gt _ _)) by lia.
  change DICT_HT_INITIAL_SIZE with (2 ^ 2). apply (next_power_spec 30 61 2 size); lia.
Qed.

Lemma concat_replicate_nil n : concat (replicate n ([] : chain)) = [].
Proof. induction n; done. Qed.

(** A fresh table. *)
Lemma fresh_wf size : size <= 2 ^ 30 ->
  let n := mkHt (replicate (Z.to_nat (_dictNextPower size)) ([] : chain)) (_dictNextPower size)
             (_dictNextPower size - 1) 0 in
  ht_wf n /\ concat (table n) = [] /\ 0 < Dict.size n.
Proof.
  intros Hs n. destruct (dictNextPower_spec size Hs) as (b & Hb & E & _). unfold n. rewrite E.
  assert (0 < 2 ^ b) by lia. split_and!; [|apply concat_replicate_nil|done]. constructor; cbn.
  - rewrite length_replicate. lia.
  - right. exists b. split_and!; [lia|lia|done|done].
  - by rewrite concat_replicate_nil.
  - intros i c k v [-> _]%lookup_replicate ?%elem_of_nil. done.
Qed.

Lemma dictExpand_spec d size : dict_wf d -> size <= 2 ^ 30 ->
  exists d' r, dictExpand d size = (d', r) /\ dict_wf d' /\ contents d' = contents d
    /\ iterators d' = iterators d
    /\ (r = DICT_OK /\ 0 < Dict.size (ht0 d') \/ r = DICT_ERR /\ d' = d
        /\ (dictIsRehashing d = true \/ size < used (ht0 d))).
Proof.
  intros W Hs. unfold dictExpand. destruct (dictIsRehashing d) eqn:Er.
  { exists d, DICT_ERR. split_and!; try done. right. auto. }
  destruct (Z.ltb_spec size (used (ht0 d))).
  { exists d, DICT_ERR. split_and!; try done. right. auto. }
  cbn [orb]. destruct (fresh_wf size Hs) as (Wn & Cn & Sn). set (n := mkHt _ _ _ _) in *.
  destruct (dw_state d W) as [[Hi H1]|(Hi & _)].
  2:{ unfold dictIsRehashing in Er. apply negb_false_iff, Z.eqb_eq in Er. lia. }
  destruct W as [W0 W1 Hk _]. case_bool_decide as Ht.
  - eexists _, _. split; [done|].
    assert (contents (mkDict n (ht1 d) (rehashidx d) (iterators d)) = contents d) as Ec.
    { unfold contents. cbn [ht0 ht1]. by rewrite Cn, Ht. }
    split_and!; [|done|done|by left]. constructor; [done|done|by rewrite Ec|by left].
  - eexists _, _. split; [done|].
    assert (contents (mkDict (ht0 d) n 0 (iterators d)) = contents d) as Ec.
    { unfold contents. cbn [ht0 ht1]. by rewrite Cn, H1. }
    assert (0 < Dict.size (ht0 d)) as Hz.
    { rewrite (hw_size _ W0). destruct (table (ht0 d)); [done|cbn; lia]. }
    split_and!; [|done|done|by left]. constructor; [done|done|by rewrite Ec|].
    right. cbn. split_and!; [lia|done|done|intros; lia].
Qed.

Lemma used_length d : dict_wf d -> dictSize d = Z.of_nat (length (contents d)).
Proof.
  intros [W0 W1 _ _]. unfold dictSize, contents. rewrite (hw_used _ W0), (hw_used _ W1), length_app. lia.
Qed.

Lemma used_le d : dict_wf d -> 0 <= used (ht0 d) <= Z.of_nat (length (contents d)).
Proof. intros [W0 _ _ _]. unfold contents. rewrite (hw_used _ W0), length_app. lia. Qed.

Lemma expand_if_needed_spec can d : dict_wf d -> Z.of_nat (length (contents d)) <= 2 ^ 29 ->
  exists d', _dictExpandIfNeeded can d = (d', DICT_OK) /\ dict_wf d' /\ contents d' = contents d
    /\ iterators d' = iterators d /\ 0 < size (ht0 d').
Proof.
  intros W Hb. pose proof (used_le d W) as Hu. unfold _dictExpandIfNeeded.
  destruct (dictIsRehashing d) eqn:Er.
  { exists d. split_and!; try done. destruct (dw_state d W) as [[E _]|(_ & ? & _)]; [|done].
    unfold dictIsRehashing in Er. by rewrite E in Er. }
  assert (forall sz, used (ht0 d) <= sz <= 2 ^ 30 -> exists d', dictExpand d sz = (d', DICT_OK)
    /\ dict_wf d' /\ contents d' = contents d /\ iterators d' = iterators d /\ 0 < size (ht0 d')) as He.
  { intros sz Hsz. destruct (dictExpand_spec d sz W) as (d' & r & E & W' & C' & I' & [[-> ?]|(_ & _ & [?|?])]);
      [lia|by exists d'|congruence|lia]. }
  destruct (Z.eqb_spec (size (ht0 d)) 0) as [Hz|Hz].
  - apply He. split; [|unfold DICT_HT_INITIAL_SIZE; lia]. rewrite (hw_used _ (dw_ht0 d W)).
    pose proof (hw_size _ (dw_ht0 d W)) as Hsz. rewrite Hz in Hsz.
    rewrite (nil_length_inv (table (ht0 d))) by lia. done.
  - destruct (_ && _); [apply He; lia|]. exists d. split_and!; try done.
    pose proof (hw_size _ (dw_ht0 d W)). lia.
Qed.

(** ** The finite map of a dict *)

Context `{!Countable K}.

Definition to_map (d : dict) : gmap K V := list_to_map (contents d).

Definition rep (d : dict) (m : gmap K V) : Prop := dict_wf d /\ to_map d = m.

Lemma chain_find_map c k : chain_find c k = (list_to_map c : gmap K V) !! k.
Proof.
  induction c as [|[k' v] c IH]; cbn; [by rewrite lookup_empty|].
  destruct (decide (k = k')) as [->|Hne]; [by rewrite lookup_insert_eq|by rewrite lookup_insert_ne].
Qed.

Lemma to_map_perm d c : dict_wf d -> contents d ≡ₚ c -> to_map d = list_to_map c.
Proof. intros W P. apply list_to_map_proper; [apply W|done]. Qed.

Lemma rep_perm d d' m : rep d m -> dict_wf d' -> contents d' ≡ₚ contents d -> rep d' m.
Proof. intros [W <-] W' P. split; [done|]. by apply to_map_perm. Qed.

Lemma rep_length d m : rep d m -> length (contents d) = base.size m.
Proof. intros [W <-]. unfold to_map. by rewrite map_size_list_to_map by apply W. Qed.

Lemma rep_size d m : rep d m -> dictSize d = Z.of_nat (base.size m).
Proof. intros R. rewrite used_length by apply R. by rewrite (rep_length d m R). Qed.

Lemma ht_find ht k : ht_wf ht -> 0 < size ht -> NoDup (concat (table ht)).*1 ->
  exists c, table ht !! slot ht k = Some c /\ chain_at ht k = Ret c
    /\ chain_find c k = chain_find (concat (table ht)) k.
Proof.
  intros W Hz Hnd. destruct (chain_at_ret ht k W Hz) as (c & E & Ec). exists c. split_and!; [done|done|].
  pose proof (concat_split _ _ _ E) as P.
  assert (NoDup c.*1) as Hc by (rewrite P, fmap_app in Hnd; by apply NoDup_app in Hnd as [? _]).
  apply option_eq. intros v. rewrite !chain_find_Some by done. split.
  - intros Hin. rewrite P. apply elem_of_app. by left.
  - intros Hin. destruct (slot_of ht k v W Hin) as (c' & E' & ?). congruence.
Qed.

Lemma keys_split d : dict_wf d ->
  NoDup (concat (table (ht0 d))).*1 /\ NoDup (concat (table (ht1 d))).*1.
Proof. intros W. pose proof (dw_keys d W) as H. unfold contents in H. rewrite fmap_app in H.
  apply NoDup_app in H as (? & _ & ?). done. Qed.

Lemma chain_find_app c1 c2 k :
  chain_find (c1 ++ c2) k = match chain_find c1 k with Some v => Some v | None => chain_find c2 k end.
Proof. induction c1 as [|[k' v] c1 IH]; cbn; [done|]. by destruct (decide (k = k')). Qed.

(** Not rehashing: the second table is empty. *)
Lemma rehashing_cases d : dict_wf d ->
  (dictIsRehashing d = false /\ ht1 d = _dictReset)
  \/ (dictIsRehashing d = true /\ 0 < size (ht0 d) /\ 0 < size (ht1 d)).
Proof.
  intros W. unfold dictIsRehashing. destruct (dw_state d W) as [[-> ->]|(Hr & H0 & H1 & _)]; [by left|].
  right. rewrite (proj2 (Z.eqb_neq _ _)) by lia. done.
Qed.

Lemma tables_find_spec d m k : rep d m -> 0 < size (ht0 d) -> tables_find d k = Ret (m !! k).
Proof.
  intros [W <-] Hz. destruct (keys_split d W) as [N0 N1]. unfold tables_find, to_map.
  rewrite <- chain_find_map. unfold contents. rewrite chain_find_app.
  destruct (ht_find (ht0 d) k (dw_ht0 d W) Hz N0) as (c & _ & -> & <-). cbn [mbind cres_bind].
  destruct (chain_find c k); [done|]. destruct (rehashing_cases d W) as [[-> ->]|(-> & _ & H1)]; [done|].
  destruct (ht_find (ht1 d) k (dw_ht1 d W) H1 N1) as (c1 & _ & -> & <-). done.
Qed.

(** ** What each operation does to the map *)

Lemma dictFind_spec d m k : rep d m -> exists d', dictFind d k = Ret (d', m !! k) /\ rep d' m.
Proof.
  intros R. unfold dictFind. destruct (Z.eqb_spec (size (ht0 d)) 0) as [Hz|Hz].
  - exists d. split; [|done]. destruct R as [W <-]. unfold to_map. rewrite <- chain_find_map.
    pose proof (hw_size _ (dw_ht0 d W)) as Hs. rewrite Hz in Hs.
    destruct (rehashing_cases d W) as [[_ E1]|(_ & ? & _)]; [|lia].
    unfold contents. rewrite E1, (nil_length_inv (table (ht0 d))) by lia. done.
  - assert (0 < size (ht0 d)) as Hp by (pose proof (hw_size _ (dw_ht0 d (proj1 R))); lia).
    destruct (maybe_step_spec d (proj1 R)) as (d' & -> & W' & P' & _ & Hz').
    pose proof (rep_perm d d' m R W' P') as R'. cbn [mbind cres_bind].
    rewrite (tables_find_spec d' m k R' (Hz' Hp)). by exists d'.
Qed.

(** The slot of a key as the [int] that [_dictKeyIndex] returns. *)
Lemma slot_int ht k : ht_wf ht -> 0 < size ht ->
  exists i, wrap_s32 (Z.land (hash k) (sizemask ht)) = i /\ 0 <= i /\ Z.to_nat i = slot ht k.
Proof.
  intros [_ [->|(n & Hn & Ep & Em)] _ _] Hz; [cbn in Hz; lia|].
  assert (Z.land (hash k) (sizemask ht) = hash k mod 2 ^ n) as E.
  { rewrite Em, Ep. replace (2 ^ n - 1) with (Z.ones n) by (rewrite Z.ones_equiv; lia).
    apply Z.land_ones; lia. }
  pose proof (Z.mod_pos_bound (hash k) (2 ^ n) ltac:(lia)).
  assert (2 ^ n <= 2 ^ 30) by (apply Z.pow_le_mono_r; lia).
  exists (hash k mod 2 ^ n). unfold slot. rewrite E. split_and!; [|lia|done].
  apply wrap_s32_id. unfold in_s32. lia.
Qed.

(** The table that receives new entries, and the dict with a new version of it. *)
Definition insert_table (d : dict) : dictht := if dictIsRehashing d then ht1 d else ht0 d.

Definition with_insert_table (d : dict) (t : dictht) : dict :=
  if dictIsRehashing d then mkDict (ht0 d) t (rehashidx d) (iterators d)
  else mkDict t (ht1 d) (rehashidx d) (iterators d).

Lemma insert_table_wf d : dict_wf d -> 0 < size (ht0 d) ->
  ht_wf (insert_table d) /\ 0 < size (insert_table d).
Proof.
  intros W Hz. unfold insert_table. destruct (rehashing_cases d W) as [[-> _]|(-> & _ & ?)];
    (split; [apply W|done]).
Qed.

Lemma push_rep d m k v t :
  rep d m -> m !! k = None -> ht_wf t -> size t = size (insert_table d) ->
  concat (table t) ≡ₚ (k, v) :: concat (table (insert_table d)) ->
  rep (with_insert_table d t) (<[k := v]> m).
Proof.
  intros [W <-] Hk Wt St Pt.
  assert (contents (with_insert_table d t) ≡ₚ (k, v) :: contents d) as P.
  { unfold contents, with_insert_table, insert_table in *. destruct (dictIsRehashing d); cbn; rewrite Pt; [|done].
    by rewrite Permutation_middle. }
  assert (dict_wf (with_insert_table d t)) as W'.
  { unfold with_insert_table, insert_table in *. destruct (rehashing_cases d W) as [[Er E1]|(Er & H0 & H1)]; rewrite Er in *;
      (constructor; [try done; apply W|try done; apply W| |]).
    1,3: rewrite P; cbn; apply NoDup_cons; split; [|apply W]; unfold to_map in Hk;
      by apply not_elem_of_list_to_map.
    - left. destruct (dw_state d W) as [[? ?]|(? & ? & ? & _)]; [done|].
      unfold dictIsRehashing in Er. apply negb_false_iff, Z.eqb_eq in Er. lia.
    - right. cbn. destruct (dw_state d W) as [[E _]|(? & ? & ? & ?)]; [unfold dictIsRehashing in Er; by rewrite E in Er|].
      split_and!; try done. lia. }
  split; [done|]. rewrite (to_map_perm _ _ W' P). done.
Qed.

Lemma dictAdd_spec can d m k v : rep d m -> (base.size m <= Z.to_nat (2 ^ 29))%nat ->
  exists d', dictAdd can d k v = Ret (d', match m !! k with Some _ => DICT_ERR | None => DICT_OK end)
    /\ rep d' (match m !! k with Some _ => m | None => <[k := v]> m end)
    /\ iterators d' = iterators d /\ 0 < size (ht0 d').
Proof.
  intros R Hb. unfold dictAdd, dictAddRaw, _dictKeyIndex.
  destruct (maybe_step_spec d (proj1 R)) as (d1 & -> & W1 & P1 & I1 & _).
  pose proof (rep_perm d d1 m R W1 P1) as R1. cbn [mbind cres_bind].
  destruct (expand_if_needed_spec can d1 W1) as (d2 & -> & W2 & P2 & I2 & Z2).
  { rewrite (rep_length d1 m R1). lia. }
  assert (rep d2 m) as R2 by (apply (rep_perm d1 d2 m R1 W2); by rewrite P2).
  change (DICT_OK =? DICT_ERR) with false. cbn match.
  rewrite (tables_find_spec d2 m k R2 Z2). cbn [mbind cres_bind].
  destruct (m !! k) as [v0|] eqn:Em; cbn [mbind cres_bind mret cres_ret].
  { exists d2. split_and!; [done|done|congruence|done]. }
  fold (insert_table d2). destruct (insert_table_wf d2 W2 Z2) as [Wt Zt].
  destruct (slot_int (insert_table d2) k Wt Zt) as (i & -> & Hi & Es).
  rewrite (proj2 (Z.eqb_neq i (-1))), (proj2 (Z.leb_le 0 i)) by lia. cbn [require mbind cres_bind].
  destruct (ht_push_spec (insert_table d2) k v Wt Zt) as (t & Et & Wt' & St & Pt). rewrite <- Es in Et.
  pose proof (push_rep d2 m k v t R2 Em Wt' St Pt) as R'.
  exists (with_insert_table d2 t). unfold with_insert_table, insert_table in *.
  destruct (dictIsRehashing d2); rewrite Et; cbn [mbind cres_bind];
    (split_and!; [done|done|cbn; congruence|cbn; lia]).
Qed.

(** Table 0 ([b = false]) or 1 of a dict. *)
Definition tab (d : dict) (b : bool) : dictht := if b then ht1 d else ht0 d.

Definition with_tab (d : dict) (b : bool) (t : dictht) : dict :=
  if b then mkDict (ht0 d) t (rehashidx d) (iterators d)
  else mkDict t (ht1 d) (rehashidx d) (iterators d).

(** [t] has entries only in chains where [ht] has some. *)
Definition below (t ht : dictht) : Prop :=
  forall i c, table t !! i = Some c -> c <> [] -> exists c0, table ht !! i = Some c0 /\ c0 <> [].

(** The entry of a key with its new value, if it keeps one. *)
Definition entry_of (k : K) (o : option V) : chain := match o with Some v => [(k, v)] | None => [] end.

(** [t] is [ht] with the entry of [k] changed to [o]. *)
Definition changed (ht t : dictht) (k : K) (o : option V) : Prop :=
  ht_wf t /\ size t = size ht /\ below t ht
  /\ exists v0 r, concat (table ht) ≡ₚ (k, v0) :: r /\ concat (table t) ≡ₚ entry_of k o ++ r.

(** The chain of [k] is replaced by one in which its entry is changed. *)
Lemma replace_changed ht k c c' c0 v1 o u :
  ht_wf ht -> table ht !! slot ht k = Some c -> c ≡ₚ (k, v1) :: c0 -> c' ≡ₚ entry_of k o ++ c0 ->
  u = used ht + Z.of_nat (length c') - Z.of_nat (length c) ->
  changed ht (mkHt (<[slot ht k := c']> (table ht)) (size ht) (sizemask ht) u) k o.
Proof.
  intros W E Pc Pc' Hu. destruct (ht_replace_wf ht k c c' u W E) as (W' & r & P1 & P2); [|done|].
  { intros k' v'. rewrite Pc', Pc, elem_of_app, elem_of_cons. destruct o; cbn;
      [rewrite elem_of_cons|]; rewrite elem_of_nil; naive_solver. }
  split_and!; [done|done| |].
  - intros i b Eb Hb. cbn in Eb. destruct (decide (i = slot ht k)) as [->|Hne].
    + exists c. split; [done|]. intros ->. by apply Permutation_nil_cons in Pc.
    + rewrite list_lookup_insert_ne in Eb by done. by exists b.
  - exists v1, (c0 ++ r). rewrite P1, P2, Pc, Pc'. by rewrite <- app_assoc.
Qed.

Lemma changed_rep d m b t k o : rep d m -> changed (tab d b) t k o ->
  rep (with_tab d b t) (match o with Some v => <[k := v]> m | None => delete k m end).
Proof.
  intros [W <-] (Wt & St & Hb & v0 & r & P1 & P2).
  assert (exists r', contents d ≡ₚ (k, v0) :: r' /\ contents (with_tab d b t) ≡ₚ entry_of k o ++ r') as (r' & C & C').
  { destruct b; unfold contents, with_tab, tab in *; cbn.
    - exists (concat (table (ht0 d)) ++ r). rewrite P1, P2. split; [by rewrite Permutation_middle|].
      rewrite !app_assoc. f_equiv. apply Permutation_app_comm.
    - exists (r ++ concat (table (ht1 d))). rewrite P1, P2. by rewrite <- app_assoc. }
  pose proof (dw_keys d W) as Hnd. rewrite C in Hnd. cbn in Hnd. apply NoDup_cons in Hnd as [Hk Hnd].
  assert (NoDup (contents (with_tab d b t)).*1) as Hnd'.
  { rewrite C'. destruct o; cbn; [|done]. by apply NoDup_cons. }
  assert (dict_wf (with_tab d b t)) as W'.
  { destruct (dw_state d W) as [[Hi E1]|(Hi & H0 & H1 & Hlow)].
    - destruct b; cbn in *.
      + rewrite E1 in P1. by apply Permutation_nil_cons in P1.
      + constructor; [done|apply W|done|by left].
    - destruct b; cbn in *; (constructor; [try done; apply W|try done; apply W|done|]); right; cbn;
        (split_and!; [done|lia|lia|]); [done|].
      intros i c Hlt Ec. destruct c as [|e c]; [done|]. destruct (Hb i (e :: c) Ec) as (c0 & E0 & Hne); [done|].
      by rewrite (Hlow i c0 Hlt E0) in Hne. }
  split; [done|]. rewrite (to_map_perm _ _ W' C'), (to_map_perm _ _ W C).
  apply not_elem_of_list_to_map in Hk. destruct o; cbn.
  - symmetry. apply insert_insert_eq.
  - symmetry. by apply delete_insert_id.
Qed.

Lemma ht_set_spec ht k v v0 :
  ht_wf ht -> 0 < size ht -> NoDup (concat (table ht)).*1 -> chain_find (concat (table ht)) k = Some v0 ->
  exists t, ht_set ht k v = Ret t /\ changed ht t k (Some v).
Proof.
  intros W Hz Hnd Hf. destruct (ht_find ht k W Hz Hnd) as (c & E & Ec & Ef). rewrite Hf in Ef.
  unfold ht_set. rewrite Ec. cbn [mbind cres_bind]. eexists. split; [done|].
  assert (NoDup c.*1) as Hc.
  { rewrite (concat_split _ _ _ E), fmap_app in Hnd. by apply NoDup_app in Hnd as [? _]. }
  apply chain_find_Some in Ef; [|done]. destruct (chain_set_perm c k v v0 Ef) as (v1 & c0 & P & P').
  eapply replace_changed; [done|done|exact P|exact P'|]. rewrite (Permutation_length P), (Permutation_length P').
  cbn. lia.
Qed.

Lemma ht_del_spec ht k :
  ht_wf ht -> 0 < size ht -> NoDup (concat (table ht)).*1 ->
  match chain_find (concat (table ht)) k with
  | Some _ => exists t, ht_del ht k = Ret (Some t) /\ changed ht t k None
  | None => ht_del ht k = Ret None
  end.
Proof.
  intros W Hz Hnd. destruct (ht_find ht k W Hz Hnd) as (c & E & Ec & <-).
  unfold ht_del. rewrite Ec. cbn [mbind cres_bind]. destruct (chain_find c k) as [v0|] eqn:Ef.
  - destruct (chain_del c k) as [c'|] eqn:Ed.
    + eexists. split; [done|]. destruct (chain_del_Some c k c' Ed) as [v1 P].
      eapply replace_changed; [done|done|exact P|done|]. rewrite (Permutation_length P). cbn. lia.
    + apply chain_del_None, chain_find_None in Ed. congruence.
  - apply chain_find_None, chain_del_None in Ef. by rewrite Ef.
Qed.

(** Where the value of a key is found. *)
Lemma lookup_tables d k : dict_wf d ->
  to_map d !! k = match chain_find (concat (table (ht0 d))) k with
                  | Some v => Some v
                  | None => chain_find (concat (table (ht1 d))) k
                  end.
Proof. intros W. unfold to_map, contents. by rewrite <- chain_find_map, chain_find_app. Qed.

Lemma entry_set_spec d m k v v0 : rep d m -> 0 < size (ht0 d) -> m !! k = Some v0 ->
  exists d', entry_set d k v = Ret d' /\ rep d' (<[k := v]> m) /\ iterators d' = iterators d.
Proof.
  intros R Hz Hk. pose proof R as [W <-]. rewrite lookup_tables in Hk by done.
  destruct (keys_split d W) as [N0 N1]. unfold entry_set.
  destruct (ht_find (ht0 d) k (dw_ht0 d W) Hz N0) as (c & _ & -> & Ef). cbn [mbind cres_bind]. rewrite Ef.
  destruct (chain_find (concat (table (ht0 d))) k) as [v1|] eqn:E0.
  - destruct (ht_set_spec (ht0 d) k v v1 (dw_ht0 d W) Hz N0 E0) as (t & -> & Hc).
    eexists. split; [done|]. split; [|done]. by apply (changed_rep d _ false t k (Some v) R).
  - assert (0 < size (ht1 d)) as Hz1.
    { destruct (rehashing_cases d W) as [[_ E1]|(_ & _ & ?)]; [|done]. by rewrite E1 in Hk. }
    destruct (ht_set_spec (ht1 d) k v v0 (dw_ht1 d W) Hz1 N1 Hk) as (t & -> & Hc).
    eexists. split; [done|]. split; [|done]. by apply (changed_rep d _ true t k (Some v) R).
Qed.

Lemma dictReplace_spec can d m k v : rep d m -> (base.size m <= Z.to_nat (2 ^ 29))%nat ->
  exists d', dictReplace can d k v = Ret (d', match m !! k with Some _ => 0 | None => 1 end)
    /\ rep d' (<[k := v]> m).
Proof.
  intros R Hb. unfold dictReplace. destruct (dictAdd_spec can d m k v R Hb) as (d1 & -> & R1 & _ & Z1).
  cbn [mbind cres_bind]. destruct (m !! k) as [v0|] eqn:Ek; [|by exists d1].
  change (DICT_ERR =? DICT_OK) with false. cbn match.
  unfold dictFind. rewrite (proj2 (Z.eqb_neq (size (ht0 d1)) 0)) by lia.
  destruct (maybe_step_spec d1 (proj1 R1)) as (d2 & -> & W2 & P2 & _ & Z2).
  pose proof (rep_perm d1 d2 m R1 W2 P2) as R2. cbn [mbind cres_bind].
  rewrite (tables_find_spec d2 m k R2 (Z2 Z1)), Ek. cbn [mbind cres_bind mret cres_ret of_ptr].
  destruct (entry_set_spec d2 m k v v0 R2 (Z2 Z1) Ek) as (d3 & -> & R3 & _). by exists d3.
Qed.

Lemma dictDelete_spec d m k : rep d m ->
  exists d', dictDelete d k = Ret (d', match m !! k with Some _ => DICT_OK | None => DICT_ERR end)
    /\ rep d' (delete k m).
Proof.
  intros R. unfold dictDelete, dictGenericDelete. destruct (Z.eqb_spec (size (ht0 d)) 0) as [Hz|Hz].
  { exists d. destruct (dictFind_spec d m k R) as (d' & E & _). unfold dictFind in E.
    rewrite Hz in E. cbn in E. injection E as _ Ek. rewrite <- Ek. by rewrite delete_id. }
  assert (0 < size (ht0 d)) as Hp by (pose proof (hw_size _ (dw_ht0 d (proj1 R))); lia).
  destruct (maybe_step_spec d (proj1 R)) as (d1 & -> & W1 & P1 & _ & Z1).
  pose proof (rep_perm d d1 m R W1 P1) as R1. cbn [mbind cres_bind]. pose proof R1 as [_ <-].
  rewrite lookup_tables by done. destruct (keys_split d1 W1) as [N0 N1].
  pose proof (ht_del_spec (ht0 d1) k (dw_ht0 d1 W1) (Z1 Hp) N0) as H0.
  destruct (chain_find (concat (table (ht0 d1))) k) as [v1|] eqn:E0.
  { destruct H0 as (t & -> & Hc). eexists. split; [done|]. by apply (changed_rep d1 _ false t k None R1). }
  rewrite H0. cbn [mbind cres_bind].
  destruct (rehashing_cases d1 W1) as [[Er E1]|(Er & _ & Hz1)]; rewrite Er.
  { exists d1. rewrite E1. cbn. rewrite delete_id; [done|]. by rewrite lookup_tables, E0, E1 by done. }
  pose proof (ht_del_spec (ht1 d1) k (dw_ht1 d1 W1) Hz1 N1) as H1.
  destruct (chain_find (concat (table (ht1 d1))) k) as [v1|] eqn:Ef.
  { destruct H1 as (t & -> & Hc). eexists. split; [done|]. by apply (changed_rep d1 _ true t k None R1). }
  rewrite H1. exists d1. cbn. rewrite delete_id; [done|]. by rewrite lookup_tables, E0 by done.
Qed.

Lemma dictResize_spec can d m : rep d m -> (base.size m <= Z.to_nat (2 ^ 29))%nat ->
  exists d' r, dictResize can d = (d', r) /\ rep d' m.
Proof.
  intros R Hb. unfold dictResize. destruct (_ || _); [by exists d, DICT_ERR|].
  pose proof (used_le d (proj1 R)) as Hu. rewrite (rep_length d m R) in Hu.
  rewrite wrap_s32_id by (unfold in_s32; lia). unfold DICT_HT_INITIAL_SIZE.
  set (sz := if _ <? _ then _ else _). assert (sz <= 2 ^ 30) by (subst sz; destruct (_ <? _); lia).
  destruct (dictExpand_spec d sz (proj1 R)) as (d' & r & -> & W' & C' & _); [done|].
  exists d', r. split; [done|]. apply (rep_perm d d' m R W'). by rewrite C'.
Qed.

Lemma clear_loop_all (cs : list chain) : forall u, u = Z.of_nat (length (concat cs)) -> clear_loop cs u = concat cs.
Proof.
  induction cs as [|c cs IH]; intros u ->; [done|]. cbn [clear_loop concat]. rewrite length_app.
  destruct (Z.ltb_spec 0 (Z.of_nat (length c + length (concat cs)))).
  - rewrite IH by lia. done.
  - symmetry. apply nil_length_inv. rewrite length_app. lia.
Qed.

Lemma dictEmpty_spec d : dict_wf d -> dictEmpty d = (dictCreate, contents d).
Proof.
  intros [W0 W1 _ _]. unfold dictEmpty, _dictClear, contents.
  by rewrite !clear_loop_all by (by apply hw_used).
Qed.

Lemma create_rep : rep dictCreate ∅.
Proof. split; [apply dictCreate_wf|done]. Qed.

(** ** Programs over a dict *)

(** The calls of a client of the table; the flag is [dict_can_resize] at the time of the
    call. *)
Inductive dop : Type :=
  | DAdd (can : bool) (k : K) (v : V)
  | DReplace (can : bool) (k : K) (v : V)
  | DDelete (k : K)
  | DFind (k : K)
  | DRehash (n : nat)
  | DResize (can : bool)
  | DEmpty.

(** What a client sees of a call. *)
Inductive dobs : Type :=
  | OCode (r : Z)
  | OValue (o : option V)
  | ONothing.

Definition run_dop (d : dict) (op : dop) : cres (dict * dobs) :=
  match op with
  | DAdd can k v => '(d, r) ← dictAdd can d k v; mret (d, OCode r)
  | DReplace can k v => '(d, r) ← dictReplace can d k v; mret (d, OCode r)
  | DDelete k => '(d, r) ← dictDelete d k; mret (d, OCode r)
  | DFind k => '(d, o) ← dictFind d k; mret (d, OValue o)
  | DRehash n => '(d, _) ← dictRehash d n; mret (d, ONothing)
  | DResize can => mret ((dictResize can d).1, ONothing)
  | DEmpty => mret ((dictEmpty d).1, ONothing)
  end.

Definition spec_dop (m : gmap K V) (op : dop) : gmap K V * dobs :=
  match op with
  | DAdd _ k v =>
      match m !! k with Some _ => (m, OCode DICT_ERR) | None => (<[k := v]> m, OCode DICT_OK) end
  | DReplace _ k v => (<[k := v]> m, OCode (if m !! k then 0 else 1))
  | DDelete k => (delete k m, OCode (if m !! k then DICT_OK else DICT_ERR))
  | DFind k => (m, OValue (m !! k))
  | DRehash _ | DResize _ => (m, ONothing)
  | DEmpty => (∅, ONothing)
  end.

Fixpoint run_dops (d : dict) (ops : list dop) : cres (dict * list dobs) :=
  match ops with
  | [] => mret (d, [])
  | op :: ops => '(d, o) ← run_dop d op; '(d, os) ← run_dops d ops; mret (d, o :: os)
  end.

Fixpoint spec_dops (m : gmap K V) (ops : list dop) : gmap K V * list dobs :=
  match ops with
  | [] => (m, [])
  | op :: ops => let '(m, o) := spec_dop m op in let '(m, os) := spec_dops m ops in (m, o :: os)
  end.

Lemma run_dop_spec d m op : rep d m -> (base.size m <= Z.to_nat (2 ^ 29))%nat ->
  exists d', run_dop d op = Ret (d', (spec_dop m op).2) /\ rep d' (spec_dop m op).1.
Proof.
  intros R Hb. destruct op as [can k v|can k v|k|k|n|can|]; cbn [run_dop spec_dop].
  - destruct (dictAdd_spec can d m k v R Hb) as (d' & -> & R' & _). exists d'. by destruct (m !! k).
  - destruct (dictReplace_spec can d m k v R Hb) as (d' & -> & R'). exists d'. by destruct (m !! k).
  - destruct (dictDelete_spec d m k R) as (d' & -> & R'). exists d'. by destruct (m !! k).
  - destruct (dictFind_spec d m k R) as (d' & -> & R'). by exists d'.
  - destruct (dictRehash_spec n d (proj1 R)) as (d' & r & -> & W' & P' & _). exists d'.
    split; [done|]. by apply (rep_perm d d' m R W').
  - destruct (dictResize_spec can d m R Hb) as (d' & r & -> & R'). by exists d'.
  - rewrite dictEmpty_spec by apply R. exists dictCreate. split; [done|apply create_rep].
Qed.

Lemma spec_dop_size m op : (base.size (spec_dop m op).1 <= S (base.size m))%nat.
Proof.
  destruct op as [can k v|can k v|k|k|n|can|]; cbn; try lia.
  - destruct (m !! k) eqn:E; cbn; [lia|]. by rewrite map_size_insert_None.
  - rewrite map_size_insert. destruct (m !! k); cbn; lia.
  - rewrite map_size_delete. destruct (m !! k); cbn; lia.
  - rewrite map_size_empty. lia.
Qed.

Lemma run_dops_spec ops : forall d m, rep d m -> (base.size m + length ops <= Z.to_nat (2 ^ 29))%nat ->
  exists d', run_dops d ops = Ret (d', (spec_dops m ops).2) /\ rep d' (spec_dops m ops).1.
Proof.
  induction ops as [|op ops IH]; intros d m R Hb; [by exists d|]. cbn [run_dops spec_dops length] in *.
  destruct (run_dop_spec d m op R) as (d1 & -> & R1); [lia|]. cbn [mbind cres_bind].
  pose proof (spec_dop_size m op). destruct (spec_dop m op) as [m1 o]. cbn in *.
  destruct (IH d1 m1 R1) as (d2 & -> & R2); [lia|]. exists d2. by destruct (spec_dops m1 ops).
Qed.

(** [C5] A dict behaves like a finite map: any sequence of additions, replacements, deletions,
    lookups, rehashing steps, resizings and clearings of a new dict, whatever the hash function
    and with resizing allowed or not at each call, runs without undefined behaviour and
    without a failed assertion, returns exactly what the operations of a finite map return,
    ends in well-formed tables that hold that map, and its size is the number of its keys.
    The sequence has at most 2^29 calls, so that the int index of a slot cannot wrap. *)
Theorem dict_refines_map (ops : list dop) :
  (length ops <= Z.to_nat (2 ^ 29))%nat ->
  exists d, run_dops dictCreate ops = Ret (d, (spec_dops ∅ ops).2)
    /\ rep d (spec_dops ∅ ops).1
    /\ dictSize d = Z.of_nat (base.size (spec_dops ∅ ops).1).
Proof.
  intros Hb. destruct (run_dops_spec ops dictCreate ∅ create_rep) as (d & -> & R).
  { rewrite map_size_empty. lia. }
  exists d. split_and!; [done|done|by apply rep_size].
Qed.

(** ** Iteration *)

(** The entries after the chain [ix] of table [tb]. *)
Definition rest (d : dict) (tb ix : Z) : chain :=
  concat (drop (Z.to_nat (ix + 1)) (table (it_ht d tb)))
  ++ (if (tb =? 0) && dictIsRehashing d then concat (table (ht1 d)) else []).

(** The entries an iterator has not returned yet. *)
Definition remaining (d : dict) (it : dictIterator) : chain :=
  (if it_entry it then it_next it else []) ++ rest d (it_table it) (it_index it).

Record it_ok (d : dict) (it : dictIterator) : Prop := {
  io_table : it_table it = 0 \/ it_table it = 1 /\ dictIsRehashing d = true;
  io_index : -1 <= it_index it;
  io_entry : it_table it = 1 \/ it_entry it = true -> 0 <= it_index it;
}.

(** The chains after [ix] of table [tb], and the rounds the loop can still make. *)
Definition chains_left (d : dict) (tb ix : Z) : nat :=
  (length (table (it_ht d tb)) - Z.to_nat (ix + 1)) + (if tb =? 0 then length (table (ht1 d)) else 0).

Definition rounds (d : dict) (it : dictIterator) : nat :=
  (if it_entry it then 2 else 1) + chains_left d (it_table it) (it_index it).

(** [dictNext] counts a safe iterator at its first call. *)
Definition touched (d : dict) (it : dictIterator) : dict :=
  if (it_index it =? -1) && (it_table it =? 0) && it_safe it
  then set_iterators d (iterators d + 1) else d.

Lemma touched_ge d it : 0 <= it_index it -> touched d it = d.
Proof. intros H. unfold touched. by rewrite (proj2 (Z.eqb_neq (it_index it) (-1))) by lia. Qed.

Lemma touched_same d it :
  (dict_wf d -> dict_wf (touched d it)) /\ dictIsRehashing (touched d it) = dictIsRehashing d
  /\ forall tb ix, rest (touched d it) tb ix = rest d tb ix
    /\ chains_left (touched d it) tb ix = chains_left d tb ix.
Proof.
  unfold touched. destruct (_ && _); [|done]. split_and!; [|done|done].
  intros W. by apply (Build_dict_wf (set_iterators d _)); apply W.
Qed.

Lemma size_int ht : ht_wf ht -> wrap_s32 (size ht) = Z.of_nat (length (table ht)).
Proof.
  intros [Hs [->|(n & Hn & Ep & _)] _ _]; [done|]. rewrite <- Hs. apply wrap_s32_id. rewrite Ep.
  assert (2 ^ n <= 2 ^ 30) by (apply Z.pow_le_mono_r; lia). unfold in_s32. lia.
Qed.

Lemma concat_drop (t : list chain) i c : t !! i = Some c -> concat (drop i t) = c ++ concat (drop (S i) t).
Proof. intros E. by rewrite (drop_S _ _ _ E). Qed.

Lemma next_slot_spec d tb ix : dict_wf d -> -1 <= ix -> tb = 0 \/ tb = 1 /\ dictIsRehashing d = true ->
  match next_slot d tb ix with
  | None => rest d tb ix = []
  | Some (tb', ix') => 0 <= ix' /\ (tb' = 0 \/ tb' = 1 /\ dictIsRehashing d = true)
      /\ S (chains_left d tb' ix') = chains_left d tb ix
      /\ exists c, table (it_ht d tb') !! Z.to_nat ix' = Some c /\ rest d tb ix = c ++ rest d tb' ix'
  end.
Proof.
  intros W Hix Htb. unfold next_slot, rest, chains_left.
  assert (ht_wf (it_ht d tb)) as Wt by (unfold it_ht; destruct (tb =? 0); apply W).
  rewrite (size_int _ Wt). destruct (Z.leb_spec (Z.of_nat (length (table (it_ht d tb)))) (ix + 1)) as [Hle|Hlt].
  - rewrite (drop_ge (table (it_ht d tb))) by lia. cbn [concat app].
    destruct (rehashing_cases d W) as [[Er E1]|(Er & Z0 & Z1)].
    { rewrite Er. cbn [andb]. by rewrite andb_false_r. }
    rewrite Er. cbn [andb]. rewrite andb_true_r. destruct (Z.eqb_spec tb 0) as [->|]; [|done].
    cbn [it_ht Z.eqb andb]. rewrite (hw_size _ (dw_ht1 d W)) in Z1. change (Z.to_nat (0 + 1)) with 1%nat.
    destruct (table (ht1 d)) as [|c t] eqn:Et; [done|]. split_and!; [done|by right| |].
    + change (it_ht d 1) with (ht1 d). rewrite ?Et. cbn [length] in *. change (it_ht d 0) with (ht0 d) in Hle. lia.
    + exists c. change (it_ht d 1) with (ht1 d). rewrite ?Et. cbn [concat drop]. by rewrite app_nil_r.
  - split_and!; [lia|done|lia|]. destruct (lookup_lt_is_Some_2 (table (it_ht d tb)) (Z.to_nat (ix + 1))) as [c E]; [lia|].
    exists c. split; [done|]. rewrite (concat_drop _ _ _ E).
    replace (Z.to_nat (ix + 1 + 1)) with (S (Z.to_nat (ix + 1))) by lia. by rewrite app_assoc.
Qed.

(** What a call of [dictNext] returns, with the iterator it leaves. *)
Definition next_result (d : dict) (it : dictIterator) (r : cres (dict * dictIterator * option (K * V))) : Prop :=
  exists it', r = Ret (touched d it, it', head (remaining d it)) /\ it_ok d it' /\ it_safe it' = it_safe it
    /\ 0 <= it_index it' /\ (remaining d it <> [] -> remaining d it' = tail (remaining d it)).

Lemma next_loop_spec fuel : forall d it, dict_wf d -> it_ok d it -> (rounds d it <= fuel)%nat ->
  next_result d it (next_loop fuel d it).
Proof.
  induction fuel as [|fuel IH]; intros d it W [Htb Hix Hent] Hf;
    [unfold rounds in Hf; destruct (it_entry it); lia|].
  destruct it as [tb ix safe [|] nx]; cbn [it_table it_index it_safe it_entry it_next] in *; cbn [next_loop it_entry it_next it_table it_index it_safe].
  - assert (0 <= ix) by (apply Hent; by right). unfold next_result. rewrite touched_ge by done.
    unfold remaining. cbn [it_entry it_next it_table it_index it_safe]. destruct nx as [|e nx].
    + destruct (IH d (mkIt tb ix safe false []) W) as (it' & E & Hok & Hs & Hi & Hr);
        [constructor; cbn; auto|unfold rounds in *; cbn in *; lia|]. rewrite E, touched_ge by done.
      exists it'. split_and!; try done.
    + exists (mkIt tb ix safe true nx). split_and!; done.
  - set (it := mkIt tb ix safe false nx) in *. set (d1 := if _ && _ then _ else _).
    change d1 with (touched d it). clear d1. destruct (touched_same d it) as (W1 & Tr & Tc).
    specialize (W1 W). unfold next_result. set (d1 := touched d it) in *.
    assert (remaining d it = rest d1 tb ix) as -> by (by rewrite (proj1 (Tc tb ix))).
    pose proof (next_slot_spec d1 tb ix W1 Hix) as Hn. rewrite Tr in Hn. specialize (Hn Htb).
    destruct (next_slot d1 tb ix) as [[tb' ix']|].
    2:{ rewrite Hn. exists (mkIt tb (ix + 1) safe false []). split_and!; try done; [|cbn; lia].
        constructor; cbn; [done|lia|intros; lia]. }
    destruct Hn as (Hi' & Htb' & Hc & c & -> & ->). cbn [of_ptr mbind cres_bind].
    assert (forall b nx', it_ok d (mkIt tb' ix' safe b nx')) as Hok' by (constructor; cbn; [done|lia|done]).
    destruct c as [|e c]; cbn [app head tail].
    + destruct (IH d1 (mkIt tb' ix' safe false []) W1) as (it' & -> & Hok & Hs & Hi & Hr).
      { destruct (Hok' false []). constructor; cbn in *; by rewrite ?Tr. }
      { unfold rounds in *. rewrite !(proj2 (Tc _ _)) in Hc. cbn in *. rewrite (proj2 (Tc _ _)). lia. }
      exists it'. rewrite touched_ge by done. unfold remaining in Hr at 1 2. cbn in Hr.
      split_and!; try done; [destruct Hok; constructor; by rewrite <- ?Tr|].
      intros Hne. rewrite <- Hr by done. unfold remaining. by rewrite (proj1 (Tc _ _)).
    + exists (mkIt tb' ix' safe true c). split_and!; try done. intros _. unfold remaining. cbn.
      by rewrite (proj1 (Tc _ _)).
Qed.

(** The loop of a client: [dictNext] until it returns NULL. *)
Fixpoint iterate (fuel : nat) (d : dict) (it : dictIterator) : cres (dict * dictIterator * chain) :=
  match fuel with
  | O => Undef
  | S fuel =>
      '(d, it, e) ← dictNext d it;
      match e with
      | None => mret (d, it, [])
      | Some e => '(d, it, l) ← iterate fuel d it; mret (d, it, e :: l)
      end
  end.

Lemma dictNext_spec d it : dict_wf d -> it_ok d it -> next_result d it (dictNext d it).
Proof.
  intros W Hok. apply next_loop_spec; [done|done|]. unfold rounds, chains_left, dictSlots, it_ht.
  rewrite (hw_size _ (dw_ht0 d W)), (hw_size _ (dw_ht1 d W)).
  destruct (it_entry it), (it_table it =? 0); lia.
Qed.

Lemma iterate_spec fuel : forall d it, dict_wf d -> it_ok d it -> (length (remaining d it) < fuel)%nat ->
  exists it', iterate fuel d it = Ret (touched d it, it', remaining d it)
    /\ 0 <= it_index it' /\ it_safe it' = it_safe it.
Proof.
  induction fuel as [|fuel IH]; intros d it W Hok Hf; [lia|]. cbn [iterate].
  destruct (dictNext_spec d it W Hok) as (it1 & -> & Hok1 & Hs1 & Hi1 & Hr). cbn [mbind cres_bind].
  destruct (remaining d it) as [|e l]; [by exists it1|]. cbn [head tail length] in *.
  destruct (touched_same d it) as (W1 & Tr & Tc).
  assert (remaining (touched d it) it1 = l) as Er.
  { rewrite <- Hr by done. unfold remaining. by rewrite (proj1 (Tc _ _)). }
  destruct (IH (touched d it) it1 (W1 W)) as (it2 & -> & Hi2 & Hs2).
  { destruct Hok1. constructor; by rewrite ?Tr. }
  { rewrite Er. lia. }
  exists it2. rewrite Er, touched_ge by done. split_and!; [done|done|congruence].
Qed.

(** A full iteration, with an iterator of either kind and in any state of a rehashing,
    ends, returns every entry of the map exactly once, does not change the tables, and
    releasing the iterator gives back the dict as it was, with its count of safe iterators. *)
Theorem iteration_complete (d : dict) (m : gmap K V) (safe : bool) :
  rep d m ->
  let it := if safe then dictGetSafeIterator else dictGetIterator in
  exists d' it' l, iterate (S (base.size m)) d it = Ret (d', it', l)
    /\ l ≡ₚ map_to_list m
    /\ iterators d' = iterators d + (if safe then 1 else 0)
    /\ dictReleaseIterator d' it' = d.
Proof.
  intros R it. pose proof R as [W <-].
  assert (remaining d it = contents d) as Er.
  { unfold remaining, rest, contents. destruct safe; cbn; (destruct (rehashing_cases d W) as [[-> ->]|(-> & _)]; done). }
  destruct (iterate_spec (S (base.size (to_map d))) d it W) as (it' & E & Hi & Hs).
  { destruct safe; constructor; cbn; [by left|lia|naive_solver|by left|lia|naive_solver]. }
  { rewrite Er, (rep_length d _ R). lia. }
  exists (touched d it), it', (contents d). rewrite E, Er. split_and!; [done| |by destruct safe; cbn; lia|].
  - unfold to_map. rewrite map_to_list_to_map by apply W. done.
  - unfold dictReleaseIterator. rewrite (proj2 (Z.eqb_neq (it_index it') (-1))), Hs by lia.
    destruct d, safe; unfold touched, set_iterators; cbn; [|done]. f_equal. lia.
Qed.

(** Rehashing ends: from any state of a rehashing, as many steps as the old table has
    chains, and one more, move every entry to the new table and return 0; the map is unchanged
    and no step fails. *)
Theorem dictRehash_completes (d : dict) (m : gmap K V) (n : nat) :
  rep d m -> size (ht0 d) < Z.of_nat n ->
  exists d', dictRehash d n = Ret (d', 0) /\ rep d' m /\ dictIsRehashing d' = false.
Proof.
  intros R Hn. pose proof (hw_size _ (dw_ht0 d (proj1 R))).
  destruct (dw_state d (proj1 R)) as [[Hi _]|(Hi & _)].
  { exists d. unfold dictRehash, dictIsRehashing. by rewrite Hi. }
  destruct (dictRehash_spec n d (proj1 R)) as (d' & r & -> & W' & P' & _ & _ & Hend).
  destruct Hend as [-> Hr]; [lia|].
  exists d'. split_and!; [done|by apply (rep_perm d d' m R W')|done].
Qed.
End Dict.

(** ** Instances *)

(** Every key in the same chain; and a table caught in the middle of a rehashing. *)
Definition example_hash (k : Z) : Z := k mod 2.

Definition example_ops : list (dop (K := Z) (V := Z)) :=
  [DAdd true 1 10; DAdd true 2 20; DAdd true 1 11; DAdd true 3 30; DReplace true 2 21; DDelete 9;
   DAdd true 4 40; DAdd true 5 50; DFind 5; DDelete 1; DFind 1; DRehash 1; DFind 4; DResize true].

Definition example_dict : dict (K := Z) (V := Z) :=
  match run_dops example_hash dictCreate (take 8 example_ops) with Ret (d, _) => d | _ => dictCreate end.

Example example_rehashing : dictIsRehashing example_dict = true /\ dictSize example_dict = 5.
Proof. vm_compute. done. Qed.

Lemma dict_refines_map_witness :
  (length example_ops <= Z.to_nat (2 ^ 29))%nat
  /\ exists d, run_dops example_hash dictCreate example_ops = Ret (d, (spec_dops ∅ example_ops).2)
    /\ rep example_hash d (spec_dops ∅ example_ops).1 /\ dictSize d = Z.of_nat (base.size (spec_dops ∅ example_ops).1).
Proof. change (length example_ops) with 14%nat. split; [lia|].
  apply (dict_refines_map example_hash example_ops). change (length example_ops) with 14%nat. lia.
Defined.

Lemma example_rep : rep example_hash example_dict (spec_dops ∅ (take 8 example_ops)).1.
Proof.
  destruct (run_dops_spec example_hash (take 8 example_ops) dictCreate ∅ (create_rep example_hash)) as (d & E & R);
    [rewrite map_size_empty; change (length (take 8 example_ops)) with 8%nat; lia|]. unfold example_dict. by rewrite E.
Qed.

Lemma iteration_complete_witness :
  let m := (spec_dops ∅ (take 8 example_ops)).1 in
  rep example_hash example_dict m
  /\ exists d' it' l, iterate (S (base.size m)) example_dict dictGetSafeIterator = Ret (d', it', l)
    /\ l ≡ₚ map_to_list m /\ iterators d' = iterators example_dict + 1
    /\ dictReleaseIterator d' it' = example_dict.
Proof. split; [apply example_rep|]. apply (iteration_complete example_hash example_dict _ true), example_rep. Defined.

Lemma dictRehash_completes_witness :
  let m := (spec_dops ∅ (take 8 example_ops)).1 in
  rep example_hash example_dict m /\ size (ht0 example_dict) < Z.of_nat 5
  /\ exists d', dictRehash example_hash example_dict 5 = Ret (d', 0) /\ rep example_hash d' m /\ dictIsRehashing d' = false.
Proof.
  split; [apply example_rep|]. split; [by vm_compute|].
  apply (dictRehash_completes example_hash example_dict _ 5); [apply example_rep|by vm_compute].
Defined.
