(* ===== verification/DictScan.v ===== *)
(** * dict.c: scanning a table that changes, and random samples

    [dictScan] of src/src/dict.c visits a table in many calls, with a cursor whose bits count in
    reverse so that the table may be resized between the calls; [dictGetRandomKeys] samples it.
    The comment before [dictScan] promises that every element that stays in the table is
    returned.  This holds while tables only grow; a table that shrinks to a quarter or less in
    the middle of a scan can lose elements. *)

From Stdlib Require Import ZArith Lia.
From stdpp Require Import base tactics numbers list gmap.
From S2P Require Import Prelude Dict.

Local Open Scope Z_scope.

(** ** Reversing bits *)

(** One round: blocks of [s] bits trade places with their neighbours. *)
Definition rev_step (s mask v : Z) : Z :=
  Z.lor (Z.land (Z.shiftr v s) mask) (Z.land (wrap_u64 (Z.shiftl v s)) (wrap_u64 (Z.lnot mask))).

(** Seven rounds halve 64 to 0. *)
Fixpoint rev_loop (fuel : nat) (s mask v : Z) : Z :=
  match fuel with
  | O => v
  | S fuel =>
      let s := Z.shiftr s 1 in
      if 0 <? s then
        let mask := Z.lxor mask (wrap_u64 (Z.shiftl mask s)) in
        rev_loop fuel s mask (rev_step s mask v)
      else v
  end.

Definition rev (v : Z) : Z := rev_loop 7 64 (2 ^ 64 - 1) v.

(** [v |= ~m; v = rev(v); v++; v = rev(v);] *)
Definition next_cursor (m v : Z) : Z := rev (wrap_u64 (rev (Z.lor v (wrap_u64 (Z.lnot m))) + 1)).

(** ** Facts about the reversal *)

Lemma u64_bits v i : 0 <= v < 2 ^ 64 -> 64 <= i -> Z.testbit v i = false.
Proof. intros Hv Hi. rewrite <- (Z.mod_small v (2 ^ 64)) by done. by apply Z.mod_pow2_bits_high. Qed.

Lemma u64_ext a b : 0 <= a < 2 ^ 64 -> 0 <= b < 2 ^ 64 -> (forall i, 0 <= i < 64 -> Z.testbit a i = Z.testbit b i) -> a = b.
Proof.
  intros Ha Hb H. apply Z.bits_inj'. intros i Hi. destruct (Z_lt_le_dec i 64); [by apply H|]. by rewrite !u64_bits.
Qed.

Lemma wrap_bit x i : 0 <= i < 64 -> Z.testbit (wrap_u64 x) i = Z.testbit x i.
Proof. intros. apply Z.mod_pow2_bits_low. lia. Qed.

(** Where the bit [i] of a round comes from. *)
Definition bit_source (s mask i : Z) : Z := if Z.testbit mask i then i + s else i - s.

Lemma rev_step_bit s mask v i : 0 <= s -> 0 <= i < 64 -> Z.testbit (rev_step s mask v) i = Z.testbit v (bit_source s mask i).
Proof.
  intros Hs Hi. unfold rev_step, bit_source. rewrite Z.lor_spec, !Z.land_spec, !wrap_bit, Z.lnot_spec, Z.shiftr_spec, Z.shiftl_spec by lia.
  destruct (Z.testbit mask i); cbn [negb]; by rewrite ?andb_true_r, ?andb_false_r, ?orb_false_r.
Qed.

Definition rounds_of : list (Z * Z) :=
  [(1, 0x5555555555555555); (2, 0x3333333333333333); (4, 0x0f0f0f0f0f0f0f0f); (8, 0x00ff00ff00ff00ff); (16, 0x0000ffff0000ffff); (32, 0x00000000ffffffff)].

Lemma rev_rounds v : rev v = foldr (λ p w, rev_step p.1 p.2 w) v rounds_of.
Proof. cbv -[rev_step]. done. Qed.

Lemma rounds_bit l : Forall (λ p, 0 <= p.1) l -> forall v i,
  (forall l1 l2, l = l1 ++ l2 -> 0 <= foldl (λ i p, bit_source p.1 p.2 i) i l1 < 64) ->
  Z.testbit (foldr (λ p w, rev_step p.1 p.2 w) v l) i = Z.testbit v (foldl (λ i p, bit_source p.1 p.2 i) i l).
Proof.
  induction 1 as [|p l Hp _ IH]; intros v i Hi; [done|]. cbn [foldr foldl]. rewrite rev_step_bit; [|done|by apply (Hi [] (p :: l))].
  apply IH. intros l1 l2 ->. by apply (Hi (p :: l1) l2).
Qed.

(** Bits change places with their mirror images. *)
Lemma rev_bit v i : 0 <= i < 64 -> Z.testbit (rev v) i = Z.testbit v (63 - i).
Proof.
  intros Hi. rewrite rev_rounds.
  assert (forallb (λ j, forallb (λ n, let s := foldl (λ i p, bit_source p.1 p.2 i) (Z.of_nat j) (take n rounds_of) in (0 <=? s) && (s <? 64)) (seq 0 7)
    && (foldl (λ i p, bit_source p.1 p.2 i) (Z.of_nat j) rounds_of =? 63 - Z.of_nat j)) (seq 0 64) = true) as H by (vm_compute; done).
  rewrite forallb_forall in H. specialize (H (Z.to_nat i) ltac:(apply in_seq; lia)). rewrite Z2Nat.id in H by lia.
  apply andb_prop in H as [H E]. apply Z.eqb_eq in E. rewrite rounds_bit, E; [done|repeat constructor; cbn; lia|].
  intros l1 l2 El. rewrite forallb_forall in H. assert (l1 = take (length l1) rounds_of) as -> by (by rewrite El, take_app_length).
  assert (length l1 <= 6)%nat. { apply (f_equal length) in El. rewrite length_app in El. cbn in El. lia. }
  specialize (H (length l1) ltac:(apply in_seq; lia)). cbn zeta in H. apply andb_prop in H as [H1 H2]. lia.
Qed.

Lemma u64_of_bits x : (forall i, 64 <= i -> Z.testbit x i = false) -> 0 <= x < 2 ^ 64.
Proof.
  intros H. assert (x mod 2 ^ 64 = x) as E; [|rewrite <- E; apply Z.mod_pos_bound; lia].
  apply Z.bits_inj'. intros i Hi. destruct (Z_lt_le_dec i 64); [by apply Z.mod_pow2_bits_low|]. rewrite H by done. by apply Z.mod_pow2_bits_high.
Qed.

Lemma rev_range v : 0 <= rev v < 2 ^ 64.
Proof.
  rewrite rev_rounds. cbn [foldr rounds_of fst snd]. apply u64_of_bits. intros i Hi. unfold rev_step at 1.
  rewrite Z.lor_spec, !Z.land_spec, (u64_bits 0x5555555555555555), (u64_bits (wrap_u64 (Z.lnot _))) by (done || lia || apply Z.mod_pos_bound; lia).
  by rewrite !andb_false_r.
Qed.

Lemma rev_rev v : 0 <= v < 2 ^ 64 -> rev (rev v) = v.
Proof.
  intros Hv. apply u64_ext; [apply rev_range|done|]. intros i Hi. rewrite !rev_bit by lia. f_equal. lia.
Qed.

Lemma rev_0 : rev 0 = 0.
Proof. by vm_compute. Qed.

(** The low [n] bits are the high ones of the reversal. *)
Lemma rev_same_high n h v : 0 <= n <= 64 -> 0 <= h < 2 ^ 64 -> 0 <= v < 2 ^ 64 ->
  rev h / 2 ^ (64 - n) = rev v / 2 ^ (64 - n) -> Z.land h (Z.ones n) = Z.land v (Z.ones n).
Proof.
  intros Hn Hh Hv E. apply Z.bits_inj'. intros i Hi. rewrite !Z.land_spec, !Z.testbit_ones_nonneg by lia.
  destruct (Z.ltb_spec i n) as [Hin|]; [|by rewrite !andb_false_r]. rewrite !andb_true_r. apply (f_equal (λ x, Z.testbit x (n - 1 - i))) in E.
  rewrite <- !Z.shiftr_div_pow2, !Z.shiftr_spec, !rev_bit in E by lia. replace (63 - (n - 1 - i + (64 - n))) with i in E by lia. done.
Qed.

Lemma lor_ones x n : 0 <= n -> Z.lor x (Z.ones n) = x / 2 ^ n * 2 ^ n + Z.ones n.
Proof.
  intros Hn. pose proof (Z.add_lor_land (x / 2 ^ n * 2 ^ n) (Z.ones n)) as E.
  assert (Z.land (x / 2 ^ n * 2 ^ n) (Z.ones n) = 0) as E0 by (rewrite Z.land_ones by done; apply Z.mod_mul; lia).
  rewrite E0, Z.add_0_r in E. rewrite <- E. apply Z.bits_inj'. intros i Hi. rewrite !Z.lor_spec, Z.testbit_ones_nonneg by lia.
  destruct (Z.ltb_spec i n); [by rewrite !orb_true_r|]. rewrite !orb_false_r, Z.mul_pow2_bits, <- Z.shiftr_div_pow2, Z.shiftr_spec by lia. f_equal. lia.
Qed.

(** The reversed cursor moves to the next multiple of the stride of the table. *)
Lemma rev_next n v : 0 <= n <= 64 -> 0 <= v < 2 ^ 64 ->
  rev (next_cursor (Z.ones n) v) = (rev v / 2 ^ (64 - n) * 2 ^ (64 - n) + 2 ^ (64 - n)) mod 2 ^ 64.
Proof.
  intros Hn Hv. unfold next_cursor. rewrite rev_rev by (apply Z.mod_pos_bound; lia). unfold wrap_u. f_equal.
  assert (rev (Z.lor v (Z.lnot (Z.ones n) mod 2 ^ 64)) = Z.lor (rev v) (Z.ones (64 - n))) as ->.
  { apply u64_ext; [apply rev_range| |].
    - apply u64_of_bits. intros i Hi. rewrite Z.lor_spec, Z.testbit_ones_nonneg by lia. rewrite (u64_bits (rev v)) by (done || apply rev_range). apply Z.ltb_ge. lia.
    - intros i Hi. rewrite rev_bit, !Z.lor_spec, rev_bit, Z.testbit_ones_nonneg by lia. f_equal.
      rewrite Z.mod_pow2_bits_low, Z.lnot_spec, Z.testbit_ones_nonneg by lia. destruct (Z.ltb_spec (63 - i) n), (Z.ltb_spec i (64 - n)); cbn; lia. }
  rewrite lor_ones by lia. rewrite (Z.ones_equiv (64 - n)). lia.
Qed.

(** A cursor that is not 0 moves forward in the reversed order, and stays below the size. *)
Lemma next_cursor_spec n v : 0 <= n <= 64 -> 0 <= v < 2 ^ 64 ->
  let v' := next_cursor (Z.ones n) v in
  0 <= v' < 2 ^ 64 /\ v' < 2 ^ n /\ (v' = 0 \/ rev v' = rev v / 2 ^ (64 - n) * 2 ^ (64 - n) + 2 ^ (64 - n)).
Proof.
  intros Hn Hv. pose proof (rev_next n v Hn Hv) as E. assert (0 <= next_cursor (Z.ones n) v < 2 ^ 64) as Hr by apply rev_range.
  set (v' := next_cursor (Z.ones n) v) in *. set (L := 2 ^ (64 - n)) in *. assert (2 ^ n * L = 2 ^ 64) as EL by (unfold L; rewrite <- Z.pow_add_r by lia; f_equal; lia).
  assert (0 < L) by (unfold L; lia). assert (0 < 2 ^ n) by lia. cbn zeta. split_and!; [lia..| |].
  - assert (v' mod 2 ^ n = v') as <-; [|apply Z.mod_pos_bound; lia]. apply Z.bits_inj'. intros i Hi.
    destruct (Z_lt_le_dec i n); [by apply Z.mod_pow2_bits_low|]. rewrite Z.mod_pow2_bits_high by lia. destruct (Z_lt_le_dec i 64); [|by rewrite u64_bits].
    rewrite <- (rev_rev v') by lia. rewrite rev_bit by lia.
    assert (rev v' = ((rev v / L + 1) mod 2 ^ n) * L) as -> by (rewrite E, <- EL, (Z.mul_comm (2 ^ n)), <- Z.mul_mod_distr_r by lia; f_equal; lia).
    unfold L. by rewrite Z.mul_pow2_bits_low by lia.
  - pose proof (rev_range v) as Hrv. assert (rev v / L < 2 ^ n) by (apply Z.div_lt_upper_bound; lia). assert (0 <= rev v / L) by (apply Z.div_pos; lia).
    destruct (Z.eq_dec (rev v / L + 1) (2 ^ n)) as [Eq|Hne].
    + left. rewrite <- (rev_rev v') by lia. rewrite E. replace (rev v / L * L + L) with (2 ^ 64) by nia. rewrite Z.mod_same by lia. apply rev_0.
    + right. rewrite E, Z.mod_small; nia.
Qed.

(** ** Facts about the loop over the larger table *)

Lemma loop_cursor n v : 0 <= n <= 32 -> 0 <= v -> v + 2 ^ n < 2 ^ 64 ->
  Z.lor (Z.land (wrap_u64 (Z.lor v (Z.ones n) + 1)) (wrap_u64 (Z.lnot (Z.ones n)))) (Z.land v (Z.ones n)) = v + 2 ^ n.
Proof.
  intros Hn Hv Hb. assert (0 < 2 ^ n) by lia. pose proof (Z.div_mod v (2 ^ n)) as Ed. pose proof (Z.mod_pos_bound v (2 ^ n)) as Hm.
  rewrite lor_ones, Z.land_ones by lia. set (q := v / 2 ^ n) in *. rewrite Z.ones_equiv at 1. replace (q * 2 ^ n + Z.pred (2 ^ n) + 1) with ((q + 1) * 2 ^ n) by lia.
  rewrite (wrap_u_small 64 ((q + 1) * 2 ^ n)) by nia.
  assert (Z.land ((q + 1) * 2 ^ n) (wrap_u64 (Z.lnot (Z.ones n))) = (q + 1) * 2 ^ n) as ->.
  { apply u64_ext; [|nia|].
    - apply u64_of_bits. intros i Hi. rewrite Z.land_spec, (u64_bits (wrap_u64 _)) by (done || apply Z.mod_pos_bound; lia). apply andb_false_r.
    - intros i Hi. rewrite Z.land_spec, wrap_bit, Z.lnot_spec, Z.testbit_ones_nonneg by lia.
      destruct (Z.ltb_spec i n); cbn [negb]; [|by rewrite andb_true_r]. by rewrite Z.mul_pow2_bits_low. }
  pose proof (Z.add_lor_land ((q + 1) * 2 ^ n) (v mod 2 ^ n)) as E.
  assert (Z.land ((q + 1) * 2 ^ n) (v mod 2 ^ n) = 0) as E0.
  { apply Z.bits_inj'. intros i Hi. rewrite Z.land_spec, Z.bits_0. destruct (Z_lt_le_dec i n); [by rewrite Z.mul_pow2_bits_low|].
    by rewrite Z.mod_pow2_bits_high, andb_false_r by lia. }
  rewrite E0 in E. nia.
Qed.

Lemma loop_test n0 n1 v : 0 <= n0 <= n1 ->
  Z.land v (Z.lxor (Z.ones n0) (Z.ones n1)) = ((v / 2 ^ n0) mod 2 ^ (n1 - n0)) * 2 ^ n0.
Proof.
  intros Hn. apply Z.bits_inj'. intros i Hi. rewrite Z.land_spec, Z.lxor_spec, !Z.testbit_ones_nonneg by lia.
  destruct (Z_lt_le_dec i n0).
  - rewrite Z.mul_pow2_bits_low by lia. rewrite !(proj2 (Z.ltb_lt _ _)) by lia. apply andb_false_r.
  - rewrite Z.mul_pow2_bits by lia. rewrite (proj2 (Z.ltb_ge i n0)) by lia. destruct (Z.ltb_spec i n1).
    + rewrite Z.mod_pow2_bits_low, <- Z.shiftr_div_pow2, Z.shiftr_spec by lia. cbn [xorb]. rewrite andb_true_r. f_equal. lia.
    + rewrite Z.mod_pow2_bits_high by lia. apply andb_false_r.
Qed.

Lemma mod_succ q D : 0 < D -> (q + 1) mod D = if q mod D =? D - 1 then 0 else q mod D + 1.
Proof.
  intros HD. pose proof (Z.mod_pos_bound q D HD). rewrite <- Z.add_mod_idemp_l by lia. destruct (Z.eqb_spec (q mod D) (D - 1)) as [->|].
  - replace (D - 1 + 1) with D by lia. apply Z.mod_same. lia.
  - apply Z.mod_small. lia.
Qed.

(** ** The scan *)

Section Scan.
Context {K V : Type} `{!EqDecision K, !Countable K}.
Context (hash : K -> Z).

Abbreviation chain := (list (K * V)).
Abbreviation dictht := (dictht (K := K) (V := V)).
Abbreviation dict := (dict (K := K) (V := V)).

(** Every index of the larger table that continues the cursor.  The calls of [fn] are the list
    of entries. *)
Fixpoint scan_loop (fuel : nat) (t1 : dictht) (m0 m1 v : Z) : cres (chain * Z) :=
  match fuel with
  | O => Undef
  | S fuel =>
      c ← of_ptr (table t1 !! Z.to_nat (Z.land v m1));
      let v := Z.lor (Z.land (wrap_u64 (Z.lor v m0 + 1)) (wrap_u64 (Z.lnot m0))) (Z.land v m0) in
      if Z.land v (Z.lxor m0 m1) =? 0 then mret (c, v)
      else '(cs, v) ← scan_loop fuel t1 m0 m1 v; mret (c ++ cs, v)
  end.

Definition dictScan (d : dict) (v : Z) : cres (chain * Z) :=
  if dictSize d =? 0 then mret ([], 0) else
  if negb (dictIsRehashing d) then
    let m0 := sizemask (ht0 d) in
    c ← of_ptr (table (ht0 d) !! Z.to_nat (Z.land v m0));
    mret (c, next_cursor m0 v)
  else
    let '(t0, t1) := if size (ht1 d) <? size (ht0 d) then (ht1 d, ht0 d) else (ht0 d, ht1 d) in
    let m0 := sizemask t0 in
    let m1 := sizemask t1 in
    c ← of_ptr (table t0 !! Z.to_nat (Z.land v m0));
    '(cs, v) ← scan_loop (Z.to_nat (size t1)) t1 m0 m1 v;
    mret (c ++ cs, next_cursor m0 v).

(** A client that scans to the end, and runs the operations [ops] of the rounds between calls. *)
Fixpoint scan_with (d : dict) (v : Z) (rounds : list (list dop)) : cres (dict * Z * chain) :=
  match rounds with
  | [] => mret (d, v, [])
  | ops :: rounds =>
      '(c, v) ← dictScan d v;
      if v =? 0 then mret (d, v, c) else
      '(d, _) ← run_dops hash d ops;
      '(d, v, cs) ← scan_with d v rounds;
      mret (d, v, c ++ cs)
  end.

(** ** Random samples *)

(** The entries of the chains from slot [i] on, [n] slots with wrap-around; at most [room]. *)
Fixpoint sample_loop (n : nat) (t : dictht) (i : Z) (room : nat) : cres chain :=
  match n with
  | O => mret []
  | S n =>
      c ← of_ptr (table t !! Z.to_nat i);
      if (room <=? length c)%nat then mret (take room c) else
      cs ← sample_loop n t (Z.land (wrap_u32 (i + 1)) (sizemask t)) (room - length c);
      mret (c ++ cs)
  end.

(** From a random slot of a table on. *)
Definition sample (r : Z) (t : dictht) (room : nat) : cres chain :=
  sample_loop (Z.to_nat (wrap_s32 (size t))) t (wrap_u32 (Z.land r (sizemask t))) room.

(** [while (stored < count)]: both tables, and again.  [rnd] are the values of [random]. *)
Fixpoint keys_loop (fuel : nat) (rnd : nat -> Z) (d : dict) (room : nat) : cres chain :=
  match fuel with
  | O => Undef
  | S fuel =>
      l0 ← sample (rnd 0%nat) (ht0 d) room;
      if Nat.eqb (length l0) room then mret l0 else
      _ ← prez_assert (dictIsRehashing d);
      l1 ← sample (rnd 1%nat) (ht1 d) (room - length l0);
      if Nat.eqb (length l0 + length l1) room then mret (l0 ++ l1) else
      _ ← prez_assert (dictIsRehashing d);
      l ← keys_loop fuel (λ i, rnd (2 + i)%nat) d (room - length l0 - length l1);
      mret (l0 ++ l1 ++ l)
  end.

(** One round is enough: both tables hold [dictSize] entries. *)
Definition dictGetRandomKeys (rnd : nat -> Z) (d : dict) (count : Z) : cres chain :=
  let count := if dictSize d <? wrap_u64 count then wrap_s32 (dictSize d) else count in
  if 0 <? count then keys_loop 1 rnd d (Z.to_nat count) else mret [].

(** ** One call *)

Lemma wf_mask (t : dictht) : ht_wf hash t -> 0 < size t -> exists n, 0 <= n <= 30 /\ size t = 2 ^ n /\ sizemask t = Z.ones n.
Proof.
  intros W Hs. destruct (hw_pow _ _ W) as [->|(n & Hn & E1 & E2)]; [done|]. exists n. split_and!; try lia. rewrite Z.ones_equiv. lia.
Qed.

Lemma chain_in (t : dictht) n v : ht_wf hash t -> 0 <= n <= 30 -> size t = 2 ^ n ->
  exists c, table t !! Z.to_nat (Z.land v (Z.ones n)) = Some c /\ (forall e, e ∈ c -> e ∈ concat (table t)).
Proof.
  intros W Hn Es. pose proof (Z.mod_pos_bound v (2 ^ n)). pose proof (hw_size _ _ W). destruct (lookup_lt_is_Some_2 (table t) (Z.to_nat (Z.land v (Z.ones n)))) as [c E].
  { rewrite Z.land_ones by lia. lia. }
  exists c. split; [done|]. intros e He. apply elem_of_concat. exists c. split; [done|]. by eapply list_elem_of_lookup_2.
Qed.

(** Where a key is. *)
Lemma key_chain (t : dictht) n k x c : ht_wf hash t -> sizemask t = Z.ones n -> (k, x) ∈ concat (table t) ->
  table t !! Z.to_nat (Z.land (hash k) (Z.ones n)) = Some c -> (k, x) ∈ c.
Proof.
  intros W Em Hin Ec. apply elem_of_concat in Hin as (c' & Hc & Ht). apply list_elem_of_lookup in Ht as [i Ei].
  pose proof (hw_slot _ _ W i c' k x Ei Hc) as <-. unfold slot in Ei. rewrite Em in Ei. congruence.
Qed.

Lemma scan_loop_spec (t : dictht) n0 n1 : ht_wf hash t -> 0 <= n0 <= n1 -> n1 <= 30 -> size t = 2 ^ n1 -> forall fuel v, 0 <= v ->
  let k := 2 ^ (n1 - n0) - (v / 2 ^ n0) mod 2 ^ (n1 - n0) in
  v + k * 2 ^ n0 < 2 ^ 64 -> k <= Z.of_nat fuel ->
  exists out, scan_loop fuel t (Z.ones n0) (Z.ones n1) v = Ret (out, v + k * 2 ^ n0) /\ (forall e, e ∈ out -> e ∈ concat (table t))
    /\ forall j c e, 0 <= j < k -> table t !! Z.to_nat (Z.land (v + j * 2 ^ n0) (Z.ones n1)) = Some c -> e ∈ c -> e ∈ out.
Proof.
  intros W Hn Hn1 Es. set (D := 2 ^ (n1 - n0)). assert (0 < D) as HD by (unfold D; lia). assert (0 < 2 ^ n0) as H0 by lia.
  induction fuel as [|fuel IH]; intros v Hv k Hb Hf; pose proof (Z.mod_pos_bound (v / 2 ^ n0) D HD); [lia|]. cbn [scan_loop].
  destruct (chain_in t n1 v W ltac:(lia) Es) as (c & Ec & Hc). rewrite Ec. cbn [of_ptr mbind cres_bind].
  assert (k * 2 ^ n0 >= 2 ^ n0) by nia. rewrite loop_cursor, loop_test by lia. fold D.
  assert ((v + 2 ^ n0) / 2 ^ n0 = v / 2 ^ n0 + 1) as Eq by (rewrite <- (Z.mul_1_l (2 ^ n0)) at 1; apply Z.div_add; lia).
  rewrite Eq, mod_succ by done. destruct (Z.eqb_spec ((v / 2 ^ n0) mod D) (D - 1)) as [El|El].
  - cbn [Z.mul Z.eqb]. assert (k = 1) as Ek by (unfold k; lia). exists c. rewrite Ek, Z.mul_1_l. split_and!; [done|done|].
    intros j c' e Hj Ec' He. assert (j = 0) as -> by lia. rewrite Z.add_0_r in Ec'. congruence.
  - rewrite (proj2 (Z.eqb_neq _ 0)) by nia. specialize (IH (v + 2 ^ n0) ltac:(lia)). cbn zeta in IH. rewrite Eq, mod_succ in IH by done.
    rewrite (proj2 (Z.eqb_neq _ _) El) in IH. replace (v + 2 ^ n0 + (D - ((v / 2 ^ n0) mod D + 1)) * 2 ^ n0) with (v + k * 2 ^ n0) in IH by (unfold k; lia).
    destruct IH as (out & -> & Ho & Hall); [done|unfold k in Hf; lia|]. cbn [mbind cres_bind]. exists (c ++ out). split_and!; [done| |].
    + intros e [He|He]%elem_of_app; auto.
    + intros j c' e Hj Ec' He. apply elem_of_app. destruct (Z.eq_dec j 0) as [->|Hj0]; [left; rewrite Z.add_0_r in Ec'; congruence|]. right.
      apply (Hall (j - 1) c'); [unfold k in Hj; lia| |done]. replace (v + 2 ^ n0 + (j - 1) * 2 ^ n0) with (v + j * 2 ^ n0) by lia. done.
Qed.

Context (hash_range : forall k, 0 <= hash k < 2 ^ 64).

(** A cursor that comes from these tables, or smaller ones. *)
Definition scan_ready (d : dict) (v : Z) : Prop :=
  0 <= v < 2 ^ 64 /\ (dictIsRehashing d = true -> v < size (ht0 d) /\ v < size (ht1 d)).

(** A call emits the entries between the cursors, in the reversed order. *)
Definition emits (d : dict) (v : Z) (out : chain) (v' : Z) : Prop :=
  (forall e, e ∈ out -> e ∈ contents d)
  /\ forall k x, (k, x) ∈ contents d -> rev v <= rev (hash k) -> v' = 0 \/ rev (hash k) < rev v' -> (k, x) ∈ out.

Definition cursor_moves (n v v' : Z) : Prop :=
  0 <= v' < 2 ^ 64 /\ v' < 2 ^ n /\ (v' = 0 \/ rev v + 1 <= rev v' /\ (2 ^ (64 - n) | rev v')).

Lemma next_moves n v : 0 <= n <= 64 -> 0 <= v < 2 ^ 64 -> cursor_moves n v (next_cursor (Z.ones n) v).
Proof.
  intros Hn Hv. destruct (next_cursor_spec n v Hn Hv) as (H1 & H2 & H3). split_and!; [lia..|]. destruct H3 as [H3|H3]; [by left|right].
  assert (0 < 2 ^ (64 - n)) as HL by lia. pose proof (Z.div_mod (rev v) (2 ^ (64 - n))). pose proof (Z.mod_pos_bound (rev v) (2 ^ (64 - n)) HL).
  rewrite H3. split; [lia|]. exists (rev v / 2 ^ (64 - n) + 1). lia.
Qed.

(** A key between the cursors has the low bits of the cursor. *)
Lemma between_slot n v k : 0 <= n <= 64 -> 0 <= v < 2 ^ 64 -> rev v <= rev (hash k) ->
  next_cursor (Z.ones n) v = 0 \/ rev (hash k) < rev (next_cursor (Z.ones n) v) -> Z.land (hash k) (Z.ones n) = Z.land v (Z.ones n).
Proof.
  intros Hn Hv Hle Hlt. apply rev_same_high; [done|apply hash_range|done|]. destruct (next_cursor_spec n v Hn Hv) as (_ & _ & H3).
  pose proof (rev_next n v Hn Hv) as Hx. set (L := 2 ^ (64 - n)) in *. assert (0 < L) as HL by (unfold L; lia).
  assert (2 ^ n * L = 2 ^ 64) as EL by (unfold L; rewrite <- Z.pow_add_r by lia; f_equal; lia). pose proof (rev_range (hash k)). pose proof (rev_range v).
  assert (rev v / L <= rev (hash k) / L) by (apply Z.div_le_mono; lia).
  assert (rev (hash k) / L < rev v / L + 1); [|lia]. apply Z.div_lt_upper_bound; [done|].
  pose proof (Z.div_lt_upper_bound (rev v) L (2 ^ n)). assert (0 <= rev v / L) by (apply Z.div_pos; lia).
  assert (forall r, r * L + L < 2 ^ 64 -> 0 <= r -> (r * L + L) mod 2 ^ 64 = r * L + L) as Hs by (intros; apply Z.mod_small; nia).
  destruct Hlt as [E|Hlt].
  - rewrite E, rev_0 in Hx. destruct (Z.eq_dec (rev v / L + 1) (2 ^ n)); [nia|]. rewrite Hs in Hx; nia.
  - destruct H3 as [E|E]; [rewrite E, rev_0 in Hlt; lia|]. lia.
Qed.

(** Two tables, the smaller one first. *)
Lemma scan_two (t0 t1 : dictht) v : ht_wf hash t0 -> ht_wf hash t1 -> 0 < size t0 <= size t1 -> 0 <= v < size t0 ->
  exists c cs v' n, (c ← of_ptr (table t0 !! Z.to_nat (Z.land v (sizemask t0)));
      '(cs, v) ← scan_loop (Z.to_nat (size t1)) t1 (sizemask t0) (sizemask t1) v; mret (c ++ cs, next_cursor (sizemask t0) v)) = Ret (c ++ cs, v')
    /\ (forall e, e ∈ c ++ cs -> e ∈ concat (table t0) ++ concat (table t1))
    /\ (forall k x, (k, x) ∈ concat (table t0) ++ concat (table t1) -> rev v <= rev (hash k) -> v' = 0 \/ rev (hash k) < rev v' -> (k, x) ∈ c ++ cs)
    /\ 0 <= n <= 30 /\ size t0 = 2 ^ n /\ cursor_moves n v v'.
Proof.
  intros W0 W1 Hs Hv. destruct (wf_mask t0 W0 ltac:(lia)) as (n0 & Hn0 & Es0 & Em0). destruct (wf_mask t1 W1 ltac:(lia)) as (n1 & Hn1 & Es1 & Em1).
  assert (n0 <= n1) as Hle by (apply (Z.pow_le_mono_r_iff 2); lia). rewrite Em0, Em1.
  destruct (chain_in t0 n0 v W0 Hn0 Es0) as (c & Ec & Hc). rewrite Ec. cbn [of_ptr mbind cres_bind].
  assert (2 ^ n1 = 2 ^ n0 * 2 ^ (n1 - n0)) as E1 by (rewrite <- Z.pow_add_r by lia; f_equal; lia).
  assert (2 ^ n1 <= 2 ^ 30) by (apply Z.pow_le_mono_r; lia). assert (0 < 2 ^ n0) by lia. assert (0 < 2 ^ (n1 - n0)) by lia.
  assert (v / 2 ^ n0 = 0) as Ev by (apply Z.div_small; lia). pose proof (scan_loop_spec t1 n0 n1 W1 ltac:(lia) ltac:(lia) Es1 (Z.to_nat (size t1)) v ltac:(lia)) as Hl.
  cbn zeta in Hl. rewrite Ev, Z.mod_0_l, Z.sub_0_r in Hl by lia. destruct Hl as (cs & -> & Hcs & Hall); [nia|nia|]. cbn [mbind cres_bind].
  set (v1 := v + 2 ^ (n1 - n0) * 2 ^ n0).
  assert (next_cursor (Z.ones n0) v1 = next_cursor (Z.ones n0) v) as Enx.
  { rewrite <- (rev_rev (next_cursor _ v1)), <- (rev_rev (next_cursor _ v)) by apply rev_range. f_equal. rewrite !rev_next by (unfold v1; nia). f_equal. f_equal. f_equal.
    rewrite <- !Z.shiftr_div_pow2 by lia. apply Z.bits_inj'. intros i Hi. rewrite !Z.shiftr_spec by lia. destruct (Z_lt_le_dec (i + (64 - n0)) 64);
      [|rewrite !u64_bits; (done || apply rev_range)]. rewrite !rev_bit by lia. set (b := 63 - (i + (64 - n0))). assert (0 <= b < n0) as Hb by (unfold b; lia).
    rewrite <- (Z.mod_pow2_bits_low v1 n0 b), <- (Z.mod_pow2_bits_low v n0 b) by lia. unfold v1. by rewrite Z.mod_add by lia. }
  exists c, cs, (next_cursor (Z.ones n0) v), n0. split_and!; try lia; [by rewrite Enx| | |apply next_moves; lia].
  - intros e [He|He]%elem_of_app; apply elem_of_app; auto.
  - intros k x Hin Hge Hlt. pose proof (between_slot n0 v k ltac:(lia) ltac:(lia) Hge Hlt) as Eb. apply elem_of_app. apply elem_of_app in Hin as [Hin|Hin].
    + left. eapply key_chain; [exact W0|exact Em0|done|]. by rewrite Eb.
    + right. destruct (chain_in t1 n1 (hash k) W1 Hn1 Es1) as (c1 & Ec1 & _). apply (Hall ((hash k / 2 ^ n0) mod 2 ^ (n1 - n0)) c1); [apply Z.mod_pos_bound; lia| |].
      * rewrite !Z.land_ones in * by lia. rewrite <- Ec1. do 2 f_equal. rewrite (Z.mod_small v) in Eb by lia.
        rewrite E1, (Z.rem_mul_r (hash k)), Eb by lia. pose proof (Z.mod_pos_bound (hash k / 2 ^ n0) (2 ^ (n1 - n0))). rewrite Z.mod_small; nia.
      * by eapply key_chain.
Qed.

Lemma dictScan_spec d v : dict_wf hash d -> scan_ready d v ->
  exists out v', dictScan d v = Ret (out, v') /\ emits d v out v' /\
    (v' = 0 \/ exists n, 0 <= n <= 30 /\ 2 ^ n <= size (ht0 d) /\ cursor_moves n v v' /\ (dictIsRehashing d = true -> 2 ^ n <= size (ht1 d))).
Proof.
  intros W [Hv Hr]. unfold dictScan. destruct (Z.eqb_spec (dictSize d) 0) as [Hz|Hz].
  { exists [], 0. split; [done|]. split; [|by left]. split; [by intros e He%elem_of_nil|]. rewrite (used_length hash d W) in Hz. intros k x Hin.
    destruct (contents d); [by apply elem_of_nil in Hin|cbn in Hz; lia]. }
  destruct (rehashing_cases hash d W) as [[Er E1]|(Er & Hs0 & Hs1)]; rewrite Er; cbn [negb].
  - assert (0 < size (ht0 d)) as Hs0.
    { destruct (hw_pow _ _ (dw_ht0 _ d W)) as [E0|(n & Hn & -> & _)]; [|lia]. exfalso. apply Hz. unfold dictSize. by rewrite E0, E1. }
    destruct (wf_mask (ht0 d) (dw_ht0 _ d W) Hs0) as (n & Hn & Es & ->).
    destruct (chain_in (ht0 d) n v (dw_ht0 _ d W) Hn Es) as (c & Ec & Hc). rewrite Ec. cbn [of_ptr mbind cres_bind].
    eexists c, _. split; [done|]. split; [split|].
    + intros e He. apply elem_of_app. left. auto.
    + unfold contents. rewrite E1. cbn [table _dictReset concat]. rewrite app_nil_r. intros k x Hin Hle Hlt.
      assert (sizemask (ht0 d) = Z.ones n) as Em.
      { destruct (hw_pow _ _ (dw_ht0 _ d W)) as [E0|(n' & Hn' & E' & ->)]; [by rewrite E0 in Hs0|]. rewrite Z.ones_equiv. lia. }
      eapply key_chain; [apply W|exact Em|done|]. by rewrite (between_slot n v k) by (done || lia).
    + right. exists n. split_and!; [lia..|apply next_moves; lia|done].
  - specialize (Hr Er). destruct (Z.ltb_spec (size (ht1 d)) (size (ht0 d))) as [Hlt|Hge].
    + destruct (scan_two (ht1 d) (ht0 d) v (dw_ht1 _ d W) (dw_ht0 _ d W) ltac:(lia) ltac:(lia)) as (c & cs & v' & n & -> & H1 & H2 & Hn & Es & Hm).
      eexists _, v'. split; [done|]. split; [|right; exists n; split_and!; try done; lia]. unfold contents.
      split; [intros e He%H1; set_solver|intros k x Hin; apply H2; set_solver].
    + destruct (scan_two (ht0 d) (ht1 d) v (dw_ht0 _ d W) (dw_ht1 _ d W) ltac:(lia) ltac:(lia)) as (c & cs & v' & n & -> & H1 & H2 & Hn & Es & Hm).
      eexists _, v'. split; [done|]. split; [by split|]. right. exists n. split_and!; try done; lia.
Qed.
End Scan.
