(* ===== verification/DictScanFacts.v ===== *)
(** * dict.c: what scans and samples return

    A scan of a table on which other operations run between the calls: while tables only grow,
    every key that is there at each call is returned, and the scan ends.  A table that shrinks
    can lose keys, which the comment in src/src/dict.c excludes.  A random sample has as many
    entries as were asked for, and none twice. *)

From Stdlib Require Import ZArith Lia.
From stdpp Require Import base tactics numbers list gmap.
From S2P Require Import Prelude Dict DictScan.

Local Open Scope Z_scope.

Section Growth.
Context {K V : Type} `{!EqDecision K, !Countable K}.
Context (hash : K -> Z).

Abbreviation dict := (dict (K := K) (V := V)).

(** ** Tables that only grow *)

Definition growing (d : dict) : Prop := dictIsRehashing d = true -> size (ht0 d) < size (ht1 d).

Definition grows (d d' : dict) : Prop := growing d -> size (ht0 d) <= size (ht0 d') /\ growing d'.

#[local] Instance grows_preorder : PreOrder grows.
Proof. split; [by intros d; split|]. intros d1 d2 d3 H1 H2 G. destruct (H1 G) as [L1 G1], (H2 G1). split; [lia|done]. Qed.

(** The sizes and the state of the rehashing are the same. *)
Lemma grows_same d d' : size (ht0 d') = size (ht0 d) -> size (ht1 d') = size (ht1 d) -> rehashidx d' = rehashidx d -> grows d d'.
Proof. intros E0 E1 Er G. unfold growing, dictIsRehashing in *. rewrite E0, E1, Er. by split. Qed.

Lemma ht_push_size (t t' : dictht) h (k : K) (v : V) : ht_push t h k v = Ret t' -> size t' = size t.
Proof. unfold ht_push. intros H. cinv. by subst. Qed.

Lemma move_chain_size c : forall u (t : dictht (K := K) (V := V)) u' t', move_chain hash c u t = Ret (u', t') -> size t' = size t.
Proof.
  induction c as [|[k v] c IH]; intros u t u' t' H; cbn [move_chain] in H; cinv; simplify_eq; [done|].
  etransitivity; [by eapply IH|by eapply ht_push_size].
Qed.

Lemma rehash_loop_grows n : forall (d d' : dict) r, size (ht0 d) < size (ht1 d) -> rehash_loop hash n d = Ret (d', r) ->
  size (ht0 d) <= size (ht0 d') /\ growing d'.
Proof.
  induction n as [|n IH]; intros d d' r Hs H; cbn [rehash_loop] in H; [cinv; simplify_eq; split; [lia|by intros _]|].
  destruct (_ =? _). { cinv. simplify_eq. split; [cbn; lia|]. by intros E. }
  apply cres_bind_ret in H as (_ & _ & H). apply cres_bind_ret in H as (i & _ & H). apply cres_bind_ret in H as (c & _ & H).
  apply cres_bind_ret in H as ([u t1] & Hm & H). apply move_chain_size in Hm. apply IH in H; cbn [ht0 ht1 size] in *; [done|lia].
Qed.

Lemma maybe_step_grows (d d' : dict) : maybe_step hash d = Ret d' -> grows d d'.
Proof.
  unfold maybe_step, _dictRehashStep, dictRehash. destruct (dictIsRehashing d) eqn:Er; [|intros [= <-]; reflexivity].
  destruct (iterators d =? 0); [|intros [= <-]; reflexivity]. intros H G. apply cres_bind_ret in H as ([d1 r] & H & [= <-]).
  apply rehash_loop_grows in H; [done|by apply G].
Qed.

Lemma rehash_grows (d d' : dict) n r : dictRehash hash d n = Ret (d', r) -> grows d d'.
Proof.
  unfold dictRehash. destruct (dictIsRehashing d) eqn:Er; [|intros [= <- _]; reflexivity]. intros H G. apply rehash_loop_grows in H; [done|by apply G].
Qed.

Lemma find_grows (d d' : dict) k o : dictFind hash d k = Ret (d', o) -> grows d d'.
Proof.
  unfold dictFind. destruct (_ =? _); [intros [= <- _]; reflexivity|]. intros H. apply cres_bind_ret in H as (d1 & H1 & H).
  apply cres_bind_ret in H as (f & _ & [= <- _]). by apply maybe_step_grows.
Qed.

(** A table is expanded to more slots than it has. *)
Lemma expand_grows can (d : dict) : dict_wf hash d -> Z.of_nat (length (contents d)) <= 2 ^ 29 -> grows d (_dictExpandIfNeeded can d).1.
Proof.
  intros W Hb G. pose proof (used_le hash d W) as Hu. pose proof (hw_size _ _ (dw_ht0 _ d W)) as Hsz. unfold _dictExpandIfNeeded.
  destruct (dictIsRehashing d) eqn:Er; [by split|].
  assert (forall s, s <= 2 ^ 30 -> size (ht0 d) < s -> size (ht0 d) <= size (ht0 (dictExpand d s).1) /\ growing (dictExpand d s).1) as He.
  { intros s Hs Hlt. unfold dictExpand. destruct (_ || _); [by split|]. destruct (dictNextPower_spec s Hs) as (b & Hb2 & E & Hle). case_bool_decide as Et; cbn [fst].
    - split; [cbn; rewrite Hsz, Et, E; cbn; lia|]. unfold growing, dictIsRehashing. cbn. unfold dictIsRehashing in Er. by rewrite Er.
    - split; [done|]. unfold growing. cbn. lia. }
  destruct (Z.eqb_spec (size (ht0 d)) 0) as [Hz|Hz]; [apply He; unfold DICT_HT_INITIAL_SIZE; lia|].
  destruct (Z.leb_spec (size (ht0 d)) (used (ht0 d))); [|by split]. destruct (_ && _); [apply He; lia|by split].
Qed.

Lemma push_grows (d d' : dict) h k v :
  (if dictIsRehashing d then t1 ← ht_push (ht1 d) h k v; mret (mkDict (ht0 d) t1 (rehashidx d) (iterators d), true)
   else t0 ← ht_push (ht0 d) h k v; mret (mkDict t0 (ht1 d) (rehashidx d) (iterators d), true)) = Ret (d', true) -> grows d d'.
Proof.
  destruct (dictIsRehashing d); intros H; apply cres_bind_ret in H as (t & Ht & [= <-]); apply ht_push_size in Ht; by apply grows_same.
Qed.

Lemma addRaw_grows can (d d' : dict) m k v b : rep hash d m -> (base.size m <= Z.to_nat (2 ^ 29))%nat -> dictAddRaw hash can d k v = Ret (d', b) -> grows d d'.
Proof.
  intros [W Em] Hb. assert (rep hash d m) as R by done. unfold dictAddRaw. destruct (maybe_step_spec hash d W) as (d1 & E1 & W1 & P1 & _). rewrite E1. cbn [mbind cres_bind].
  apply maybe_step_grows in E1. intros H. apply cres_bind_ret in H as ([d2 i] & Hk & H).
  assert (Z.of_nat (length (contents d1)) <= 2 ^ 29) as Hl.
  { rewrite P1, (rep_length hash d m R). lia. }
  assert (grows d1 d2) as G2.
  { pose proof (expand_grows can d1 W1 Hl) as He. unfold _dictKeyIndex in Hk. destruct (_dictExpandIfNeeded can d1) as [d3 r]. cbn [fst] in He.
    destruct (r =? DICT_ERR); [by injection Hk as <- _|]. apply cres_bind_ret in Hk as (f & _ & Hk). destruct f; by injection Hk as <- _. }
  destruct (i =? -1); [injection H as <- _; by transitivity d1|]. apply cres_bind_ret in H as (_ & _ & H).
  destruct b; [|destruct (dictIsRehashing d2); apply cres_bind_ret in H as (? & _ & [= _ ?])]. apply push_grows in H. transitivity d1; [done|by transitivity d2].
Qed.

Lemma add_grows can (d d' : dict) m k v r : rep hash d m -> (base.size m <= Z.to_nat (2 ^ 29))%nat -> dictAdd hash can d k v = Ret (d', r) -> grows d d'.
Proof. intros R Hb H. unfold dictAdd in H. apply cres_bind_ret in H as ([d1 b] & H & [= <- _]). by eapply addRaw_grows. Qed.

Lemma ht_set_size (t t' : dictht) (k : K) (v : V) : ht_set hash t k v = Ret t' -> size t' = size t.
Proof. unfold ht_set. intros H. cinv. by subst. Qed.

Lemma replace_grows can (d d' : dict) m k v r : rep hash d m -> (base.size m <= Z.to_nat (2 ^ 29))%nat -> dictReplace hash can d k v = Ret (d', r) -> grows d d'.
Proof.
  intros R Hb H. unfold dictReplace in H. apply cres_bind_ret in H as ([d1 r1] & H1 & H). apply (add_grows can d d1 m) in H1; [|done..].
  destruct (_ =? _); [by injection H as <- _|]. apply cres_bind_ret in H as ([d2 f] & H2 & H). apply find_grows in H2. apply cres_bind_ret in H as (_ & _ & H).
  apply cres_bind_ret in H as (d3 & H3 & [= <- _]). transitivity d1; [done|]. transitivity d2; [done|]. unfold entry_set in H3.
  apply cres_bind_ret in H3 as (c & _ & H3). destruct (chain_find c k); apply cres_bind_ret in H3 as (t & Ht & [= <-]); apply ht_set_size in Ht; by apply grows_same.
Qed.

Lemma ht_del_size (t : dictht) t' (k : K) : ht_del (V := V) hash t k = Ret (Some t') -> size t' = size t.
Proof. unfold ht_del. intros H. apply cres_bind_ret in H as (c & _ & H). destruct (chain_del c k); [|done]. by injection H as <-. Qed.

Lemma delete_grows (d d' : dict) k r : dictDelete hash d k = Ret (d', r) -> grows d d'.
Proof.
  unfold dictDelete, dictGenericDelete. destruct (_ =? _); [intros [= <- _]; reflexivity|]. intros H. apply cres_bind_ret in H as (d1 & H1 & H).
  apply maybe_step_grows in H1. transitivity d1; [done|]. apply cres_bind_ret in H as ([t0|] & Ht & H).
  { injection H as <- _. apply ht_del_size in Ht. by apply grows_same. }
  destruct (dictIsRehashing d1); [|injection H as <- _; reflexivity]. apply cres_bind_ret in H as ([t1|] & Ht1 & H); injection H as <- _; [|reflexivity].
  apply ht_del_size in Ht1. by apply grows_same.
Qed.

(** The operations that do not shrink a table. *)
Definition keeps_size (op : dop (K := K) (V := V)) : bool := match op with DResize _ | DEmpty => false | _ => true end.

Lemma op_grows (d d' : dict) m op o : rep hash d m -> (base.size m <= Z.to_nat (2 ^ 29))%nat -> keeps_size op = true ->
  run_dop hash d op = Ret (d', o) -> grows d d'.
Proof.
  intros R Hb Hk H. destruct op as [can k v|can k v|k|k|n|can|]; try done; cbn [run_dop] in H; apply cres_bind_ret in H as ([d1 r] & H & [= <- _]).
  - by eapply add_grows.
  - by eapply replace_grows.
  - by eapply delete_grows.
  - by eapply find_grows.
  - by eapply rehash_grows.
Qed.

Lemma ops_grow ops : forall (d d' : dict) m os, rep hash d m -> (base.size m + length ops <= Z.to_nat (2 ^ 29))%nat -> forallb keeps_size ops = true ->
  run_dops hash d ops = Ret (d', os) -> grows d d'.
Proof.
  induction ops as [|op ops IH]; intros d d' m os R Hb Hk H; cbn [run_dops forallb length] in *; [injection H as <- _; reflexivity|].
  apply andb_prop in Hk as [Hk Hks]. destruct (run_dop_spec hash d m op R) as (d1 & E1 & R1); [lia|]. rewrite E1 in H. cbn [mbind cres_bind] in H.
  apply (op_grows d d1 m) in E1; [|done|lia|done]. apply cres_bind_ret in H as ([d2 os2] & H & [= <- _]). pose proof (spec_dop_size m op).
  transitivity d1; [done|]. eapply (IH d1 d2 _ os2 R1); [lia|done|done].
Qed.
End Growth.

(** ** A whole scan *)

Section Programs.
Context {K V : Type} `{!EqDecision K, !Countable K}.
Context (hash : K -> Z) (hash_range : forall k, 0 <= hash k < 2 ^ 64).

Abbreviation dict := (dict (K := K) (V := V)).
Abbreviation dop := (dop (K := K) (V := V)).

(** The map at each call of the scan. *)
Fixpoint maps_at (m : gmap K V) (rounds : list (list dop)) : list (gmap K V) :=
  match rounds with [] => [] | ops :: rounds => m :: maps_at (spec_dops m ops).1 rounds end.

Definition total (rounds : list (list dop)) : nat := sum_list_with length rounds.

Lemma in_contents (d : dict) m k x : rep hash d m -> m !! k = Some x <-> (k, x) ∈ contents d.
Proof. intros [W <-]. unfold to_map. symmetry. apply elem_of_list_to_map, W. Qed.

Lemma spec_dops_size ops : forall m : gmap K V, (base.size (spec_dops m ops).1 <= base.size m + length ops)%nat.
Proof.
  induction ops as [|op ops IH]; intros m; cbn [spec_dops length]; [cbn; lia|]. pose proof (spec_dop_size m op). destruct (spec_dop m op) as [m1 o].
  specialize (IH m1). destruct (spec_dops m1 ops) as [m2 os]. cbn in *. lia.
Qed.

Lemma growing_ready (d : dict) v : dict_wf hash d -> growing d -> 0 <= v < 2 ^ 64 -> v = 0 \/ v < size (ht0 d) -> scan_ready d v.
Proof.
  intros W G Hv H. split; [done|]. intros Er. specialize (G Er). destruct (rehashing_cases hash d W) as [[E _]|(_ & H0 & _)]; [congruence|]. lia.
Qed.

Lemma stride_step s a b : 0 <= s <= 64 -> (2 ^ (64 - s) | a) -> (2 ^ (64 - s) | b) -> a + 1 <= b -> a + 2 ^ (64 - s) <= b.
Proof. intros Hs [x ->] [y ->] H. assert (0 < 2 ^ (64 - s)) as HL by lia. assert (x < y) by (apply (Z.mul_lt_mono_pos_r (2 ^ (64 - s))); lia). nia. Qed.

Lemma stride_wider n s a : 0 <= n <= s -> s <= 64 -> (2 ^ (64 - n) | a) -> (2 ^ (64 - s) | a).
Proof.
  intros Hn Hs [x ->]. exists (x * 2 ^ (s - n)). rewrite <- Z.mul_assoc, <- Z.pow_add_r by lia. do 2 f_equal. lia.
Qed.

(** What a scan from the cursor [v] does. *)
Record scanned (d : dict) (m : gmap K V) (v : Z) (rounds : list (list dop)) (d' : dict) (v' : Z) (out : list (K * V)) : Prop := {
  sd_wf : dict_wf hash d';
  sd_size : size (ht0 d) <= size (ht0 d');
  sd_nil : rounds = [] -> v' = v;
  sd_all k : Forall (λ m, is_Some (m !! k)) (maps_at m rounds) -> rev v <= rev (hash k) ->
    v' = 0 /\ rounds <> [] \/ rev (hash k) < rev v' -> k ∈ out.*1;
  sd_sound k x : (k, x) ∈ out -> exists m', m' ∈ maps_at m rounds /\ m' !! k = Some x;
  sd_steps s : 0 <= s <= 64 -> size (ht0 d') <= 2 ^ s -> (2 ^ (64 - s) | rev v) ->
    v' = 0 \/ rev v + Z.of_nat (length rounds) * 2 ^ (64 - s) <= rev v';
}.

Lemma scan_with_spec rounds : forall (d : dict) m v, rep hash d m -> growing d -> 0 <= v < 2 ^ 64 -> v = 0 \/ v < size (ht0 d) ->
  (base.size m + total rounds <= Z.to_nat (2 ^ 29))%nat -> forallb (forallb keeps_size) rounds = true ->
  exists d' v' out, scan_with hash d v rounds = Ret (d', v', out) /\ scanned d m v rounds d' v' out.
Proof.
  induction rounds as [|ops rounds IH]; intros d m v R G Hv Hlt Hb Hk; cbn [scan_with].
  { exists d, v, []. split; [done|]. constructor; [apply R|done|done| |by intros k x ?%elem_of_nil|intros; right; cbn; lia].
    intros k _ Hle [[_ []]|H]; [done|lia]. }
  destruct (dictScan_spec hash hash_range d v (proj1 R) (growing_ready d v (proj1 R) G Hv Hlt)) as (c & v1 & -> & [Es Ea] & Hm). cbn [mbind cres_bind].
  assert (forall k x, (k, x) ∈ c -> m !! k = Some x) as Hsound by (intros k x Hin; apply (in_contents d m k x R); auto).
  assert (forall k, is_Some (m !! k) -> rev v <= rev (hash k) -> v1 = 0 \/ rev (hash k) < rev v1 -> k ∈ c.*1) as Hall.
  { intros k [x Hx] H1 H2. apply (in_contents d m k x R) in Hx. apply list_elem_of_fmap. exists (k, x). split; [done|]. by apply Ea. }
  destruct (Z.eqb_spec v1 0) as [->|Hn].
  { exists d, 0, c. split; [done|]. constructor; [apply R|done|done| | |by left].
    - intros k Hp H1 _. cbn [maps_at] in Hp. inversion Hp; subst. apply Hall; auto.
    - intros k x Hin. exists m. split; [left|auto]. }
  destruct Hm as [?|(n & Hn30 & Hsz & (Hv1 & Hv2 & [?|[Hstep Hdiv]]) & _)]; [done|done|]. cbn [forallb total sum_list_with] in *. apply andb_prop in Hk as [Hk Hks].
  destruct (run_dops_spec hash ops d m R) as (d1 & E1 & R1); [lia|]. rewrite E1. cbn [mbind cres_bind]. apply (ops_grow hash ops d d1 m) in E1; [|done|lia|done].
  destruct (E1 G) as [L1 G1]. pose proof (spec_dops_size ops m). destruct (IH d1 (spec_dops m ops).1 v1 R1 G1) as (d2 & v2 & cs & -> & [W2 Hs2 Sn2 Ha2 So2 St2]); [done|lia|unfold total in *; lia|done|].
  cbn [mbind cres_bind]. exists d2, v2, (c ++ cs). split; [done|]. constructor; [done|lia|done| | |].
  - intros k Hp H1 H2. cbn [maps_at] in Hp. inversion Hp as [|? ? P1 P2]; subst. rewrite fmap_app. apply elem_of_app.
    destruct (Z_lt_le_dec (rev (hash k)) (rev v1)); [left; apply Hall; auto|right]. apply Ha2; [done|done|]. destruct H2 as [[H2 _]|H2]; [|by right]. left. split; [done|].
    intros ->. apply Hn. rewrite <- H2. symmetry. by apply Sn2.
  - intros k x [Hin|Hin]%elem_of_app; [exists m; split; [left|auto]|]. destruct (So2 k x Hin) as (m' & Hm' & Hx). exists m'. split; [by right|done].
  - intros s Hs Hle Hd. cbn [length]. assert (n <= s) as Hns by (apply (Z.pow_le_mono_r_iff 2); lia). pose proof (stride_wider n s _ ltac:(lia) ltac:(lia) Hdiv) as Hd1.
    pose proof (stride_step s _ _ Hs Hd Hd1 Hstep). destruct (St2 s Hs Hle Hd1); [by left|right]. lia.
Qed.

(** [C33] A scan returns what stays.  A client calls [dictScan] with cursor 0 and then with the
    cursor of the last call until it is 0, and between the calls runs any additions,
    replacements, deletions, lookups and rehashing steps, which may expand the table and move
    entries at any time.  Then no call fails; once the cursor is 0, every key that was in the
    table at each call has been returned; nothing was returned that was not in the table at
    some call; and the cursor is 0 after at most as many calls as the table has slots in the
    end.  Shrinking and clearing the table are left out. *)
Theorem scan_returns_all (d : dict) m rounds : rep hash d m -> growing d -> rounds <> [] ->
  (base.size m + total rounds <= Z.to_nat (2 ^ 29))%nat -> forallb (forallb keeps_size) rounds = true ->
  exists d' v' out, scan_with hash d 0 rounds = Ret (d', v', out)
    /\ (v' = 0 -> forall k, Forall (λ m, is_Some (m !! k)) (maps_at m rounds) -> k ∈ out.*1)
    /\ (forall k x, (k, x) ∈ out -> exists m', m' ∈ maps_at m rounds /\ m' !! k = Some x)
    /\ (size (ht0 d') <= Z.of_nat (length rounds) -> 0 < size (ht0 d') -> v' = 0).
Proof.
  intros R G Hne Hb Hk. destruct (scan_with_spec rounds d m 0 R G ltac:(lia) ltac:(lia) Hb Hk) as (d' & v' & out & E & [W' _ _ Ha Hs Hst]).
  exists d', v', out. split_and!; [done| |done|].
  - intros Hv k Hp. apply Ha; [done|rewrite rev_0; apply rev_range|by left].
  - intros Hle Hpos. destruct (wf_mask hash (ht0 d') (dw_ht0 _ _ W') Hpos) as (n & Hn & Es & _).
    destruct (Hst n ltac:(lia) ltac:(lia)) as [|H]; [rewrite rev_0; apply Z.divide_0_r|done|]. pose proof (rev_range v').
    assert (2 ^ n * 2 ^ (64 - n) = 2 ^ 64) as EL by (rewrite <- Z.pow_add_r by lia; f_equal; lia). rewrite rev_0 in H. nia.
Qed.

End Programs.

(** ** Random samples *)

Section Samples.
Context {K V : Type} `{!EqDecision K, !Countable K}.
Context (hash : K -> Z).

Abbreviation dict := (dict (K := K) (V := V)).

(** The chains of a table, starting at a slot and going around. *)
Lemma sample_loop_spec (t : dictht (K := K) (V := V)) : ht_wf hash t -> 0 < size t -> forall n i room, (n <= length (table t))%nat -> 0 <= i < size t ->
  sample_loop n t i room = Ret (take room (concat (take n (drop (Z.to_nat i) (table t ++ table t))))).
Proof.
  intros W Hs. destruct (wf_mask hash t W Hs) as (b & Hb & Es & Em). pose proof (hw_size _ _ W) as Hl. assert (2 ^ b <= 2 ^ 30) by (apply Z.pow_le_mono_r; lia).
  induction n as [|n IH]; intros i room Hn Hi; [by destruct room|]. cbn [sample_loop].
  destruct (lookup_lt_is_Some_2 (table t) (Z.to_nat i)) as [c Ec]; [lia|]. rewrite Ec. cbn [of_ptr mbind cres_bind].
  rewrite (drop_S (table t ++ table t) c (Z.to_nat i)) by (by apply lookup_app_l_Some). cbn [take concat].
  destruct (Nat.leb_spec room (length c)) as [Hr|Hr]; [by rewrite take_app_le|]. rewrite (take_app_ge c) by lia.
  assert (Z.land (wrap_u32 (i + 1)) (sizemask t) = (i + 1) mod 2 ^ b) as -> by (rewrite Em, Z.land_ones, wrap_u_small by lia; done).
  assert (n = 0%nat \/ (0 < n)%nat) as [->|Hn0] by lia; [by destruct (room - length c)%nat|].
  pose proof (Z.mod_pos_bound (i + 1) (2 ^ b)). rewrite IH by lia. cbn [mbind cres_bind]. do 3 f_equal.
  destruct (Z.eq_dec (i + 1) (2 ^ b)) as [Ei|Hi1].
  - rewrite Ei, Z.mod_same by lia. change (Z.to_nat 0) with 0%nat. rewrite drop_0, take_app_le by lia. replace (S (Z.to_nat i)) with (length (table t)) by lia.
    by rewrite drop_app_length.
  - rewrite Z.mod_small by lia. by replace (Z.to_nat (i + 1)) with (S (Z.to_nat i)) by lia.
Qed.

Lemma sample_spec (t : dictht (K := K) (V := V)) r room : ht_wf hash t -> 0 < size t -> 0 <= r ->
  exists l, sample r t room = Ret (take room l) /\ l ≡ₚ concat (table t).
Proof.
  intros W Hs Hr. destruct (wf_mask hash t W Hs) as (b & Hb & Es & Em). pose proof (hw_size _ _ W) as Hl. assert (2 ^ b <= 2 ^ 30) by (apply Z.pow_le_mono_r; lia).
  unfold sample. rewrite Em, Z.land_ones by lia. pose proof (Z.mod_pos_bound r (2 ^ b)). rewrite wrap_u_small, wrap_s32_id by (rng || lia).
  set (i := r mod 2 ^ b). assert (0 <= i < 2 ^ b) as Hi by (unfold i; lia). eexists. split; [apply sample_loop_spec; try done; lia|].
  apply concat_perm. rewrite drop_app_le by lia. replace (Z.to_nat (size t)) with (length (drop (Z.to_nat i) (table t)) + Z.to_nat i)%nat by (rewrite length_drop; lia).
  rewrite take_app_add, <- (take_drop (Z.to_nat i) (table t)) at 1. by rewrite Permutation_app_comm, !take_drop.
Qed.

(** A sample of random entries has the number of entries that was asked for, or all of
    them when there are fewer; the entries are different ones of the table; whatever [random]
    returns, the loops end after one round over both tables and no assertion fails. *)
Theorem random_keys_are_distinct (rnd : nat -> Z) (d : dict) m count : rep hash d m -> (forall i, 0 <= rnd i) -> 0 <= count < 2 ^ 31 ->
  (base.size m <= Z.to_nat (2 ^ 29))%nat ->
  exists l, dictGetRandomKeys rnd d count = Ret l /\ length l = Nat.min (Z.to_nat count) (base.size m)
    /\ NoDup l.*1 /\ (forall k x, (k, x) ∈ l -> m !! k = Some x).
Proof.
  intros R Hr Hc Hb. pose proof (rep_size hash d m R) as Hsz. pose proof (rep_length hash d m R) as Hlen. unfold dictGetRandomKeys.
  rewrite (wrap_u_small 64 count) by lia. rewrite Hsz, (wrap_s32_id (Z.of_nat _)) by rng.
  replace (if Z.of_nat (base.size m) <? count then Z.of_nat (base.size m) else count) with (Z.min count (Z.of_nat (base.size m))) by (destruct (Z.ltb_spec (Z.of_nat (base.size m)) count); lia).
  set (room := Z.to_nat (Z.min count (Z.of_nat (base.size m)))). assert (room = Nat.min (Z.to_nat count) (base.size m)) as Er by (unfold room; lia).
  destruct (Z.ltb_spec 0 (Z.min count (Z.of_nat (base.size m)))) as [Hpos|Hz].
  2:{ exists []. split; [done|]. split_and!; [cbn; lia|constructor|by intros k x ?%elem_of_nil]. }
  fold room. rewrite <- Er. assert (0 < room <= length (contents d))%nat as Hroom by (unfold room in *; lia).
  assert (exists l, keys_loop 1 rnd d room = Ret l /\ length l = room /\ exists l', l ++ l' ≡ₚ contents d) as (l & -> & Hl & l' & P).
  { cbn [keys_loop]. destruct R as [W _]. assert (0 < size (ht0 d)) as Hs0.
    { destruct (rehashing_cases hash d W) as [[_ E1]|(_ & ? & _)]; [|done]. destruct (hw_pow _ _ (dw_ht0 _ d W)) as [E0|(n & Hn & -> & _)]; [|lia].
      unfold contents in Hroom. rewrite E0, E1 in Hroom. cbn in Hroom. lia. }
    destruct (sample_spec (ht0 d) (rnd 0%nat) room (dw_ht0 _ d W) Hs0 (Hr 0%nat)) as (l0 & -> & P0). cbn [mbind cres_bind]. rewrite length_take.
    destruct (Nat.eqb_spec (Nat.min room (length l0)) room) as [El|El].
    { exists (take room l0). split; [done|]. rewrite length_take. split; [done|]. exists (drop room l0 ++ concat (table (ht1 d))). by rewrite app_assoc, take_drop, P0. }
    rewrite (take_ge l0), Nat.min_r by lia.
    assert (dictIsRehashing d = true /\ 0 < size (ht1 d)) as [Er1 Hs1].
    { destruct (rehashing_cases hash d W) as [[_ E1]|(? & _ & ?)]; [|done]. unfold contents in Hroom. rewrite E1, <- P0 in Hroom. cbn in Hroom. rewrite app_nil_r in Hroom. lia. }
    rewrite Er1. cbn [prez_assert mbind cres_bind].
    destruct (sample_spec (ht1 d) (rnd 1%nat) (room - length l0) (dw_ht1 _ d W) Hs1 (Hr 1%nat)) as (l1 & -> & P1). cbn [mbind cres_bind].
    assert (room <= length l0 + length l1)%nat by (unfold contents in Hroom; rewrite <- P0, <- P1, length_app in Hroom; lia).
    rewrite length_take, (proj2 (Nat.eqb_eq _ _)) by lia. eexists. split; [done|]. rewrite length_app, length_take. split; [lia|].
    exists (drop (room - length l0) l1). unfold contents. by rewrite <- app_assoc, take_drop, P0, P1. }
  exists l. split_and!; [done|done| |].
  - pose proof (dw_keys _ d (proj1 R)) as Hk. rewrite <- P, fmap_app in Hk. by apply NoDup_app in Hk as [? _].
  - intros k x Hin. apply (in_contents hash d m k x R). rewrite <- P. set_solver.
Qed.
End Samples.

(** ** Instances *)

Definition id_hash (k : Z) : Z := k mod 2 ^ 32.

Lemma id_hash_range k : 0 <= id_hash k < 2 ^ 64.
Proof. unfold id_hash. pose proof (Z.mod_pos_bound k (2 ^ 32)). lia. Qed.

(** Four keys in a table of 4 slots; the scan sees it expanded to 8 slots and rehashed. *)
Definition four_ops : list (dop (K := Z) (V := Z)) := [DAdd true 1 10; DAdd true 2 20; DAdd true 3 30; DAdd true 4 40].
Definition four : dict (K := Z) (V := Z) := match run_dops id_hash dictCreate four_ops with Ret (d, _) => d | _ => dictCreate end.
Definition four_rounds : list (list (dop (K := Z) (V := Z))) :=
  [[DAdd true 9 90]; [DFind 1]; [DDelete 2; DReplace true 3 31]; [DRehash 9]; []; []; []; []; []].

Lemma run_rep (ops : list (dop (K := Z) (V := Z))) : (length ops <= 1000)%nat ->
  rep id_hash (match run_dops id_hash dictCreate ops with Ret (d, _) => d | _ => dictCreate end) (spec_dops ∅ ops).1.
Proof.
  intros Hl. destruct (run_dops_spec id_hash ops dictCreate ∅ (create_rep id_hash)) as (d & -> & R); [rewrite map_size_empty; lia|]. done.
Qed.

Lemma scan_returns_all_witness :
  exists d' v' out, scan_with id_hash four 0 four_rounds = Ret (d', v', out)
    /\ (v' = 0 -> forall k, Forall (λ m, is_Some (m !! k)) (maps_at (spec_dops ∅ four_ops).1 four_rounds) -> k ∈ out.*1).
Proof.
  destruct (scan_returns_all id_hash id_hash_range four (spec_dops ∅ four_ops).1 four_rounds) as (d' & v' & out & E & H & _).
  - apply run_rep. cbn. lia.
  - intros H. vm_compute in H. discriminate.
  - done.
  - replace (base.size (spec_dops ∅ four_ops).1 + total four_rounds)%nat with 9%nat by (vm_compute; reflexivity). lia.
  - done.
  - exists d', v', out. by split.
Defined.

Lemma random_keys_are_distinct_witness : exists l, dictGetRandomKeys (λ i : nat, Z.of_nat i + 7) four 3 = Ret l /\ length l = 3%nat /\ NoDup l.*1.
Proof.
  destruct (random_keys_are_distinct id_hash (λ i : nat, Z.of_nat i + 7) four (spec_dops ∅ four_ops).1 3) as (l & E & Hl & Hn & _).
  - apply run_rep. cbn. lia.
  - intros i. lia.
  - lia.
  - replace (base.size (spec_dops ∅ four_ops).1) with 4%nat by (vm_compute; reflexivity). lia.
  - exists l. split_and!; [done| |done]. rewrite Hl. vm_compute. reflexivity.
Defined.

(** Sixteen slots with four keys, shrunk to four slots in the middle of a scan. *)
Definition sixteen_ops : list (dop (K := Z) (V := Z)) :=
  concat ((λ k, [DAdd true k 0; DRehash 99]) <$> [0; 1; 2; 3; 4; 6; 8; 10; 14]) ++ (DDelete <$> [0; 1; 3; 4; 8]).
Definition sixteen : dict (K := Z) (V := Z) := match run_dops id_hash dictCreate sixteen_ops with Ret (d, _) => d | _ => dictCreate end.
Definition shrinking : list (list (dop (K := Z) (V := Z))) := [[]; []; []; []; [DResize true]; []; []; []; []].

(** A scan can lose keys when the table shrinks.  The comment before [dictScan] promises
    that elements that are in the table from the start to the end of the scan are returned,
    also when the table is resized.  Here a table of 16 slots is resized to 4 between two calls:
    the loop over the larger table starts at the cursor and counts upwards, but the slots that
    are not visited yet come in the reversed order, and some are below the cursor.  The scan
    ends with cursor 0, and the key 6, which was there all the time, is not among the entries. *)
Theorem shrinking_scan_loses_keys : exists d' out, scan_with id_hash sixteen 0 shrinking = Ret (d', 0, out)
  /\ rep id_hash sixteen (spec_dops ∅ sixteen_ops).1
  /\ Forall (λ m, is_Some (m !! 6)) (maps_at (spec_dops ∅ sixteen_ops).1 shrinking) /\ 6 ∉ out.*1.
Proof.
  eexists _, _. split; [vm_compute; reflexivity|]. split; [apply run_rep; cbn; lia|]. split.
  - apply Forall_forall. intros m Hm. apply (bool_decide_unpack _). revert m Hm. apply Forall_forall. vm_compute. repeat constructor.
  - apply (bool_decide_unpack _). vm_compute. done.
Qed.
