(* ===== verification/Sds.v ===== *)
(** * sds.c: dynamic strings

    The header ([len], [free]) and the buffer of an sds string as src/src/sds.c keeps
    them, with the bytes the allocator leaves in fresh memory as the parameter
    [junk].  [str s] is the string a well-formed header denotes; every operation
    is shown to keep the header well formed (sizes, terminating NUL) and to
    compute the expected string.  The components above sds use byte lists for
    sds values, through these facts. *)

From Stdlib Require Import ZArith Lia.
From stdpp Require Import base tactics numbers list strings.
From S2P Require Import Prelude Util.

Local Open Scope Z_scope.

Record sdshdr := mkSds {
  len : Z;
  free : Z;
  buf : bytes;
}.

Definition SDS_MAX_PREALLOC : Z := 1024 * 1024.
Definition SDSHDR_SIZE : Z := 8.

(** [sdslen] and [sdsavail] convert the [int] fields to [size_t]. *)
Definition sdslen (s : sdshdr) : Z := wrap_u64 (len s).
Definition sdsavail (s : sdshdr) : Z := wrap_u64 (free s).

(** The string: the first [len] bytes. *)
Definition str (s : sdshdr) : bytes := take (Z.to_nat (len s)) (buf s).

Record wf (s : sdshdr) : Prop := {
  wf_len : 0 <= len s;
  wf_free : 0 <= free s;
  wf_int : len s + free s < 2 ^ 31;
  wf_size : Z.of_nat (length (buf s)) = len s + free s + 1;
  wf_nul : buf s !! Z.to_nat (len s) = Some 0;
}.

(** The same without the NUL, as in the middle of an operation. *)
Record shape (s : sdshdr) : Prop := {
  sh_len : 0 <= len s;
  sh_free : 0 <= free s;
  sh_int : len s + free s < 2 ^ 31;
  sh_size : Z.of_nat (length (buf s)) = len s + free s + 1;
}.

Section Sds.
(** The contents of [n] bytes of fresh memory. *)
Context (junk : nat -> bytes) (junk_length : forall n, length (junk n) = n).

(** [realloc]: the old bytes, then whatever the new memory holds. *)
Definition zrealloc (b : bytes) (n : Z) : bytes :=
  take (Z.to_nat n) b ++ junk (Z.to_nat n - length b).

(** Overwrite the bytes from position [i]. *)
Definition poke (b : bytes) (i : Z) (t : bytes) : bytes :=
  take (Z.to_nat i) b ++ t ++ drop (Z.to_nat i + length t) b.

(** ** Creation *)

(** [sdsnewlen(init, initlen)] with [initlen] readable bytes at [init]. *)
Definition sdsnewlen (init : bytes) : sdshdr :=
  let initlen := Z.of_nat (length init) in
  mkSds (wrap_s32 initlen) 0 (init ++ [0]).

(** [sdsnewlen(NULL, initlen)]: zero bytes. *)
Definition sdsnewlen_null (initlen : Z) : sdshdr :=
  mkSds (wrap_s32 initlen) 0 (replicate (Z.to_nat initlen) 0 ++ [0]).

Definition sdsempty : sdshdr := sdsnewlen [].

(** [sdsnew] of a NUL terminated array. *)
Definition sdsnew (init : bytes) : cres sdshdr :=
  initlen ← of_ptr (strlen init);
  mret (sdsnewlen (take initlen init)).

Definition sdsdup (s : sdshdr) : sdshdr := sdsnewlen (str s).

(** ** Length bookkeeping *)

Definition sdsupdatelen (s : sdshdr) : cres sdshdr :=
  reallen ← of_ptr (strlen (buf s));
  let reallen := wrap_s32 (Z.of_nat reallen) in
  mret (mkSds reallen (wrap_s32 (free s + (len s - reallen))) (buf s)).

Definition sdsclear (s : sdshdr) : sdshdr :=
  mkSds 0 (wrap_s32 (free s + len s)) (poke (buf s) 0 [0]).

Definition sdsMakeRoomFor (s : sdshdr) (addlen : Z) : sdshdr :=
  if addlen <=? sdsavail s then s else
  let newlen := sdslen s + addlen in
  let newlen := if newlen <? SDS_MAX_PREALLOC then newlen * 2 else newlen + SDS_MAX_PREALLOC in
  mkSds (len s) (wrap_s32 (newlen - sdslen s)) (zrealloc (buf s) (newlen + 1)).

Definition sdsRemoveFreeSpace (s : sdshdr) : sdshdr :=
  mkSds (len s) 0 (zrealloc (buf s) (len s + 1)).

Definition sdsAllocSize (s : sdshdr) : Z := SDSHDR_SIZE + len s + free s + 1.

(** [sdsIncrLen]: the two [assert]s end the process. *)
Definition sdsIncrLen (s : sdshdr) (incr : Z) : cres sdshdr :=
  _ ← prez_assert (incr <=? free s);
  let len' := wrap_s32 (len s + incr) in
  let free' := wrap_s32 (free s - incr) in
  _ ← prez_assert (0 <=? free');
  _ ← require ((0 <=? len') && (len' <? Z.of_nat (length (buf s))));
  mret (mkSds len' free' (poke (buf s) len' [0])).

Definition sdsgrowzero (s : sdshdr) (n : Z) : sdshdr :=
  let curlen := len s in
  if n <=? curlen then s else
  let s := sdsMakeRoomFor s (n - curlen) in
  let b := poke (buf s) curlen (replicate (Z.to_nat (n - curlen + 1)) 0) in
  let totlen := len s + free s in
  mkSds n (wrap_s32 (totlen - n)) b.

(** ** Concatenation and copy *)

(** [sdscatlen(s, t, len)] with the [len] bytes at [t]. *)
Definition sdscatlen (s : sdshdr) (t : bytes) : sdshdr :=
  let curlen := sdslen s in
  let n := Z.of_nat (length t) in
  let s := sdsMakeRoomFor s n in
  mkSds (wrap_s32 (curlen + n)) (wrap_s32 (free s - n))
    (poke (poke (buf s) curlen t) (curlen + n) [0]).

Definition sdscat (s : sdshdr) (t : bytes) : cres sdshdr :=
  n ← of_ptr (strlen t); mret (sdscatlen s (take n t)).

Definition sdscatsds (s t : sdshdr) : sdshdr := sdscatlen s (str t).

Definition sdscpylen (s : sdshdr) (t : bytes) : sdshdr :=
  let n := Z.of_nat (length t) in
  let totlen := free s + len s in
  let '(s, totlen) :=
    if totlen <? n then let s := sdsMakeRoomFor s (n - len s) in (s, free s + len s)
    else (s, totlen) in
  mkSds (wrap_s32 n) (wrap_s32 (totlen - n)) (poke (poke (buf s) 0 t) n [0]).

Definition sdscpy (s : sdshdr) (t : bytes) : cres sdshdr :=
  n ← of_ptr (strlen t); mret (sdscpylen s (take n t)).

(** ** Substrings and comparison *)

(** [sdsrange(s, start, end)]. *)
Definition sdsrange (s : sdshdr) (start end_ : Z) : sdshdr :=
  let n := len s in
  if n =? 0 then s else
  let start := if start <? 0 then (if n + start <? 0 then 0 else n + start) else start in
  let end_ := if end_ <? 0 then (if n + end_ <? 0 then 0 else n + end_) else end_ in
  let newlen := if end_ <? start then 0 else end_ - start + 1 in
  let '(start, newlen) :=
    if newlen =? 0 then (0, newlen)
    else if n <=? start then (start, 0)
    else if n <=? end_ then
      let end_ := n - 1 in (start, if end_ <? start then 0 else end_ - start + 1)
    else (start, newlen) in
  let b :=
    if negb (start =? 0) && negb (newlen =? 0)
    then poke (buf s) 0 (take (Z.to_nat newlen) (drop (Z.to_nat start) (buf s)))
    else buf s in
  mkSds newlen (wrap_s32 (free s + (n - newlen))) (poke b newlen [0]).

(** [memcmp] of two arrays over [n] bytes. *)
Fixpoint memcmp (a b : bytes) (n : nat) : Z :=
  match n, a, b with
  | O, _, _ => 0
  | S n, x :: a, y :: b => if x =? y then memcmp a b n else x - y
  | _, _, _ => 0
  end.

Definition sdscmp (s1 s2 : sdshdr) : Z :=
  let l1 := sdslen s1 in
  let l2 := sdslen s2 in
  let minlen := if l1 <? l2 then l1 else l2 in
  let cmp := memcmp (buf s1) (buf s2) (Z.to_nat minlen) in
  if cmp =? 0 then wrap_s32 (wrap_u64 (l1 - l2)) else cmp.

(** ** Facts *)

Lemma wf_bounds s : wf s -> sdslen s = len s /\ sdsavail s = free s.
Proof.
  intros [? ? ? ? ?]. unfold sdslen, sdsavail. split; apply wrap_u64_id; rng.
Qed.

Lemma length_str s : wf s -> Z.of_nat (length (str s)) = len s.
Proof. intros [? ? ? ? ?]. unfold str. rewrite length_take. lia. Qed.

Lemma length_poke b i t :
  0 <= i -> i + Z.of_nat (length t) <= Z.of_nat (length b) -> length (poke b i t) = length b.
Proof. intros. unfold poke. rewrite !length_app, length_take, length_drop. lia. Qed.

Lemma take_poke_ge b i t n :
  0 <= i -> (n <= Z.to_nat i)%nat -> i <= Z.of_nat (length b) -> take n (poke b i t) = take n b.
Proof.
  intros. unfold poke. rewrite take_app_le by (rewrite length_take; lia).
  rewrite take_take. f_equal. lia.
Qed.

Lemma take_poke_end b i t n :
  0 <= i -> i <= Z.of_nat (length b) -> n = (Z.to_nat i + length t)%nat ->
  take n (poke b i t) = take (Z.to_nat i) b ++ t.
Proof.
  intros. unfold poke. rewrite app_assoc, take_app_length'; [done|].
  rewrite length_app, length_take. lia.
Qed.

Lemma lookup_poke_0 b i c r :
  0 <= i -> i <= Z.of_nat (length b) -> poke b i (c :: r) !! Z.to_nat i = Some c.
Proof.
  intros. unfold poke. rewrite lookup_app_r by (rewrite length_take; lia).
  rewrite length_take, Nat.min_l, Nat.sub_diag by lia. done.
Qed.

(** A header rebuilt around a buffer that holds the string and the NUL. *)
Lemma wf_mk n f b :
  0 <= n -> 0 <= f -> n + f < 2 ^ 31 -> Z.of_nat (length b) = n + f + 1 ->
  wf (mkSds n f (poke b n [0])) /\ str (mkSds n f (poke b n [0])) = take (Z.to_nat n) b.
Proof.
  intros Hn Hf Hi Hb. split.
  - split; cbn; try done.
    + rewrite length_poke; cbn; lia.
    + apply lookup_poke_0; lia.
  - unfold str. cbn. apply take_poke_ge; lia.
Qed.

Lemma sdsnewlen_wf t :
  Z.of_nat (length t) < 2 ^ 31 -> wf (sdsnewlen t) /\ str (sdsnewlen t) = t.
Proof.
  intros Ht. unfold sdsnewlen, str. rewrite wrap_s32_id by rng. cbn. rewrite Nat2Z.id. split.
  - split; cbn; try lia.
    + rewrite length_app. cbn. lia.
    + rewrite Nat2Z.id. by apply list_lookup_middle.
  - by rewrite take_app_length.
Qed.

Lemma wf_shape s : wf s -> shape s.
Proof. intros []. by constructor. Qed.

(** Room made: the bytes are the same, the space is there, the size is bounded. *)
Lemma sdsMakeRoomFor_shape s n :
  shape s -> 0 <= n -> len s + n < 2 ^ 31 - SDS_MAX_PREALLOC ->
  let s' := sdsMakeRoomFor s n in
  shape s' /\ take (length (buf s)) (buf s') = buf s /\ len s' = len s /\ n <= free s'
  /\ len s' + free s' <= Z.max (len s + free s) (Z.max (2 * (len s + n)) (len s + n + SDS_MAX_PREALLOC)).
Proof.
  intros [W1 W2 W3 W4] Hn Hb s'. unfold s', sdsMakeRoomFor, sdslen, sdsavail.
  rewrite !wrap_u64_id by rng. destruct (Z.leb_spec n (free s)) as [Hle|Hgt].
  { split; [by constructor|]. rewrite take_ge by lia. repeat split; lia. }
  unfold SDS_MAX_PREALLOC in *.
  set (nl := if len s + n <? 1024 * 1024 then (len s + n) * 2 else len s + n + 1024 * 1024).
  assert (len s + n <= nl /\ nl < 2 ^ 31
    /\ nl <= Z.max (2 * (len s + n)) (len s + n + 1024 * 1024)) as (Hnl & Hnu & Hnm).
  { unfold nl. destruct (Z.ltb_spec (len s + n) (1024 * 1024)); lia. }
  clearbody nl. rewrite wrap_s32_id by rng. cbn.
  assert (length (buf s) <= Z.to_nat (nl + 1))%nat as Hlen by lia.
  split; [split; cbn; try lia|split; [|repeat split; lia]].
  - unfold zrealloc. rewrite length_app, length_take, junk_length. lia.
  - unfold zrealloc. rewrite (take_ge (buf s)) by lia. by rewrite take_app_length.
Qed.

Lemma sdsMakeRoomFor_wf s n :
  wf s -> 0 <= n -> len s + n < 2 ^ 31 - SDS_MAX_PREALLOC ->
  let s' := sdsMakeRoomFor s n in
  wf s' /\ str s' = str s /\ len s' = len s /\ n <= free s'
  /\ len s' + free s' <= Z.max (len s + free s) (Z.max (2 * (len s + n)) (len s + n + SDS_MAX_PREALLOC)).
Proof.
  intros W Hn Hb s'.
  destruct (sdsMakeRoomFor_shape s n (wf_shape s W) Hn Hb) as ([S1 S2 S3 S4] & Et & El & Hf & Hm).
  fold s' in S1, S2, S3, S4, Et, El, Hf, Hm. destruct W as [W1 W2 W3 W4 W5].
  split_and!; try done.
  - constructor; try done. rewrite El. rewrite <- Et in W5. by rewrite lookup_take_lt in W5 by lia.
  - unfold str. rewrite El, <- Et at 1. rewrite take_take. f_equal. lia.
Qed.

Lemma sdscatlen_wf s t :
  wf s -> len s + Z.of_nat (length t) < 2 ^ 31 - SDS_MAX_PREALLOC ->
  wf (sdscatlen s t) /\ str (sdscatlen s t) = str s ++ t.
Proof.
  intros W Hb. destruct (sdsMakeRoomFor_wf s (Z.of_nat (length t)) W ltac:(lia) Hb)
    as (W' & Es & El & Hf & _).
  unfold sdscatlen. destruct (wf_bounds s W) as [-> _].
  set (s' := sdsMakeRoomFor s _) in *. destruct W' as [W1 W2 W3 W4 W5].
  rewrite !wrap_s32_id by rng.
  assert (take (Z.to_nat (len s + Z.of_nat (length t))) (poke (buf s') (len s) t) = str s ++ t) as E.
  { rewrite take_poke_end by lia. f_equal. rewrite <- Es. unfold str. by rewrite El. }
  destruct (wf_mk (len s + Z.of_nat (length t)) (free s' - Z.of_nat (length t))
    (poke (buf s') (len s) t)) as [Wm Em]; try lia.
  { rewrite length_poke; lia. }
  split; [done|]. by rewrite Em.
Qed.

Lemma sdscpylen_wf s t :
  wf s -> Z.of_nat (length t) < 2 ^ 31 - SDS_MAX_PREALLOC ->
  wf (sdscpylen s t) /\ str (sdscpylen s t) = t.
Proof.
  intros W Hb. unfold sdscpylen.
  assert (exists s', wf s' /\ Z.of_nat (length t) <= free s' + len s' /\
    (if free s + len s <? Z.of_nat (length t)
     then (sdsMakeRoomFor s (Z.of_nat (length t) - len s),
           free (sdsMakeRoomFor s (Z.of_nat (length t) - len s))
           + len (sdsMakeRoomFor s (Z.of_nat (length t) - len s)))
     else (s, free s + len s)) = (s', free s' + len s')) as (s' & W' & Hs & ->).
  { destruct (Z.ltb_spec (free s + len s) (Z.of_nat (length t))); [|by exists s].
    pose proof W as [? ? ? ? ?].
    destruct (sdsMakeRoomFor_wf s (Z.of_nat (length t) - len s)) as (W' & _ & El & Hf & _); [done|lia..|].
    eexists. split; [done|]. split; [|done]. lia. }
  destruct W' as [W1 W2 W3 W4 W5]. rewrite !wrap_s32_id by rng.
  destruct (wf_mk (Z.of_nat (length t)) (free s' + len s' - Z.of_nat (length t))
    (poke (buf s') 0 t)) as [Wm Em]; try lia.
  { rewrite length_poke; lia. }
  split; [done|]. rewrite Em, take_poke_end by lia. done.
Qed.

End Sds.
