(* ===== verification/SdsOps.v ===== *)
(** * sds.c: the string operations

    The rest of src/src/sds.c on the header and buffer of Sds.v: decimal conversion,
    [sdscatfmt], trimming, ranges, case mapping, splitting and joining.  The main
    fact is a refinement: any program of these operations on an sds string keeps
    the header well formed and computes the same byte string as the same program
    on lists of bytes. *)

From Stdlib Require Import ZArith Lia.
From stdpp Require Import base tactics numbers list strings.
From S2P Require Import Prelude Util Sds.

Local Open Scope Z_scope.

(** ** Decimal conversion *)

(** The [do ... while(v)] loop: the digits from the last one on.  20 rounds are enough
    for 64 bits. *)
Fixpoint rev_digits (fuel : nat) (v : Z) : bytes :=
  match fuel with
  | O => []
  | S fuel => 48 + v mod 10 :: (if v / 10 =? 0 then [] else rev_digits fuel (v / 10))
  end.

(** The text [sdsull2str] and [sdsll2str] leave in their buffer, before the NUL. *)
Definition sdsull2str (v : Z) : bytes := swap_all (rev_digits 20 v).

Definition sdsll2str (value : Z) : bytes :=
  let v := wrap_u64 (if value <? 0 then wrap_s64 (- value) else value) in
  swap_all (rev_digits 20 v ++ if value <? 0 then [45] else []).

Definition SDS_LLSTR_SIZE : Z := 21.

Definition sdsfromlonglong (value : Z) : sdshdr := sdsnewlen (sdsll2str value).

Section Ops.
Context (junk : nat -> bytes) (junk_length : forall n, length (junk n) = n).

(** ** sdscatfmt *)

Inductive fmt_arg :=
  | ArgStr (a : bytes)          (** a [char *]: the array it points to *)
  | ArgSds (s : sdshdr)
  | ArgNum (v : Z).             (** a signed or unsigned integer of the right width *)

(** The text of one conversion; an argument of another kind is undefined. *)
Definition fmt_text (next : Z) (a : fmt_arg) : cres bytes :=
  match a with
  | ArgStr a => if next =? 115 then of_ptr (cstr a) else Undef
  | ArgSds s => if next =? 83 then mret (str s) else Undef
  | ArgNum v =>
      if (next =? 105) || (next =? 73) then mret (sdsll2str v)
      else if (next =? 117) || (next =? 85) then mret (sdsull2str v)
      else Undef
  end.

Definition is_conversion (c : Z) : bool :=
  (c =? 115) || (c =? 83) || (c =? 105) || (c =? 73) || (c =? 117) || (c =? 85).

(** Copy [t] to position [i] and account for it. *)
Definition fmt_put (s : sdshdr) (i : Z) (t : bytes) : sdshdr :=
  let l := Z.of_nat (length t) in
  mkSds (wrap_s32 (len s + l)) (wrap_s32 (free s - l)) (poke (buf s) i t).

Definition fmt_room (s : sdshdr) (l : Z) : sdshdr :=
  if free s <? l then sdsMakeRoomFor junk s l else s.

(** The loop over the format; a [%] at its end makes the loop step over the NUL. *)
Fixpoint catfmt_loop (s : sdshdr) (i : Z) (f : bytes) (args : list fmt_arg) : cres (sdshdr * Z) :=
  match f with
  | [] => mret (s, i)
  | c :: f =>
      let s := if free s =? 0 then sdsMakeRoomFor junk s 1 else s in
      if c =? 37 then
        match f with
        | [] => Undef
        | next :: f =>
            if is_conversion next then
              match args with
              | [] => Undef
              | a :: args =>
                  t ← fmt_text next a;
                  let s := fmt_room s (Z.of_nat (length t)) in
                  catfmt_loop (fmt_put s i t) (i + Z.of_nat (length t)) f args
              end
            else catfmt_loop (fmt_put s i [next]) (i + 1) f args
        end
      else catfmt_loop (fmt_put s i [c]) (i + 1) f args
  end.

Definition sdscatfmt (s : sdshdr) (fmt : bytes) (args : list fmt_arg) : cres sdshdr :=
  f ← of_ptr (cstr fmt);
  '(s, i) ← catfmt_loop s (wrap_s32 (sdslen s)) f args;
  mret (mkSds (len s) (free s) (poke (buf s) i [0])).

(** ** Trimming *)

(** [strchr(cset, c)]: the terminator belongs to the set. *)
Definition in_cset (cset : bytes) (c : Z) : bool := (c =? 0) || existsb (Z.eqb c) cset.

(** [while(sp <= end && strchr(cset, *sp)) sp++], on the bytes from [sp] to [end]. *)
Fixpoint trim_sp (cset b : bytes) : nat :=
  match b with
  | c :: b => if in_cset cset c then S (trim_sp cset b) else O
  | [] => O
  end.

(** [while(ep > start && strchr(cset, *ep)) ep--] *)
Fixpoint trim_ep (cset b : bytes) (ep : nat) : nat :=
  match ep with
  | O => O
  | S ep' => if in_cset cset (nth ep b 0) then trim_ep cset b ep' else ep
  end.

Definition sdstrim (s : sdshdr) (cset : bytes) : sdshdr :=
  let sp := Z.of_nat (trim_sp cset (str s)) in
  let ep := if len s =? 0 then -1 else Z.of_nat (trim_ep cset (buf s) (Z.to_nat (len s - 1))) in
  let n := if ep <? sp then 0 else ep - sp + 1 in
  let b := if sp =? 0 then buf s else poke (buf s) 0 (take (Z.to_nat n) (drop (Z.to_nat sp) (buf s))) in
  mkSds (wrap_s32 n) (wrap_s32 (free s + (len s - n))) (poke b n [0]).

(** ** Mapping characters *)

(** In the C locale. *)
Definition tolower (c : Z) : Z := if (65 <=? c) && (c <=? 90) then c + 32 else c.
Definition toupper (c : Z) : Z := if (97 <=? c) && (c <=? 122) then c - 32 else c.

(** Apply [f] to the first [len] bytes in place. *)
Definition map_chars (f : Z -> Z) (s : sdshdr) : sdshdr :=
  mkSds (len s) (free s) (poke (buf s) 0 (f <$> str s)).

Definition sdstolower : sdshdr -> sdshdr := map_chars tolower.
Definition sdstoupper : sdshdr -> sdshdr := map_chars toupper.

(** The inner loop over [from]: the first match decides. *)
Fixpoint map_one (from to : bytes) (c : Z) : Z :=
  match from, to with
  | x :: from, y :: to => if c =? x then y else map_one from to c
  | _, _ => c
  end.

Definition sdsmapchars (s : sdshdr) (from to : bytes) : sdshdr := map_chars (map_one from to) s.

(** ** Splitting and joining *)

(** The loop of [sdssplitlen]; [j] grows in every round. *)
Fixpoint split_loop (fuel : nat) (s sep : bytes) (start j : nat) (tokens : list bytes)
    : list bytes :=
  match fuel with
  | O => tokens ++ [drop start s]
  | S fuel =>
      if (j <? length s - (length sep - 1))%nat then
        if bool_decide (take (length sep) (drop j s) = sep) then
          split_loop fuel s sep (j + length sep) (j + length sep)
            (tokens ++ [take (j - start) (drop start s)])
        else split_loop fuel s sep start (S j) tokens
      else tokens ++ [drop start s]
  end.

(** [None]: the result is NULL. *)
Definition sdssplitlen (s sep : bytes) : option (list bytes) :=
  if bool_decide (sep = []) then None
  else if bool_decide (s = []) then Some []
  else Some (split_loop (length s) s sep 0 0 []).

(** [sdsjoin], on NUL terminated arrays. *)
Fixpoint join_loop (join : sdshdr) (argv : list bytes) (sep : bytes) : cres sdshdr :=
  match argv with
  | [] => mret join
  | a :: argv =>
      join ← sdscat junk join a;
      join ← (match argv with [] => mret join | _ => sdscat junk join sep end);
      join_loop join argv sep
  end.

Definition sdsjoin (argv : list bytes) (sep : bytes) : cres sdshdr := join_loop sdsempty argv sep.

(** ** Decimal conversion is exact *)

Lemma rev_digits_dec fuel : forall v, 0 <= v < 10 ^ Z.of_nat (S fuel) ->
  rev_digits (S fuel) v = reverse (dec v).
Proof.
  induction fuel as [|fuel IH]; intros v Hv.
  - change (10 ^ Z.of_nat 1) with 10 in Hv. rewrite dec_small by lia. cbn.
    rewrite Z.mod_small, Z.div_small by lia. done.
  - destruct (decide (v < 10)) as [Hs|Hs].
    { rewrite dec_small by lia. cbn [rev_digits]. rewrite Z.mod_small, Z.div_small by lia. done. }
    rewrite dec_step, reverse_snoc by lia. cbn [rev_digits].
    assert (0 < v / 10) by (apply Z.div_str_pos; lia).
    rewrite (proj2 (Z.eqb_neq _ _)) by lia. f_equal. apply IH. split; [lia|].
    apply Z.div_lt_upper_bound; [lia|]. rewrite Nat2Z.inj_succ, Z.pow_succ_r in Hv by lia. lia.
Qed.

Lemma sdsull2str_dec v : in_u64 v -> sdsull2str v = dec v.
Proof.
  intros Hv. unfold sdsull2str. rewrite swap_all_reverse, rev_digits_dec, reverse_involutive; [done|].
  change (10 ^ Z.of_nat 20) with 100000000000000000000. rng.
Qed.

Lemma sdsll2str_repr v : in_s64 v -> sdsll2str v = ll_repr v.
Proof.
  intros Hv. unfold sdsll2str.
  assert (wrap_u64 (if v <? 0 then wrap_s64 (- v) else v) = Z.abs v) as ->.
  { destruct (Z.ltb_spec v 0); [|rewrite wrap_u64_id by rng; lia].
    destruct (decide (v = LLONG_MIN)) as [->|]; [done|].
    rewrite wrap_s64_id, wrap_u64_id by rng. lia. }
  rewrite swap_all_reverse, reverse_app, rev_digits_dec, reverse_involutive, ll_repr_abs.
  - by destruct (v <? 0).
  - change (10 ^ Z.of_nat 20) with 100000000000000000000. rng.
Qed.

(** ** sdscatfmt *)

(** What a format stands for. *)
Fixpoint render (f : bytes) (args : list fmt_arg) : option bytes :=
  match f with
  | [] => Some []
  | c :: f =>
      if c =? 37 then
        match f with
        | [] => None
        | next :: f =>
            if is_conversion next then
              match args with
              | a :: args =>
                  match fmt_text next a with
                  | Ret t => (λ r, t ++ r) <$> render f args
                  | _ => None
                  end
              | [] => None
              end
            else (λ r, next :: r) <$> render f args
        end
      else (λ r, c :: r) <$> render f args
  end.

(** The state of the loop: [acc] is written, up to position [len]. *)
Definition filled (s : sdshdr) (acc : bytes) : Prop :=
  shape s /\ take (Z.to_nat (len s)) (buf s) = acc /\ len s = Z.of_nat (length acc).

Lemma filled_room s acc n :
  filled s acc -> 0 <= n -> len s + n < 2 ^ 31 - SDS_MAX_PREALLOC ->
  filled (sdsMakeRoomFor junk s n) acc /\ n <= free (sdsMakeRoomFor junk s n)
  /\ len (sdsMakeRoomFor junk s n) = len s.
Proof.
  intros (Hs & Ht & Hl) Hn Hb.
  destruct (sdsMakeRoomFor_shape junk junk_length s n Hs Hn Hb) as (Hs' & Et & El & Hf & _).
  split_and!; [|done|done]. split_and!; [done| |congruence].
  rewrite El, <- Ht, <- Et at 1. rewrite take_take. f_equal. destruct Hs. lia.
Qed.

Lemma filled_put s acc t :
  filled s acc -> Z.of_nat (length t) <= free s ->
  filled (fmt_put s (len s) t) (acc ++ t) /\ len (fmt_put s (len s) t) = len s + Z.of_nat (length t).
Proof.
  intros ([S1 S2 S3 S4] & Ht & Hl) Hf. unfold fmt_put. rewrite !wrap_s32_id by rng.
  split; [|done]. split_and!; cbn.
  - constructor; cbn; try lia. rewrite length_poke; lia.
  - rewrite take_poke_end by lia. by rewrite Ht.
  - rewrite length_app. lia.
Qed.

Lemma filled_one s acc :
  filled s acc -> len s + 1 < 2 ^ 31 - SDS_MAX_PREALLOC ->
  let s' := if free s =? 0 then sdsMakeRoomFor junk s 1 else s in
  filled s' acc /\ 1 <= free s' /\ len s' = len s.
Proof.
  intros Hs Hb. cbv zeta. destruct (Z.eqb_spec (free s) 0); [by apply filled_room|].
  split_and!; [done| |done]. destruct Hs as ([] & _). lia.
Qed.

Lemma filled_fmt_room s acc n :
  filled s acc -> 0 <= n -> len s + n < 2 ^ 31 - SDS_MAX_PREALLOC ->
  filled (fmt_room s n) acc /\ n <= free (fmt_room s n) /\ len (fmt_room s n) = len s.
Proof.
  intros. unfold fmt_room. destruct (Z.ltb_spec (free s) n); [by apply filled_room|done].
Qed.

Lemma catfmt_loop_render n : forall f args s acc t, (length f <= n)%nat ->
  filled s acc -> render f args = Some t ->
  len s + Z.of_nat (length t) + 1 < 2 ^ 31 - SDS_MAX_PREALLOC ->
  exists s', catfmt_loop s (len s) f args = Ret (s', len s') /\ filled s' (acc ++ t).
Proof.
  induction n as [|n IH]; intros f args s acc t Hn Hs Hr Hb; destruct f as [|c f]; cbn [length] in Hn; try lia;
    [injection Hr as <-; exists s; by rewrite app_nil_r..|].
  cbn [catfmt_loop render] in *.
  destruct (filled_one s acc Hs ltac:(lia)) as (Hs1 & Hf1 & El1).
  set (s1 := if free s =? 0 then _ else s) in *. clearbody s1. rewrite <- El1 in Hb |- *.
  assert (forall c0 f0 t0, (length f0 <= n)%nat -> render f0 args = Some t0 -> t = c0 :: t0 ->
    exists s', catfmt_loop (fmt_put s1 (len s1) [c0]) (len s1 + 1) f0 args = Ret (s', len s')
      /\ filled s' (acc ++ t)) as Hone.
  { intros c0 f0 t0 Hn0 Hr0 ->. destruct (filled_put s1 acc [c0] Hs1) as [Hs2 El2]; [cbn; lia|].
    cbn [length] in El2, Hb. change (Z.of_nat 1) with 1 in El2. rewrite <- El2.
    destruct (IH f0 args _ _ t0 Hn0 Hs2 Hr0) as (s' & E & Hf); [lia|].
    exists s'. split; [done|]. by rewrite <- app_assoc in Hf. }
  destruct (c =? 37).
  2: { destruct (render f args) as [t0|] eqn:E; [|done]. injection Hr as <-. apply (Hone c f t0); [lia|done|done]. }
  destruct f as [|next f]; [done|]. cbn [length] in Hn.
  destruct (is_conversion next).
  2: { destruct (render f args) as [t0|] eqn:E; [|done]. injection Hr as <-. apply (Hone next f t0); [lia|done|done]. }
  destruct args as [|a args]; [done|]. destruct (fmt_text next a) as [u| |]; [|done..].
  destruct (render f args) as [t0|] eqn:E; [|done]. injection Hr as <-. cbn [mbind cres_bind].
  rewrite length_app in Hb.
  destruct (filled_fmt_room s1 acc (Z.of_nat (length u)) Hs1) as (Hs2 & Hf2 & El2); [lia..|].
  set (s2 := fmt_room s1 _) in *. clearbody s2. rewrite <- El2 in Hb |- *.
  destruct (filled_put s2 acc u Hs2 Hf2) as [Hs3 El3]. rewrite <- El3.
  destruct (IH f args _ _ t0 ltac:(lia) Hs3 E) as (s' & E' & Hf); [lia|].
  exists s'. split; [done|]. by rewrite <- app_assoc in Hf.
Qed.

Lemma filled_close s acc :
  filled s acc ->
  wf (mkSds (len s) (free s) (poke (buf s) (len s) [0]))
  /\ str (mkSds (len s) (free s) (poke (buf s) (len s) [0])) = acc.
Proof.
  intros ([S1 S2 S3 S4] & Ht & Hl). destruct (wf_mk (len s) (free s) (buf s)) as [W E]; [done..|].
  by rewrite E, Ht.
Qed.

Lemma wf_filled s : wf s -> filled s (str s).
Proof.
  intros W. split_and!; [by apply wf_shape|done|]. by rewrite length_str.
Qed.

(** ** Ranges and trimming *)

(** A negative index counts from the end. *)
Definition from_end (n i : Z) : Z := if i <? 0 then Z.max 0 (n + i) else i.

(** The bytes from [a] to [b], both included. *)
Definition slice (l : bytes) (a b : Z) : bytes :=
  let n := Z.of_nat (length l) in
  take (Z.to_nat (from_end n b + 1 - from_end n a)) (drop (Z.to_nat (from_end n a)) l).

(** Keep [n] bytes from position [a] on, as [sdsrange] and [sdstrim] do. *)
Lemma keep_wf s a n :
  wf s -> 0 <= a -> 0 <= n -> a + n <= len s \/ n = 0 ->
  let b := if (a =? 0) || (n =? 0) then buf s
           else poke (buf s) 0 (take (Z.to_nat n) (drop (Z.to_nat a) (buf s))) in
  let s' := mkSds n (wrap_s32 (free s + (len s - n))) (poke b n [0]) in
  wf s' /\ str s' = take (Z.to_nat n) (drop (Z.to_nat a) (str s)).
Proof.
  intros [W1 W2 W3 W4 W5] Ha Hn Han b s'. unfold s'. rewrite wrap_s32_id by rng.
  assert (length b = length (buf s) /\ take (Z.to_nat n) b
    = take (Z.to_nat n) (drop (Z.to_nat a) (str s))) as [Hlb Htb].
  { unfold b, str. destruct (Z.eqb_spec a 0) as [->|Ha0]; cbn [orb].
    { split; [done|]. rewrite drop_0, take_take. f_equal. lia. }
    destruct (Z.eqb_spec n 0) as [->|Hn0]; [by rewrite !take_0|].
    assert (length (take (Z.to_nat n) (drop (Z.to_nat a) (buf s))) = Z.to_nat n) as Hl
      by (rewrite length_take, length_drop; lia).
    split; [by rewrite length_poke by lia|]. rewrite take_poke_end by lia. cbn [take].
    change (take (Z.to_nat 0) (buf s)) with (@nil Z). cbn [app].
    rewrite skipn_firstn_comm, take_take. f_equal. lia. }
  destruct (wf_mk n (free s + (len s - n)) b) as [W E]; [lia..|]. by rewrite E, Htb.
Qed.

Lemma sdsrange_keep s a b :
  wf s -> in_s32 a -> in_s32 b -> len s <> 0 ->
  exists st n, 0 <= st /\ 0 <= n /\ (st + n <= len s \/ n = 0)
    /\ take (Z.to_nat n) (drop (Z.to_nat st) (str s)) = slice (str s) a b
    /\ sdsrange s a b
       = mkSds n (wrap_s32 (free s + (len s - n)))
           (poke (if (st =? 0) || (n =? 0) then buf s
                  else poke (buf s) 0 (take (Z.to_nat n) (drop (Z.to_nat st) (buf s)))) n [0]).
Proof.
  intros W Ha Hb Hz. pose proof (length_str s W) as Hl. destruct W as [W1 W2 W3 W4 W5].
  unfold sdsrange, slice. rewrite (proj2 (Z.eqb_neq _ _) Hz), Hl.
  set (a' := if a <? 0 then _ else a). set (b' := if b <? 0 then _ else b).
  assert (a' = from_end (len s) a) as <-.
  { unfold a', from_end. destruct (a <? 0); [|done]. destruct (Z.ltb_spec (len s + a) 0); lia. }
  assert (b' = from_end (len s) b) as <-.
  { unfold b', from_end. destruct (b <? 0); [|done]. destruct (Z.ltb_spec (len s + b) 0); lia. }
  assert (0 <= a' /\ 0 <= b') as [Ha' Hb'].
  { unfold a', b'. destruct (Z.ltb_spec a 0), (Z.ltb_spec b 0), (Z.ltb_spec (len s + a) 0),
      (Z.ltb_spec (len s + b) 0); lia. }
  clearbody a' b'. cbv zeta.
  assert (forall st n, 0 <= st -> 0 <= n ->
    (st + n <= len s \/ n = 0) ->
    take (Z.to_nat n) (drop (Z.to_nat st) (str s))
      = take (Z.to_nat (b' + 1 - a')) (drop (Z.to_nat a') (str s)) ->
    exists st0 n0, 0 <= st0 /\ 0 <= n0 /\ (st0 + n0 <= len s \/ n0 = 0)
      /\ take (Z.to_nat n0) (drop (Z.to_nat st0) (str s))
         = take (Z.to_nat (b' + 1 - a')) (drop (Z.to_nat a') (str s))
      /\ mkSds n (wrap_s32 (free s + (len s - n)))
           (poke (if negb (st =? 0) && negb (n =? 0)
                  then poke (buf s) 0 (take (Z.to_nat n) (drop (Z.to_nat st) (buf s))) else buf s) n [0])
         = mkSds n0 (wrap_s32 (free s + (len s - n0)))
             (poke (if (st0 =? 0) || (n0 =? 0) then buf s
                    else poke (buf s) 0 (take (Z.to_nat n0) (drop (Z.to_nat st0) (buf s)))) n0 [0])) as Hk.
  { intros st n ? ? ? ?. exists st, n. split_and!; [done..|].
    by destruct (st =? 0), (n =? 0). }
  destruct (Z.ltb_spec b' a').
  { change (0 =? 0) with true. cbn iota. apply (Hk 0 0); [lia..|].
    by replace (Z.to_nat (b' + 1 - a')) with O by lia. }
  rewrite (proj2 (Z.eqb_neq _ _)) by lia. destruct (Z.leb_spec (len s) a').
  { apply (Hk a' 0); [lia..|]. rewrite (drop_ge (str s)) by lia. by rewrite !take_nil. }
  destruct (Z.leb_spec (len s) b').
  - rewrite (proj2 (Z.ltb_ge _ _)) by lia. apply Hk; [lia..|].
    rewrite !take_ge; rewrite ?length_drop; [done|lia..].
  - apply Hk; [lia..|]. f_equal. lia.
Qed.

Lemma sdsrange_wf s a b :
  wf s -> in_s32 a -> in_s32 b ->
  wf (sdsrange s a b) /\ str (sdsrange s a b) = slice (str s) a b.
Proof.
  intros W Ha Hb. destruct (decide (len s = 0)) as [Hz|Hz].
  - unfold sdsrange. rewrite Hz, Z.eqb_refl. split; [done|]. unfold slice, str.
    rewrite Hz. change (take (Z.to_nat 0) (buf s)) with (@nil Z). by rewrite drop_nil, take_nil.
  - destruct (sdsrange_keep s a b W Ha Hb Hz) as (st & n & Hs & Hn & Hsn & <- & ->).
    by apply keep_wf.
Qed.

(** Writing the tail of a string away, as the cluster bus does. *)
Lemma sdsrange_tail s n :
  wf s -> 0 <= n <= len s -> wf (sdsrange s n (-1)) /\ str (sdsrange s n (-1)) = drop (Z.to_nat n) (str s).
Proof.
  intros W Hn. pose proof (length_str s W) as Hl. destruct (sdsrange_wf s n (-1)) as [? ->];
    [done|destruct W; rng|rng|]. split; [done|]. unfold slice, from_end. rewrite Hl.
  rewrite (proj2 (Z.ltb_ge n 0)) by lia. change (-1 <? 0) with true. cbn iota.
  apply take_ge. rewrite length_drop. lia.
Qed.

(** Drop the leading bytes of the set. *)
Fixpoint drop_set (cset b : bytes) : bytes :=
  match b with
  | c :: b' => if in_cset cset c then drop_set cset b' else b
  | [] => []
  end.

(** Without the bytes of the set at both ends. *)
Definition trimmed (cset b : bytes) : bytes :=
  reverse (drop_set cset (reverse (drop_set cset b))).

Lemma trim_sp_drop cset b : drop (trim_sp cset b) b = drop_set cset b.
Proof. induction b as [|c b IH]; cbn; [done|]. by destruct (in_cset cset c). Qed.

Lemma trim_sp_le cset b : (trim_sp cset b <= length b)%nat.
Proof. induction b as [|c b IH]; cbn; [lia|]. destruct (in_cset cset c); lia. Qed.

Lemma trim_sp_all cset b : trim_sp cset b = length b <-> Forall (λ c, in_cset cset c = true) b.
Proof.
  induction b as [|c b IH]; cbn; [split; [by constructor|done]|].
  rewrite Forall_cons, <- IH. destruct (in_cset cset c); [|by split; [lia|intros []]].
  split; [intros [= ?]; done|]. intros [_ ?]. by f_equal.
Qed.

Lemma drop_set_all cset b : Forall (λ c, in_cset cset c = true) b -> drop_set cset b = [].
Proof. induction 1 as [|c b Hc _ IH]; cbn; [done|]. by rewrite Hc. Qed.

Lemma drop_set_stop cset b c r :
  Forall (λ c, in_cset cset c = true) b -> in_cset cset c = false ->
  drop_set cset (b ++ c :: r) = c :: r.
Proof. intros Hb Hc. induction Hb as [|x b Hx _ IH]; cbn; [by rewrite Hc|]. by rewrite Hx. Qed.

(** Where the loop from the right stops. *)
Lemma trim_ep_spec cset b ep : (ep < length b)%nat ->
  (trim_ep cset b ep <= ep)%nat
  /\ (forall k x, (trim_ep cset b ep < k <= ep)%nat -> b !! k = Some x -> in_cset cset x = true)
  /\ (trim_ep cset b ep <> O -> exists x, b !! trim_ep cset b ep = Some x /\ in_cset cset x = false).
Proof.
  induction ep as [|ep IH]; intros Hep; cbn; [split_and!; [lia|intros; lia|done]|].
  destruct (lookup_lt_is_Some_2 b (S ep) Hep) as [y Ey].
  assert (nth (S ep) b 0 = y) as -> by (by rewrite nth_lookup, Ey).
  destruct (in_cset cset y) eqn:E.
  - destruct (IH ltac:(lia)) as (H1 & H2 & H3). split_and!; [lia| |done].
    intros k x Hk Ex. destruct (decide (k = S ep)) as [->|]; [by simplify_eq|].
    apply (H2 k); [lia|done].
  - split_and!; [lia|intros; lia|]. intros _. by exists y.
Qed.

(** The bytes the two loops of [sdstrim] keep. *)
Lemma trim_keep cset b :
  let sp := trim_sp cset b in
  let ep := if bool_decide (b = []) then -1 else Z.of_nat (trim_ep cset b (length b - 1)) in
  let n := if ep <? Z.of_nat sp then 0 else ep - Z.of_nat sp + 1 in
  take (Z.to_nat n) (drop sp b) = trimmed cset b /\ 0 <= n
  /\ (Z.of_nat sp + n <= Z.of_nat (length b) \/ n = 0).
Proof.
  intros sp ep n. unfold trimmed. rewrite <- (trim_sp_drop cset b). fold sp.
  pose proof (trim_sp_le cset b) as Hsp. fold sp in Hsp.
  destruct (decide (b = [])) as [->|Hne].
  { split_and!; [done|done|by right]. }
  assert (length b <> O) as Hl0 by (by destruct b).
  unfold n, ep in *. rewrite bool_decide_eq_false_2 in * by done. clear n ep.
  destruct (trim_ep_spec cset b (length b - 1) ltac:(lia)) as (H1 & H2 & H3).
  set (e := trim_ep cset b (length b - 1)) in *.
  destruct (decide (sp = length b)) as [Ea|Ha].
  - (* every byte is in the set *)
    rewrite (drop_ge b) by lia. rewrite take_nil. split_and!; [done| |].
    + destruct (Z.ltb_spec (Z.of_nat e) (Z.of_nat sp)); lia.
    + right. rewrite (proj2 (Z.ltb_lt _ _)); lia.
  - (* the byte at [sp] stays *)
    assert (exists x, b !! sp = Some x /\ in_cset cset x = false) as (x & Ex & Hx).
    { clear -Ha Hsp. unfold sp in *. clear sp. induction b as [|c b IH]; cbn in *; [lia|].
      destruct (in_cset cset c) eqn:E; cbn in *; [|by exists c]. apply IH; lia. }
    assert (sp <= e)%nat as Hse.
    { destruct (decide (sp <= e)%nat) as [|Hgt]; [done|]. exfalso.
      pose proof (lookup_lt_Some _ _ _ Ex).
      rewrite (H2 sp x) in Hx; [done|lia|done]. }
    rewrite (proj2 (Z.ltb_ge _ _)) by lia. split_and!; [|lia|lia].
    replace (Z.to_nat (Z.of_nat e - Z.of_nat sp + 1)) with (S e - sp)%nat by lia.
    assert (exists y, b !! e = Some y /\ in_cset cset y = false) as (y & Ey & Hy).
    { destruct (decide (e = O)) as [E0|E0]; [|by apply H3].
      exists x. replace e with sp by lia. done. }
    assert (drop sp b = take (S e - sp) (drop sp b) ++ drop (S e) b) as Esplit.
    { rewrite <- (take_drop (S e - sp) (drop sp b)) at 1. rewrite drop_drop. do 2 f_equal. lia. }
    rewrite Esplit at 2. rewrite reverse_app.
    assert (take (S e - sp) (drop sp b) = take (e - sp) (drop sp b) ++ [y]) as Esn.
    { replace (S e - sp)%nat with (S (e - sp)) by lia. apply take_S_r. rewrite lookup_drop, <- Ey. f_equal. lia. }
    rewrite Esn, reverse_snoc, drop_set_stop; [by rewrite reverse_cons, reverse_involutive| |done].
    apply Forall_reverse, Forall_lookup. intros k z Hz. rewrite lookup_drop in Hz.
    pose proof (lookup_lt_Some _ _ _ Hz). apply (H2 (S e + k)%nat z); [lia|done].
Qed.

Lemma trim_ep_ext cset b b' ep :
  (forall k, (k <= ep)%nat -> nth k b 0 = nth k b' 0) -> trim_ep cset b ep = trim_ep cset b' ep.
Proof.
  induction ep as [|ep IH]; intros H; [done|]. cbn [trim_ep]. rewrite (H (S ep)) by lia.
  destruct (in_cset _ _); [|done]. apply IH. intros. apply H. lia.
Qed.

Lemma poke_nil b i : poke b i [] = b.
Proof. unfold poke. cbn. by rewrite Nat.add_0_r, take_drop. Qed.

Lemma poke_app b i t u :
  0 <= i -> i + Z.of_nat (length t) <= Z.of_nat (length b) ->
  poke b i (t ++ u) = poke (poke b i t) (i + Z.of_nat (length t)) u.
Proof.
  intros Hi Hb. unfold poke at 1 2. rewrite take_poke_end by lia. rewrite <- !app_assoc.
  do 3 f_equal. unfold poke. rewrite app_assoc.
  assert (length (take (Z.to_nat i) b ++ t) = (Z.to_nat i + length t)%nat) as Hl
    by (rewrite length_app, length_take; lia).
  rewrite drop_app_ge, drop_drop by lia. f_equal. rewrite length_app. lia.
Qed.

Lemma sdstrim_wf s cset : wf s -> wf (sdstrim s cset) /\ str (sdstrim s cset) = trimmed cset (str s).
Proof.
  intros W. pose proof (length_str s W) as Hl. pose proof (trim_keep cset (str s)) as Hk.
  cbv zeta in Hk. unfold sdstrim. set (sp := trim_sp cset (str s)) in *.
  assert ((if len s =? 0 then -1 else Z.of_nat (trim_ep cset (buf s) (Z.to_nat (len s - 1))))
    = (if bool_decide (str s = []) then -1
       else Z.of_nat (trim_ep cset (str s) (length (str s) - 1)))) as ->.
  { destruct (Z.eqb_spec (len s) 0) as [E|E].
    - rewrite bool_decide_eq_true_2; [done|]. apply length_zero_iff_nil. lia.
    - rewrite bool_decide_eq_false_2 by (intros E'; rewrite E' in Hl; cbn in Hl; lia).
      f_equal. replace (Z.to_nat (len s - 1)) with (length (str s) - 1)%nat by lia.
      apply trim_ep_ext. intros k Hlk. rewrite !nth_lookup. unfold str.
      by rewrite lookup_take_lt by lia. }
  set (n := if _ <? _ then 0 else _) in *. destruct Hk as (<- & Hn & Hsn).
  assert (n <= len s) as Hnl by lia. pose proof W as [W1 W2 W3 W4 W5].
  rewrite (wrap_s32_id n) by rng.
  destruct (keep_wf s (Z.of_nat sp) n W) as [W' E]; [lia|lia|lia|].
  cbv zeta in W', E. rewrite Nat2Z.id in W', E |- *.
  replace (if Z.of_nat sp =? 0 then buf s else poke (buf s) 0 (take (Z.to_nat n) (drop sp (buf s))))
    with (if (Z.of_nat sp =? 0) || (n =? 0) then buf s
          else poke (buf s) 0 (take (Z.to_nat n) (drop sp (buf s)))); [done|].
  destruct (Z.of_nat sp =? 0); [done|]. destruct (Z.eqb_spec n 0) as [->|]; [|done].
  cbn [orb]. by rewrite poke_nil.
Qed.

Lemma map_chars_wf f s : wf s -> wf (map_chars f s) /\ str (map_chars f s) = f <$> str s.
Proof.
  intros W. pose proof (length_str s W) as Hl. destruct W as [W1 W2 W3 W4 W5].
  unfold map_chars. split.
  - constructor; cbn; try done.
    + by rewrite length_poke by (rewrite ?length_fmap; lia).
    + unfold poke. change (take (Z.to_nat 0) (buf s)) with (@nil Z). cbn [app].
      pose proof (length_fmap f (str s)) as Hm.
      rewrite lookup_app_r by lia. rewrite lookup_drop, <- W5. f_equal. lia.
  - unfold str at 1. cbn. rewrite take_poke_end; rewrite ?length_fmap; [done|lia..].
Qed.

(** ** The remaining header operations *)

Lemma sdsclear_wf s : wf s -> wf (sdsclear s) /\ str (sdsclear s) = [].
Proof.
  intros [W1 W2 W3 W4 W5]. unfold sdsclear. rewrite wrap_s32_id by rng.
  destruct (wf_mk 0 (free s + len s) (buf s)) as [W E]; [lia..|]. done.
Qed.

Lemma sdsRemoveFreeSpace_wf s :
  wf s -> wf (sdsRemoveFreeSpace junk s) /\ str (sdsRemoveFreeSpace junk s) = str s
  /\ sdsAllocSize (sdsRemoveFreeSpace junk s) = SDSHDR_SIZE + len s + 1.
Proof.
  intros [W1 W2 W3 W4 W5]. unfold sdsRemoveFreeSpace, zrealloc.
  replace (Z.to_nat (len s + 1) - length (buf s))%nat with O by lia.
  rewrite (nil_length_inv (junk 0)) by apply junk_length. rewrite app_nil_r. split_and!.
  - constructor; cbn; try lia; [rewrite length_take; lia|]. by rewrite lookup_take_lt by lia.
  - unfold str. cbn. rewrite take_take. f_equal. lia.
  - unfold sdsAllocSize. cbn. lia.
Qed.

Lemma sdsgrowzero_wf s n :
  wf s -> 0 <= n < 2 ^ 31 - SDS_MAX_PREALLOC ->
  wf (sdsgrowzero junk s n)
  /\ str (sdsgrowzero junk s n) = str s ++ replicate (Z.to_nat n - length (str s)) 0.
Proof.
  intros W Hn. pose proof (length_str s W) as Hl. unfold sdsgrowzero.
  destruct (Z.leb_spec n (len s)).
  { replace (Z.to_nat n - length (str s))%nat with O by lia. by rewrite app_nil_r. }
  destruct (sdsMakeRoomFor_wf junk junk_length s (n - len s) W) as (W' & Es & El & Hf & _); [lia..|].
  set (s' := sdsMakeRoomFor junk s _) in *. pose proof W' as [W1 W2 W3 W4 W5]. rewrite El in *.
  rewrite wrap_s32_id by rng.
  assert (replicate (Z.to_nat (n - len s + 1)) 0 = replicate (Z.to_nat n - length (str s)) 0 ++ [0]) as Er.
  { change [0] with (replicate 1 0). rewrite <- replicate_add. f_equal. lia. }
  rewrite Er. set (zs := replicate _ 0). assert (length zs = (Z.to_nat n - length (str s))%nat) as Hz
    by apply length_replicate.
  assert (poke (buf s') (len s) (zs ++ [0]) = poke (poke (buf s') (len s) zs) n [0]) as ->.
  { rewrite poke_app by (cbn; lia). f_equal. lia. }
  destruct (wf_mk n (len s + free s' - n) (poke (buf s') (len s) zs)) as [Wm Em]; try lia.
  { rewrite length_poke; lia. }
  split; [done|]. rewrite Em, take_poke_end by lia. f_equal. rewrite <- Es. unfold str. by rewrite El.
Qed.

(** Bytes written behind the string, then counted with [sdsIncrLen]. *)
Definition write_behind (s : sdshdr) (t : bytes) : sdshdr :=
  mkSds (len s) (free s) (poke (buf s) (len s) t).

Lemma sdsIncrLen_wf s t :
  wf s -> Z.of_nat (length t) <= free s ->
  exists s', sdsIncrLen (write_behind s t) (Z.of_nat (length t)) = Ret s'
    /\ wf s' /\ str s' = str s ++ t.
Proof.
  intros [W1 W2 W3 W4 W5] Hf. unfold sdsIncrLen, write_behind. cbn [free len buf].
  rewrite !wrap_s32_id by rng. rewrite length_poke by lia.
  rewrite (proj2 (Z.leb_le (Z.of_nat (length t)) (free s))) by lia.
  rewrite (proj2 (Z.leb_le 0 (free s - Z.of_nat (length t)))) by lia.
  rewrite (proj2 (Z.leb_le 0 (len s + Z.of_nat (length t)))), (proj2 (Z.ltb_lt _ _)) by lia.
  cbn [andb prez_assert require mbind cres_bind].
  eexists. split; [done|].
  destruct (wf_mk (len s + Z.of_nat (length t)) (free s - Z.of_nat (length t))
    (poke (buf s) (len s) t)) as [W E]; try lia.
  { rewrite length_poke; lia. }
  split; [done|]. rewrite E, take_poke_end by lia. done.
Qed.

(** ** Programs of operations *)

Inductive sop :=
  | OCat (t : bytes)
  | OCpy (t : bytes)
  | ORange (a b : Z)
  | OTrim (cset : bytes)
  | OLower
  | OUpper
  | OMap (from to : bytes)
  | OClear
  | OGrow (n : Z)
  | ORoom (n : Z)
  | OShrink
  | ORead (t : bytes)   (** make room, let [read] write [t] behind the string, count it *)
  | ODup.

Definition run_op (o : sop) (s : sdshdr) : cres sdshdr :=
  match o with
  | OCat t => mret (sdscatlen junk s t)
  | OCpy t => mret (sdscpylen junk s t)
  | ORange a b => mret (sdsrange s a b)
  | OTrim cset => mret (sdstrim s cset)
  | OLower => mret (sdstolower s)
  | OUpper => mret (sdstoupper s)
  | OMap from to => mret (sdsmapchars s from to)
  | OClear => mret (sdsclear s)
  | OGrow n => mret (sdsgrowzero junk s n)
  | ORoom n => mret (sdsMakeRoomFor junk s n)
  | OShrink => mret (sdsRemoveFreeSpace junk s)
  | ORead t =>
      let s := sdsMakeRoomFor junk s (Z.of_nat (length t)) in
      sdsIncrLen (write_behind s t) (Z.of_nat (length t))
  | ODup => mret (sdsdup s)
  end.

(** The same on byte strings. *)
Definition sem_op (o : sop) (b : bytes) : bytes :=
  match o with
  | OCat t | ORead t => b ++ t
  | OCpy t => t
  | ORange a c => slice b a c
  | OTrim cset => trimmed cset b
  | OLower => tolower <$> b
  | OUpper => toupper <$> b
  | OMap from to => map_one from to <$> b
  | OClear => []
  | OGrow n => b ++ replicate (Z.to_nat n - length b) 0
  | ORoom _ | OShrink | ODup => b
  end.

Definition small (n : Z) : Prop := 0 <= n < 2 ^ 31 - SDS_MAX_PREALLOC.

(** The sizes stay in the range of [int], and so do the indices (for the largest
    [end] the length [end - start + 1] would overflow). *)
Definition op_fits (o : sop) (b : bytes) : Prop :=
  small (Z.of_nat (length b)) /\ small (Z.of_nat (length (sem_op o b))) /\
  match o with
  | ORange a c => in_s32 a /\ - 2 ^ 31 <= c < 2 ^ 31 - 1
  | OGrow n => small n
  | ORoom n => 0 <= n /\ small (Z.of_nat (length b) + n)
  | _ => True
  end.

Lemma run_op_refines o s :
  wf s -> op_fits o (str s) ->
  exists s', run_op o s = Ret s' /\ wf s' /\ str s' = sem_op o (str s).
Proof.
  intros W (Hb & Hr & Ho). pose proof (length_str s W) as Hl. unfold small in *.
  destruct o as [t|t|a c|cset| | |from to| |n|n| |t|]; cbn [run_op sem_op] in *;
    try (eexists; split; [done|]).
  - apply sdscatlen_wf; [done..|]. rewrite length_app in Hr. lia.
  - apply sdscpylen_wf; [done..|lia].
  - apply sdsrange_wf; [done|apply Ho|rng].
  - by apply sdstrim_wf.
  - by apply map_chars_wf.
  - by apply map_chars_wf.
  - by apply map_chars_wf.
  - by apply sdsclear_wf.
  - by apply sdsgrowzero_wf.
  - destruct (sdsMakeRoomFor_wf junk junk_length s n) as (? & ? & _); [done|lia|lia|done].
  - destruct (sdsRemoveFreeSpace_wf s W) as (? & ? & _). done.
  - rewrite length_app in Hr.
    destruct (sdsMakeRoomFor_wf junk junk_length s (Z.of_nat (length t))) as (W' & <- & _ & Hf & _); [done|lia..|].
    by apply sdsIncrLen_wf.
  - apply sdsnewlen_wf. unfold SDS_MAX_PREALLOC in *. lia.
Qed.

Fixpoint run_ops (os : list sop) (s : sdshdr) : cres sdshdr :=
  match os with [] => mret s | o :: os => s ← run_op o s; run_ops os s end.

Fixpoint sem_ops (os : list sop) (b : bytes) : bytes :=
  match os with [] => b | o :: os => sem_ops os (sem_op o b) end.

Fixpoint ops_fit (os : list sop) (b : bytes) : Prop :=
  match os with [] => True | o :: os => op_fits o b /\ ops_fit os (sem_op o b) end.

Lemma run_ops_refines os : forall s, wf s -> ops_fit os (str s) ->
  exists s', run_ops os s = Ret s' /\ wf s' /\ str s' = sem_ops os (str s).
Proof.
  induction os as [|o os IH]; intros s W Hf; [by exists s|]. destruct Hf as [Ho Hf].
  destruct (run_op_refines o s W Ho) as (s1 & E & W1 & E1). cbn [run_ops sem_ops].
  rewrite E. cbn [mbind cres_bind]. rewrite <- E1 in *. by apply IH.
Qed.

(** [C23] The sds strings refine byte strings.  Any program of concatenations, copies, ranges,
    trimming, case and character mapping, clearing, growing, reallocation, direct reads into
    the free space and duplication, started on an empty string and staying below the limits of
    [int], never fails an assertion or writes outside its block, leaves a well-formed header
    (lengths, terminating NUL), and computes the same bytes as the program on byte lists. *)
Theorem sds_refines_bytes os :
  ops_fit os [] -> exists s, run_ops os sdsempty = Ret s /\ wf s /\ str s = sem_ops os [].
Proof.
  intros Hf. destruct (sdsnewlen_wf []) as [W E]; [done|]. fold sdsempty in W, E.
  destruct (run_ops_refines os sdsempty W) as (s & Hr & Hw & Hs); [by rewrite E|].
  exists s. by rewrite Hs, E.
Qed.

(** [sdscatfmt] appends what its format stands for: for a format whose conversions find
    arguments of their kind, and a result below the limits of [int], the call returns a well
    formed string, the old bytes followed by the rendered text, however often the buffer had to
    be enlarged on the way. *)
Theorem sdscatfmt_correct s f args t :
  wf s -> nonul f -> render f args = Some t ->
  len s + Z.of_nat (length t) + 1 < 2 ^ 31 - SDS_MAX_PREALLOC ->
  exists s', sdscatfmt s (f ++ [0]) args = Ret s' /\ wf s' /\ str s' = str s ++ t.
Proof.
  intros W Hn Hr Hb. pose proof (wf_bounds s W) as [El _]. pose proof W as [W1 W2 W3 _ _].
  unfold sdscatfmt. rewrite cstr_app_nul by done. cbn [of_ptr mbind cres_bind].
  rewrite El, wrap_s32_id by rng.
  destruct (catfmt_loop_render (length f) f args s (str s) t) as (s' & -> & Hf);
    [done|by apply wf_filled|done|done|].
  cbn [mbind cres_bind]. eexists. split; [done|]. by apply filled_close.
Qed.
End Ops.

(** ** Splitting *)

(** The tokens with the separator between them. *)
Fixpoint join_with (sep : bytes) (l : list bytes) : bytes :=
  match l with
  | [] => []
  | [x] => x
  | x :: l => x ++ sep ++ join_with sep l
  end.

Definition sep_free (sep t : bytes) : Prop := forall k, take (length sep) (drop k t) <> sep.

Lemma join_with_snoc sep l x y : join_with sep (l ++ [x; y]) = join_with sep (l ++ [x]) ++ sep ++ y.
Proof.
  induction l as [|z l IH]; cbn; [done|]. destruct l as [|z' l]; cbn in *.
  - by rewrite <- !app_assoc.
  - by rewrite IH, <- !app_assoc.
Qed.

Lemma join_with_last sep l x y : join_with sep (l ++ [x ++ y]) = join_with sep (l ++ [x]) ++ y.
Proof.
  induction l as [|z l IH]; cbn; [done|]. destruct l as [|z' l]; cbn in *.
  - by rewrite <- !app_assoc.
  - by rewrite IH, <- !app_assoc.
Qed.

Lemma sep_free_take sep s start j : sep <> [] -> (start <= j <= length s)%nat ->
  (forall k, (start <= k < j)%nat -> take (length sep) (drop k s) <> sep) ->
  sep_free sep (take (j - start) (drop start s)).
Proof.
  intros Hs Hj Hk k E. assert (length sep <> O) as Hl by (by destruct sep).
  pose proof (f_equal length E) as El. rewrite length_take, length_drop, length_take, length_drop in El.
  apply (Hk (start + k)%nat); [lia|]. rewrite <- E at 2.
  rewrite skipn_firstn_comm, take_take, drop_drop. f_equal. lia.
Qed.

(** The loop keeps what is split off, and never skips an occurrence. *)
Lemma split_loop_spec sep s : sep <> [] -> forall fuel start j tokens,
  (start <= j)%nat -> (start <= length s)%nat -> (length s <= j + fuel)%nat ->
  (forall k, (start <= k < j)%nat -> take (length sep) (drop k s) <> sep) ->
  Forall (sep_free sep) tokens -> join_with sep (tokens ++ [drop start s]) = s ->
  let r := split_loop fuel s sep start j tokens in
  Forall (sep_free sep) r /\ join_with sep r = s.
Proof.
  intros Hsep. assert (length sep <> O) as Hls by (by destruct sep).
  assert (forall start j tokens,
    (start <= length s)%nat -> (length s - (length sep - 1) <= j)%nat ->
    (forall k, (start <= k < j)%nat -> take (length sep) (drop k s) <> sep) ->
    Forall (sep_free sep) tokens -> join_with sep (tokens ++ [drop start s]) = s ->
    Forall (sep_free sep) (tokens ++ [drop start s]) /\ join_with sep (tokens ++ [drop start s]) = s) as Hend.
  { intros start j tokens Hs Hj Hk Ht Hjn. split; [|done]. apply Forall_app. split; [done|].
    apply Forall_singleton. intros k E. pose proof (f_equal length E) as El.
    rewrite length_take, !length_drop in El. apply (Hk (start + k)%nat); [lia|].
    by rewrite <- drop_drop. }
  induction fuel as [|fuel IH]; intros start j tokens Hsj Hs Hf Hk Ht Hjn; cbn [split_loop].
  { apply (Hend start j); [lia|lia|done..]. }
  destruct (Nat.ltb_spec j (length s - (length sep - 1))) as [Hlt|Hge]; [|by apply (Hend start j)].
  case_bool_decide as E.
  - apply IH; [lia|lia|lia|intros; lia| |].
    + apply Forall_app. split; [done|]. apply Forall_singleton, sep_free_take; [done|lia|done].
    + rewrite <- app_assoc. cbn [app]. rewrite join_with_snoc. etrans; [|exact Hjn].
      assert (drop start s = take (j - start) (drop start s) ++ sep ++ drop (j + length sep) s) as Ed.
      { rewrite <- (take_drop (j - start) (drop start s)) at 1. f_equal. rewrite drop_drop.
        replace (start + (j - start))%nat with j by lia.
        rewrite <- (take_drop (length sep) (drop j s)) at 1. by rewrite E, drop_drop. }
      by rewrite <- join_with_last, <- Ed.
  - apply IH; [lia|lia|lia| |done|done]. intros k Hkj. destruct (decide (k = j)) as [->|]; [done|].
    apply Hk. lia.
Qed.

(** Joining on sds strings. *)
Lemma join_loop_wf junk (junk_length : forall n, length (junk n) = n) sep : nonul sep -> forall argv s,
  wf s -> Forall nonul argv ->
  len s + Z.of_nat (length (join_with sep argv)) < 2 ^ 31 - SDS_MAX_PREALLOC ->
  exists s', join_loop junk s ((λ a, a ++ [0]) <$> argv) (sep ++ [0]) = Ret s' /\ wf s'
    /\ str s' = str s ++ join_with sep argv.
Proof.
  intros Hsep. assert (forall s t, wf s -> nonul t ->
    len s + Z.of_nat (length t) < 2 ^ 31 - SDS_MAX_PREALLOC ->
    exists s', sdscat junk s (t ++ [0]) = Ret s' /\ wf s' /\ str s' = str s ++ t) as Hcat.
  { intros s t W Ht Hb. unfold sdscat. rewrite strlen_app_nul by done. cbn [of_ptr mbind cres_bind].
    rewrite take_app_length. eexists. split; [done|]. by apply sdscatlen_wf. }
  induction argv as [|a argv IH]; intros s W Hn Hb; [exists s; by rewrite app_nil_r|].
  apply Forall_cons in Hn as [Ha Hn]. cbn [fmap list_fmap join_loop].
  assert (Z.of_nat (length a) <= Z.of_nat (length (join_with sep (a :: argv)))) as Hla.
  { cbn [join_with]. destruct argv; [done|]. rewrite length_app. lia. }
  destruct (Hcat s a W Ha ltac:(lia)) as (s1 & -> & W1 & E1). cbn [mbind cres_bind].
  pose proof (length_str s1 W1) as L1. pose proof (length_str s W) as L0.
  rewrite E1, length_app in L1. destruct argv as [|b argv]; cbn [fmap list_fmap mbind cres_bind].
  { exists s1. by rewrite E1. }
  change (join_with sep (a :: b :: argv)) with (a ++ sep ++ join_with sep (b :: argv)) in *.
  rewrite !length_app in Hb.
  destruct (Hcat s1 sep W1 Hsep ltac:(lia)) as (s2 & -> & W2 & E2). cbn [mbind cres_bind].
  pose proof (length_str s2 W2) as L2. rewrite E2, E1, !length_app in L2.
  destruct (IH s2 W2 Hn) as (s3 & E & W3 & E3); [lia|]. exists s3.
  rewrite E3, E2, E1, <- !app_assoc. done.
Qed.

(** Splitting and joining.  For a string and a separator that are not empty,
    [sdssplitlen] returns tokens that do not contain the separator and that give the string
    back with the separator between them; [sdsjoin] on these tokens, as C strings, rebuilds
    exactly the string that was split. *)
Theorem sdssplitlen_sdsjoin junk s sep :
  (forall n, length (junk n) = n) -> s <> [] -> sep <> [] -> nonul sep ->
  Z.of_nat (length s) < 2 ^ 31 - SDS_MAX_PREALLOC ->
  exists tokens, sdssplitlen s sep = Some tokens /\ Forall (sep_free sep) tokens
    /\ join_with sep tokens = s
    /\ (Forall nonul tokens -> exists j, wf j /\ str j = s
          /\ sdsjoin junk ((λ a, a ++ [0]) <$> tokens) (sep ++ [0]) = Ret j).
Proof.
  intros Hj Hs Hsep Hn Hb. unfold sdssplitlen. rewrite !bool_decide_eq_false_2 by done.
  destruct (split_loop_spec sep s Hsep (length s) 0 0 []) as [Hf Ej];
    [lia..|intros; lia|constructor|cbn; by rewrite drop_0|].
  eexists. split_and!; [done..|]. intros Ht.
  destruct (sdsnewlen_wf []) as [W0 E0]; [done|].
  destruct (join_loop_wf junk Hj sep Hn (split_loop (length s) s sep 0 0 []) (sdsnewlen []) W0 Ht)
    as (j & E & W & Es).
  - rewrite Ej. change (len (sdsnewlen [])) with 0. lia.
  - exists j. rewrite Es, E0, Ej. split_and!; [done|done|exact E].
Qed.

Lemma sdssplitlen_sdsjoin_witness :
  exists tokens, sdssplitlen (lit "a, b,, c") (lit ", ") = Some tokens
    /\ join_with (lit ", ") tokens = lit "a, b,, c".
Proof.
  destruct (sdssplitlen_sdsjoin (λ n, replicate n 170) (lit "a, b,, c") (lit ", "))
    as (tokens & E & _ & Ej & _).
  - intros n. apply length_replicate.
  - discriminate.
  - discriminate.
  - by repeat constructor.
  - vm_compute. reflexivity.
  - exists tokens. split; [exact E|exact Ej].
Defined.

Lemma sds_refines_bytes_witness :
  exists s, run_ops (λ n, replicate n 170)
      [OCat (lit "  Hello"); ORead (lit " World "); OTrim (lit " "); ORange 1 (-2); OUpper; OGrow 12]
      sdsempty = Ret s /\ wf s /\ str s = lit "ELLO WORL" ++ [0; 0; 0].
Proof.
  apply (sds_refines_bytes (λ n, replicate n 170)).
  - intros n. apply length_replicate.
  - repeat split; vm_compute; discriminate || reflexivity.
Defined.

Lemma sdscatfmt_correct_witness :
  exists s, sdscatfmt (λ n, replicate n 170) (sdsnewlen (lit "x=")) (lit "%i, %S%%" ++ [0])
      [ArgNum (-42); ArgSds (sdsnewlen (lit "abc"))] = Ret s
    /\ wf s /\ str s = str (sdsnewlen (lit "x=")) ++ lit "-42, abc%".
Proof.
  apply (sdscatfmt_correct (λ n, replicate n 170)) with (t := lit "-42, abc%").
  - intros n. apply length_replicate.
  - by apply sdsnewlen_wf.
  - by repeat constructor.
  - vm_compute. reflexivity.
  - vm_compute. reflexivity.
Defined.

(** [sdsfromlonglong] is exact: for every 64-bit integer, both extremes included, the
    text fits with its NUL in the 21 bytes of the buffer, the result is a well-formed string
    that holds the canonical notation, and [string2ll] reads the number back. *)
Theorem sdsfromlonglong_exact v :
  in_s64 v ->
  Z.of_nat (length (sdsll2str v)) + 1 <= SDS_LLSTR_SIZE /\ wf (sdsfromlonglong v)
  /\ str (sdsfromlonglong v) = ll_repr v /\ string2ll (str (sdsfromlonglong v)) = Some v.
Proof.
  intros Hv. pose proof (length_ll_repr_max v Hv) as Hl. unfold sdsfromlonglong.
  rewrite sdsll2str_repr by done. unfold SDS_LLSTR_SIZE.
  destruct (sdsnewlen_wf (ll_repr v)) as [W E]; [lia|]. split_and!; [lia|done|done|].
  rewrite E. by apply string2ll_complete.
Qed.

Lemma sdsfromlonglong_exact_witness :
  str (sdsfromlonglong LLONG_MIN) = lit "-9223372036854775808".
Proof. apply (sdsfromlonglong_exact LLONG_MIN). rng. Defined.
