(* ===== verification/Glob.v ===== *)
(** * util.c: glob patterns

    [stringmatchlen] and [stringmatch] of src/src/util.c, which CONFIG GET uses to select
    parameters.  Pattern and string are the bytes that are left, each with its terminating
    NUL behind them; reading past that is [Undef].  The matcher is compared with the meaning
    of a pattern as a list of tokens; a pattern that ends inside a character class with a
    backslash has no such meaning, and the matcher leaves its memory. *)

From Stdlib Require Import ZArith Lia.
From stdpp Require Import base tactics numbers list strings.
From S2P Require Import Prelude.
From S2P Require SdsOps.

Local Open Scope Z_scope.

(** [pattern[0]]: the NUL at the end. *)
Definition char0 (p : bytes) : Z := default 0 (head p).

(** [char] is signed. *)
Definition schar (c : Z) : Z := if 128 <=? c then c - 256 else c.

Definition same_char (nocase : bool) (x c : Z) : bool :=
  if nocase then SdsOps.tolower (schar x) =? SdsOps.tolower (schar c) else x =? c.

(** [a-b], in either order. *)
Definition in_range (nocase : bool) (a b c : Z) : bool :=
  let '(lo, hi) := if schar b <? schar a then (schar b, schar a) else (schar a, schar b) in
  let f := if nocase then SdsOps.tolower else id in
  (f lo <=? f (schar c)) && (f (schar c) <=? f hi).

(** The loop over a character class, up to the byte behind it; [c] is [string[0]].  After a
    backslash at the end of the pattern the loop goes on behind the NUL. *)
Fixpoint class_loop (nocase : bool) (c : Z) (p : bytes) (m : bool) : cres (bytes * bool) :=
  match p with
  | [] => mret ([], m)
  | x :: p1 =>
      if x =? 92 then
        match p1 with
        | [] => Undef
        | y :: p2 => class_loop nocase c p2 (m || (y =? c))
        end
      else if x =? 93 then mret (p1, m)
      else
        match p1 with
        | d :: p2 =>
            match p2 with
            | e :: p3 =>
                if d =? 45 then class_loop nocase c p3 (m || in_range nocase x e c)
                else class_loop nocase c p1 (m || same_char nocase x c)
            | [] => class_loop nocase c p1 (m || same_char nocase x c)
            end
        | [] => class_loop nocase c p1 (m || same_char nocase x c)
        end
  end.

Fixpoint skip_stars (p : bytes) : bytes :=
  match p with
  | c :: p' => if c =? 42 then skip_stars p' else p
  | [] => []
  end.

(** The loop over the suffixes of the string that are not empty. *)
Fixpoint star_loop (f : bytes -> cres bool) (s : bytes) : cres bool :=
  match s with
  | [] => mret false
  | _ :: s' => r ← f s; if (r : bool) then mret true else star_loop f s'
  end.

(** [n]: rounds that are left, each takes a byte of the pattern. *)
Fixpoint match_loop (n : nat) (nocase : bool) (p s : bytes) : cres bool :=
  match n with
  | O => Undef
  | S n =>
      let advance p := (** [string++] and the end of the round *)
        match s with
        | [] => match p with [] => mret false | _ => Undef end
        | _ :: [] => mret (bool_decide (skip_stars p = []))
        | _ :: s' => match_loop n nocase p s'
        end in
      match p with
      | [] => mret (bool_decide (s = []))
      | x :: p1 =>
          if x =? 42 then
            match skip_stars p1 with
            | [] => mret true
            | p2 => star_loop (match_loop n nocase p2) s
            end
          else if x =? 63 then
            match s with [] => mret false | _ => advance p1 end
          else if x =? 91 then
            let neg := char0 p1 =? 94 in
            '(p2, m) ← class_loop nocase (char0 s) (if neg then drop 1 p1 else p1) false;
            if xorb neg m then advance p2 else mret false
          else
            let '(y, p2) := match p1 with y :: p2 => if x =? 92 then (y, p2) else (x, p1) | [] => (x, p1) end in
            if same_char nocase y (char0 s) then advance p2 else mret false
      end
  end.

Definition stringmatchlen (p s : bytes) (nocase : bool) : cres bool := match_loop (S (length p)) nocase p s.

(** On C strings. *)
Definition stringmatch (p s : bytes) (nocase : bool) : cres bool :=
  p ← of_ptr (cstr (p ++ [0])); s ← of_ptr (cstr (s ++ [0])); stringmatchlen p s nocase.

(** ** The meaning of a pattern *)

Inductive item := IEscaped (c : Z) | IRange (a b : Z) | IChar (c : Z).

Inductive token := TStar | TAny | TClass (neg : bool) (items : list item) | TChar (c : Z).

#[global] Instance item_eq_dec : EqDecision item.
Proof. solve_decision. Defined.
#[global] Instance token_eq_dec : EqDecision token.
Proof. solve_decision. Defined.

Fixpoint parse_class (p : bytes) : option (list item * bytes) :=
  match p with
  | [] => Some ([], [])
  | x :: p1 =>
      if x =? 92 then
        match p1 with
        | [] => None
        | y :: p2 => '(l, r) ← parse_class p2; Some (IEscaped y :: l, r)
        end
      else if x =? 93 then Some ([], p1)
      else
        match p1 with
        | d :: p2 =>
            match p2 with
            | e :: p3 =>
                if d =? 45 then '(l, r) ← parse_class p3; Some (IRange x e :: l, r)
                else '(l, r) ← parse_class p1; Some (IChar x :: l, r)
            | [] => '(l, r) ← parse_class p1; Some (IChar x :: l, r)
            end
        | [] => '(l, r) ← parse_class p1; Some (IChar x :: l, r)
        end
  end.

(** The first token and the rest of the pattern behind it. *)
Definition first_token (p : bytes) : option (option (token * bytes)) :=
  match p with
  | [] => Some None
  | x :: p1 =>
      if x =? 42 then Some (Some (TStar, p1))
      else if x =? 63 then Some (Some (TAny, p1))
      else if x =? 91 then
        let neg := char0 p1 =? 94 in
        '(l, r) ← parse_class (if neg then drop 1 p1 else p1); Some (Some (TClass neg l, r))
      else
        match p1 with
        | y :: p2 => Some (Some (if x =? 92 then (TChar y, p2) else (TChar x, p1)))
        | [] => Some (Some (TChar x, []))
        end
  end.

Fixpoint parse_tokens (n : nat) (p : bytes) : option (list token) :=
  match n with
  | O => None
  | S n =>
      match first_token p with
      | None => None
      | Some None => Some []
      | Some (Some (t, r)) => cons t <$> parse_tokens n r
      end
  end.

Definition tokens (p : bytes) : option (list token) := parse_tokens (S (length p)) p.

Definition item_has (nocase : bool) (c : Z) (i : item) : bool :=
  match i with
  | IEscaped y => y =? c
  | IRange a b => in_range nocase a b c
  | IChar x => same_char nocase x c
  end.

(** One character. *)
Definition token_has (nocase : bool) (c : Z) (t : token) : bool :=
  match t with
  | TStar => false
  | TAny => true
  | TClass neg l => xorb neg (existsb (item_has nocase c) l)
  | TChar x => same_char nocase x c
  end.

Inductive matches (nocase : bool) : list token -> bytes -> Prop :=
  | matches_nil : matches nocase [] []
  | matches_star_skip ts s : matches nocase ts s -> matches nocase (TStar :: ts) s
  | matches_star_take ts c s : matches nocase (TStar :: ts) s -> matches nocase (TStar :: ts) (c :: s)
  | matches_char t ts c s : token_has nocase c t = true -> matches nocase ts s -> matches nocase (t :: ts) (c :: s).

(** ** Parsing *)

Lemma length_ind {A} (P : list A -> Prop) : (forall p, (forall q, (length q < length p)%nat -> P q) -> P p) -> forall p, P p.
Proof. intros H p. induction p as [p IH] using (well_founded_ind (Nat.lt_wf_0_projected length)). by apply H. Qed.

(** The class the loop reads, and the result it computes. *)
Lemma class_loop_parse nocase c p : forall m,
  match parse_class p with
  | Some (l, r) => class_loop nocase c p m = Ret (r, m || existsb (item_has nocase c) l) /\ (length r <= length p)%nat
  | None => class_loop nocase c p m = Undef
  end.
Proof.
  induction p as [p IH] using length_ind. intros m. destruct p as [|x p1]; cbn [parse_class class_loop].
  { cbn. by rewrite orb_false_r. }
  assert (forall q i, (length q < length (x :: p1))%nat -> 
    match ('(l, r) ← parse_class q; Some (i :: l, r)) with
    | Some (l, r) => class_loop nocase c q (m || item_has nocase c i) = Ret (r, m || existsb (item_has nocase c) l)
        /\ (length r <= length (x :: p1))%nat
    | None => class_loop nocase c q (m || item_has nocase c i) = Undef
    end) as Hstep.
  { intros q i Hq. specialize (IH q Hq (m || item_has nocase c i)). destruct (parse_class q) as [[l r]|]; cbn in *; [|done].
    destruct IH as [-> ?]. split; [by rewrite orb_assoc|lia]. }
  destruct (x =? 92). { destruct p1 as [|y p2]; [done|]. apply (Hstep p2 (IEscaped y)). cbn. lia. }
  destruct (x =? 93). { cbn. rewrite orb_false_r. split; [done|lia]. }
  destruct p1 as [|d [|e p3]]; [apply (Hstep [] (IChar x)); cbn; lia|apply (Hstep [d] (IChar x)); cbn; lia|].
  destruct (d =? 45); [apply (Hstep p3 (IRange x e)); cbn; lia|apply (Hstep (d :: e :: p3) (IChar x)); cbn; lia].
Qed.

Lemma parse_class_shorter p l r : parse_class p = Some (l, r) -> (length r <= length p)%nat.
Proof. intros E. pose proof (class_loop_parse false 0 p false) as H. rewrite E in H. apply H. Qed.

Lemma first_token_shorter p t r : first_token p = Some (Some (t, r)) -> (length r < length p)%nat.
Proof.
  destruct p as [|x p1]; [done|]. cbn [first_token].
  destruct (x =? 42); [intros [= <- <-]; cbn; lia|]. destruct (x =? 63); [intros [= <- <-]; cbn; lia|].
  destruct (x =? 91).
  { destruct (parse_class _) as [[l r']|] eqn:E; [|done]. intros [= <- <-]. apply parse_class_shorter in E.
    destruct (char0 p1 =? 94); cbn in *; rewrite ?length_drop in E; lia. }
  destruct p1 as [|y p2]; [intros [= <- <-]; cbn; lia|]. destruct (x =? 92); intros [= <- <-]; cbn; lia.
Qed.

(** A round on a string that is not empty. *)
Lemma match_loop_step n nocase p c s :
  match_loop (S n) nocase p (c :: s) =
  match first_token p with
  | None => Undef
  | Some None => Ret false
  | Some (Some (TStar, r)) =>
      match skip_stars r with [] => Ret true | p2 => star_loop (match_loop n nocase p2) (c :: s) end
  | Some (Some (t, r)) =>
      if token_has nocase c t
      then match s with [] => Ret (bool_decide (skip_stars r = [])) | _ => match_loop n nocase r s end
      else Ret false
  end.
Proof.
  destruct p as [|x p1]; [done|]. cbn [match_loop first_token]. destruct (x =? 42); [done|].
  destruct (x =? 63); [done|]. destruct (x =? 91).
  - change (char0 (c :: s)) with c.
    pose proof (class_loop_parse nocase c (if char0 p1 =? 94 then drop 1 p1 else p1) false) as H.
    destruct (parse_class _) as [[l r]|]; cbn [mbind option_bind]; [|by rewrite H].
    destruct H as [-> _]. cbn [mbind cres_bind orb token_has]. by destruct (xorb _ _).
  - destruct p1 as [|y p2]; [done|]. by destruct (x =? 92).
Qed.

Lemma skip_stars_shorter p : (length (skip_stars p) <= length p)%nat.
Proof. induction p as [|x p IH]; cbn; [lia|]. destruct (x =? 42); cbn; lia. Qed.

Lemma skip_stars_head p x r : skip_stars p = x :: r -> x <> 42.
Proof. induction p as [|y p IH]; cbn; [done|]. destruct (Z.eqb_spec y 42); [done|]. by intros [= <- _]. Qed.

(** ** Fuel *)

Lemma parse_tokens_fuel n : forall m p, (length p < n)%nat -> (length p < m)%nat -> parse_tokens n p = parse_tokens m p.
Proof.
  induction n as [|n IH]; intros m p Hn Hm; [lia|]. destruct m as [|m]; [lia|]. cbn.
  destruct (first_token p) as [[[t r]|]|] eqn:E; try done. apply first_token_shorter in E.
  rewrite (IH m) by lia. done.
Qed.

Lemma tokens_step p : tokens p =
  match first_token p with
  | None => None
  | Some None => Some []
  | Some (Some (t, r)) => cons t <$> tokens r
  end.
Proof.
  unfold tokens. cbn [parse_tokens]. destruct (first_token p) as [[[t r]|]|] eqn:E; try done.
  apply first_token_shorter in E. by rewrite (parse_tokens_fuel (length p) (S (length r))) by lia.
Qed.

Lemma tokens_star p : tokens (42 :: p) = cons TStar <$> tokens p.
Proof. by rewrite tokens_step. Qed.

(** ** What a pattern matches *)

Lemma matches_star nocase ts s : matches nocase (TStar :: ts) s <-> exists k, (k <= length s)%nat /\ matches nocase ts (drop k s).
Proof.
  split.
  - intros H. remember (TStar :: ts) as ts' eqn:E. induction H as [|ts' s H _|ts' c s H IH|t ts' c s Ht H _]; try done.
    + injection E as ->. exists 0%nat. split; [lia|done].
    + injection E as ->. destruct (IH eq_refl) as (k & Hk & Hm). exists (S k). cbn. split; [lia|done].
    + injection E as -> ->. done.
  - intros (k & Hk & H). revert k Hk H. induction s as [|c s IH]; intros k Hk H.
    + apply matches_star_skip. by destruct k.
    + destruct k as [|k]; [by apply matches_star_skip|]. apply matches_star_take, (IH k); [cbn in Hk; lia|done].
Qed.

Lemma matches_one nocase t ts c s : t <> TStar ->
  matches nocase (t :: ts) (c :: s) <-> token_has nocase c t = true /\ matches nocase ts s.
Proof. intros Ht. split; [|intros []; by constructor]. by inversion 1; subst. Qed.

(** The stars at the start of a pattern are like one. *)
Lemma matches_skip_stars nocase p ts s : tokens p = Some ts ->
  exists ts', tokens (skip_stars p) = Some ts' /\ (matches nocase (TStar :: ts) s <-> matches nocase (TStar :: ts') s).
Proof.
  revert ts. induction p as [|x p IH]; intros ts E; cbn [skip_stars]; [by exists ts|].
  destruct (Z.eqb_spec x 42) as [->|]; [|by exists ts]. rewrite tokens_star in E.
  destruct (tokens p) as [ts0|] eqn:E0; [|done]. injection E as <-. destruct (IH ts0 eq_refl) as (ts' & E' & Hiff).
  exists ts'. split; [done|]. rewrite <- Hiff. rewrite (matches_star _ (TStar :: ts0)). split.
  - intros (k & Hk & (k' & Hk' & H)%matches_star). rewrite drop_drop in H. rewrite length_drop in Hk'.
    apply matches_star. exists (k + k')%nat. split; [lia|done].
  - intros H. exists 0%nat. split; [lia|done].
Qed.

Lemma first_token_star p r : first_token p = Some (Some (TStar, r)) -> p = 42 :: r.
Proof.
  destruct p as [|x p1]; [done|]. cbn [first_token]. destruct (Z.eqb_spec x 42) as [->|]; [by intros [= ->]|].
  destruct (x =? 63); [done|]. destruct (x =? 91); [by destruct (parse_class _) as [[]|]|].
  destruct p1; [done|]. by destruct (x =? 92).
Qed.

Lemma first_token_nil p : first_token p = Some None -> p = [].
Proof.
  destruct p as [|x p1]; [done|]. cbn [first_token]. destruct (x =? 42); [done|].
  destruct (x =? 63); [done|]. destruct (x =? 91); [by destruct (parse_class _) as [[]|]|].
  destruct p1; [done|]. by destruct (x =? 92).
Qed.

(** Only stars match the empty string. *)
Lemma matches_empty nocase p ts : tokens p = Some ts -> (matches nocase ts [] <-> skip_stars p = []).
Proof.
  revert ts. induction p as [|x p IH]; intros ts E.
  { injection E as <-. split; [done|]. intros _. constructor. }
  cbn [skip_stars]. destruct (Z.eqb_spec x 42) as [->|Hx].
  - rewrite tokens_star in E. destruct (tokens p) as [ts0|]; [|done]. injection E as <-.
    rewrite <- (IH ts0 eq_refl), matches_star. split.
    + by intros (k & _ & H); rewrite drop_nil in H.
    + intros H. by exists 0%nat.
  - split; [|done]. intros H. exfalso. rewrite tokens_step in E.
    destruct (first_token (x :: p)) as [[[t r]|]|] eqn:Ef; [| |done].
    + destruct (tokens r) as [ts0|]; [|done]. injection E as <-. inversion H; subst.
      apply first_token_star in Ef. congruence.
    + by apply first_token_nil in Ef.
Qed.

(** The loop over suffixes. *)
Lemma star_loop_spec (f : bytes -> cres bool) (P : bytes -> Prop) s :
  (forall k, (k < length s)%nat -> exists b, f (drop k s) = Ret b /\ (b = true <-> P (drop k s))) ->
  exists b, star_loop f s = Ret b /\ (b = true <-> exists k, (k < length s)%nat /\ P (drop k s)).
Proof.
  induction s as [|c s IH]; intros H; cbn [star_loop].
  { exists false. split; [done|]. split; [done|]. intros (k & Hk & _). cbn in Hk. lia. }
  destruct (H 0%nat) as (b & E & Hb); [cbn; lia|]. cbn [drop] in *. rewrite E. cbn [mbind cres_bind]. destruct b.
  { exists true. split; [done|]. split; [|done]. intros _. exists 0%nat. split; [cbn; lia|]. by apply Hb. }
  destruct IH as (b & -> & Hiff). { intros k Hk. apply (H (S k)). cbn. lia. }
  exists b. split; [done|]. rewrite Hiff. split.
  - intros (k & Hk & HP). exists (S k). cbn. split; [lia|done].
  - intros ([|k] & Hk & HP); [|exists k; cbn in *; split; [lia|done]]. exfalso. by apply Hb in HP.
Qed.

Lemma match_loop_spec nocase n : forall p s ts, (length p < n)%nat -> s <> [] -> tokens p = Some ts ->
  exists b, match_loop n nocase p s = Ret b /\ (b = true <-> matches nocase ts s).
Proof.
  induction n as [|n IH]; intros p s ts Hn Hs Et; [lia|]. destruct s as [|c s]; [done|].
  rewrite match_loop_step. rewrite tokens_step in Et. destruct (first_token p) as [[[t r]|]|] eqn:Ef; [| |done].
  2:{ injection Et as <-. exists false. split; [done|]. split; [done|]. inversion 1. }
  destruct (tokens r) as [ts0|] eqn:Er; [|done]. injection Et as <-. pose proof (first_token_shorter _ _ _ Ef) as Hr.
  destruct (decide (t = TStar)) as [->|Hne].
  - destruct (matches_skip_stars nocase r ts0 (c :: s) Er) as (ts' & E' & Hiff). setoid_rewrite Hiff.
    pose proof (skip_stars_shorter r). destruct (skip_stars r) as [|x q] eqn:Ek.
    + injection E' as <-. exists true. split; [done|]. split; [|done]. intros _. apply matches_star.
      exists (length (c :: s)). rewrite drop_all. split; [lia|constructor].
    + destruct (star_loop_spec (match_loop n nocase (x :: q)) (matches nocase ts') (c :: s)) as (b & E & Hb).
      { intros k Hk. apply IH; [lia| |done]. intros Ed%(f_equal length). rewrite length_drop in Ed. cbn in *. lia. }
      exists b. split; [done|]. rewrite Hb, matches_star. split; [intros (k & ? & ?); exists k; split; [lia|done]|].
      intros (k & Hk & Hm). exists k. split; [|done]. destruct (decide (k = length (c :: s))) as [->|]; [|lia].
      rewrite drop_all in Hm. apply (matches_empty nocase (x :: q)) in Hm; [|done]. exfalso.
      apply skip_stars_head in Ek. cbn in Hm. by rewrite (proj2 (Z.eqb_neq _ _) Ek) in Hm.
  - set (rest := if token_has nocase c t then _ else _).
    assert (exists b, rest = Ret b /\ (b = true <-> matches nocase (t :: ts0) (c :: s))) as H; [unfold rest|by destruct t].
    setoid_rewrite (matches_one nocase t ts0 c s Hne). destruct (token_has nocase c t); [|exists false; naive_solver].
    destruct s as [|c' s].
    + eexists. split; [done|]. rewrite bool_decide_eq_true, (matches_empty nocase r ts0 Er). naive_solver.
    + destruct (IH r (c' :: s) ts0) as (b & -> & Hb); [lia|done|done|]. exists b. split; [done|]. rewrite Hb. naive_solver.
Qed.

Lemma stringmatch_spec nocase p s ts : nonul p -> nonul s -> s <> [] -> tokens p = Some ts ->
  exists b, stringmatch p s nocase = Ret b /\ (b = true <-> matches nocase ts s).
Proof.
  intros Hp Hs Hne Et. unfold stringmatch. rewrite !cstr_app_nul by done. cbn [of_ptr mbind cres_bind].
  apply match_loop_spec; [lia|done|done].
Qed.

(** [C30] The glob matcher implements the meaning of its pattern.  For every pattern that is
    a list of tokens (stars, question marks, classes with ranges and escapes, characters) and
    every string that is not empty, the matcher ends, stays inside both strings, and accepts
    exactly the strings the tokens match. *)
Theorem stringmatch_correct (nocase : bool) (p s : bytes) (ts : list token) :
  nonul p -> nonul s -> s <> [] -> tokens p = Some ts ->
  exists b, stringmatch p s nocase = Ret b /\ (b = true <-> matches nocase ts s).
Proof. apply stringmatch_spec. Qed.

Lemma stringmatch_correct_witness :
  exists b, stringmatch (lit "cl*[e-h]?") (lit "cluster-hz") false = Ret b
    /\ (b = true <-> matches false [TChar 99; TChar 108; TStar; TClass false [IRange 101 104]; TAny] (lit "cluster-hz")).
Proof.
  apply (stringmatch_correct false (lit "cl*[e-h]?") (lit "cluster-hz")); [by repeat constructor..|done|by vm_compute].
Defined.

Example stringmatch_runs :
  stringmatch (lit "cl*[e-h]?") (lit "cluster-hz") false = Ret true
  /\ stringmatch (lit "*") (lit "hz") false = Ret true
  /\ stringmatch (lit "max[^cm]*") (lit "maxclients") false = Ret false.
Proof. by vm_compute. Qed.

(** A class that ends with a backslash leaves the pattern.  When the pattern ends right
    after a backslash inside a class that has not been closed, the matcher steps over the
    terminating NUL and goes on reading, for every string. *)
Theorem class_overrun (nocase : bool) (q s : bytes) :
  nonul q -> nonul s -> s <> [] -> Forall (λ x, x <> 92 /\ x <> 93 /\ x <> 45 /\ x <> 94) q ->
  stringmatch (91 :: q ++ [92]) s nocase = Undef.
Proof.
  intros Hq Hs Hne Hf. unfold stringmatch.
  rewrite (cstr_app_nul (91 :: q ++ [92])), cstr_app_nul; [|done|].
  2:{ constructor; [done|]. apply Forall_app. split; [done|]. by repeat constructor. }
  cbn [of_ptr mbind cres_bind]. unfold stringmatchlen. destruct s as [|c s]; [done|]. rewrite match_loop_step.
  assert (parse_class (q ++ [92]) = None) as E.
  { clear -Hf. induction q as [|x q IH]; [done|]. apply Forall_cons in Hf as [(H1 & H2 & H3 & _) Hf]. specialize (IH Hf).
    cbn [app parse_class]. rewrite (proj2 (Z.eqb_neq x 92) H1), (proj2 (Z.eqb_neq x 93) H2).
    destruct q as [|d q]; [done|]. cbn [app] in *. rewrite IH. apply Forall_cons in Hf as [(_ & _ & H4 & _) _].
    rewrite (proj2 (Z.eqb_neq d 45) H4). by destruct (q ++ [92]). }
  cbn [first_token Z.eqb Pos.eqb]. assert (char0 (q ++ [92]) =? 94 = false) as ->.
  { destruct q as [|x q]; [done|]. apply Forall_cons in Hf as [(_ & _ & _ & H) _]. by apply Z.eqb_neq. }
  by rewrite E.
Qed.

Lemma class_overrun_witness : stringmatch (lit "[a\") (lit "hz") false = Undef.
Proof. apply (class_overrun false (lit "a") (lit "hz")); [by repeat constructor..|done|by repeat constructor]. Defined.
