(* ===== verification/SdsArgs.v ===== *)
(** * sds.c: quoting and splitting of command lines

    [sdscatrepr], [is_hex_digit], [hex_digit_to_int] and [sdssplitargs] of
    src/src/sds.c, on the bytes of the strings.  The splitter undoes the quoting, for every
    list of byte strings; it also returns unquoted words as they are when they hold
    no blank and no quote. *)

From Stdlib Require Import ZArith Lia.
From stdpp Require Import base tactics numbers list strings.
From S2P Require Import Prelude Util Libc.

Local Open Scope Z_scope.

(** ** Quoting *)

Definition isprint (c : Z) : bool := (32 <=? c) && (c <=? 126).

(** One digit of ["%02x"]. *)
Definition hex_char (d : Z) : Z := if d <? 10 then 48 + d else 87 + d.

Definition repr_byte (c : Z) : bytes :=
  if (c =? 92) || (c =? 34) then [92; c]
  else if c =? 10 then lit "\n"
  else if c =? 13 then lit "\r"
  else if c =? 9 then lit "\t"
  else if c =? 7 then lit "\a"
  else if c =? 8 then lit "\b"
  else if isprint c then [c]
  else [92; 120; hex_char (c / 16); hex_char (c mod 16)].

Fixpoint repr_bytes (p : bytes) : bytes :=
  match p with
  | [] => []
  | c :: p => repr_byte c ++ repr_bytes p
  end.

Definition sdscatrepr (s p : bytes) : bytes := (s ++ [34]) ++ repr_bytes p ++ [34].

(** ** Splitting *)

Definition is_hex_digit (c : Z) : bool :=
  ((48 <=? c) && (c <=? 57)) || ((97 <=? c) && (c <=? 102)) || ((65 <=? c) && (c <=? 70)).

Definition hex_digit_to_int (c : Z) : Z :=
  if (48 <=? c) && (c <=? 57) then c - 48
  else if (97 <=? c) && (c <=? 102) then c - 87
  else if (65 <=? c) && (c <=? 70) then c - 55
  else 0.

(** [inq], [insq] or neither. *)
Inductive qmode := Plain | InQ | InSq.

(** [*p && !isspace( *p )]: a closing quote must not be followed by this. *)
Definition glued (p : bytes) : bool :=
  match p with c :: _ => negb (isspace c) | [] => false end.

Definition unescape (c : Z) : Z :=
  if c =? 110 then 10 else if c =? 114 then 13 else if c =? 116 then 9
  else if c =? 98 then 8 else if c =? 97 then 7 else c.

(** The loop that reads one token: [p] is the text from the current character to
    the terminating NUL.  The result is the token and the text after it, [None] for
    [goto err]. *)
Fixpoint sds_token (m : qmode) (current p : bytes) {struct p} : option (bytes * bytes) :=
  match p with
  | [] => match m with Plain => Some (current, []) | _ => None end
  | c :: p1 =>
      match m with
      | InQ =>
          if c =? 92 then
            match p1 with
            | [] => sds_token InQ (current ++ [c]) p1
            | e :: p2 =>
                match p2 with
                | h1 :: h2 :: p4 =>
                    if (e =? 120) && is_hex_digit h1 && is_hex_digit h2 then
                      sds_token InQ (current ++ [hex_digit_to_int h1 * 16 + hex_digit_to_int h2]) p4
                    else sds_token InQ (current ++ [unescape e]) p2
                | _ => sds_token InQ (current ++ [unescape e]) p2
                end
            end
          else if c =? 34 then if glued p1 then None else Some (current, p1)
          else sds_token InQ (current ++ [c]) p1
      | InSq =>
          match p1 with
          | e :: p2 =>
              if (c =? 92) && (e =? 39) then sds_token InSq (current ++ [39]) p2
              else if c =? 39 then if glued p1 then None else Some (current, p1)
              else sds_token InSq (current ++ [c]) p1
          | [] =>
              if c =? 39 then Some (current, p1) else sds_token InSq (current ++ [c]) p1
          end
      | Plain =>
          if (c =? 32) || (c =? 10) || (c =? 13) || (c =? 9) then Some (current, p1)
          else if c =? 34 then sds_token InQ current p1
          else if c =? 39 then sds_token InSq current p1
          else sds_token Plain (current ++ [c]) p1
      end
  end.

(** The main loop; a token takes at least one character. *)
Fixpoint sds_split (fuel : nat) (vector : list bytes) (p : bytes) : option (list bytes) :=
  match skip_spaces p with
  | [] => Some vector
  | c :: p1 =>
      match fuel with
      | O => None
      | S fuel =>
          match sds_token Plain [] (c :: p1) with
          | None => None
          | Some (current, rest) => sds_split fuel (vector ++ [current]) rest
          end
      end
  end.

(** [sdssplitargs(line, &argc)], on the bytes before the NUL: [None] is NULL. *)
Definition sdssplitargs (line : bytes) : option (list bytes) := sds_split (length line) [] line.

(** ** Fuel *)

Lemma sds_token_shorter n : forall m cur p t r, (length p <= n)%nat ->
  sds_token m cur p = Some (t, r) -> (length r <= length p)%nat.
Proof.
  induction n as [|n IH]; intros m cur p t r Hn.
  { destruct p; [|cbn in Hn; lia]. cbn. destruct m; [|done..]. by intros [= _ <-]. }
  destruct p as [|c p1]; cbn in *.
  { destruct m; [|done..]. by intros [= _ <-]. }
  repeat case_match; intros E; try done; cbn [length] in *;
    first [injection E as <- <-; cbn [length] in *; lia
          |apply IH in E; cbn [length] in *; lia].
Qed.

Lemma skip_spaces_shorter p : (length (skip_spaces p) <= length p)%nat.
Proof. induction p as [|c p IH]; cbn; [lia|]. case_match; cbn; lia. Qed.

Lemma skip_spaces_head p c q : skip_spaces p = c :: q -> isspace c = false.
Proof.
  induction p as [|b p IH]; cbn; [done|]. destruct (isspace b) eqn:E; [done|].
  by intros [= <- _].
Qed.

(** The first token takes its first character. *)
Lemma sds_token_first c p t r :
  isspace c = false -> sds_token Plain [] (c :: p) = Some (t, r) -> (length r <= length p)%nat.
Proof.
  intros Hc. cbn. replace ((c =? 32) || (c =? 10) || (c =? 13) || (c =? 9)) with false.
  - repeat case_match; by apply (sds_token_shorter (length p)).
  - unfold isspace in Hc. symmetry.
    rewrite !orb_false_iff, andb_false_iff, !Z.eqb_neq, !Z.leb_gt in *. lia.
Qed.

(** More fuel than characters changes nothing. *)
Lemma sds_split_fuel n : forall m vector p,
  (length p <= n)%nat -> (length p <= m)%nat -> sds_split n vector p = sds_split m vector p.
Proof.
  induction n as [|n IH]; intros m vector p Hn Hm; pose proof (skip_spaces_shorter p) as Hs.
  - destruct m; cbn; destruct (skip_spaces p); cbn in *; done || lia.
  - destruct m as [|m]; cbn; destruct (skip_spaces p) as [|c q] eqn:E; try done; cbn in Hs; [lia|].
    destruct (sds_token Plain [] (c :: q)) as [[t r]|] eqn:Et.
    + pose proof (sds_token_first c q t r (skip_spaces_head _ _ _ E) Et).
      cbn in Et. rewrite Et. apply IH; lia.
    + cbn in Et. by rewrite Et.
Qed.

(** ** Quoting is undone *)

Lemma token_escape e cur q : e <> 120 ->
  sds_token InQ cur (92 :: e :: q) = sds_token InQ (cur ++ [unescape e]) q.
Proof.
  intros He. cbn. rewrite (proj2 (Z.eqb_neq e 120)) by done.
  destruct q as [|h1 [|h2 q]]; done.
Qed.

Lemma hex_char_ok d : 0 <= d < 16 ->
  is_hex_digit (hex_char d) = true /\ hex_digit_to_int (hex_char d) = d.
Proof.
  intros Hd. assert (forallb (λ d : nat,
    is_hex_digit (hex_char (Z.of_nat d)) && (hex_digit_to_int (hex_char (Z.of_nat d)) =? Z.of_nat d))
    (seq 0 16) = true) as H by done.
  rewrite forallb_forall in H. specialize (H (Z.to_nat d)). rewrite in_seq, Z2Nat.id in H by lia.
  specialize (H ltac:(lia)). apply andb_true_iff in H as [-> ?%Z.eqb_eq]. done.
Qed.

Lemma token_repr_byte c cur q : byte_ok c ->
  sds_token InQ cur (repr_byte c ++ q) = sds_token InQ (cur ++ [c]) q.
Proof.
  intros Hc. unfold repr_byte, byte_ok in *.
  destruct ((c =? 92) || (c =? 34)) eqn:E1.
  { apply orb_true_iff in E1. rewrite !Z.eqb_eq in E1.
    cbn [app]. rewrite token_escape by lia. by destruct E1 as [-> | ->]. }
  apply orb_false_iff in E1 as [E92 E34].
  destruct (Z.eqb_spec c 10) as [->|]; [by apply (token_escape 110)|].
  destruct (Z.eqb_spec c 13) as [->|]; [by apply (token_escape 114)|].
  destruct (Z.eqb_spec c 9) as [->|]; [by apply (token_escape 116)|].
  destruct (Z.eqb_spec c 7) as [->|]; [by apply (token_escape 97)|].
  destruct (Z.eqb_spec c 8) as [->|]; [by apply (token_escape 98)|].
  destruct (isprint c).
  - cbn. by rewrite E92, E34.
  - assert (0 <= c / 16 < 16) as Hq by (split; [apply Z.div_pos|apply Z.div_lt_upper_bound]; lia).
    assert (0 <= c mod 16 < 16) as Hr by (apply Z.mod_pos_bound; lia).
    destruct (hex_char_ok _ Hq) as [H1 V1]. destruct (hex_char_ok _ Hr) as [H2 V2].
    cbn -[hex_char Z.mul]. rewrite H1, H2, V1, V2. cbn [andb].
    replace (c / 16 * 16 + c mod 16) with c by (rewrite (Z.div_mod c 16) at 1; lia). done.
Qed.

Lemma token_repr s : forall cur r,
  Forall byte_ok s -> glued r = false ->
  sds_token InQ cur (repr_bytes s ++ 34 :: r) = Some (cur ++ s, r).
Proof.
  induction s as [|c s IH]; intros cur r Hs Hr; cbn [repr_bytes app].
  - cbn. by rewrite Hr, app_nil_r.
  - apply Forall_cons in Hs as [Hc Hs]. rewrite <- app_assoc, token_repr_byte by done.
    rewrite IH by done. by rewrite <- app_assoc.
Qed.

(** A line of words, one blank between two. *)
Fixpoint join_words (f : bytes -> bytes) (l : list bytes) : bytes :=
  match l with
  | [] => []
  | [w] => f w
  | w :: l => f w ++ 32 :: join_words f l
  end.

Definition starts_word (f : bytes -> bytes) (w : bytes) : Prop :=
  exists c q, f w = c :: q /\ isspace c = false.

(** A word format the splitter reads back as [w], whatever blank or end follows. *)
Definition readable (f : bytes -> bytes) (w : bytes) : Prop :=
  starts_word f w /\ sds_token Plain [] (f w) = Some (w, [])
  /\ forall t r, t = 32 \/ t = 10 ->
       exists r', sds_token Plain [] (f w ++ t :: r) = Some (w, r') /\ (r' = r \/ r' = t :: r).

Lemma skip_spaces_word c q : isspace c = false -> skip_spaces (c :: q) = c :: q.
Proof. intros E. cbn. by rewrite E. Qed.

Lemma sds_split_step n vector p w r :
  glued p = true -> sds_token Plain [] p = Some (w, r) ->
  sds_split (S n) vector p = sds_split n (vector ++ [w]) r.
Proof.
  destruct p as [|c q]; cbn [glued]; [done|]. intros Hc%negb_true_iff Ht.
  cbn [sds_split]. rewrite skip_spaces_word by done. by rewrite Ht.
Qed.

Lemma sds_split_blank n vector t p : t = 32 \/ t = 10 ->
  sds_split n vector (t :: p) = sds_split n vector p.
Proof. intros [-> | ->]; by destruct n. Qed.

Lemma starts_word_glued f w r : starts_word f w -> glued (f w ++ r) = true.
Proof. intros (c & q & -> & Hc). cbn. by rewrite Hc. Qed.

(** The words of a line, which may end with a newline. *)
Lemma sds_split_words f z l : z = [] \/ z = [10] -> forall n vector,
  Forall (readable f) l -> (length l <= n)%nat ->
  sds_split n vector (join_words f l ++ z) = Some (vector ++ l).
Proof.
  intros Hz. assert (forall n vector, sds_split n vector z = Some vector) as Ez
    by (by intros [] ?; destruct Hz as [-> | ->]).
  induction l as [|w l IH]; intros n vector Hl Hn; [cbn; by rewrite Ez, app_nil_r|].
  apply Forall_cons in Hl as [(Hw & Ht & Hr) Hl]. destruct n as [|n]; [cbn in Hn; lia|].
  cbn [length] in Hn. specialize (IH n (vector ++ [w]) Hl ltac:(lia)).
  rewrite <- app_assoc in IH. cbn [app] in IH.
  destruct l as [|w' l]; cbn [join_words].
  - cbn in IH. destruct Hz as [-> | ->].
    + rewrite app_nil_r. pose proof (starts_word_glued f w [] Hw) as Hg. rewrite app_nil_r in Hg.
      by rewrite (sds_split_step _ _ _ w []) by done.
    + destruct (Hr 10 [] ltac:(by right)) as (r' & Et & Hr').
      rewrite (sds_split_step _ _ _ w r') by (done || by apply starts_word_glued).
      destruct Hr' as [-> | ->]; [|rewrite sds_split_blank by auto]; by destruct n.
  - rewrite <- app_assoc. cbn [app].
    destruct (Hr 32 (join_words f (w' :: l) ++ z) ltac:(by left)) as (r' & Et & Hr').
    rewrite (sds_split_step _ _ _ w r') by (done || by apply starts_word_glued).
    destruct Hr' as [-> | ->]; [|rewrite sds_split_blank by auto]; done.
Qed.

Lemma length_join_words f l : Forall (starts_word f) l -> (length l <= length (join_words f l))%nat.
Proof.
  induction 1 as [|w l (c & q & E & _) _ IH]; cbn; [lia|].
  destruct l as [|w' l]; rewrite ?length_app, E; cbn [length] in *; lia.
Qed.

Lemma sdssplitargs_words f z l : z = [] \/ z = [10] -> Forall (readable f) l ->
  sdssplitargs (join_words f l ++ z) = Some l.
Proof.
  intros Hz Hl. unfold sdssplitargs. rewrite (sds_split_words f z l Hz); [done|done|].
  rewrite length_app. assert (Forall (starts_word f) l) as Hs
    by (eapply Forall_impl; [exact Hl|by intros w [? _]]).
  pose proof (length_join_words f l Hs). lia.
Qed.

(** The two formats. *)
Lemma readable_repr w : Forall byte_ok w -> readable (sdscatrepr []) w.
Proof.
  intros Hw. unfold sdscatrepr. split; [by eexists _, _|]. split.
  - cbn -[isspace]. by rewrite (token_repr w [] []).
  - intros t r Ht. exists (t :: r). split; [|by right]. cbn -[isspace].
    rewrite <- app_assoc. cbn [app]. rewrite (token_repr w [] (t :: r)); [done|done|].
    by destruct Ht as [-> | ->].
Qed.

(** A word without blanks and quotes. *)
Definition plain_char (c : Z) : bool := negb (isspace c) && negb (c =? 34) && negb (c =? 39).
Definition plain_word (w : bytes) : Prop := w <> [] /\ Forall (λ c, plain_char c = true) w.

Lemma token_plain_char c cur p : plain_char c = true ->
  sds_token Plain cur (c :: p) = sds_token Plain (cur ++ [c]) p.
Proof.
  unfold plain_char. rewrite !andb_true_iff, !negb_true_iff. intros [[Hs H34] H39].
  cbn. rewrite H34, H39. replace ((c =? 32) || (c =? 10) || (c =? 13) || (c =? 9)) with false; [done|].
  unfold isspace in Hs. symmetry.
  rewrite !orb_false_iff, andb_false_iff, !Z.eqb_neq, !Z.leb_gt in *. lia.
Qed.

Lemma token_plain w : forall cur p, Forall (λ c, plain_char c = true) w ->
  sds_token Plain cur (w ++ p) = sds_token Plain (cur ++ w) p.
Proof.
  induction w as [|c w IH]; intros cur p Hw; cbn [app]; [by rewrite app_nil_r|].
  apply Forall_cons in Hw as [Hc Hw]. rewrite token_plain_char, IH by done.
  by rewrite <- app_assoc.
Qed.

Lemma readable_plain w : plain_word w -> readable id w.
Proof.
  intros [Hn Hw]. unfold readable, id. split_and!.
  - destruct w as [|c q]; [done|]. apply Forall_cons in Hw as [Hc _].
    exists c, q. split; [done|]. unfold plain_char in Hc. by destruct (isspace c).
  - pose proof (token_plain w [] [] Hw) as E. by rewrite app_nil_r in E.
  - intros t r Ht. exists r. rewrite token_plain by done. split; [|by left].
    by destruct Ht as [-> | ->].
Qed.

(** [sdssplitargs] undoes [sdscatrepr]: a line of quoted arguments, separated by
    blanks, is split back into the very same byte strings, whatever bytes they hold
    (NULs, quotes and newlines included). *)
Theorem sdssplitargs_repr_roundtrip args :
  Forall (Forall byte_ok) args ->
  sdssplitargs (join_words (sdscatrepr []) args) = Some args.
Proof.
  intros H. rewrite <- (app_nil_r (join_words _ _)). apply sdssplitargs_words; [by left|].
  eapply Forall_impl; [exact H|]. apply readable_repr.
Qed.

Lemma sdssplitargs_repr_roundtrip_witness :
  sdssplitargs (join_words (sdscatrepr []) [lit "set"; [0; 34; 255]; []]) = Some [lit "set"; [0; 34; 255]; []].
Proof.
  apply (sdssplitargs_repr_roundtrip [lit "set"; [0; 34; 255]; []]).
  repeat constructor; done.
Defined.
