(* ===== verification/Object.v ===== *)
(** * object.c: string objects

    The value side of the string objects of src/src/object.c: the three encodings a
    string object can have and the functions that create and decode them.
    Reference counts are not part of the value. *)

From Stdlib Require Import ZArith Lia.
From stdpp Require Import base tactics numbers list.
From S2P Require Import Prelude Util.

Local Open Scope Z_scope.

(** [o->encoding] and [o->ptr] of an object of type PREZ_STRING: the pointer is an
    sds string (RAW, EMBSTR) or the integer itself (INT). *)
Inductive robj :=
  | OBJ_RAW (s : bytes)
  | OBJ_EMBSTR (s : bytes)
  | OBJ_INT (v : Z).

Definition PREZ_SHARED_INTEGERS : Z := 10000.
Definition PREZ_ENCODING_EMBSTR_SIZE_LIMIT : Z := 39.

(** [sdsEncodedObject] *)
Definition sdsEncodedObject (o : robj) : bool :=
  match o with OBJ_RAW _ | OBJ_EMBSTR _ => true | OBJ_INT _ => false end.

Definition createRawStringObject (s : bytes) : robj := OBJ_RAW s.
Definition createEmbeddedStringObject (s : bytes) : robj := OBJ_EMBSTR s.

Definition createStringObject (s : bytes) : robj :=
  if Z.of_nat (length s) <=? PREZ_ENCODING_EMBSTR_SIZE_LIMIT
  then createEmbeddedStringObject s else createRawStringObject s.

(** The text [ll2string] leaves in a stack buffer of [n] bytes, as [strlen] of it
    measures it. *)
Definition ll2text (n v : Z) : bytes :=
  let '(k, b) := ll2string (replicate (Z.to_nat n) 0) n v in take (Z.to_nat k) b.

(** Small values share the preallocated [shared.integers], which are INT encoded
    too; [long] holds every [long long]. *)
Definition createStringObjectFromLongLong (value : Z) : robj :=
  if (0 <=? value) && (value <? PREZ_SHARED_INTEGERS) then OBJ_INT value
  else if (LLONG_MIN <=? value) && (value <=? LLONG_MAX) then OBJ_INT value
  else OBJ_RAW (ll_repr value).

(** The object holding the text: an INT object is printed, the others are
    returned as they are. *)
Definition getDecodedObject (o : robj) : robj :=
  match o with
  | OBJ_INT v => createStringObject (ll2text 32 v)
  | _ => o
  end.

(** [o->ptr] of an sds encoded object. *)
Definition obj_sds (o : robj) : bytes :=
  match o with OBJ_RAW s | OBJ_EMBSTR s => s | OBJ_INT _ => [] end.

Definition decoded (o : robj) : bytes := obj_sds (getDecodedObject o).

Lemma ll2text_repr n v : in_s64 v -> 21 <= n -> ll2text n v = ll_repr v.
Proof.
  intros Hv Hn. unfold ll2text. pose proof (length_ll_repr_max v Hv).
  rewrite ll2string_fits by (rewrite ?length_replicate; done || lia).
  by rewrite Nat2Z.id, take_app_length.
Qed.

Lemma obj_sds_create s : obj_sds (createStringObject s) = s.
Proof. unfold createStringObject. by destruct (_ <=? _). Qed.

Lemma decoded_create s : decoded (createStringObject s) = s.
Proof. unfold decoded, createStringObject. by destruct (_ <=? _). Qed.

Lemma decoded_int v : in_s64 v -> decoded (createStringObjectFromLongLong v) = ll_repr v.
Proof.
  intros Hv. unfold createStringObjectFromLongLong, decoded.
  rewrite (proj2 (andb_true_iff (LLONG_MIN <=? v) _)) by rng.
  assert (obj_sds (getDecodedObject (OBJ_INT v)) = ll_repr v) as E.
  { cbn. rewrite obj_sds_create. apply ll2text_repr; [done|lia]. }
  by destruct (_ && _).
Qed.
