(* ===== verification/Client.v ===== *)
(** * networking.c: clients and their replies

    The state of a connected client of src/src/prez.h, and the output side of
    src/src/networking.c: the functions that queue replies, the static buffer and the list
    of reply objects they fill, the limits on that list, and [sendReplyToClient].
    The values the kernel and the allocator return are parameters.  The main facts: the
    replies reach the socket complete and in order, whatever the socket accepts at a time,
    and the memory counted for the list is the memory of its objects. *)

From Stdlib Require Import ZArith Lia.
From stdpp Require Import base tactics numbers list strings.
From S2P Require Import Prelude Util Object.

Local Open Scope Z_scope.

(** ** Data *)

Definition PREZ_OK : Z := 0.
Definition PREZ_ERR : Z := -1.

Definition PREZ_BLOCKED : Z := 16.
Definition PREZ_CLOSE_AFTER_REPLY : Z := 64.
Definition PREZ_CLOSE_ASAP : Z := 1024.

Definition PREZ_REPLY_CHUNK_BYTES : Z := 16 * 1024.
Definition PREZ_MAX_WRITE_PER_EVENT : Z := 1024 * 64.
Definition PREZ_SHARED_BULKHDR_LEN : Z := 32.
Definition ULONG_MAX : Z := 2 ^ 64 - 1.

(** The entries of the command table; [proc] is the C function. *)
Inductive prezCommandProc := getCommand_proc | setCommand_proc | configCommand_proc.

Record prezCommand := mkCommand {
  cmd_name : bytes;
  cmd_proc : prezCommandProc;
  cmd_arity : Z;
  cmd_flags : Z;
}.

(** A node of the reply list: the object, [None] for the placeholder with a NULL pointer,
    and what [zmalloc_size_sds] returns for its sds string. *)
Record rnode := mkRNode { rn_obj : option robj; rn_size : Z }.

(** The request side of a client. *)
Record input := mkInput {
  querybuf : bytes;
  reqtype : Z;
  multibulklen : Z;
  bulklen : Z;
  argv : list robj;
  cmd : option prezCommand;
}.

(** The reply side: [buf] is the used part of the static buffer, [writable] that the
    writable event is installed. *)
Record output := mkOutput {
  buf : bytes;
  reply : list rnode;
  reply_bytes : Z;
  sentlen : Z;
  obuf_soft_limit_reached_time : Z;
  writable : bool;
}.

(** [to_close]: the client is in [server.clients_to_close]. *)
Record prezClient := mkClient {
  fd : Z;
  flags : Z;
  to_close : bool;
  inp : input;
  out : output;
}.

Definition set_inp (c : prezClient) (i : input) : prezClient := mkClient (fd c) (flags c) (to_close c) i (out c).
Definition set_out (c : prezClient) (o : output) : prezClient := mkClient (fd c) (flags c) (to_close c) (inp c) o.
Definition set_flag (c : prezClient) (f : Z) : prezClient :=
  mkClient (fd c) (Z.lor (flags c) f) (to_close c) (inp c) (out c).

Definition has_flag (c : prezClient) (f : Z) : bool := negb (Z.land (flags c) f =? 0).

Definition out_nodes (o : output) (l : list rnode) (b : Z) : output :=
  mkOutput (buf o) l b (sentlen o) (obuf_soft_limit_reached_time o) (writable o).

Definition out_soft (o : output) (t : Z) : output :=
  mkOutput (buf o) (reply o) (reply_bytes o) (sentlen o) t (writable o).

Definition out_writable (o : output) (w : bool) : output :=
  mkOutput (buf o) (reply o) (reply_bytes o) (sentlen o) (obuf_soft_limit_reached_time o) w.

(** What the surroundings answer during one call: whether [aeCreateFileEvent] succeeds, the
    cached clock, the limits of normal clients, and the sizes the allocator reports for a new
    sds string and for one that was extended. *)
Record oenv := mkOEnv {
  event_ok : bool;
  unixtime : Z;
  hard_limit_bytes : Z;
  soft_limit_bytes : Z;
  soft_limit_seconds : Z;
  size_new : bytes -> Z;
  size_cat : rnode -> bytes -> Z;
}.

(** ** Output limits *)

Definition getStringObjectSdsUsedMemory (n : rnode) : Z :=
  match rn_obj n with
  | Some (OBJ_RAW _) => rn_size n
  | Some (OBJ_EMBSTR s) => Z.of_nat (length s)
  | _ => 0
  end.

(** [sizeof(listNode)+sizeof(robj)] is 24+16. *)
Definition getClientOutputBufferMemoryUsage (c : prezClient) : Z :=
  wrap_u64 (reply_bytes (out c) + 40 * Z.of_nat (length (reply (out c)))).

Definition checkClientOutputBufferLimits (oe : oenv) (c : prezClient) : prezClient * bool :=
  let used_mem := getClientOutputBufferMemoryUsage c in
  let hard := negb (hard_limit_bytes oe =? 0) && (hard_limit_bytes oe <=? used_mem) in
  let soft := negb (soft_limit_bytes oe =? 0) && (soft_limit_bytes oe <=? used_mem) in
  let t := obuf_soft_limit_reached_time (out c) in
  if soft then
    if t =? 0 then (set_out c (out_soft (out c) (unixtime oe)), hard)
    else if unixtime oe - t <=? soft_limit_seconds oe then (c, hard) else (c, true)
  else (set_out c (out_soft (out c) 0), hard).

Definition freeClientAsync (c : prezClient) : prezClient :=
  if has_flag c PREZ_CLOSE_ASAP then c
  else let c := set_flag c PREZ_CLOSE_ASAP in mkClient (fd c) (flags c) true (inp c) (out c).

Definition asyncCloseClientOnOutputBufferLimitReached (oe : oenv) (c : prezClient) : cres prezClient :=
  _ ← prez_assert (reply_bytes (out c) <? ULONG_MAX - 1024 * 64);
  if (reply_bytes (out c) =? 0) || has_flag c PREZ_CLOSE_ASAP then mret c else
  let '(c, reached) := checkClientOutputBufferLimits oe c in
  mret (if (reached : bool) then freeClientAsync c else c).

(** ** Low level functions that add data *)

Definition prepareClientToWrite (oe : oenv) (c : prezClient) : prezClient * Z :=
  if fd c <=? 0 then (c, PREZ_ERR) else
  if bool_decide (buf (out c) = []) && bool_decide (reply (out c) = []) then
    if event_ok oe then (set_out c (out_writable (out c) true), PREZ_OK) else (c, PREZ_ERR)
  else (c, PREZ_OK).

Definition _addReplyToBuffer (c : prezClient) (s : bytes) : prezClient * Z :=
  if has_flag c PREZ_CLOSE_AFTER_REPLY then (c, PREZ_OK) else
  if negb (bool_decide (reply (out c) = [])) then (c, PREZ_ERR) else
  if PREZ_REPLY_CHUNK_BYTES - Z.of_nat (length (buf (out c))) <? Z.of_nat (length s) then (c, PREZ_ERR) else
  let o := out c in
  (set_out c (mkOutput (buf o ++ s) (reply o) (reply_bytes o) (sentlen o)
                (obuf_soft_limit_reached_time o) (writable o)), PREZ_OK).

(** The last node takes [s] when it is a raw string and stays within a chunk; a node that is
    shared is duplicated first ([dupLastObjectIfNeeded]), which does not show here. *)
Definition append_to_tail (oe : oenv) (o : output) (s : bytes) : option output :=
  match last (reply o) with
  | Some n =>
      match rn_obj n with
      | Some (OBJ_RAW t) =>
          if Z.of_nat (length t) + Z.of_nat (length s) <=? PREZ_REPLY_CHUNK_BYTES then
            let n' := mkRNode (Some (OBJ_RAW (t ++ s))) (size_cat oe n s) in
            Some (out_nodes o (removelast (reply o) ++ [n'])
                    (wrap_u64 (reply_bytes o - rn_size n + rn_size n')))
          else None
      | _ => None
      end
  | None => None
  end.

(** [listAddNodeTail] with the bytes it counts. *)
Definition push_node (o : output) (n : rnode) : output :=
  out_nodes o (reply o ++ [n]) (wrap_u64 (reply_bytes o + getStringObjectSdsUsedMemory n)).

(** The three list functions differ in the object they make of [s]: the object itself, a raw
    string, or what [createStringObject] makes. *)
Definition add_to_list (oe : oenv) (c : prezClient) (o : robj) : cres prezClient :=
  if has_flag c PREZ_CLOSE_AFTER_REPLY then mret c else
  let o' := match append_to_tail oe (out c) (obj_sds o) with
            | Some o' => o'
            | None => push_node (out c) (mkRNode (Some o) (size_new oe (obj_sds o)))
            end in
  asyncCloseClientOnOutputBufferLimitReached oe (set_out c o').

Definition _addReplyObjectToList (oe : oenv) (c : prezClient) (o : robj) : cres prezClient := add_to_list oe c o.
Definition _addReplySdsToList (oe : oenv) (c : prezClient) (s : bytes) : cres prezClient := add_to_list oe c (OBJ_RAW s).
Definition _addReplyStringToList (oe : oenv) (c : prezClient) (s : bytes) : cres prezClient :=
  add_to_list oe c (createStringObject s).

(** ** Replies *)

(** An INT object goes to the static buffer as text when there is room for 32 bytes;
    otherwise, and on the paths for sds encoded objects, the text of the object is added. *)
Definition addReply (oe : oenv) (c : prezClient) (obj : robj) : cres prezClient :=
  let '(c, r) := prepareClientToWrite oe c in
  if negb (r =? PREZ_OK) then mret c else
  let text (c : prezClient) (obj : robj) :=
    let '(c, r) := _addReplyToBuffer c (obj_sds obj) in
    if r =? PREZ_OK then mret c else _addReplyObjectToList oe c obj in
  match obj with
  | OBJ_INT v =>
      if bool_decide (reply (out c) = []) && (32 <=? PREZ_REPLY_CHUNK_BYTES - Z.of_nat (length (buf (out c))))
      then let '(c', r) := _addReplyToBuffer c (ll2text 32 v) in
           if r =? PREZ_OK then mret c' else text c (getDecodedObject obj)
      else text c (getDecodedObject obj)
  | _ => text c obj
  end.

Definition addReplySds (oe : oenv) (c : prezClient) (s : bytes) : cres prezClient :=
  let '(c, r) := prepareClientToWrite oe c in
  if negb (r =? PREZ_OK) then mret c else
  let '(c, r) := _addReplyToBuffer c s in
  if r =? PREZ_OK then mret c else _addReplySdsToList oe c s.

Definition addReplyString (oe : oenv) (c : prezClient) (s : bytes) : cres prezClient :=
  let '(c, r) := prepareClientToWrite oe c in
  if negb (r =? PREZ_OK) then mret c else
  let '(c, r) := _addReplyToBuffer c s in
  if r =? PREZ_OK then mret c else _addReplyStringToList oe c s.

Definition addReplyErrorLength (oe : oenv) (c : prezClient) (s : bytes) : cres prezClient :=
  c ← addReplyString oe c (lit "-ERR ");
  c ← addReplyString oe c s;
  addReplyString oe c CRLF.

Definition addReplyError : oenv -> prezClient -> bytes -> cres prezClient := addReplyErrorLength.

(** [s]: the formatted text; newlines would break the protocol. *)
Definition no_newlines (s : bytes) : bytes := (λ b, if (b =? CR) || (b =? LF) then 32 else b) <$> s.

Definition addReplyErrorFormat (oe : oenv) (c : prezClient) (s : bytes) : cres prezClient :=
  addReplyErrorLength oe c (no_newlines s).

Definition addReplyStatusLength (oe : oenv) (c : prezClient) (s : bytes) : cres prezClient :=
  c ← addReplyString oe c (lit "+");
  c ← addReplyString oe c s;
  addReplyString oe c CRLF.

Definition addReplyStatus : oenv -> prezClient -> bytes -> cres prezClient := addReplyStatusLength.

(** The shared objects the replies use. *)
Definition shared_crlf : robj := OBJ_RAW CRLF.
Definition shared_ok : robj := OBJ_RAW (lit "+OK" ++ CRLF).
Definition shared_czero : robj := OBJ_RAW (lit ":0" ++ CRLF).
Definition shared_cone : robj := OBJ_RAW (lit ":1" ++ CRLF).
Definition shared_nullbulk : robj := OBJ_RAW (lit "$-1" ++ CRLF).
Definition shared_syntaxerr : robj := OBJ_RAW (lit "-ERR syntax error" ++ CRLF).
Definition shared_wrongtypeerr : robj :=
  OBJ_RAW (lit "-WRONGTYPE Operation against a key holding the wrong kind of value" ++ CRLF).

(** [shared.mbulkhdr[i]] and [shared.bulkhdr[i]]: reading outside the arrays is undefined. *)
Definition shared_hdr (prefix i : Z) : cres robj :=
  _ ← require ((0 <=? i) && (i <? PREZ_SHARED_BULKHDR_LEN));
  mret (OBJ_RAW (prefix :: dec i ++ CRLF)).

Definition addReplyLongLongWithPrefix (oe : oenv) (c : prezClient) (ll prefix : Z) : cres prezClient :=
  if ((prefix =? 42) || (prefix =? 36)) && (ll <? PREZ_SHARED_BULKHDR_LEN) then
    h ← shared_hdr prefix ll; addReply oe c h
  else addReplyString oe c (prefix :: ll2text 127 ll ++ CRLF).

Definition addReplyLongLong (oe : oenv) (c : prezClient) (ll : Z) : cres prezClient :=
  if ll =? 0 then addReply oe c shared_czero
  else if ll =? 1 then addReply oe c shared_cone
  else addReplyLongLongWithPrefix oe c ll 58.

Definition addReplyMultiBulkLen (oe : oenv) (c : prezClient) (len : Z) : cres prezClient :=
  if len <? PREZ_SHARED_BULKHDR_LEN then h ← shared_hdr 42 len; addReply oe c h
  else addReplyLongLongWithPrefix oe c len 42.

(** [while((n = n/10) != 0) len++]; 64 bits have at most 20 digits. *)
Fixpoint count_digits (fuel : nat) (n len : Z) : Z :=
  let n := Z.quot n 10 in
  if n =? 0 then len
  else match fuel with O => len | S fuel => count_digits fuel n (len + 1) end.

(** [n = -n] wraps for LONG_MIN. *)
Definition bulk_len (obj : robj) : Z :=
  match obj with
  | OBJ_INT v =>
      if v <? 0 then count_digits 20 (wrap_s64 (- v)) 2 else count_digits 20 v 1
  | _ => Z.of_nat (length (obj_sds obj))
  end.

Definition addReplyBulkLen (oe : oenv) (c : prezClient) (obj : robj) : cres prezClient :=
  let len := bulk_len obj in
  if len <? PREZ_SHARED_BULKHDR_LEN then h ← shared_hdr 36 len; addReply oe c h
  else addReplyLongLongWithPrefix oe c len 36.

Definition addReplyBulk (oe : oenv) (c : prezClient) (obj : robj) : cres prezClient :=
  c ← addReplyBulkLen oe c obj;
  c ← addReply oe c obj;
  addReply oe c shared_crlf.

Definition addReplyBulkCBuffer (oe : oenv) (c : prezClient) (p : bytes) : cres prezClient :=
  c ← addReplyLongLongWithPrefix oe c (Z.of_nat (length p)) 36;
  c ← addReplyString oe c p;
  addReply oe c shared_crlf.

Definition addReplyBulkCString (oe : oenv) (c : prezClient) (s : option bytes) : cres prezClient :=
  match s with
  | None => addReply oe c shared_nullbulk
  | Some s => addReplyBulkCBuffer oe c s
  end.

Definition addReplyBulkLongLong (oe : oenv) (c : prezClient) (ll : Z) : cres prezClient :=
  addReplyBulkCBuffer oe c (ll2text 64 ll).

(** A placeholder for a count that is not known yet; the result is its position. *)
Definition addDeferredMultiBulkLength (oe : oenv) (c : prezClient) : prezClient * option nat :=
  let '(c, r) := prepareClientToWrite oe c in
  if negb (r =? PREZ_OK) then (c, None) else
  (set_out c (out_nodes (out c) (reply (out c) ++ [mkRNode None 0]) (reply_bytes (out c))),
   Some (length (reply (out c)))).

Definition setDeferredMultiBulkLength (oe : oenv) (c : prezClient) (node : option nat) (len : Z)
    : cres prezClient :=
  match node with
  | None => mret c
  | Some i =>
      let o := out c in
      n ← of_ptr (reply o !! i);
      let s := 42 :: ll_repr len ++ CRLF in
      let n := mkRNode (Some (OBJ_RAW s)) (size_new oe s) in
      let b := wrap_u64 (reply_bytes o + rn_size n) in
      let o' := match reply o !! S i with
                | Some nx =>
                    match rn_obj nx with
                    | Some x =>
                        let n' := mkRNode (Some (OBJ_RAW (s ++ obj_sds x))) (size_cat oe n (obj_sds x)) in
                        out_nodes o (take i (reply o) ++ n' :: drop (S (S i)) (reply o))
                          (wrap_u64 (b - rn_size n - getStringObjectSdsUsedMemory nx + rn_size n'))
                    | None => out_nodes o (<[i := n]> (reply o)) b
                    end
                | None => out_nodes o (<[i := n]> (reply o)) b
                end in
      asyncCloseClientOnOutputBufferLimitReached oe (set_out c o')
  end.

(** ** Writing to the socket *)

(** What [write] returns: a number of bytes, never more than it was given, or an error. *)
Inductive wres := WBytes (n : nat) | WAgain | WError.

(** The bytes a call of [write] takes from [s]: [None] when it returns 0 or -1. *)
Definition sock_write (ws : list wres) (s : bytes) : option (bytes * list wres) :=
  match ws with
  | WBytes (S n) :: ws => match s with [] => None | _ => Some (take (S n) s, ws) end
  | _ => None
  end.

Definition write_error (ws : list wres) : bool := match ws with WError :: _ => true | _ => false end.

Definition node_bytes (n : rnode) : bytes := match rn_obj n with Some o => obj_sds o | None => [] end.

(** The loop: the output, the bytes sent, and whether the last [write] failed with an error
    other than EAGAIN; [mem_ok] is the test of the memory limit.  Every round consumes a
    result of [write] or a node. *)
Fixpoint send_loop (fuel : nat) (mem_ok : bool) (o : output) (tot : bytes) (ws : list wres)
    : cres (output * bytes * bool) :=
  match fuel with
  | O => Undef
  | S fuel =>
      let next (o : output) (tot : bytes) (ws : list wres) :=
        if (PREZ_MAX_WRITE_PER_EVENT <? Z.of_nat (length tot)) && mem_ok then mret (o, tot, false)
        else send_loop fuel mem_ok o tot ws in
      let len := Z.to_nat (sentlen o) in
      if negb (bool_decide (buf o = [])) then
        match sock_write ws (drop len (buf o)) with
        | None => mret (o, tot, write_error ws)
        | Some (t, ws) =>
            let sent := sentlen o + Z.of_nat (length t) in
            let o := if sent =? Z.of_nat (length (buf o))
                     then mkOutput [] (reply o) (reply_bytes o) 0 (obuf_soft_limit_reached_time o) (writable o)
                     else mkOutput (buf o) (reply o) (reply_bytes o) sent (obuf_soft_limit_reached_time o) (writable o) in
            next o (tot ++ t) ws
        end
      else
        match reply o with
        | [] => mret (o, tot, false)
        | n :: l =>
            x ← of_ptr (rn_obj n);
            let objmem := getStringObjectSdsUsedMemory n in
            let drop_head :=
              mkOutput (buf o) l (wrap_u64 (reply_bytes o - objmem)) 0 (obuf_soft_limit_reached_time o) (writable o) in
            if bool_decide (obj_sds x = []) then
              send_loop fuel mem_ok (mkOutput (buf o) l (wrap_u64 (reply_bytes o - objmem)) (sentlen o)
                                       (obuf_soft_limit_reached_time o) (writable o)) tot ws
            else
              match sock_write ws (drop len (obj_sds x)) with
              | None => mret (o, tot, write_error ws)
              | Some (t, ws) =>
                  let sent := sentlen o + Z.of_nat (length t) in
                  next (if sent =? Z.of_nat (length (obj_sds x)) then drop_head
                        else mkOutput (buf o) (reply o) (reply_bytes o) sent
                               (obuf_soft_limit_reached_time o) (writable o)) (tot ++ t) ws
              end
        end
  end.

(** [None]: the client was freed. *)
Definition sendReplyToClient (mem_ok : bool) (ws : list wres) (c : prezClient)
    : cres (option prezClient * bytes) :=
  '(o, tot, err) ← send_loop (S (length ws + length (reply (out c)))) mem_ok (out c) [] ws;
  if (err : bool) then mret (None, tot) else
  if bool_decide (buf o = []) && bool_decide (reply o = []) then
    let o := mkOutput [] [] (reply_bytes o) 0 (obuf_soft_limit_reached_time o) false in
    if has_flag c PREZ_CLOSE_AFTER_REPLY then mret (None, tot) else mret (Some (set_out c o), tot)
  else mret (Some (set_out c o), tot).

(** ** Invariant of the reply side *)

Definition sumZ (f : rnode -> Z) (l : list rnode) : Z := foldr (λ n a, f n + a) 0 l.

(** A bound on the memory of a node: 1 MB for the allocator and the spare room of an sds
    string, and four times its text. *)
Definition weight (n : rnode) : Z := 2 ^ 20 + 4 * Z.of_nat (length (node_bytes n)).

(** Everything queued, sent or not. *)
Definition stream (o : output) : bytes := buf o ++ concat (node_bytes <$> reply o).

(** What is still to be sent. *)
Definition pending (o : output) : bytes := drop (Z.to_nat (sentlen o)) (stream o).

Definition node_ok (n : rnode) : Prop :=
  (exists x, rn_obj n = Some x /\ sdsEncodedObject x = true)
  /\ 0 <= getStringObjectSdsUsedMemory n <= weight n.

Record out_ok (o : output) : Prop := {
  oo_buf : Z.of_nat (length (buf o)) <= PREZ_REPLY_CHUNK_BYTES;
  oo_nodes : Forall node_ok (reply o);
  oo_sent : 0 <= sentlen o;
  oo_sent_buf : buf o <> [] -> sentlen o < Z.of_nat (length (buf o));
  oo_sent_node : buf o = [] -> sentlen o = 0
    \/ exists n l, reply o = n :: l /\ sentlen o < Z.of_nat (length (node_bytes n));
  oo_bytes : reply_bytes o = sumZ getStringObjectSdsUsedMemory (reply o);
  oo_room : sumZ weight (reply o) < 2 ^ 63;
  oo_writable : buf o <> [] \/ reply o <> [] -> writable o = true;
}.

(** What the allocator reports, and that the event loop has room. *)
Record oenv_ok (oe : oenv) : Prop := {
  oe_event : event_ok oe = true;
  oe_new s : 0 <= size_new oe s <= 2 ^ 20 + 4 * Z.of_nat (length s);
  oe_cat n s : 0 <= size_cat oe n s <= 2 ^ 20 + 4 * Z.of_nat (length (node_bytes n) + length s);
}.

Lemma sumZ_app f l l' : sumZ f (l ++ l') = sumZ f l + sumZ f l'.
Proof. unfold sumZ. induction l; cbn [foldr app]; lia. Qed.

Lemma used_weight l : Forall node_ok l -> 0 <= sumZ getStringObjectSdsUsedMemory l <= sumZ weight l.
Proof. unfold sumZ. induction 1 as [|n l [_ H] _ IH]; cbn [foldr]; lia. Qed.

(** [t] was queued: the client is otherwise the same, apart from the flag of a client over
    its limits; [k] strings were added. *)
Record queued (k : Z) (t : bytes) (c c' : prezClient) : Prop := {
  qu_fd : fd c' = fd c;
  qu_inp : inp c' = inp c;
  qu_flag f : Z.land f PREZ_CLOSE_ASAP = 0 -> has_flag c' f = has_flag c f;
  qu_ok : out_ok (out c');
  qu_stream : stream (out c') = stream (out c) ++ t;
  qu_sent : sentlen (out c') = sentlen (out c);
  qu_room : sumZ weight (reply (out c')) <= sumZ weight (reply (out c)) + k * 2 ^ 20 + 4 * Z.of_nat (length t);
}.

Lemma queued_trans k1 k2 t1 t2 c1 c2 c3 :
  queued k1 t1 c1 c2 -> queued k2 t2 c2 c3 -> queued (k1 + k2) (t1 ++ t2) c1 c3.
Proof.
  intros [? ? F1 ? S1 ? ?] [? ? F2 ? S2 ? ?]. constructor; try congruence.
  - intros f Hf. by rewrite F2, F1.
  - by rewrite S2, S1, app_assoc.
  - rewrite length_app. lia.
Qed.

(** A client that takes replies, with room for [k] strings of total length [n]. *)
Definition ready (k n : Z) (c : prezClient) : Prop :=
  0 < fd c /\ has_flag c PREZ_CLOSE_AFTER_REPLY = false /\ out_ok (out c)
  /\ sumZ weight (reply (out c)) + k * 2 ^ 20 + 4 * n < 2 ^ 63.

Lemma queued_ready k t k' n' c c' :
  queued k t c c' -> ready (k + k') (Z.of_nat (length t) + n') c -> ready k' n' c'.
Proof. intros [Hd _ Hf Ho _ _ Hr] (? & ? & _ & ?). unfold ready. rewrite (Hf PREZ_CLOSE_AFTER_REPLY eq_refl), Hd. split_and!; try done. lia. Qed.

Lemma ready_le k n k' n' c : ready k n c -> k' <= k -> n' <= n -> ready k' n' c.
Proof. intros (? & ? & ? & ?) ? ?. split_and!; try done. lia. Qed.

Lemma queued_pending k t c c' : out_ok (out c) -> queued k t c c' -> pending (out c') = pending (out c) ++ t.
Proof.
  intros [_ _ Hs Hsb Hsn _ _ _] Q. unfold pending. rewrite (qu_stream _ _ _ _ Q), (qu_sent _ _ _ _ Q). apply drop_app_le.
  unfold stream. rewrite length_app. destruct (decide (buf (out c) = [])) as [Eb|Eb]; [|specialize (Hsb Eb); lia].
  destruct (Hsn Eb) as [->|(n & l & -> & ?)]; [lia|]. cbn [fmap list_fmap concat]. rewrite length_app. lia.
Qed.

(** ** One string is queued *)

Lemma has_flag_lor c f g : Z.land f g = 0 -> has_flag (set_flag c g) f = has_flag c f.
Proof.
  intros E. unfold has_flag, set_flag. cbn. rewrite Z.land_lor_distr_l, (Z.land_comm g f), E.
  by rewrite Z.lor_0_r.
Qed.

(** The check of the limits changes only the flag and the time of the soft limit. *)
Lemma async_close_spec oe c : out_ok (out c) ->
  exists c', asyncCloseClientOnOutputBufferLimitReached oe c = Ret c' /\ queued 0 [] c c'.
Proof.
  intros O. pose proof (used_weight _ (oo_nodes _ O)) as Hu. pose proof (oo_room _ O) as Hr.
  pose proof (oo_bytes _ O) as Hb. unfold asyncCloseClientOnOutputBufferLimitReached.
  rewrite (proj2 (Z.ltb_lt (reply_bytes (out c)) _)) by (unfold ULONG_MAX; lia).
  cbn [prez_assert mbind cres_bind].
  assert (forall t, queued 0 [] c (set_out c (out_soft (out c) t))) as Hq.
  { intros t. constructor; try done; [|by rewrite app_nil_r|cbn [out set_out out_soft reply length Z.of_nat]; lia].
    destruct O. by constructor. }
  assert (queued 0 [] c c) as Hrefl by (constructor; try done; [by rewrite app_nil_r|cbn [length Z.of_nat]; lia]).
  assert (forall c', queued 0 [] c c' -> queued 0 [] c (freeClientAsync c')) as Hf.
  { intros c' Q. unfold freeClientAsync. destruct (has_flag c' PREZ_CLOSE_ASAP); [done|].
    destruct Q as [? ? F ? ? ? ?]. constructor; try done. intros f Hfl. rewrite <- (F f Hfl).
    by apply (has_flag_lor c' f PREZ_CLOSE_ASAP). }
  destruct (_ || _); [by exists c|]. unfold checkClientOutputBufferLimits.
  repeat case_match; simplify_eq/=; eexists; (split; [done|]); auto.
Qed.

(** The common shape of [addReply], [addReplySds] and [addReplyString]: [obj] is the object
    that goes to the list when the buffer cannot take its text. *)
Definition emit (oe : oenv) (c : prezClient) (obj : robj) : cres prezClient :=
  let '(c, r) := prepareClientToWrite oe c in
  if negb (r =? PREZ_OK) then mret c else
  let '(c, r) := _addReplyToBuffer c (obj_sds obj) in
  if r =? PREZ_OK then mret c else add_to_list oe c obj.

Lemma prepare_spec oe c : oenv_ok oe -> 0 < fd c -> out_ok (out c) ->
  exists w, prepareClientToWrite oe c = (set_out c (out_writable (out c) w), PREZ_OK) /\ w = true.
Proof.
  intros E Hf O. unfold prepareClientToWrite. rewrite (proj2 (Z.leb_gt _ _)) by lia. rewrite (oe_event _ E).
  exists true. split; [|done].
  destruct (bool_decide_reflect (buf (out c) = [])) as [Eb|Eb], (bool_decide_reflect (reply (out c) = [])) as [Er|Er];
    cbn [andb]; [done|..]; f_equal; destruct c as [? ? ? ? o]; unfold set_out; cbn in *; f_equal;
    destruct o; unfold out_writable; cbn in *; f_equal; apply (oo_writable _ O); cbn; auto.
Qed.

(** A change of the list that keeps its head, up to growth, and adds [s] to its text. *)
Lemma list_change_ok o l b s :
  out_ok o -> writable o = true ->
  Forall node_ok l -> concat (node_bytes <$> l) = concat (node_bytes <$> reply o) ++ s ->
  (forall n r, reply o = n :: r -> exists n' r', l = n' :: r' /\ (length (node_bytes n) <= length (node_bytes n'))%nat) ->
  b = sumZ getStringObjectSdsUsedMemory l ->
  sumZ weight l < 2 ^ 63 ->
  out_ok (out_nodes o l b) /\ stream (out_nodes o l b) = stream o ++ s.
Proof.
  intros [Hb Hn Hs Hsb Hsn _ _ _] Hw Hno Hc Hhd Hby Hr. split.
  - constructor; try done. cbn [buf sentlen reply out_nodes].
    intros Eb. destruct (Hsn Eb) as [?|(n & r & E & Hlt)]; [by left|]. right.
    destruct (Hhd n r E) as (n' & r' & -> & Hle). exists n', r'. split; [done|lia].
  - unfold stream. cbn [buf reply out_nodes]. by rewrite Hc, app_assoc.
Qed.

Lemma fmap_bytes_snoc l n : concat (node_bytes <$> (l ++ [n])) = concat (node_bytes <$> l) ++ node_bytes n.
Proof. rewrite fmap_app, concat_app. cbn. by rewrite app_nil_r. Qed.

Lemma sumZ_snoc f l n : sumZ f (l ++ [n]) = sumZ f l + f n.
Proof. rewrite sumZ_app. cbn. lia. Qed.

Lemma push_node_ok oe o obj :
  oenv_ok oe -> out_ok o -> writable o = true -> sdsEncodedObject obj = true ->
  sumZ weight (reply o) + 2 ^ 20 + 4 * Z.of_nat (length (obj_sds obj)) < 2 ^ 63 ->
  let o' := push_node o (mkRNode (Some obj) (size_new oe (obj_sds obj))) in
  out_ok o' /\ stream o' = stream o ++ obj_sds obj
  /\ sumZ weight (reply o') = sumZ weight (reply o) + 2 ^ 20 + 4 * Z.of_nat (length (obj_sds obj)).
Proof.
  intros E O Hw Hs Hr o'. set (n := mkRNode (Some obj) (size_new oe (obj_sds obj))) in *.
  assert (node_ok n) as Hn.
  { split; [by exists obj|]. unfold weight, getStringObjectSdsUsedMemory, n, node_bytes. cbn.
    pose proof (oe_new _ E (obj_sds obj)). destruct obj; cbn in *; lia. }
  assert (weight n = 2 ^ 20 + 4 * Z.of_nat (length (obj_sds obj))) as Ew by done.
  pose proof (used_weight _ (oo_nodes _ O)) as Hu. destruct Hn as [Hx Hm].
  assert (sumZ weight (reply o ++ [n]) = sumZ weight (reply o) + 2 ^ 20 + 4 * Z.of_nat (length (obj_sds obj))) as Esum.
  { rewrite sumZ_snoc. lia. }
  destruct (list_change_ok o (reply o ++ [n]) (wrap_u64 (reply_bytes o + getStringObjectSdsUsedMemory n)) (obj_sds obj))
    as [Ho' Hs']; try done.
  - apply Forall_app. split; [apply O|]. by constructor.
  - by rewrite fmap_bytes_snoc.
  - intros n0 r ->. by exists n0, (r ++ [n]).
  - rewrite sumZ_snoc, (oo_bytes _ O). apply wrap_u64_id. unfold in_u64, ULLONG_MAX. lia.
  - lia.
Qed.

Lemma append_to_tail_ok oe o s o' :
  oenv_ok oe -> out_ok o -> writable o = true ->
  sumZ weight (reply o) + 2 ^ 20 + 4 * Z.of_nat (length s) < 2 ^ 63 ->
  append_to_tail oe o s = Some o' ->
  out_ok o' /\ stream o' = stream o ++ s /\ sentlen o' = sentlen o
  /\ sumZ weight (reply o') = sumZ weight (reply o) + 4 * Z.of_nat (length s).
Proof.
  intros E O Hw Hr. unfold append_to_tail. destruct (last (reply o)) as [n|] eqn:El; [|done].
  destruct n as [[[t|t|t]|] sz] eqn:En; cbn [rn_obj]; try done. destruct (_ <=? _); [|done]. intros [= <-].
  apply last_Some in El as [l El]. rewrite El, removelast_last.
  pose proof (oo_nodes _ O) as Hno. rewrite El in Hno. apply Forall_app in Hno as [Hl Hn].
  apply Forall_cons in Hn as [Hn _]. destruct Hn as [_ Hn].
  set (n0 := mkRNode (Some (OBJ_RAW t)) sz) in *. set (n' := mkRNode _ _).
  pose proof (oe_cat _ E n0 s) as Hc. change (node_bytes n0) with t in Hc.
  assert (weight n0 = 2 ^ 20 + 4 * Z.of_nat (length t)) as W0 by done.
  assert (weight n' = 2 ^ 20 + 4 * Z.of_nat (length (t ++ s))) as W1 by done. rewrite length_app in W1.
  assert (node_ok n') as Hn'.
  { split; [by eexists|]. change (getStringObjectSdsUsedMemory n') with (size_cat oe n0 s). lia. }
  pose proof (used_weight _ Hl) as Hu. rewrite El, sumZ_snoc in Hr.
  change (getStringObjectSdsUsedMemory n0) with sz in Hn.
  change (getStringObjectSdsUsedMemory n') with (size_cat oe n0 s) in *.
  destruct (list_change_ok o (l ++ [n']) (wrap_u64 (reply_bytes o - rn_size n0 + rn_size n')) s) as [Ho Hs]; try done.
  - apply Forall_app. split; [done|]. by constructor.
  - rewrite El, !fmap_bytes_snoc, <- app_assoc. done.
  - intros n1 r E1. rewrite El in E1. destruct l as [|n2 l]; cbn in E1.
    + injection E1 as <- <-. exists n', []. split; [done|]. unfold n', n0, node_bytes. cbn. rewrite length_app. lia.
    + injection E1 as <- <-. exists n2, (l ++ [n']). by split.
  - rewrite sumZ_snoc, (oo_bytes _ O), El, sumZ_snoc.
    change (getStringObjectSdsUsedMemory n') with (size_cat oe n0 s).
    change (getStringObjectSdsUsedMemory n0) with sz. change (rn_size n0) with sz.
    change (rn_size n') with (size_cat oe n0 s). rewrite wrap_u64_id; [lia|]. unfold in_u64, ULLONG_MAX. lia.
  - rewrite sumZ_snoc. lia.
  - split_and!; try done. cbn [reply out_nodes]. rewrite !sumZ_snoc. lia.
Qed.

Lemma writable_ok o : out_ok o -> out_ok (out_writable o true).
Proof. intros [? ? ? ? ? ? ? ?]. by constructor. Qed.

Lemma buffer_ok o s : out_ok o -> writable o = true -> reply o = [] ->
  Z.of_nat (length (buf o)) + Z.of_nat (length s) <= PREZ_REPLY_CHUNK_BYTES ->
  let o' := mkOutput (buf o ++ s) (reply o) (reply_bytes o) (sentlen o)
              (obuf_soft_limit_reached_time o) (writable o) in
  out_ok o' /\ stream o' = stream o ++ s.
Proof.
  intros [? ? ? Hsb Hsn ? ? ?] Hw Er Hlen o'. split; [|unfold stream; cbn; by rewrite Er, !app_nil_r].
  assert (buf o = [] -> sentlen o = 0) as Hz.
  { intros Eb. destruct (Hsn Eb) as [?|(n & l & E & _)]; [done|]. congruence. }
  constructor; cbn; try done.
  - rewrite length_app. lia.
  - intros Hne. rewrite length_app. destruct (decide (buf o = [])) as [Eb|Eb]; [|specialize (Hsb Eb); lia].
    rewrite (Hz Eb), Eb in *. destruct s; [done|cbn; lia].
  - intros [Eb _]%app_eq_nil. left. by apply Hz.
Qed.

Lemma emit_spec oe c obj : oenv_ok oe -> sdsEncodedObject obj = true ->
  ready 1 (Z.of_nat (length (obj_sds obj))) c ->
  exists c', emit oe c obj = Ret c' /\ queued 1 (obj_sds obj) c c'.
Proof.
  intros E Hs (Hfd & Hfl & O & Hroom). unfold emit.
  destruct (prepare_spec oe c E Hfd O) as (w & -> & ->). cbn match. change (negb (PREZ_OK =? PREZ_OK)) with false. cbn match.
  set (c1 := set_out c (out_writable (out c) true)). assert (out_ok (out c1)) as O1 by (by apply writable_ok).
  assert (stream (out c1) = stream (out c)) as Es by done.
  unfold _addReplyToBuffer. change (has_flag c1 PREZ_CLOSE_AFTER_REPLY) with (has_flag c PREZ_CLOSE_AFTER_REPLY).
  rewrite Hfl.
  assert (exists c', add_to_list oe c1 obj = Ret c' /\ queued 1 (obj_sds obj) c c') as Hlist.
  { unfold add_to_list. change (has_flag c1 PREZ_CLOSE_AFTER_REPLY) with (has_flag c PREZ_CLOSE_AFTER_REPLY).
    rewrite Hfl. set (o' := match append_to_tail oe _ _ with Some _ => _ | None => _ end).
    assert (out_ok o' /\ stream o' = stream (out c) ++ obj_sds obj /\ sentlen o' = sentlen (out c)
      /\ sumZ weight (reply o') <= sumZ weight (reply (out c)) + 1 * 2 ^ 20 + 4 * Z.of_nat (length (obj_sds obj)))
      as (O' & S' & L' & R').
    { subst o'. destruct (append_to_tail oe (out c1) (obj_sds obj)) as [o'|] eqn:Ea.
      - destruct (append_to_tail_ok oe (out c1) (obj_sds obj) o' E O1 eq_refl) as (? & ? & ? & Hw);
          [unfold c1; cbn [out set_out out_writable reply]; lia|done|].
        split_and!; try done. rewrite Hw. unfold c1. cbn [out set_out out_writable reply]. lia.
      - destruct (push_node_ok oe (out c1) obj E O1 eq_refl Hs) as (? & ? & Hw);
          [unfold c1; cbn [out set_out out_writable reply]; lia|].
        split_and!; try done. rewrite Hw. unfold c1. cbn [out set_out out_writable reply]. lia. }
    destruct (async_close_spec oe (set_out c1 o') O') as (c' & -> & [? ? F ? S'' ? R'']). exists c'. split; [done|].
    rewrite app_nil_r in S''. cbn [length Z.of_nat] in R''.
    cbn in qu_fd0, qu_inp0, qu_sent0, S''. constructor; try done; [congruence..|].
    etransitivity; [exact R''|]. cbn [out set_out]. lia. }
  destruct (bool_decide_reflect (reply (out c1) = [])) as [Er|Er]; [|done]. cbn [negb].
  destruct (Z.ltb_spec (PREZ_REPLY_CHUNK_BYTES - Z.of_nat (length (buf (out c1)))) (Z.of_nat (length (obj_sds obj)))) as [|Hle]; [done|].
  eexists. split; [done|]. destruct (buffer_ok (out c1) (obj_sds obj) O1 eq_refl Er) as [O2 S2]; [lia|].
  constructor; try done. cbn [out set_out reply]. unfold c1. cbn [out set_out out_writable reply]. lia.
Qed.

Lemma addReplyString_spec oe c s : oenv_ok oe -> ready 1 (Z.of_nat (length s)) c ->
  exists c', addReplyString oe c s = Ret c' /\ queued 1 s c c'.
Proof.
  intros E R. pose proof (obj_sds_create s) as Eo.
  destruct (emit_spec oe c (createStringObject s) E) as (c' & Ec & Q).
  - unfold createStringObject. by destruct (_ <=? _).
  - by rewrite Eo.
  - exists c'. rewrite Eo in Q. split; [|done]. rewrite <- Ec. unfold emit, addReplyString, _addReplyStringToList. by rewrite Eo.
Qed.

Lemma addReplySds_spec oe c s : oenv_ok oe -> ready 1 (Z.of_nat (length s)) c ->
  exists c', addReplySds oe c s = Ret c' /\ queued 1 s c c'.
Proof. intros E R. by apply (emit_spec oe c (OBJ_RAW s) E). Qed.

(** The text of an object in a reply. *)
Definition reply_text (obj : robj) : bytes := match obj with OBJ_INT v => ll_repr v | _ => obj_sds obj end.

Definition obj_ok (obj : robj) : Prop := match obj with OBJ_INT v => in_s64 v | _ => True end.

Lemma addReply_emit oe c obj : addReply oe c obj = emit oe c (getDecodedObject obj).
Proof.
  unfold addReply, emit. destruct (prepareClientToWrite oe c) as [c1 r]. destruct (negb _); [done|].
  destruct obj as [s|s|v]; [done|done|]. cbn [getDecodedObject]. rewrite obj_sds_create.
  destruct (_ && _); [|done]. destruct (_addReplyToBuffer c1 (ll2text 32 v)) as [c' r'] eqn:E.
  destruct (r' =? PREZ_OK) eqn:Er; [done|]. done.
Qed.

Lemma addReply_spec oe c obj : oenv_ok oe -> obj_ok obj -> ready 1 (Z.of_nat (length (reply_text obj))) c ->
  exists c', addReply oe c obj = Ret c' /\ queued 1 (reply_text obj) c c'.
Proof.
  intros E Ho R. rewrite addReply_emit.
  assert (obj_sds (getDecodedObject obj) = reply_text obj) as Et.
  { destruct obj; [done|done|]. cbn [getDecodedObject]. rewrite obj_sds_create. apply ll2text_repr; [done|lia]. }
  rewrite <- Et in *. apply emit_spec; [done| |done].
  destruct obj; [done|done|]. cbn. unfold createStringObject. by destruct (_ <=? _).
Qed.

Lemma count_digits_spec fuel : forall n len, Z.abs n < 10 ^ Z.of_nat (S fuel) ->
  count_digits fuel n len = len + Z.of_nat (length (dec (Z.abs n))) - 1.
Proof.
  induction fuel as [|fuel IH]; intros n len Hn; cbn [count_digits].
  - assert (Z.quot n 10 = 0) as -> by (apply Z.quot_small_iff; lia).
    rewrite dec_small by lia. cbn. lia.
  - assert (Z.abs (Z.quot n 10) = Z.abs n / 10) as Ea.
    { rewrite <- Z.quot_abs by lia. rewrite Z.quot_div_nonneg by lia. done. }
    destruct (Z.eqb_spec (Z.quot n 10) 0) as [Ez|Ez].
    + apply Z.quot_small_iff in Ez; [|lia]. rewrite dec_small by lia. cbn. lia.
    + assert (10 <= Z.abs n).
      { destruct (Z_lt_le_dec (Z.abs n) 10); [|done]. exfalso. apply Ez. apply Z.quot_small_iff; lia. }
      rewrite IH, Ea, (dec_step (Z.abs n)), length_app by
        (first [done|rewrite Ea; apply Z.div_lt_upper_bound; [lia|];
          rewrite (Nat2Z.inj_succ (S fuel)), Z.pow_succ_r in Hn by lia; lia]).
      cbn. lia.
Qed.

Lemma bulk_len_spec obj : obj_ok obj -> bulk_len obj = Z.of_nat (length (reply_text obj)).
Proof.
  destruct obj as [s|s|v]; [done|done|]. cbn [obj_ok bulk_len reply_text]. intros Hv.
  assert (forall n, Z.abs n <= 2 ^ 63 -> Z.abs n < 10 ^ Z.of_nat 21) as Hb by (intros n Hn; lia).
  unfold in_s64, LLONG_MIN, LLONG_MAX in Hv. rewrite ll_repr_abs, length_app.
  destruct (Z.ltb_spec v 0).
  - assert (Z.abs (wrap_s64 (- v)) = Z.abs v) as Ea.
    { destruct (decide (v = - 2 ^ 63)) as [->|]; [done|]. rewrite wrap_s64_id by rng. lia. }
    rewrite count_digits_spec by (rewrite Ea; apply Hb; lia). rewrite Ea. cbn [length]. lia.
  - rewrite count_digits_spec by (apply Hb; lia). cbn [length]. lia.
Qed.

(** ** Every kind of reply *)

Inductive rop :=
  | TObj (o : robj)
  | TSds (s : bytes)
  | TString (s : bytes)
  | TError (s : bytes)
  | TErrorFormat (s : bytes)
  | TStatus (s : bytes)
  | TLongLong (ll : Z)
  | TMultiBulkLen (n : Z)
  | TBulk (o : robj)
  | TBulkCBuffer (s : bytes)
  | TBulkCString (s : option bytes)
  | TBulkLongLong (ll : Z).

Definition run_rop (oe : oenv) (c : prezClient) (r : rop) : cres prezClient :=
  match r with
  | TObj o => addReply oe c o
  | TSds s => addReplySds oe c s
  | TString s => addReplyString oe c s
  | TError s => addReplyError oe c s
  | TErrorFormat s => addReplyErrorFormat oe c s
  | TStatus s => addReplyStatus oe c s
  | TLongLong ll => addReplyLongLong oe c ll
  | TMultiBulkLen n => addReplyMultiBulkLen oe c n
  | TBulk o => addReplyBulk oe c o
  | TBulkCBuffer s => addReplyBulkCBuffer oe c s
  | TBulkCString s => addReplyBulkCString oe c s
  | TBulkLongLong ll => addReplyBulkLongLong oe c ll
  end.

(** The bytes of the protocol. *)
Definition bulk (s : bytes) : bytes := 36 :: dec (Z.of_nat (length s)) ++ CRLF ++ s ++ CRLF.

Definition rop_text (r : rop) : bytes :=
  match r with
  | TObj o => reply_text o
  | TSds s | TString s => s
  | TError s => lit "-ERR " ++ s ++ CRLF
  | TErrorFormat s => lit "-ERR " ++ no_newlines s ++ CRLF
  | TStatus s => lit "+" ++ s ++ CRLF
  | TLongLong ll => 58 :: ll_repr ll ++ CRLF
  | TMultiBulkLen n => 42 :: dec n ++ CRLF
  | TBulk o => bulk (reply_text o)
  | TBulkCBuffer s => bulk s
  | TBulkCString None => lit "$-1" ++ CRLF
  | TBulkCString (Some s) => bulk s
  | TBulkLongLong ll => bulk (ll_repr ll)
  end.

Definition rop_ok (r : rop) : Prop :=
  match r with
  | TObj o | TBulk o => obj_ok o /\ Z.of_nat (length (reply_text o)) < 2 ^ 63
  | TLongLong ll | TBulkLongLong ll => in_s64 ll
  | TMultiBulkLen n => 0 <= n <= LLONG_MAX
  | TBulkCBuffer s | TBulkCString (Some s) => Z.of_nat (length s) < 2 ^ 63
  | _ => True
  end.

Lemma queued_weaken k k' t c c' : queued k t c c' -> k <= k' -> queued k' t c c'.
Proof. intros [? ? ? ? ? ? ?] H. constructor; try done. lia. Qed.

(** Two replies in a row. *)
Lemma queue_bind k1 k2 t1 t2 c (m : cres prezClient) (f : prezClient -> cres prezClient) :
  ready (k1 + k2) (Z.of_nat (length (t1 ++ t2))) c ->
  (ready k1 (Z.of_nat (length t1)) c -> exists c', m = Ret c' /\ queued k1 t1 c c') ->
  (forall c', ready k2 (Z.of_nat (length t2)) c' -> exists c'', f c' = Ret c'' /\ queued k2 t2 c' c'') ->
  0 <= k2 ->
  exists c'', (m ≫= f) = Ret c'' /\ queued (k1 + k2) (t1 ++ t2) c c''.
Proof.
  intros R H1 H2 Hk. rewrite length_app, Nat2Z.inj_add in R.
  destruct H1 as (c' & -> & Q1); [eapply ready_le; [exact R|lia|lia]|].
  destruct (H2 c') as (c'' & E & Q2); [by eapply queued_ready|]. exists c''. split; [exact E|]. by eapply queued_trans.
Qed.

Lemma queue3 oe t1 t2 t3 c : oenv_ok oe -> ready 3 (Z.of_nat (length (t1 ++ t2 ++ t3))) c ->
  exists c', (c ← addReplyString oe c t1; c ← addReplyString oe c t2; addReplyString oe c t3) = Ret c'
    /\ queued 3 (t1 ++ t2 ++ t3) c c'.
Proof.
  intros E R. apply (queue_bind 1 2 t1 (t2 ++ t3)); [done|by apply addReplyString_spec| |lia].
  intros c1 R1. apply (queue_bind 1 1 t2 t3); [done|by apply addReplyString_spec| |lia].
  intros c2 R2. by apply addReplyString_spec.
Qed.

Lemma prefix_spec oe c ll prefix : oenv_ok oe -> in_s64 ll -> prefix = 58 \/ 0 <= ll ->
  ready 1 (Z.of_nat (length (prefix :: ll_repr ll ++ CRLF))) c ->
  exists c', addReplyLongLongWithPrefix oe c ll prefix = Ret c' /\ queued 1 (prefix :: ll_repr ll ++ CRLF) c c'.
Proof.
  intros E Hll Hp R. unfold addReplyLongLongWithPrefix. rewrite ll2text_repr by (done || lia).
  destruct (_ && _) eqn:Eb; [|by apply addReplyString_spec].
  apply andb_true_iff in Eb as [Epre Hlt]. apply Z.ltb_lt in Hlt.
  destruct Hp as [->|Hp]; [done|]. unfold shared_hdr.
  rewrite (proj2 (Z.leb_le 0 ll)), (proj2 (Z.ltb_lt ll _)) by done. cbn [andb require mbind cres_bind].
  assert (ll_repr ll = dec ll) as El by (unfold ll_repr; by rewrite (proj2 (Z.ltb_ge ll 0))). rewrite El in *.
  by apply (addReply_spec oe c (OBJ_RAW (prefix :: dec ll ++ CRLF)) E I).
Qed.

Lemma ll_repr_nonneg n : 0 <= n -> ll_repr n = dec n.
Proof. intros. unfold ll_repr. by rewrite (proj2 (Z.ltb_ge n 0)). Qed.

Lemma multi_spec oe c n : oenv_ok oe -> 0 <= n <= LLONG_MAX ->
  ready 1 (Z.of_nat (length (42 :: dec n ++ CRLF))) c ->
  exists c', addReplyMultiBulkLen oe c n = Ret c' /\ queued 1 (42 :: dec n ++ CRLF) c c'.
Proof.
  intros E Hn R. unfold addReplyMultiBulkLen. rewrite <- (ll_repr_nonneg n) in * by lia.
  destruct (n <? PREZ_SHARED_BULKHDR_LEN) eqn:En; [|apply prefix_spec; [done|rng|lia|done]].
  destruct (prefix_spec oe c n 42 E) as (c' & Ec & Q); [rng|lia|done|].
  unfold addReplyLongLongWithPrefix in Ec. rewrite En in Ec. by exists c'.
Qed.

Lemma bulk_header_spec oe c obj n : oenv_ok oe -> obj_ok obj -> n = bulk_len obj -> n < 2 ^ 63 ->
  ready 1 (Z.of_nat (length (36 :: dec n ++ CRLF))) c ->
  exists c', addReplyBulkLen oe c obj = Ret c' /\ queued 1 (36 :: dec n ++ CRLF) c c'.
Proof.
  intros E Ho -> Hn R. pose proof (bulk_len_spec obj Ho) as El. unfold addReplyBulkLen.
  rewrite <- (ll_repr_nonneg (bulk_len obj)) in * by lia.
  destruct (bulk_len obj <? PREZ_SHARED_BULKHDR_LEN) eqn:En; [|apply prefix_spec; [done|rng|lia|done]].
  destruct (prefix_spec oe c (bulk_len obj) 36 E) as (c' & Ec & Q); [rng|lia|done|].
  unfold addReplyLongLongWithPrefix in Ec. rewrite En in Ec. by exists c'.
Qed.

Lemma bulk_app s : bulk s = (36 :: dec (Z.of_nat (length s)) ++ CRLF) ++ s ++ CRLF.
Proof. unfold bulk. cbn. by rewrite <- app_assoc. Qed.

Lemma cbuffer_spec oe c s : oenv_ok oe -> Z.of_nat (length s) < 2 ^ 63 -> ready 3 (Z.of_nat (length (bulk s))) c ->
  exists c', addReplyBulkCBuffer oe c s = Ret c' /\ queued 3 (bulk s) c c'.
Proof.
  intros E Hs R. rewrite bulk_app in *. apply (queue_bind 1 2); [done| | |lia].
  - intros R1. rewrite <- (ll_repr_nonneg (Z.of_nat (length s))) in * by lia. apply prefix_spec; [done|rng|lia|done].
  - intros c1 R1. apply (queue_bind 1 1); [done|by apply addReplyString_spec| |lia].
    intros c2 R2. by apply (addReply_spec oe c2 shared_crlf).
Qed.

Lemma rop_spec oe c r : oenv_ok oe -> rop_ok r -> ready 3 (Z.of_nat (length (rop_text r))) c ->
  exists c', run_rop oe c r = Ret c' /\ queued 3 (rop_text r) c c'.
Proof.
  intros E Hr R.
  assert (forall (m : cres prezClient), (ready 1 (Z.of_nat (length (rop_text r))) c ->
    exists c', m = Ret c' /\ queued 1 (rop_text r) c c') -> exists c', m = Ret c' /\ queued 3 (rop_text r) c c') as H1.
  { intros m H. destruct H as (c' & -> & Q); [eapply ready_le; [exact R|lia|lia]|].
    exists c'. split; [done|]. eapply queued_weaken; [exact Q|lia]. }
  destruct r as [o|s|s|s|s|s|ll|n|o|s|[s|]|ll]; cbn [run_rop rop_text rop_ok] in *.
  - apply H1, addReply_spec; [done|apply Hr].
  - by apply H1, addReplySds_spec.
  - by apply H1, addReplyString_spec.
  - by apply queue3.
  - by apply queue3.
  - by apply queue3.
  - unfold addReplyLongLong. destruct (Z.eqb_spec ll 0) as [->|]; [by apply H1, (addReply_spec oe c shared_czero)|].
    destruct (Z.eqb_spec ll 1) as [->|]; [by apply H1, (addReply_spec oe c shared_cone)|].
    apply H1, prefix_spec; [done|done|by left].
  - by apply H1, multi_spec.
  - destruct Hr as [Ho Hl]. pose proof (bulk_len_spec o Ho) as El. unfold addReplyBulk.
    rewrite bulk_app in *. apply (queue_bind 1 2); [done| | |lia].
    + intros R1. rewrite <- El in *. by apply bulk_header_spec.
    + intros c1 R1. apply (queue_bind 1 1); [done|by apply addReply_spec| |lia].
      intros c2 R2. by apply (addReply_spec oe c2 shared_crlf).
  - by apply cbuffer_spec.
  - by apply cbuffer_spec.
  - by apply H1, (addReply_spec oe c shared_nullbulk).
  - unfold addReplyBulkLongLong. rewrite ll2text_repr by (done || lia). apply cbuffer_spec; [done| |done].
    pose proof (length_ll_repr_max ll Hr). lia.
Qed.

(** ** Sending *)

Lemma sock_write_spec ws s t ws' : sock_write ws s = Some (t, ws') ->
  exists m w, ws = w :: ws' /\ t = take m s /\ t <> [].
Proof.
  destruct ws as [|[[|n]| |] ws]; cbn; try done. destruct s as [|b s]; [done|]. intros [= <- <-].
  by exists (S n), (WBytes (S n)).
Qed.

(** Sending [m] bytes of [s] from position [k]. *)
Lemma drop_sent (s r : bytes) k m : (k <= length s)%nat ->
  let t := take m (drop k s) in
  drop k (s ++ r) = t ++ drop (k + length t) (s ++ r)
  /\ (k + length t <= length s)%nat
  /\ (k + length t = length s -> drop (k + length t) (s ++ r) = r)%nat.
Proof.
  intros Hk t. assert (k + length t <= length s)%nat as Hl.
  { unfold t. rewrite length_take, length_drop. lia. }
  split_and!; [|done|intros ->; by rewrite drop_app_length].
  rewrite <- drop_drop, (drop_app_le s r k) by done.
  rewrite (drop_app_le (drop k s) r) by (rewrite length_drop; lia).
  unfold t. rewrite app_assoc. f_equal.
  rewrite <- (take_drop m (drop k s)) at 1. f_equal.
  rewrite length_take. destruct (decide (m <= length (drop k s))%nat).
  - by rewrite Nat.min_l by lia.
  - by rewrite Nat.min_r, !drop_ge by lia.
Qed.

(** [o'] is [o] after the bytes [t] were sent. *)
Record sent_by (t : bytes) (o o' : output) : Prop := {
  sb_ok : out_ok o';
  sb_pending : pending o = t ++ pending o';
  sb_room : sumZ weight (reply o') <= sumZ weight (reply o);
  sb_writable : writable o' = writable o;
  sb_left : (length (reply o') <= length (reply o))%nat;
}.

Lemma sent_trans t1 t2 o1 o2 o3 : sent_by t1 o1 o2 -> sent_by t2 o2 o3 -> sent_by (t1 ++ t2) o1 o3.
Proof. intros [? P1 ? ? ?] [? P2 ? ? ?]. constructor; [done|by rewrite P1, P2, app_assoc|lia|congruence|lia]. Qed.

Lemma send_buffer o t m : out_ok o -> buf o <> [] -> t = take m (drop (Z.to_nat (sentlen o)) (buf o)) ->
  let sent := sentlen o + Z.of_nat (length t) in
  sent_by t o (if sent =? Z.of_nat (length (buf o))
               then mkOutput [] (reply o) (reply_bytes o) 0 (obuf_soft_limit_reached_time o) (writable o)
               else mkOutput (buf o) (reply o) (reply_bytes o) sent (obuf_soft_limit_reached_time o) (writable o)).
Proof.
  intros [Hb Hn Hs Hsb Hsn Hby Hr Hw] Hne -> sent. specialize (Hsb Hne).
  destruct (drop_sent (buf o) (concat (node_bytes <$> reply o)) (Z.to_nat (sentlen o)) m) as (Hd & Hl & Hfull); [lia|].
  set (t := take m _) in *. assert (Z.to_nat sent = (Z.to_nat (sentlen o) + length t)%nat) as Es by (unfold sent; lia).
  destruct (Z.eqb_spec sent (Z.of_nat (length (buf o)))) as [Ef|Ef].
  - constructor; cbn; try done; try lia.
    + constructor; cbn; try done; [by left|intros _; apply Hw; by left].
    + unfold pending, stream. cbn. rewrite Hd, Hfull by lia. by rewrite drop_0.
  - constructor; cbn; try done; try lia.
    + constructor; cbn; try done; [unfold sent; lia|intros _; unfold sent in *; lia].
    + unfold pending, stream. cbn [buf reply sentlen]. by rewrite Es.
Qed.

Lemma send_node o n l x : out_ok o -> buf o = [] -> reply o = n :: l -> rn_obj n = Some x ->
  let o1 := mkOutput (buf o) l (wrap_u64 (reply_bytes o - getStringObjectSdsUsedMemory n)) 0
              (obuf_soft_limit_reached_time o) (writable o) in
  (obj_sds x = [] -> sentlen o = 0 /\ sent_by [] o o1)
  /\ forall t m, obj_sds x <> [] -> t = take m (drop (Z.to_nat (sentlen o)) (obj_sds x)) ->
     let sent := sentlen o + Z.of_nat (length t) in
     sent_by t o (if sent =? Z.of_nat (length (obj_sds x)) then o1
                  else mkOutput (buf o) (reply o) (reply_bytes o) sent (obuf_soft_limit_reached_time o) (writable o)).
Proof.
  intros [Hb Hn Hs Hsb Hsn Hby Hr Hw] Eb Er Ex o1. assert (node_bytes n = obj_sds x) as Enb by (unfold node_bytes; by rewrite Ex).
  rewrite Er in *. apply Forall_cons in Hn as [Hn0 Hn]. pose proof (proj2 Hn0) as Hm.
  unfold sumZ in Hby, Hr. cbn [foldr] in Hby, Hr. fold (sumZ weight l) in Hr.
  fold (sumZ getStringObjectSdsUsedMemory l) in Hby. pose proof (used_weight _ Hn) as Hu.
  assert (0 <= weight n) as Hwn by (unfold weight; lia).
  assert (out_ok o1) as O1.
  { constructor; cbn [o1 buf reply sentlen reply_bytes writable]; try done; try lia;
      [|intros _; apply Hw; by right].
    rewrite Hby, wrap_u64_id; [lia|]. unfold in_u64, ULLONG_MAX. lia. }
  assert (sumZ weight (reply o1) <= sumZ weight (n :: l)) as Hle.
  { unfold sumZ. cbn [o1 reply foldr]. fold (sumZ weight l). lia. }
  assert (sentlen o = 0 \/ sentlen o < Z.of_nat (length (obj_sds x))) as Hsl.
  { destruct (Hsn Eb) as [?|(n' & l' & [= <- <-] & ?)]; [by left|right; by rewrite <- Enb]. }
  split.
  - intros E0. rewrite E0 in *. assert (sentlen o = 0) as Ez by (cbn in Hsl; lia). split; [done|].
    constructor; try done; [|rewrite Er; done|rewrite Er; cbn; lia].
    unfold pending, stream. rewrite Ez, Eb, Er. cbn [app fmap list_fmap concat o1 buf reply sentlen]. rewrite Enb. by rewrite Eb.
  - intros t m Hne -> sent. destruct (drop_sent (obj_sds x) (concat (node_bytes <$> l)) (Z.to_nat (sentlen o)) m) as (Hd & Hl & Hfull); [lia|].
    set (t := take m _) in *. assert (Z.to_nat sent = (Z.to_nat (sentlen o) + length t)%nat) as Es by (unfold sent; lia).
    destruct (Z.eqb_spec sent (Z.of_nat (length (obj_sds x)))) as [Ef|Ef].
    + constructor; try done; [|rewrite Er; done|rewrite Er; cbn; lia]. unfold pending, stream.
      cbn [o1 buf reply sentlen]. rewrite Eb, Er. cbn [app fmap list_fmap concat]. rewrite Enb, Hd, Hfull by lia. by rewrite drop_0.
    + constructor; cbn [buf reply sentlen reply_bytes writable]; try done; try lia.
      * constructor; cbn [buf reply sentlen reply_bytes writable]; rewrite ?Er; try done; try (unfold sent; lia).
        -- by constructor.
        -- intros _. right. exists n, l. split; [done|]. rewrite Enb. unfold sent in *. lia.
      * unfold pending, stream. cbn [buf reply sentlen]. rewrite Eb, Er, Es. cbn [app fmap list_fmap concat]. by rewrite Enb.
      * by rewrite Er.
      * by rewrite Er.
Qed.

Lemma send_loop_spec mem_ok fuel : forall o tot ws, out_ok o -> (length ws + length (reply o) < fuel)%nat ->
  exists o' t err, send_loop fuel mem_ok o tot ws = Ret (o', tot ++ t, err) /\ sent_by t o o'.
Proof.
  induction fuel as [|fuel IH]; intros o tot ws O Hf; [lia|].
  assert (sent_by [] o o) as Hrefl by (by constructor).
  assert (exists o' t err, Ret (o, tot, write_error ws) = Ret (o', tot ++ t, err) /\ sent_by t o o') as Hstop.
  { exists o, [], (write_error ws). by rewrite app_nil_r. }
  assert (forall o1 t1 w ws1, ws = w :: ws1 -> sent_by t1 o o1 -> exists o' t err,
    (if (PREZ_MAX_WRITE_PER_EVENT <? Z.of_nat (length (tot ++ t1))) && mem_ok then mret (o1, tot ++ t1, false)
     else send_loop fuel mem_ok o1 (tot ++ t1) ws1) = Ret (o', tot ++ t, err) /\ sent_by t o o') as Hnext.
  { intros o1 t1 w ws1 -> Hs1. destruct (_ && _); [by exists o1, t1, false|]. destruct Hs1 as [O1 P1 R1 W1 L1].
    destruct (IH o1 (tot ++ t1) ws1 O1) as (o' & t & err & E & Hs); [cbn in Hf; lia|].
    exists o', (t1 ++ t), err. rewrite E, app_assoc. split; [done|]. by eapply sent_trans. }
  cbn [send_loop]. destruct (bool_decide_reflect (buf o = [])) as [Eb|Eb]; cbn [negb].
  2:{ destruct (sock_write ws _) as [[t ws1]|] eqn:Ew; [|exact Hstop].
      apply sock_write_spec in Ew as (m & w & Ews & Et & _). eapply Hnext; [exact Ews|]. by eapply send_buffer. }
  destruct (reply o) as [|n l] eqn:Er.
  { exists o, [], false. by rewrite app_nil_r. }
  pose proof (oo_nodes _ O) as Hn. rewrite Er in Hn. apply Forall_cons in Hn as [[(x & Ex & _) _] _].
  rewrite Ex. cbn [of_ptr mbind cres_bind]. destruct (send_node o n l x O Eb Er Ex) as [Hempty Hsend].
  destruct (bool_decide_reflect (obj_sds x = [])) as [E0|E0].
  - destruct (Hempty E0) as [Ez Hs]. rewrite Ez. destruct (IH _ tot ws (sb_ok _ _ _ Hs)) as (o' & t & err & E & Hs');
      [cbn in *; lia|]. exists o', t, err. split; [exact E|]. by eapply (sent_trans []).
  - destruct (sock_write ws _) as [[t ws1]|] eqn:Ew; [|exact Hstop].
    apply sock_write_spec in Ew as (m & w & Ews & Et & _). eapply Hnext; [exact Ews|]. rewrite Er in Hsend. by eapply Hsend.
Qed.

Lemma sendReply_spec mem_ok ws c : out_ok (out c) -> has_flag c PREZ_CLOSE_AFTER_REPLY = false ->
  exists oc t, sendReplyToClient mem_ok ws c = Ret (oc, t)
    /\ match oc with
       | None => exists o', sent_by t (out c) o'
       | Some c' => fd c' = fd c /\ flags c' = flags c /\ inp c' = inp c /\ out_ok (out c')
           /\ pending (out c) = t ++ pending (out c') /\ sumZ weight (reply (out c')) <= sumZ weight (reply (out c))
       end.
Proof.
  intros O Hf. unfold sendReplyToClient.
  destruct (send_loop_spec mem_ok (S (length ws + length (reply (out c)))) (out c) [] ws O) as (o & t & err & -> & Hs); [lia|].
  cbn [mbind cres_bind app]. destruct err; [exists None, t; split; [done|by exists o]|].
  destruct Hs as [O' P' R' W' _].
  destruct (bool_decide_reflect (buf o = [])) as [Eb|]; [destruct (bool_decide_reflect (reply o = [])) as [Er|]|]; cbn [andb].
  - rewrite Hf. eexists (Some _), t. split; [done|]. cbn. split_and!; try done.
    + pose proof (oo_bytes _ O') as Hb. rewrite Er in Hb. constructor; cbn; try done; [by left|by intros [?|?]].
    + rewrite P'. f_equal. unfold pending, stream. rewrite Eb, Er. by destruct (Z.to_nat (sentlen o)).
    + by rewrite Er in R'.
  - by eexists (Some _), t.
  - by eexists (Some _), t.
Qed.

(** What happens to a client: replies, and calls of the writable handler. *)
Inductive cevent :=
  | EReply (oe : oenv) (r : rop)
  | EWrite (mem_ok : bool) (ws : list wres).

Definition run_cevent (c : prezClient) (e : cevent) : cres (option prezClient * bytes) :=
  match e with
  | EReply oe r => c ← run_rop oe c r; mret (Some c, [])
  | EWrite mem_ok ws => sendReplyToClient mem_ok ws c
  end.

Fixpoint run_cevents (c : prezClient) (es : list cevent) : cres (option prezClient * bytes) :=
  match es with
  | [] => mret (Some c, [])
  | e :: es =>
      '(oc, t) ← run_cevent c e;
      match oc with
      | None => mret (None, t)
      | Some c => '(oc, t') ← run_cevents c es; mret (oc, t ++ t')
      end
  end.

Definition cevent_text (e : cevent) : bytes := match e with EReply _ r => rop_text r | EWrite _ _ => [] end.
Definition cevent_ok (e : cevent) : Prop := match e with EReply oe r => oenv_ok oe /\ rop_ok r | EWrite _ _ => True end.
Definition replies (es : list cevent) : bytes := concat (cevent_text <$> es).

Lemma run_cevents_spec es : forall c, Forall cevent_ok es ->
  ready (3 * Z.of_nat (length es)) (Z.of_nat (length (replies es))) c ->
  exists oc t, run_cevents c es = Ret (oc, t)
    /\ match oc with
       | None => t `prefix_of` pending (out c) ++ replies es
       | Some c' => t ++ pending (out c') = pending (out c) ++ replies es /\ out_ok (out c') /\ inp c' = inp c
       end.
Proof.
  induction es as [|e es IH]; intros c Hok R.
  { exists (Some c), []. split; [done|]. split_and!; [by rewrite app_nil_r|apply R|done]. }
  apply Forall_cons in Hok as [He Hok]. cbn [run_cevents]. unfold replies in R |- *. cbn [fmap list_fmap concat] in R |- *.
  fold (replies es) in R |- *. rewrite length_app in R. cbn [length] in R. destruct e as [oe r|mem_ok ws]; cbn [run_cevent cevent_text].
  - destruct He as [Ho Hr]. destruct (rop_spec oe c r Ho Hr) as (c1 & -> & Q).
    { eapply ready_le; [exact R|lia|cbn; lia]. }
    cbn [mbind cres_bind mret cres_ret]. destruct (IH c1 Hok) as (oc & t & -> & Hres).
    { eapply queued_ready; [exact Q|]. eapply ready_le; [exact R|lia|cbn; lia]. }
    exists oc, t. split; [done|].
    assert (pending (out c1) = pending (out c) ++ rop_text r) as Ep by (eapply queued_pending; [apply R|exact Q]).
    rewrite Ep in Hres. destruct oc; [|by rewrite app_assoc].
    destruct Hres as (E & ? & E2). rewrite E, app_assoc. split_and!; try done. rewrite E2. apply Q.
  - destruct R as (Hfd & Hfl & O & Hroom). destruct (sendReply_spec mem_ok ws c O Hfl) as (oc & t & -> & Hres).
    cbn [mbind cres_bind]. destruct oc as [c1|].
    2:{ exists None, t. split; [done|]. destruct Hres as (o' & [_ P' _ _ _]). rewrite P', <- app_assoc. by eexists. }
    destruct Hres as (F1 & F2 & F3 & O1 & P1 & R1). destruct (IH c1 Hok) as (oc & t' & -> & Hres).
    { unfold ready, has_flag. rewrite F1, F2. split_and!; try done. cbn in Hroom. lia. }
    exists oc, (t ++ t'). split; [done|]. rewrite P1. destruct oc as [c2|].
    + destruct Hres as (E & ? & E2). rewrite <- !app_assoc, E. split_and!; try done. congruence.
    + cbn [app]. rewrite <- app_assoc. by apply prefix_app.
Qed.

(** A client as [createClient] makes it, before its first request. *)
Definition new_output : output := mkOutput [] [] 0 0 0 false.

Lemma new_output_ok : out_ok new_output.
Proof. constructor; cbn; try done; [by left|by intros [?|?]]. Qed.

(** [C17] The replies of a connected client reach the socket complete and in order: for any
    sequence of replies of every kind and calls of the writable handler, whatever number of
    bytes each [write] takes, the bytes sent and the bytes still queued are together exactly
    the texts of the replies in the protocol, one after the other; the writable handler is
    installed as long as something is queued, the counter of the memory of the queue is the
    sum over its objects, and a client that is dropped because of an error of the socket has
    received a prefix. *)
Theorem replies_in_order (c : prezClient) (es : list cevent) :
  0 < fd c -> has_flag c PREZ_CLOSE_AFTER_REPLY = false -> out c = new_output -> Forall cevent_ok es ->
  3 * Z.of_nat (length es) * 2 ^ 20 + 4 * Z.of_nat (length (replies es)) < 2 ^ 63 ->
  exists oc sent, run_cevents c es = Ret (oc, sent)
    /\ match oc with
       | Some c' => sent ++ pending (out c') = replies es
           /\ (pending (out c') <> [] -> writable (out c') = true)
           /\ reply_bytes (out c') = sumZ getStringObjectSdsUsedMemory (reply (out c'))
           /\ inp c' = inp c
       | None => sent `prefix_of` replies es
       end.
Proof.
  intros Hfd Hfl Eo Hok Hroom.
  destruct (run_cevents_spec es c Hok) as (oc & t & E & Hres).
  { split_and!; try done; rewrite Eo; [apply new_output_ok|cbn [new_output reply sumZ foldr]; lia]. }
  exists oc, t. split; [done|]. rewrite Eo in Hres. change (pending new_output) with (@nil Z) in Hres.
  destruct oc as [c'|]; [|done]. destruct Hres as (Et & O' & Ei). split_and!; [done| |apply O'|done].
  intros Hne. apply (oo_writable _ O'). destruct (decide (buf (out c') = [])) as [Eb|]; [|by left]. right. intros Er.
  apply Hne. unfold pending, stream. rewrite Eb, Er. by destruct (Z.to_nat _).
Qed.

(** ** An instance *)

Definition ex_oenv : oenv :=
  mkOEnv true 100 0 0 0 (λ s, Z.of_nat (length s) + 9) (λ n s, Z.of_nat (length (node_bytes n) + length s) * 2 + 9).

Lemma ex_oenv_ok : oenv_ok ex_oenv.
Proof. constructor; cbn; [done|intros; lia|intros; lia]. Qed.

Definition ex_client : prezClient := mkClient 7 0 false (mkInput [] 0 0 (-1) [] None) new_output.

Definition ex_events : list cevent :=
  [EReply ex_oenv (TBulk (OBJ_INT (-42))); EWrite true [WBytes 3; WAgain];
   EReply ex_oenv (TString (replicate 16380 120)); EReply ex_oenv (TLongLong 7);
   EWrite true [WBytes 4; WBytes 16000; WAgain]; EReply ex_oenv (TErrorFormat [120; 13; 10])].

Lemma replies_in_order_witness :
  (0 < fd ex_client /\ has_flag ex_client PREZ_CLOSE_AFTER_REPLY = false /\ out ex_client = new_output)
  /\ exists oc sent, run_cevents ex_client ex_events = Ret (oc, sent)
    /\ match oc with
       | Some c' => sent ++ pending (out c') = replies ex_events
           /\ (pending (out c') <> [] -> writable (out c') = true)
           /\ reply_bytes (out c') = sumZ getStringObjectSdsUsedMemory (reply (out c'))
           /\ inp c' = inp ex_client
       | None => sent `prefix_of` replies ex_events
       end.
Proof.
  split; [done|]. apply (replies_in_order ex_client ex_events); [done|done|done| |by vm_compute].
  repeat constructor; try apply ex_oenv_ok; cbn; lia || (unfold in_s64, LLONG_MIN, LLONG_MAX; lia).
Defined.
