(* ===== verification/Refs.v ===== *)
(** * object.c: shared objects and their reference counts

    Requests, the data set and the reply lists of clients hold pointers to the same objects.
    Here objects live in a heap with their reference counts, from src/src/object.c, and the
    functions of src/src/networking.c, src/src/db.c, src/src/prez.c and src/src/log.c that take
    and drop references work on it: storing an argument, putting a stored value in a reply,
    joining a string to the last object of a reply list, sending and freeing replies.

    The other files treat objects as values.  The theorem of this file justifies it: counts are
    exact, so nothing is used after it is freed and nothing is lost, and an object that is
    changed in place is never one somebody else can see. *)

From Stdlib Require Import ZArith Lia.
From stdpp Require Import base tactics numbers list gmap gmultiset strings.
From S2P Require Import Prelude Util Object Client.

Local Open Scope Z_scope.

(** ** Objects *)

(** [refcount] is an int. *)
Record hobj := mkHObj { refcount : Z; value : robj }.

Abbreviation heap := (gmap positive hobj).

(** A block that is not in use. *)
Definition createObject (h : heap) (v : robj) : positive * heap :=
  let a := fresh (dom h) in (a, <[a := mkHObj 1 v]> h).

Definition incrRefCount (h : heap) (a : positive) : cres heap :=
  o ← of_ptr (h !! a);
  _ ← require (refcount o <? 2 ^ 31 - 1);
  mret (<[a := mkHObj (refcount o + 1) (value o)]> h).

Definition decrRefCount (h : heap) (a : positive) : cres heap :=
  o ← of_ptr (h !! a);
  if refcount o <=? 0 then Exit else
  mret (if refcount o =? 1 then delete a h else <[a := mkHObj (refcount o - 1) (value o)]> h).

(** [o->encoding] and [o->ptr] *)
Definition object (h : heap) (a : positive) : cres robj := o ← of_ptr (h !! a); mret (value o).

(** A copy with the same encoding. *)
Definition dupStringObject (h : heap) (a : positive) : cres (positive * heap) :=
  v ← object h a;
  mret (createObject h v).

(** Every element of a list is released: [freeClientArgv], [listRelease]. *)
Fixpoint decr_all (h : heap) (l : list positive) : cres heap :=
  match l with [] => mret h | a :: l => h ← decrRefCount h a; decr_all h l end.

(** ** Replies *)

(** The static buffer and the list of a client that takes replies. *)
Record hreply := mkHReply { hr_buf : bytes; hr_list : list positive }.

(** The last object belongs to the list alone, or is replaced by a copy. *)
Definition dupLastObjectIfNeeded (h : heap) (l : list positive) : cres (heap * list positive) :=
  match last l with
  | None => Exit
  | Some cur =>
      o ← of_ptr (h !! cur);
      if 1 <? refcount o then
        '(new, h) ← dupStringObject h cur;
        h ← decrRefCount h cur;
        mret (h, removelast l ++ [new])
      else mret (h, l)
  end.

(** [tail->ptr = sdscatlen(tail->ptr, s, len)] *)
Definition cat_tail (h : heap) (l : list positive) (s : bytes) : cres heap :=
  a ← of_ptr (last l);
  o ← of_ptr (h !! a);
  mret (<[a := mkHObj (refcount o) (OBJ_RAW (obj_sds (value o) ++ s))]> h).

(** [tail->ptr != NULL && tail->encoding == RAW && sdslen(tail->ptr)+len <= CHUNK] *)
Definition joins (v : robj) (s : bytes) : bool :=
  match v with OBJ_RAW t => Z.of_nat (length t) + Z.of_nat (length s) <=? PREZ_REPLY_CHUNK_BYTES | _ => false end.

Definition tail_joins (h : heap) (l : list positive) (s : bytes) : cres bool :=
  match last l with None => mret false | Some a => v ← object h a; mret (joins v s) end.

Definition addReplyObjectToList (h : heap) (l : list positive) (a : positive) : cres (heap * list positive) :=
  v ← object h a;
  j ← tail_joins h l (obj_sds v);
  if (j : bool) then
    '(h, l) ← dupLastObjectIfNeeded h l;
    v ← object h a;
    h ← cat_tail h l (obj_sds v);
    mret (h, l)
  else h ← incrRefCount h a; mret (h, l ++ [a]).

(** [_addReplyStringToList] and [_addReplySdsToList]: [v] is the object they make. *)
Definition addReplyNewToList (h : heap) (l : list positive) (v : robj) : cres (heap * list positive) :=
  j ← tail_joins h l (obj_sds v);
  if (j : bool) then
    '(h, l) ← dupLastObjectIfNeeded h l;
    h ← cat_tail h l (obj_sds v);
    mret (h, l)
  else let '(a, h) := createObject h v in mret (h, l ++ [a]).

(** [_addReplyToBuffer]: [None] when there is no room. *)
Definition to_buffer {A : Type} (buf : bytes) (l : list A) (s : bytes) : option bytes :=
  if bool_decide (l = []) && (Z.of_nat (length s) <=? PREZ_REPLY_CHUNK_BYTES - Z.of_nat (length buf)) then Some (buf ++ s) else None.

(** The end of [addReply], for an sds encoded object. *)
Definition add_encoded (h : heap) (r : hreply) (a : positive) : cres (heap * hreply) :=
  v ← object h a;
  match to_buffer (hr_buf r) (hr_list r) (obj_sds v) with
  | Some b => mret (h, mkHReply b (hr_list r))
  | None => '(h, l) ← addReplyObjectToList h (hr_list r) a; mret (h, mkHReply (hr_buf r) l)
  end.

Definition h_addReply (h : heap) (r : hreply) (a : positive) : cres (heap * hreply) :=
  v ← object h a;
  match v with
  | OBJ_INT n =>
      if bool_decide (hr_list r = []) && (32 <=? PREZ_REPLY_CHUNK_BYTES - Z.of_nat (length (hr_buf r)))
      then mret (h, mkHReply (hr_buf r ++ ll2text 32 n) (hr_list r))
      else
        let '(dec, h) := createObject h (createStringObject (ll2text 32 n)) in
        '(h, r) ← add_encoded h r dec;
        h ← decrRefCount h dec;
        mret (h, r)
  | _ => add_encoded h r a
  end.

Definition h_addReplyString (h : heap) (r : hreply) (s : bytes) : cres (heap * hreply) :=
  match to_buffer (hr_buf r) (hr_list r) s with
  | Some b => mret (h, mkHReply b (hr_list r))
  | None => '(h, l) ← addReplyNewToList h (hr_list r) (createStringObject s); mret (h, mkHReply (hr_buf r) l)
  end.

(** The shared objects the commands use: OK, the null bulk, CRLF, the syntax error and the
    headers of bulks, in this order. *)
Definition shared_values : list robj :=
  shared_ok :: shared_nullbulk :: shared_crlf :: shared_syntaxerr
  :: ((λ i, OBJ_RAW (36 :: dec (Z.of_nat i) ++ CRLF)) <$> seq 0 (Z.to_nat PREZ_SHARED_BULKHDR_LEN)).

Definition h_addReplyBulk (h : heap) (sh : list positive) (r : hreply) (a : positive) : cres (heap * hreply) :=
  v ← object h a;
  let len := bulk_len v in
  '(h, r) ← (if len <? PREZ_SHARED_BULKHDR_LEN
             then hdr ← of_ptr (sh !! (4 + Z.to_nat len)%nat); h_addReply h r hdr
             else h_addReplyString h r (36 :: ll2text 127 len ++ CRLF));
  '(h, r) ← h_addReply h r a;
  crlf ← of_ptr (sh !! 2%nat);
  h_addReply h r crlf.

(** ** Commands *)

(** A client: its arguments and its replies. *)
Record hclient := mkHClient { hc_argv : list positive; hc_reply : hreply }.

(** [setKey]: [dictReplace] releases the value that was there after it has stored the new one,
    and the count of the new one is raised at the end. *)
Definition h_setKey (h : heap) (db : gmap bytes positive) (key : bytes) (a : positive) : cres (heap * gmap bytes positive) :=
  h ← match db !! key with None => mret h | Some old => decrRefCount h old end;
  h ← incrRefCount h a;
  mret (h, <[key := a]> db).

(** [call] for SET, up to [resetClient]. *)
Definition call_set (h : heap) (sh : list positive) (db : gmap bytes positive) (c : hclient)
    : cres (heap * gmap bytes positive * hclient) :=
  '(h, r) ← (if negb (Z.of_nat (length (hc_argv c)) =? 3)
             then err ← of_ptr (sh !! 3%nat); h_addReply h (hc_reply c) err
             else mret (h, hc_reply c));
  k ← of_ptr (hc_argv c !! 1%nat); a ← of_ptr (hc_argv c !! 2%nat);
  key ← object h k;
  '(h, db) ← h_setKey h db (obj_sds key) a;
  ok ← of_ptr (sh !! 0%nat);
  '(h, r) ← h_addReply h r ok;
  h ← decr_all h (hc_argv c);
  mret (h, db, mkHClient [] r).

(** [call] for GET. *)
Definition call_get (h : heap) (sh : list positive) (db : gmap bytes positive) (c : hclient) : cres (heap * hclient) :=
  k ← of_ptr (hc_argv c !! 1%nat);
  key ← object h k;
  '(h, r) ← match db !! obj_sds key with
            | None => null ← of_ptr (sh !! 1%nat); h_addReply h (hc_reply c) null
            | Some a => h_addReplyBulk h sh (hc_reply c) a
            end;
  h ← decr_all h (hc_argv c);
  mret (h, mkHClient [] r).

(** The parser makes an object for every argument. *)
Fixpoint create_all (h : heap) (vs : list robj) : list positive * heap :=
  match vs with
  | [] => ([], h)
  | v :: vs => let '(a, h) := createObject h v in let '(l, h) := create_all h vs in (a :: l, h)
  end.

(** [logApply] for SET without a client: the words become objects, and are released.  There is
    no object for an empty word. *)
Definition h_apply_set (h : heap) (db : gmap bytes positive) (words : list bytes) : cres (heap * gmap bytes positive) :=
  _ ← require (forallb (λ w, negb (bool_decide (w = []))) words);
  let '(l, h) := create_all h (OBJ_RAW <$> words) in
  k ← of_ptr (l !! 1%nat); a ← of_ptr (l !! 2%nat);
  key ← object h k;
  '(h, db) ← h_setKey h db (obj_sds key) a;
  h ← decr_all h l;
  mret (h, db).

(** [sendReplyToClient]: the buffer and [n] objects were sent. *)
Definition sent_nodes (h : heap) (r : hreply) (n : nat) : cres (heap * hreply) :=
  h ← decr_all h (take n (hr_list r));
  mret (h, mkHReply [] (drop n (hr_list r))).

(** ** The server as far as objects go *)

Record hstate := mkHState {
  hs_heap : heap;
  hs_shared : list positive;
  hs_db : gmap bytes positive;
  hs_clients : gmap Z hclient;
}.

(** What happens to objects: a client connects, has a request parsed, runs SET or GET, an entry
    of the log is applied, replies are sent, a client is freed. *)
Inductive oevent :=
  | OConnect (c : Z)
  | OArgs (c : Z) (words : list bytes)
  | OSet (c : Z)
  | OGet (c : Z)
  | OApply (words : list bytes)
  | OSent (c : Z) (n : nat)
  | OFree (c : Z).

(** [freeClient]: [listRelease(c->reply); freeClientArgv(c)]. *)
Definition free_objects (h : heap) (c : hclient) : cres heap :=
  h ← decr_all h (hr_list (hc_reply c)); decr_all h (hc_argv c).

Definition run_oevent (s : hstate) (e : oevent) : cres hstate :=
  let '(mkHState h sh db cs) := s in
  match e with
  | OConnect i => mret (mkHState h sh db (<[i := mkHClient [] (mkHReply [] [])]> cs))
  | OArgs i words =>
      c ← of_ptr (cs !! i);
      let '(l, h) := create_all h (createStringObject <$> words) in
      mret (mkHState h sh db (<[i := mkHClient l (hc_reply c)]> cs))
  | OSet i =>
      c ← of_ptr (cs !! i);
      '(h, db, c) ← call_set h sh db c;
      mret (mkHState h sh db (<[i := c]> cs))
  | OGet i =>
      c ← of_ptr (cs !! i);
      '(h, c) ← call_get h sh db c;
      mret (mkHState h sh db (<[i := c]> cs))
  | OApply words => '(h, db) ← h_apply_set h db words; mret (mkHState h sh db cs)
  | OSent i n =>
      c ← of_ptr (cs !! i);
      '(h, r) ← sent_nodes h (hc_reply c) n;
      mret (mkHState h sh db (<[i := mkHClient (hc_argv c) r]> cs))
  | OFree i =>
      c ← of_ptr (cs !! i);
      h ← free_objects h c;
      mret (mkHState h sh db (delete i cs))
  end.

Fixpoint run_oevents (s : hstate) (es : list oevent) : cres hstate :=
  match es with [] => mret s | e :: es => s ← run_oevent s e; run_oevents s es end.

(** [createSharedObjects] *)
Definition start_objects : hstate :=
  let '(sh, h) := create_all ∅ shared_values in mkHState h sh ∅ ∅.
