(* ===== verification/RefsFacts.v ===== *)
(** * object.c: reference counts are exact

    The invariant of the heap of [Refs]: the count of every object is the number of pointers to
    it that arguments, data set, replies and shared objects hold.  Every step keeps it, never
    uses a freed object, and shows the clients and the data set the values they would have if
    objects were not shared at all. *)

From Stdlib Require Import ZArith Lia.
From stdpp Require Import base tactics numbers list gmap gmultiset strings.
From S2P Require Import Prelude Util Object Client Refs.

Local Open Scope Z_scope.

(** ** Counting *)

Abbreviation refs := (gmultiset positive).
Abbreviation lrefs := (list_to_set_disj (C := gmultiset positive)).

(** [R] are the pointers that are held. *)
Definition counted (h : heap) (R : refs) : Prop := forall a,
  match h !! a with
  | Some o => refcount o = Z.of_nat (multiplicity a R) /\ 0 < refcount o
  | None => multiplicity a R = 0%nat
  end.

Definition val (h : heap) (a : positive) : option robj := value <$> h !! a.

(** What the pointers in [R] lead to is the same. *)
Definition keeps (h h' : heap) (R : refs) : Prop := forall a, a ∈ R -> val h' a = val h a.

Lemma keeps_trans h1 h2 h3 R : keeps h1 h2 R -> keeps h2 h3 R -> keeps h1 h3 R.
Proof. intros H1 H2 a Ha. by rewrite H2, H1. Qed.

Lemma keeps_sub h h' R R' : R' ⊆ R -> keeps h h' R -> keeps h h' R'.
Proof. intros Hs H a Ha. apply H. multiset_solver. Qed.

Lemma counted_held h R a : counted h R -> a ∈ R -> exists o, h !! a = Some o /\ refcount o = Z.of_nat (multiplicity a R).
Proof.
  intros H Ha. rewrite elem_of_multiplicity in Ha. specialize (H a). destruct (h !! a) as [o|]; [|lia]. exists o. split; [done|apply H].
Qed.

Lemma multiplicity_size (R : refs) a : (multiplicity a R <= size R)%nat.
Proof.
  assert (multiplicity a R *: {[+ a +]} ⊆ R) as Hs.
  { intros b. rewrite multiplicity_scalar_mul, multiplicity_singleton. case_decide; subst; lia. }
  apply gmultiset_subseteq_size in Hs. rewrite gmultiset_size_scalar_mul, gmultiset_size_singleton in Hs. lia.
Qed.

Lemma create_counted h R v a h' : counted h R -> createObject h v = (a, h') ->
  counted h' ({[+ a +]} ⊎ R) /\ val h' a = Some v /\ a ∉ R /\ (forall b, b <> a -> h' !! b = h !! b).
Proof.
  intros H [= <- <-]. set (a := fresh (dom h)). assert (h !! a = None) as Ha by (apply not_elem_of_dom, is_fresh).
  assert (multiplicity a R = 0%nat) as Hm by (specialize (H a); by rewrite Ha in H).
  split_and!.
  - intros b. rewrite multiplicity_disj_union, multiplicity_singleton. destruct (decide (b = a)) as [->|Hne].
    + rewrite lookup_insert_eq. cbn. lia.
    + rewrite lookup_insert_ne by done. specialize (H b). destruct (h !! b); lia.
  - unfold val. by rewrite lookup_insert_eq.
  - rewrite elem_of_multiplicity. lia.
  - intros b Hb. by apply lookup_insert_ne.
Qed.

Lemma incr_counted h R a : counted h R -> a ∈ R -> Z.of_nat (size R) < 2 ^ 31 - 1 ->
  exists h', incrRefCount h a = Ret h' /\ counted h' ({[+ a +]} ⊎ R) /\ (forall b, val h' b = val h b).
Proof.
  intros H Ha Hs. destruct (counted_held h R a H Ha) as (o & E & Ec). pose proof (multiplicity_size R a) as Hm.
  unfold incrRefCount. rewrite E. cbn [of_ptr mbind cres_bind]. rewrite (proj2 (Z.ltb_lt _ _)) by lia. cbn [require mbind cres_bind].
  eexists. split; [done|]. split.
  - intros b. rewrite multiplicity_disj_union, multiplicity_singleton. destruct (decide (b = a)) as [->|Hne].
    + rewrite lookup_insert_eq. specialize (H a). rewrite E in H. cbn. lia.
    + rewrite lookup_insert_ne by done. specialize (H b). destruct (h !! b); lia.
  - intros b. unfold val. destruct (decide (b = a)) as [->|Hne]; [by rewrite lookup_insert_eq, E|by rewrite lookup_insert_ne].
Qed.

Lemma decr_counted h R a : counted h ({[+ a +]} ⊎ R) ->
  exists h', decrRefCount h a = Ret h' /\ counted h' R /\ keeps h h' R.
Proof.
  intros H. destruct (counted_held h _ a H ltac:(multiset_solver)) as (o & E & Ec).
  assert (multiplicity a ({[+ a +]} ⊎ R) = S (multiplicity a R)) as Hm by (by rewrite multiplicity_disj_union, multiplicity_singleton, decide_True).
  rewrite Hm in Ec. unfold decrRefCount. rewrite E. cbn [of_ptr mbind cres_bind]. rewrite (proj2 (Z.leb_gt _ _)) by lia.
  assert (forall b, b <> a -> match h !! b with Some o => refcount o = Z.of_nat (multiplicity b R) /\ 0 < refcount o | None => multiplicity b R = 0%nat end) as Ho.
  { intros b Hb. specialize (H b). rewrite multiplicity_disj_union, multiplicity_singleton, decide_False in H by done. done. }
  destruct (Z.eqb_spec (refcount o) 1) as [E1|E1]; (eexists; split; [done|]); split.
  - intros b. destruct (decide (b = a)) as [->|Hne]; [rewrite lookup_delete_eq; lia|rewrite lookup_delete_ne by done; by apply Ho].
  - intros b Hb. rewrite elem_of_multiplicity in Hb. unfold val. rewrite lookup_delete_ne; [done|]. intros <-. lia.
  - intros b. destruct (decide (b = a)) as [->|Hne]; [rewrite lookup_insert_eq; cbn; lia|rewrite lookup_insert_ne by done; by apply Ho].
  - intros b _. unfold val. destruct (decide (b = a)) as [->|Hne]; [by rewrite lookup_insert_eq, E|by rewrite lookup_insert_ne].
Qed.

Lemma decr_all_counted l : forall h R, counted h (lrefs l ⊎ R) ->
  exists h', decr_all h l = Ret h' /\ counted h' R /\ keeps h h' R.
Proof.
  induction l as [|a l IH]; intros h R H; cbn [decr_all].
  { exists h. rewrite list_to_set_disj_nil, left_id_L in H by apply _. by split_and!. }
  rewrite list_to_set_disj_cons, <- (assoc_L _) in H. destruct (decr_counted h _ a H) as (h1 & -> & H1 & K1). cbn [mbind cres_bind].
  destruct (IH h1 R H1) as (h2 & -> & H2 & K2). exists h2. split_and!; [done|done|]. eapply keeps_trans; [|exact K2]. eapply keeps_sub; [|exact K1]. multiset_solver.
Qed.

(** ** What a list of pointers shows *)

Definition shows (h : heap) (l : list positive) (vs : list robj) : Prop := Forall2 (λ a v, val h a = Some v) l vs.

Lemma shows_keeps h h' l vs R : keeps h h' R -> lrefs l ⊆ R -> shows h l vs -> shows h' l vs.
Proof.
  intros K Hs H. induction H as [|a v l vs Ha _ IH]; constructor.
  - rewrite K; [done|]. rewrite list_to_set_disj_cons in Hs. multiset_solver.
  - apply IH. rewrite list_to_set_disj_cons in Hs. multiset_solver.
Qed.

Lemma shows_same h h' l vs : (forall a, val h' a = val h a) -> shows h l vs -> shows h' l vs.
Proof. intros E H. induction H; constructor; [by rewrite E|done]. Qed.

Lemma object_val h a v : val h a = Some v -> object h a = Ret v.
Proof. unfold val, object. destruct (h !! a) as [o|]; [|done]. by intros [= <-]. Qed.

Lemma create_all_counted vs : forall h R l h', counted h R -> create_all h vs = (l, h') ->
  counted h' (lrefs l ⊎ R) /\ shows h' l vs /\ keeps h h' R.
Proof.
  induction vs as [|v vs IH]; intros h R l h' H; cbn [create_all].
  { intros [= <- <-]. split_and!; [by rewrite list_to_set_disj_nil, left_id_L by apply _|constructor|done]. }
  destruct (createObject h v) as [a h1] eqn:E1. destruct (create_all h1 vs) as [l2 h2] eqn:E2. intros [= <- <-].
  destruct (create_counted h R v a h1 H E1) as (H1 & V1 & Ha & K1). destruct (IH h1 _ l2 h2 H1 E2) as (H2 & S2 & K2). split_and!.
  - rewrite list_to_set_disj_cons. replace (({[+ a +]} ⊎ lrefs l2) ⊎ R) with (lrefs l2 ⊎ ({[+ a +]} ⊎ R)) by multiset_solver. done.
  - constructor; [|done]. rewrite K2; [done|]. multiset_solver.
  - intros b Hb. rewrite K2 by multiset_solver. unfold val. rewrite K1; [done|]. by intros ->.
Qed.

(** ** Reply lists *)

Lemma lrefs_snoc l a : lrefs (l ++ [a]) = {[+ a +]} ⊎ lrefs l.
Proof. rewrite list_to_set_disj_app, list_to_set_disj_cons, list_to_set_disj_nil. multiset_solver. Qed.

Lemma shows_snoc h l a vs v : shows h (l ++ [a]) (vs ++ [v]) <-> shows h l vs /\ val h a = Some v.
Proof.
  unfold shows. split.
  - intros H. apply Forall2_app_inv in H as [H1 H2]; [by inversion H2|]. pose proof (Forall2_length _ _ _ H) as Hl. rewrite !length_app in Hl. cbn in Hl. lia.
  - intros [H1 H2]. apply Forall2_app; [done|]. by repeat constructor.
Qed.

(** After [dupLastObjectIfNeeded] nobody else holds the last object. *)
Lemma dup_last_spec h l cur F : counted h (lrefs (l ++ [cur]) ⊎ F) -> is_Some (val h cur) ->
  exists h' t, dupLastObjectIfNeeded h (l ++ [cur]) = Ret (h', l ++ [t]) /\ counted h' (lrefs (l ++ [t]) ⊎ F)
    /\ t ∉ lrefs l ⊎ F /\ val h' t = val h cur /\ keeps h h' (lrefs l ⊎ F).
Proof.
  intros H [v Hv]. unfold dupLastObjectIfNeeded. rewrite last_snoc.
  assert (cur ∈ lrefs (l ++ [cur]) ⊎ F) as Hin by (rewrite lrefs_snoc; multiset_solver).
  destruct (counted_held h _ cur H Hin) as (o & E & Ec). rewrite E. cbn [of_ptr mbind cres_bind].
  assert (multiplicity cur (lrefs (l ++ [cur]) ⊎ F) = S (multiplicity cur (lrefs l ⊎ F))) as Hm.
  { rewrite lrefs_snoc, !multiplicity_disj_union, multiplicity_singleton, decide_True by done. lia. }
  rewrite Hm in Ec. destruct (Z.ltb_spec 1 (refcount o)) as [H1|H1].
  - unfold dupStringObject. rewrite (object_val _ _ _ Hv). cbn [mbind cres_bind mret cres_ret].
    destruct (createObject h v) as [t h1] eqn:E1. destruct (create_counted h _ v t h1 H E1) as (C1 & V1 & T1 & K1).
    replace ({[+ t +]} ⊎ (lrefs (l ++ [cur]) ⊎ F)) with ({[+ cur +]} ⊎ (lrefs (l ++ [t]) ⊎ F)) in C1 by (rewrite !lrefs_snoc; multiset_solver).
    destruct (decr_counted h1 _ cur C1) as (h2 & -> & C2 & K2). cbn [mbind cres_bind]. rewrite removelast_last. exists h2, t. split_and!; try done.
    + rewrite lrefs_snoc in T1. multiset_solver.
    + rewrite K2 by (rewrite lrefs_snoc; multiset_solver). congruence.
    + intros b Hb. rewrite K2 by (rewrite lrefs_snoc; multiset_solver). unfold val. rewrite K1; [done|]. intros ->. apply T1. rewrite lrefs_snoc. multiset_solver.
  - exists h, cur. split_and!; try done. rewrite elem_of_multiplicity. lia.
Qed.

Lemma cat_tail_spec h l t F v s : counted h (lrefs (l ++ [t]) ⊎ F) -> t ∉ lrefs l ⊎ F -> val h t = Some v ->
  exists h', cat_tail h (l ++ [t]) s = Ret h' /\ counted h' (lrefs (l ++ [t]) ⊎ F) /\ val h' t = Some (OBJ_RAW (obj_sds v ++ s))
    /\ keeps h h' (lrefs l ⊎ F).
Proof.
  intros H Ht Hv. unfold cat_tail. rewrite last_snoc. cbn [of_ptr mbind cres_bind]. unfold val in Hv. destruct (h !! t) as [o|] eqn:E; [|done].
  injection Hv as <-. cbn [of_ptr mbind cres_bind]. eexists. split; [done|]. split_and!.
  - intros b. specialize (H b). destruct (decide (b = t)) as [->|Hne]; [rewrite lookup_insert_eq; by rewrite E in H|by rewrite lookup_insert_ne].
  - unfold val. by rewrite lookup_insert_eq.
  - intros b Hb. unfold val. rewrite lookup_insert_ne; [done|]. by intros ->.
Qed.

(** The same on values. *)
Definition list_add (vs : list robj) (v : robj) : list robj :=
  match last vs with
  | Some t => if joins t (obj_sds v) then removelast vs ++ [OBJ_RAW (obj_sds t ++ obj_sds v)] else vs ++ [v]
  | None => vs ++ [v]
  end.

(** Whether the text joins the last object. *)
Lemma tail_joins_spec h l vs s : shows h l vs ->
  tail_joins h l s = Ret (match last vs with Some t => joins t s | None => false end).
Proof.
  intros H. unfold tail_joins. destruct l as [|a l _] using rev_ind; destruct vs as [|v vs _] using rev_ind.
  - done.
  - apply Forall2_length in H. rewrite length_app in H. cbn in H. lia.
  - apply Forall2_length in H. rewrite length_app in H. cbn in H. lia.
  - apply shows_snoc in H as [_ Hv]. rewrite !last_snoc. by rewrite (object_val _ _ _ Hv).
Qed.

(** The text of the last object grows. *)
Lemma joined_spec h l vs t F s : counted h (lrefs l ⊎ F) -> shows h l vs -> last vs = Some t ->
  exists h1 l1, dupLastObjectIfNeeded h l = Ret (h1, l1) /\ keeps h h1 F /\
    exists h2, cat_tail h1 l1 s = Ret h2 /\ counted h2 (lrefs l1 ⊎ F) /\ shows h2 l1 (removelast vs ++ [OBJ_RAW (obj_sds t ++ s)])
      /\ keeps h h2 F /\ length l1 = length l.
Proof.
  intros H Hs (vs' & ->)%last_Some. destruct l as [|cur l _] using rev_ind; [inversion Hs; by destruct vs'|]. apply shows_snoc in Hs as [Hs Hv].
  destruct (dup_last_spec h l cur F H ltac:(by rewrite Hv)) as (h1 & a & E1 & C1 & N1 & V1 & K1). rewrite Hv in V1.
  destruct (cat_tail_spec h1 l a F t s C1 N1 V1) as (h2 & E2 & C2 & V2 & K2).
  exists h1, (l ++ [a]). split; [done|]. split; [eapply keeps_sub; [|exact K1]; multiset_solver|]. exists h2. rewrite removelast_last.
  assert (keeps h h2 (lrefs l ⊎ F)) as K by (by eapply keeps_trans). split_and!; [done|done| | |by rewrite !length_app].
  - apply shows_snoc. split; [|done]. eapply shows_keeps; [exact K|multiset_solver|done].
  - eapply keeps_sub; [|exact K]. multiset_solver.
Qed.

(** The bound on counts: an int holds the number of all pointers. *)
Definition few (n : nat) : Prop := Z.of_nat n < 2 ^ 31 - 1.

Lemma addObject_spec h l vs F a v : counted h (lrefs l ⊎ F) -> shows h l vs -> a ∈ F -> val h a = Some v -> few (size (lrefs l ⊎ F)) ->
  exists h' l', addReplyObjectToList h l a = Ret (h', l') /\ counted h' (lrefs l' ⊎ F) /\ shows h' l' (list_add vs v) /\ keeps h h' F
    /\ (length l' <= S (length l))%nat.
Proof.
  intros H Hs Ha Hv Hf. unfold addReplyObjectToList, list_add. rewrite (object_val _ _ _ Hv). cbn [mbind cres_bind].
  rewrite (tail_joins_spec h l vs (obj_sds v) Hs). cbn [mbind cres_bind].
  assert (exists h' l', (h ← incrRefCount h a; mret (h, l ++ [a])) = Ret (h', l') /\ counted h' (lrefs l' ⊎ F) /\ shows h' l' (vs ++ [v])
    /\ keeps h h' F /\ (length l' <= S (length l))%nat) as Hpush.
  { destruct (incr_counted h (lrefs l ⊎ F) a H ltac:(multiset_solver) Hf) as (h' & -> & C & E). exists h', (l ++ [a]). split; [done|].
    split_and!; [|apply shows_snoc; split; [by eapply shows_same|by rewrite E]|intros b _; apply E|rewrite length_app; cbn; lia].
    rewrite lrefs_snoc. replace ({[+ a +]} ⊎ lrefs l ⊎ F) with ({[+ a +]} ⊎ (lrefs l ⊎ F)) by multiset_solver. done. }
  destruct (last vs) as [t|] eqn:El; [|done]. destruct (joins t (obj_sds v)); [|done].
  destruct (joined_spec h l vs t F (obj_sds v) H Hs El) as (h1 & l1 & -> & K1 & h2 & E2 & C2 & S2 & K2 & L2). cbn [mbind cres_bind].
  rewrite (object_val h1 a v) by (by rewrite K1). cbn [mbind cres_bind]. rewrite E2. cbn [mbind cres_bind]. exists h2, l1. split_and!; try done. lia.
Qed.

Lemma addNew_spec h l vs F v : counted h (lrefs l ⊎ F) -> shows h l vs ->
  exists h' l', addReplyNewToList h l v = Ret (h', l') /\ counted h' (lrefs l' ⊎ F) /\ shows h' l' (list_add vs v) /\ keeps h h' F
    /\ (length l' <= S (length l))%nat.
Proof.
  intros H Hs. unfold addReplyNewToList, list_add. rewrite (tail_joins_spec h l vs (obj_sds v) Hs). cbn [mbind cres_bind].
  assert (exists h' l', (let '(a, h) := createObject h v in mret (h, l ++ [a])) = Ret (h', l') /\ counted h' (lrefs l' ⊎ F) /\ shows h' l' (vs ++ [v])
    /\ keeps h h' F /\ (length l' <= S (length l))%nat) as Hpush.
  { destruct (createObject h v) as [a h'] eqn:E. destruct (create_counted h _ v a h' H E) as (C & V & N & K). exists h', (l ++ [a]). split; [done|].
    assert (keeps h h' (lrefs l ⊎ F)) as K' by (intros b Hb; unfold val; rewrite K; [done|by intros ->]).
    split_and!; [|apply shows_snoc; split; [eapply shows_keeps; [exact K'|multiset_solver|done]|done]|eapply keeps_sub; [|exact K']; multiset_solver|rewrite length_app; cbn; lia].
    rewrite lrefs_snoc. replace ({[+ a +]} ⊎ lrefs l ⊎ F) with ({[+ a +]} ⊎ (lrefs l ⊎ F)) by multiset_solver. done. }
  destruct (last vs) as [t|] eqn:El; [|done]. destruct (joins t (obj_sds v)); [|done].
  destruct (joined_spec h l vs t F (obj_sds v) H Hs El) as (h1 & l1 & -> & K1 & h2 & E2 & C2 & S2 & K2 & L2). cbn [mbind cres_bind].
  rewrite E2. cbn [mbind cres_bind]. exists h2, l1. split_and!; try done. lia.
Qed.

(** ** Replies *)

(** The replies of a client as values. *)
Record vreply := mkVReply { vr_buf : bytes; vr_list : list robj }.

Definition v_put (r : vreply) (v : robj) : vreply :=
  match to_buffer (vr_buf r) (vr_list r) (obj_sds v) with
  | Some b => mkVReply b (vr_list r)
  | None => mkVReply (vr_buf r) (list_add (vr_list r) v)
  end.

Definition v_addReply (r : vreply) (v : robj) : vreply :=
  match v with
  | OBJ_INT n =>
      if bool_decide (vr_list r = []) && (32 <=? PREZ_REPLY_CHUNK_BYTES - Z.of_nat (length (vr_buf r)))
      then mkVReply (vr_buf r ++ ll2text 32 n) (vr_list r)
      else v_put r (createStringObject (ll2text 32 n))
  | _ => v_put r v
  end.

Definition v_addReplyBulk (r : vreply) (v : robj) : vreply :=
  let len := bulk_len v in
  let r := if len <? PREZ_SHARED_BULKHDR_LEN then v_addReply r (OBJ_RAW (36 :: dec len ++ CRLF))
           else v_put r (createStringObject (36 :: ll2text 127 len ++ CRLF)) in
  v_addReply (v_addReply r v) shared_crlf.

Record sees_reply (h : heap) (r : hreply) (vr : vreply) : Prop := {
  sr_buf : hr_buf r = vr_buf vr;
  sr_list : shows h (hr_list r) (vr_list vr);
}.

(** [r'] is [r] after an addition: [vr'] are its values, and what [F] holds is the same. *)
Record replied_to (h : heap) (r : hreply) (F : refs) (h' : heap) (r' : hreply) (vr' : vreply) (k : nat) : Prop := {
  rt_counted : counted h' (lrefs (hr_list r') ⊎ F);
  rt_sees : sees_reply h' r' vr';
  rt_keeps : keeps h h' F;
  rt_size : (length (hr_list r') <= k + length (hr_list r))%nat;
}.

Lemma same_empty h l vs : shows h l vs -> bool_decide (l = []) = bool_decide (vs = []).
Proof. intros H. destruct H; [done|]. by rewrite !bool_decide_eq_false_2. Qed.

Lemma to_buffer_same h l vs b s : shows h l vs -> to_buffer b l s = to_buffer b vs s.
Proof. intros H. unfold to_buffer. by rewrite (same_empty h l vs H). Qed.

Lemma size_lrefs l : size (lrefs l) = length l.
Proof.
  induction l as [|a l IH]; [by rewrite list_to_set_disj_nil, gmultiset_size_empty|].
  by rewrite list_to_set_disj_cons, gmultiset_size_disj_union, gmultiset_size_singleton, IH.
Qed.

Lemma add_encoded_spec h r vr F a v : counted h (lrefs (hr_list r) ⊎ F) -> sees_reply h r vr -> a ∈ F -> val h a = Some v ->
  few (length (hr_list r) + size F) ->
  exists h' r', add_encoded h r a = Ret (h', r') /\ replied_to h r F h' r' (v_put vr v) 1.
Proof.
  intros H [Eb Hs] Ha Hv Hf. unfold add_encoded, v_put. rewrite (object_val _ _ _ Hv). cbn [mbind cres_bind].
  rewrite (to_buffer_same h _ _ _ _ Hs), Eb. destruct (to_buffer _ _ _) as [b|].
  - eexists h, _. split; [done|]. constructor; cbn; try done. lia.
  - destruct (addObject_spec h (hr_list r) (vr_list vr) F a v H Hs Ha Hv) as (h' & l' & -> & C & S & K & L).
    { unfold few in *. rewrite gmultiset_size_disj_union, size_lrefs. lia. }
    cbn [mbind cres_bind]. eexists h', _. split; [done|]. constructor; cbn; try done.
Qed.

Lemma h_addReplyString_spec h r vr F s : counted h (lrefs (hr_list r) ⊎ F) -> sees_reply h r vr ->
  exists h' r', h_addReplyString h r s = Ret (h', r') /\ replied_to h r F h' r' (v_put vr (createStringObject s)) 1.
Proof.
  intros H [Eb Hs]. unfold h_addReplyString, v_put. rewrite obj_sds_create, (to_buffer_same h _ _ _ _ Hs), Eb. destruct (to_buffer _ _ _) as [b|].
  - eexists h, _. split; [done|]. constructor; cbn; try done. lia.
  - destruct (addNew_spec h (hr_list r) (vr_list vr) F (createStringObject s) H Hs) as (h' & l' & -> & C & S & K & L).
    cbn [mbind cres_bind]. eexists h', _. split; [done|]. constructor; cbn; try done.
Qed.

Lemma h_addReply_spec h r vr F a v : counted h (lrefs (hr_list r) ⊎ F) -> sees_reply h r vr -> a ∈ F -> val h a = Some v ->
  few (S (length (hr_list r) + size F)) ->
  exists h' r', h_addReply h r a = Ret (h', r') /\ replied_to h r F h' r' (v_addReply vr v) 1.
Proof.
  intros H Hs Ha Hv Hf. unfold h_addReply. rewrite (object_val _ _ _ Hv). cbn [mbind cres_bind].
  destruct v as [s|s|n]; [apply add_encoded_spec; try done; unfold few in *; lia..|]. cbn [v_addReply]. destruct Hs as [Eb Hs].
  rewrite (same_empty h _ _ Hs), Eb. destruct (_ && _); [eexists h, _; split; [done|]; constructor; cbn; try done; lia|].
  destruct (createObject h _) as [d h1] eqn:E1. destruct (create_counted h _ _ d h1 H E1) as (C1 & V1 & N1 & K1).
  assert (keeps h h1 (lrefs (hr_list r) ⊎ F)) as K1' by (intros b Hb; unfold val; rewrite K1; [done|by intros ->]).
  replace ({[+ d +]} ⊎ (lrefs (hr_list r) ⊎ F)) with (lrefs (hr_list r) ⊎ ({[+ d +]} ⊎ F)) in C1 by multiset_solver.
  destruct (add_encoded_spec h1 r vr ({[+ d +]} ⊎ F) d (createStringObject (ll2text 32 n)) C1) as (h2 & r2 & E2 & [C2 S2 K2 L2]); [|multiset_solver|exact V1| |].
  { constructor; [done|]. eapply shows_keeps; [exact K1'|multiset_solver|done]. }
  { unfold few in *. rewrite gmultiset_size_disj_union, gmultiset_size_singleton. lia. }
  rewrite E2. cbn [mbind cres_bind]. replace (lrefs (hr_list r2) ⊎ ({[+ d +]} ⊎ F)) with ({[+ d +]} ⊎ (lrefs (hr_list r2) ⊎ F)) in C2 by multiset_solver.
  destruct (decr_counted h2 _ d C2) as (h3 & -> & C3 & K3). cbn [mbind cres_bind]. eexists h3, _. split; [done|]. constructor; try done.
  - destruct S2 as [B2 S2]. constructor; [done|]. eapply shows_keeps; [exact K3|multiset_solver|done].
  - intros b Hb. rewrite K3 by multiset_solver. rewrite K2 by multiset_solver. apply K1'. multiset_solver.
Qed.

(** Two additions, one after the other. *)
Lemma replied_trans h r F h1 r1 vr1 k1 h2 r2 vr2 k2 : replied_to h r F h1 r1 vr1 k1 -> replied_to h1 r1 F h2 r2 vr2 k2 ->
  replied_to h r F h2 r2 vr2 (k2 + k1).
Proof. intros [] []. constructor; try done; [by eapply keeps_trans|lia]. Qed.

(** The shared objects. *)
Lemma shows_lookup h l vs i v : shows h l vs -> vs !! i = Some v -> exists a, l !! i = Some a /\ val h a = Some v.
Proof. intros H E. destruct (Forall2_lookup_r _ _ _ _ _ H E) as (a & ? & ?). by exists a. Qed.

Lemma shared_hdr_at i : (i < 32)%nat -> shared_values !! (4 + i)%nat = Some (OBJ_RAW (36 :: dec (Z.of_nat i) ++ CRLF)).
Proof. intros Hi. cbn [Nat.add shared_values lookup list_lookup]. change (((λ i, OBJ_RAW (36 :: dec (Z.of_nat i) ++ CRLF)) <$> seq 0 32) !! i = Some (OBJ_RAW (36 :: dec (Z.of_nat i) ++ CRLF))). rewrite list_lookup_fmap, lookup_seq_lt by done. done. Qed.

Lemma elem_lrefs l i a : l !! i = Some a -> a ∈ lrefs l.
Proof. intros H%list_elem_of_lookup_2. by apply elem_of_list_to_set_disj. Qed.

Lemma h_addReplyBulk_spec h sh r vr F a v : counted h (lrefs (hr_list r) ⊎ F) -> sees_reply h r vr -> a ∈ F -> val h a = Some v ->
  lrefs sh ⊆ F -> shows h sh shared_values -> 0 <= bulk_len v -> few (4 + (length (hr_list r) + size F)) ->
  exists h' r', h_addReplyBulk h sh r a = Ret (h', r') /\ replied_to h r F h' r' (v_addReplyBulk vr v) 3.
Proof.
  intros H Hs Ha Hv Hsh Hss Hlen Hf. unfold h_addReplyBulk, v_addReplyBulk. rewrite (object_val _ _ _ Hv). cbn [mbind cres_bind].
  set (vr1 := (if _ <? _ then v_addReply _ _ else _) : vreply).
  assert (exists h1 r1, (if bulk_len v <? PREZ_SHARED_BULKHDR_LEN then hdr ← of_ptr (sh !! (4 + Z.to_nat (bulk_len v))%nat); h_addReply h r hdr
      else h_addReplyString h r (36 :: ll2text 127 (bulk_len v) ++ CRLF)) = Ret (h1, r1) /\ replied_to h r F h1 r1 vr1 1) as (h1 & r1 & -> & R1).
  { unfold vr1. destruct (Z.ltb_spec (bulk_len v) PREZ_SHARED_BULKHDR_LEN) as [Hlt|]; [|by apply h_addReplyString_spec]. unfold PREZ_SHARED_BULKHDR_LEN in Hlt.
    destruct (shows_lookup h sh shared_values _ _ Hss (shared_hdr_at (Z.to_nat (bulk_len v)) ltac:(lia))) as (hd & Ehd & Hhd).
    pose proof (elem_lrefs _ _ _ Ehd). rewrite Ehd. cbn [of_ptr mbind cres_bind].
    rewrite Z2Nat.id in Hhd by done. apply h_addReply_spec; try done; [multiset_solver|unfold few in *; lia]. }
  cbn [mbind cres_bind]. destruct R1 as [C1 S1 K1 L1].
  destruct (h_addReply_spec h1 r1 vr1 F a v C1 S1 Ha) as (h2 & r2 & -> & [C2 S2 K2 L2]); [by rewrite K1|unfold few in *; lia|]. cbn [mbind cres_bind].
  assert (keeps h h2 F) as K by (by eapply keeps_trans).
  destruct (shows_lookup h2 sh shared_values 2 shared_crlf) as (cr & Ecr & Hcr); [by eapply shows_keeps|done|].
  pose proof (elem_lrefs _ _ _ Ecr). rewrite Ecr. cbn [of_ptr mbind cres_bind].
  destruct (h_addReply_spec h2 r2 _ F cr shared_crlf C2 S2) as (h3 & r3 & -> & [C3 S3 K3 L3]); [multiset_solver|done|unfold few in *; lia|].
  eexists h3, r3. split; [done|]. constructor; try done; [by eapply keeps_trans|lia].
Qed.

(** ** The whole server *)

(** The pointers in a map. *)
Section MapRefs.
Context {I A : Type} `{Countable I} (f : A -> list positive).

Definition mrefs (m : gmap I A) : refs := lrefs (concat (f <$> (map_to_list m).*2)).

Lemma mrefs_empty : mrefs ∅ = ∅.
Proof. unfold mrefs. by rewrite map_to_list_empty. Qed.

Lemma mrefs_delete m i x : m !! i = Some x -> mrefs m = lrefs (f x) ⊎ mrefs (delete i m).
Proof. intros E. unfold mrefs. rewrite <- (map_to_list_delete m i x E). cbn. by rewrite list_to_set_disj_app. Qed.

Lemma mrefs_insert m i x : mrefs (<[i := x]> m) = lrefs (f x) ⊎ mrefs (delete i m).
Proof. rewrite (mrefs_delete _ i x) by apply lookup_insert_eq. by rewrite delete_insert_eq. Qed.

Lemma mrefs_same m i x : m !! i = None -> mrefs (<[i := x]> m) = lrefs (f x) ⊎ mrefs m.
Proof. intros E. by rewrite mrefs_insert, delete_id. Qed.
End MapRefs.

Definition db_refs (db : gmap bytes positive) : refs := mrefs (λ a, [a]) db.
Definition client_refs (c : hclient) : list positive := hc_argv c ++ hr_list (hc_reply c).
Definition clients_refs (cs : gmap Z hclient) : refs := mrefs client_refs cs.

Definition all_refs (s : hstate) : refs := lrefs (hs_shared s) ⊎ db_refs (hs_db s) ⊎ clients_refs (hs_clients s).

(** The state as values. *)
Record vclient := mkVClient { vc_argv : list robj; vc_reply : vreply }.
Record vstate := mkVState { vs_db : gmap bytes robj; vs_clients : gmap Z vclient }.

Record sees_client (h : heap) (c : hclient) (v : vclient) : Prop := {
  sc_argv : shows h (hc_argv c) (vc_argv v);
  sc_reply : sees_reply h (hc_reply c) (vc_reply v);
}.

Definition sees_db (h : heap) (db : gmap bytes positive) (vdb : gmap bytes robj) : Prop :=
  forall k, option_Forall2 (λ a v, val h a = Some v) (db !! k) (vdb !! k).

Definition sees_clients (h : heap) (cs : gmap Z hclient) (vcs : gmap Z vclient) : Prop :=
  forall i, option_Forall2 (sees_client h) (cs !! i) (vcs !! i).

Record good (B : nat) (s : hstate) (v : vstate) : Prop := {
  gd_counted : counted (hs_heap s) (all_refs s);
  gd_shared : shows (hs_heap s) (hs_shared s) shared_values;
  gd_db : sees_db (hs_heap s) (hs_db s) (vs_db v);
  gd_clients : sees_clients (hs_heap s) (hs_clients s) (vs_clients v);
  gd_size : (size (all_refs s) <= B)%nat;
}.

Lemma sees_client_keeps h h' c v R : keeps h h' R -> lrefs (client_refs c) ⊆ R -> sees_client h c v -> sees_client h' c v.
Proof.
  intros K Hs [Ha [Hb Hr]]. unfold client_refs in Hs. rewrite list_to_set_disj_app in Hs.
  constructor; [|constructor; [done|]]; (eapply shows_keeps; [exact K| |done]); multiset_solver.
Qed.

Lemma lrefs_one a : lrefs [a] = {[+ a +]}.
Proof. rewrite list_to_set_disj_cons, list_to_set_disj_nil. multiset_solver. Qed.

Lemma db_elem db k a : db !! k = Some a -> a ∈ db_refs db.
Proof. intros E. unfold db_refs. rewrite (mrefs_delete _ _ _ _ E). cbn beta. rewrite lrefs_one. multiset_solver. Qed.

Lemma sees_db_keeps h h' db vdb R : keeps h h' R -> db_refs db ⊆ R -> sees_db h db vdb -> sees_db h' db vdb.
Proof.
  intros K Hs H k. specialize (H k). destruct (db !! k) as [a|] eqn:E; inversion H; constructor. rewrite K; [done|].
  apply db_elem in E. multiset_solver.
Qed.

Lemma sees_clients_keeps h h' cs vcs R : keeps h h' R -> clients_refs cs ⊆ R -> sees_clients h cs vcs -> sees_clients h' cs vcs.
Proof.
  intros K Hs H i. specialize (H i). destruct (cs !! i) as [c|] eqn:E; inversion H; constructor. eapply sees_client_keeps; [exact K| |done].
  unfold clients_refs in Hs. rewrite (mrefs_delete _ _ _ _ E) in Hs. multiset_solver.
Qed.

Lemma sees_delete h cs vcs i : sees_clients h cs vcs -> sees_clients h (delete i cs) (delete i vcs).
Proof.
  intros H j. destruct (decide (j = i)) as [->|Hne]; [rewrite !lookup_delete_eq; constructor|rewrite !lookup_delete_ne by done; apply H].
Qed.

Lemma sees_insert h cs vcs i c v : sees_client h c v -> sees_clients h (delete i cs) (delete i vcs) ->
  sees_clients h (<[i := c]> cs) (<[i := v]> vcs).
Proof.
  intros Hc H j. destruct (decide (j = i)) as [->|Hne]; [rewrite !lookup_insert_eq; by constructor|].
  rewrite !lookup_insert_ne by done. specialize (H j). by rewrite !lookup_delete_ne in H.
Qed.

(** Storing a value: [a] is held elsewhere. *)
Lemma h_setKey_spec h db vdb R key a v : counted h (db_refs db ⊎ R) -> sees_db h db vdb -> a ∈ R -> val h a = Some v ->
  few (size (db_refs db ⊎ R)) ->
  exists h' db', h_setKey h db key a = Ret (h', db') /\ counted h' (db_refs db' ⊎ R) /\ sees_db h' db' (<[key := v]> vdb) /\ keeps h h' R
    /\ (size (db_refs db') <= S (size (db_refs db)))%nat.
Proof.
  intros H Hs Ha Hv Hf. unfold h_setKey. set (R0 := db_refs (delete key db) ⊎ R).
  assert (exists h1, match db !! key with None => mret h | Some old => decrRefCount h old end = Ret h1 /\ counted h1 R0 /\ keeps h h1 R0
    /\ (size (db_refs (delete key db)) <= size (db_refs db))%nat) as (h1 & -> & C1 & K1 & L1).
  { unfold R0. destruct (db !! key) as [old|] eqn:E.
    - assert (db_refs db = {[+ old +]} ⊎ db_refs (delete key db)) as Ed.
      { unfold db_refs. rewrite (mrefs_delete _ _ _ _ E). cbn beta. by rewrite lrefs_one. }
      rewrite Ed, <- (assoc_L _) in H. destruct (decr_counted h _ old H) as (h1 & -> & ? & ?). exists h1. split_and!; try done.
      rewrite Ed, gmultiset_size_disj_union. lia.
    - exists h. rewrite delete_id by done. by split_and!. }
  cbn [mbind cres_bind]. destruct (incr_counted h1 R0 a C1) as (h2 & -> & C2 & E2); [unfold R0; multiset_solver| |].
  { unfold few, R0 in *. rewrite gmultiset_size_disj_union in *. lia. }
  cbn [mbind cres_bind]. assert (db_refs (<[key := a]> db) = {[+ a +]} ⊎ db_refs (delete key db)) as Ed.
  { unfold db_refs. rewrite mrefs_insert. cbn beta. by rewrite lrefs_one. }
  assert (keeps h h2 R0) as K by (intros b Hb; rewrite E2; by apply K1).
  exists h2, (<[key := a]> db). split_and!; [done| | | |].
  - rewrite Ed, <- (assoc_L _). exact C2.
  - intros k. destruct (decide (k = key)) as [->|Hne].
    + rewrite !lookup_insert_eq. constructor. rewrite K; [done|]. unfold R0. multiset_solver.
    + rewrite !lookup_insert_ne by done. specialize (Hs k). destruct (db !! k) as [b|] eqn:E; inversion Hs; constructor.
      rewrite K; [done|]. unfold R0. assert (b ∈ db_refs (delete key db)) by (apply (db_elem _ k); by rewrite lookup_delete_ne). multiset_solver.
  - eapply keeps_sub; [|exact K]. unfold R0. multiset_solver.
  - rewrite Ed, gmultiset_size_disj_union, gmultiset_size_singleton. lia.
Qed.

(** ** The same steps on values *)

(** SET with more than three arguments reports an error, and goes on. *)
Definition set_arity (n : nat) (r : vreply) : vreply := if negb (Z.of_nat n =? 3) then v_addReply r shared_syntaxerr else r.

Definition v_step (v : vstate) (e : oevent) : option vstate :=
  let '(mkVState db cs) := v in
  match e with
  | OConnect i => match cs !! i with None => Some (mkVState db (<[i := mkVClient [] (mkVReply [] [])]> cs)) | Some _ => None end
  | OArgs i words =>
      match cs !! i with
      | Some (mkVClient [] r) => Some (mkVState db (<[i := mkVClient (createStringObject <$> words) r]> cs))
      | _ => None
      end
  | OSet i =>
      match cs !! i with
      | Some (mkVClient (c :: k :: x :: l) r) =>
          Some (mkVState (<[obj_sds k := x]> db) (<[i := mkVClient [] (v_addReply (set_arity (length (c :: k :: x :: l)) r) shared_ok)]> cs))
      | _ => None
      end
  | OGet i =>
      match cs !! i with
      | Some (mkVClient (_ :: k :: _) r) =>
          Some (mkVState db (<[i := mkVClient [] (match db !! obj_sds k with
                                                 | None => v_addReply r shared_nullbulk
                                                 | Some x => v_addReplyBulk r x
                                                 end)]> cs))
      | _ => None
      end
  | OApply words =>
      match words with
      | _ :: k :: x :: _ => if forallb (λ w, negb (bool_decide (w = []))) words then Some (mkVState (<[k := OBJ_RAW x]> db) cs) else None
      | _ => None
      end
  | OSent i n =>
      match cs !! i with
      | Some (mkVClient a r) => Some (mkVState db (<[i := mkVClient a (mkVReply [] (drop n (vr_list r)))]> cs))
      | None => None
      end
  | OFree i => match cs !! i with Some _ => Some (mkVState db (delete i cs)) | None => None end
  end.

(** How many pointers a step can add, on the way. *)
Definition cost (e : oevent) : nat := match e with OArgs _ words | OApply words => 8 + length words | _ => 8 end.

(** The pointers of everything but the client [i]. *)
Definition rest_refs (s : hstate) (i : Z) : refs := lrefs (hs_shared s) ⊎ db_refs (hs_db s) ⊎ clients_refs (delete i (hs_clients s)).

Lemma all_split s i c : hs_clients s !! i = Some c ->
  all_refs s = lrefs (hc_argv c) ⊎ (lrefs (hr_list (hc_reply c)) ⊎ rest_refs s i).
Proof.
  intros E. unfold all_refs, rest_refs, clients_refs. rewrite (mrefs_delete _ _ _ _ E). unfold client_refs at 1.
  rewrite list_to_set_disj_app. multiset_solver.
Qed.

(** The state after a step of the client [i]. *)
Lemma good_make B s v i c' vc' h' db' vdb' :
  counted h' (lrefs (client_refs c') ⊎ (lrefs (hs_shared s) ⊎ db_refs db' ⊎ clients_refs (delete i (hs_clients s)))) ->
  shows h' (hs_shared s) shared_values -> sees_db h' db' vdb' -> sees_client h' c' vc' ->
  sees_clients h' (delete i (hs_clients s)) (delete i (vs_clients v)) ->
  (length (client_refs c') + size (lrefs (hs_shared s) ⊎ db_refs db' ⊎ clients_refs (delete i (hs_clients s))) <= B)%nat ->
  good B (mkHState h' (hs_shared s) db' (<[i := c']> (hs_clients s))) (mkVState vdb' (<[i := vc']> (vs_clients v))).
Proof.
  intros C Hsh Hdb Hc Hcl Hsz. set (G := lrefs (hs_shared s) ⊎ db_refs db' ⊎ clients_refs (delete i (hs_clients s))) in *.
  assert (all_refs (mkHState h' (hs_shared s) db' (<[i := c']> (hs_clients s))) = lrefs (client_refs c') ⊎ G) as E.
  { unfold all_refs, clients_refs, G. cbn [hs_shared hs_db hs_clients]. rewrite mrefs_insert. unfold clients_refs. multiset_solver. }
  constructor; rewrite ?E; cbn [hs_heap hs_shared hs_db hs_clients vs_db vs_clients]; try done; [by apply sees_insert|].
  rewrite gmultiset_size_disj_union, size_lrefs. done.
Qed.

(** The client [i] of a good state. *)
Lemma good_client B s v i c vc : good B s v -> hs_clients s !! i = Some c -> vs_clients v !! i = Some vc ->
  sees_client (hs_heap s) c vc /\ counted (hs_heap s) (lrefs (hc_argv c) ⊎ (lrefs (hr_list (hc_reply c)) ⊎ rest_refs s i))
  /\ (length (client_refs c) + size (rest_refs s i) <= B)%nat.
Proof.
  intros [Hc _ _ Hcl Hsz] Ei Ev. rewrite (all_split s i c Ei) in Hc, Hsz. split_and!; [|done|].
  - specialize (Hcl i). rewrite Ei, Ev in Hcl. by inversion Hcl.
  - unfold client_refs. rewrite length_app. rewrite !gmultiset_size_disj_union, !size_lrefs in Hsz. lia.
Qed.

(** What the rest of the state holds is the same. *)
Lemma rest_keeps B s v i h' : good B s v -> keeps (hs_heap s) h' (rest_refs s i) ->
  shows h' (hs_shared s) shared_values /\ sees_db h' (hs_db s) (vs_db v) /\ sees_clients h' (delete i (hs_clients s)) (delete i (vs_clients v)).
Proof.
  intros [_ Hsh Hdb Hcl _] K. unfold rest_refs in K. split_and!.
  - eapply shows_keeps; [exact K|multiset_solver|done].
  - eapply sees_db_keeps; [exact K|multiset_solver|done].
  - eapply sees_clients_keeps; [exact K|multiset_solver|]. by apply sees_delete.
Qed.

Lemma seen B s v i vc : good B s v -> vs_clients v !! i = Some vc -> exists c, hs_clients s !! i = Some c.
Proof. intros H E. pose proof (gd_clients _ _ _ H i) as Hi. rewrite E in Hi. inversion Hi. by eexists. Qed.

Lemma count_digits_ge fuel : forall n len, len <= count_digits fuel n len.
Proof. induction fuel as [|fuel IH]; intros n len; cbn [count_digits]; destruct (_ =? 0); try lia. specialize (IH (Z.quot n 10) (len + 1)). lia. Qed.

Lemma bulk_len_nonneg v : 0 <= bulk_len v.
Proof. destruct v as [s|s|n]; cbn [bulk_len]; [lia..|]. destruct (n <? 0); [pose proof (count_digits_ge 20 (wrap_s64 (- n)) 2)|pose proof (count_digits_ge 20 n 1)]; lia. Qed.

(** One step of each kind. *)
Lemma connect_ok B s v i : good B s v -> vs_clients v !! i = None ->
  good B (mkHState (hs_heap s) (hs_shared s) (hs_db s) (<[i := mkHClient [] (mkHReply [] [])]> (hs_clients s)))
    (mkVState (vs_db v) (<[i := mkVClient [] (mkVReply [] [])]> (vs_clients v))).
Proof.
  intros H E. pose proof (gd_clients _ _ _ H i) as Hi. rewrite E in Hi. inversion Hi as [|Hn]. symmetry in Hn.
  assert (rest_refs s i = all_refs s) as Er by (unfold rest_refs, all_refs; by rewrite delete_id).
  destruct (rest_keeps B s v i (hs_heap s) H ltac:(done)) as (H1 & H2 & H3). unfold rest_refs in Er. destruct H.
  apply good_make; rewrite ?Er; try done; [change (lrefs (client_refs (mkHClient [] (mkHReply [] [])))) with (∅ : refs); by rewrite (left_id_L ∅ (⊎))|]. constructor; [constructor|by constructor; [|constructor]].
Qed.

Lemma args_ok B s v i c r words l h' : good B s v -> hs_clients s !! i = Some c -> vs_clients v !! i = Some (mkVClient [] r) ->
  create_all (hs_heap s) (createStringObject <$> words) = (l, h') ->
  good (B + length words) (mkHState h' (hs_shared s) (hs_db s) (<[i := mkHClient l (hc_reply c)]> (hs_clients s)))
    (mkVState (vs_db v) (<[i := mkVClient (createStringObject <$> words) r]> (vs_clients v))).
Proof.
  intros H Ei Ev E. destruct (good_client B s v i c _ H Ei Ev) as ([Ha [Hb Hr]] & C & Hsz). inversion Ha as [Ea|]. cbn [vc_reply] in *.
  rewrite <- Ea, list_to_set_disj_nil, left_id_L in C by apply _. destruct (create_all_counted _ _ _ l h' C E) as (C' & S' & K').
  destruct (rest_keeps B s v i h' H) as (H1 & H2 & H3); [eapply keeps_sub; [|exact K']; multiset_solver|].
  apply good_make; try done.
  - unfold client_refs. cbn [hc_argv hc_reply]. rewrite list_to_set_disj_app, <- (assoc_L _). exact C'.
  - constructor; [done|]. constructor; [done|]. eapply shows_keeps; [exact K'|multiset_solver|done].
  - unfold client_refs, rest_refs in *. cbn [hc_argv hc_reply]. rewrite <- Ea in Hsz. rewrite !length_app in *. cbn in Hsz.
    rewrite (Forall2_length _ _ _ S'), length_fmap. lia.
Qed.

Lemma sent_ok B s v i c vc n : good B s v -> hs_clients s !! i = Some c -> vs_clients v !! i = Some vc ->
  exists h' r', sent_nodes (hs_heap s) (hc_reply c) n = Ret (h', r') /\
    good B (mkHState h' (hs_shared s) (hs_db s) (<[i := mkHClient (hc_argv c) r']> (hs_clients s)))
      (mkVState (vs_db v) (<[i := mkVClient (vc_argv vc) (mkVReply [] (drop n (vr_list (vc_reply vc))))]> (vs_clients v))).
Proof.
  intros H Ei Ev. destruct (good_client B s v i c _ H Ei Ev) as ([Ha [Hb Hr]] & C & Hsz). unfold sent_nodes.
  rewrite <- (take_drop n (hr_list (hc_reply c))), list_to_set_disj_app in C.
  assert (counted (hs_heap s) (lrefs (take n (hr_list (hc_reply c))) ⊎ (lrefs (hc_argv c) ⊎ lrefs (drop n (hr_list (hc_reply c))) ⊎ rest_refs s i))) as C0.
  { eapply eq_ind; [exact C|]. multiset_solver. }
  destruct (decr_all_counted _ _ _ C0) as (h' & -> & C' & K'). cbn [mbind cres_bind]. eexists h', _. split; [done|].
  destruct (rest_keeps B s v i h' H) as (H1 & H2 & H3); [eapply keeps_sub; [|exact K']; multiset_solver|].
  apply good_make; try done.
  - unfold client_refs. cbn [hc_argv hc_reply hr_list]. rewrite list_to_set_disj_app. exact C'.
  - constructor; [eapply shows_keeps; [exact K'|multiset_solver|done]|]. constructor; [done|]. cbn [hr_list vr_list].
    eapply shows_keeps; [exact K'|multiset_solver|]. by apply Forall2_drop.
  - unfold client_refs, rest_refs in *. cbn [hc_argv hc_reply hr_list]. rewrite !length_app, length_drop in *. lia.
Qed.

(** The arguments are dropped at the end of a command. *)
Lemma reset_ok B s v i c r vr h' R argv db' vdb' : good B s v -> hs_clients s !! i = Some c ->
  R = lrefs (hs_shared s) ⊎ db_refs db' ⊎ clients_refs (delete i (hs_clients s)) ->
  counted h' (lrefs (hr_list r) ⊎ (lrefs argv ⊎ R)) -> sees_reply h' r vr ->
  shows h' (hs_shared s) shared_values -> sees_db h' db' vdb' -> sees_clients h' (delete i (hs_clients s)) (delete i (vs_clients v)) ->
  (length (hr_list r) + size R <= B + 8)%nat ->
  exists h2, decr_all h' argv = Ret h2 /\
    good (B + 8) (mkHState h2 (hs_shared s) db' (<[i := mkHClient [] r]> (hs_clients s))) (mkVState vdb' (<[i := mkVClient [] vr]> (vs_clients v))).
Proof.
  intros H Ei ER C [Hb Hr] Hsh Hdb Hcl Hsz. subst R. set (R := lrefs (hs_shared s) ⊎ db_refs db' ⊎ clients_refs (delete i (hs_clients s))) in *.
  assert (counted h' (lrefs argv ⊎ (lrefs (hr_list r) ⊎ R))) as C0 by (eapply eq_ind; [exact C|]; multiset_solver).
  destruct (decr_all_counted _ _ _ C0) as (h2 & -> & C2 & K2). exists h2. split; [done|].
  assert (lrefs (hs_shared s) ⊆ R /\ db_refs db' ⊆ R /\ clients_refs (delete i (hs_clients s)) ⊆ R) as (Q1 & Q2 & Q3) by (unfold R; split_and!; multiset_solver).
  apply good_make; try done.
  - eapply shows_keeps; [exact K2|multiset_solver|done].
  - eapply sees_db_keeps; [exact K2|multiset_solver|done].
  - constructor; [constructor|]. constructor; [done|]. eapply shows_keeps; [exact K2|multiset_solver|done].
  - eapply sees_clients_keeps; [exact K2|multiset_solver|done].
Qed.

Lemma shared_at B s v i x : good B s v -> shared_values !! i = Some x ->
  exists a, hs_shared s !! i = Some a /\ val (hs_heap s) a = Some x /\ a ∈ lrefs (hs_shared s).
Proof.
  intros H E. destruct (shows_lookup _ _ _ _ _ (gd_shared _ _ _ H) E) as (a & Ea & Va). exists a. split_and!; [done|done|by eapply elem_lrefs].
Qed.

Lemma get_ok B s v i c k rest argc r : good B s v -> few (B + 8) -> hs_clients s !! i = Some c -> vs_clients v !! i = Some (mkVClient (argc :: k :: rest) r) ->
  exists h' c', call_get (hs_heap s) (hs_shared s) (hs_db s) c = Ret (h', c') /\
    good (B + 8) (mkHState h' (hs_shared s) (hs_db s) (<[i := c']> (hs_clients s)))
      (mkVState (vs_db v) (<[i := mkVClient [] (match vs_db v !! obj_sds k with None => v_addReply r shared_nullbulk | Some x => v_addReplyBulk r x end)]> (vs_clients v))).
Proof.
  intros H Hf Ei Ev. destruct (good_client B s v i c _ H Ei Ev) as ([Ha Hr] & C & Hsz). cbn [vc_argv vc_reply] in *.
  set (R := rest_refs s i) in *. set (F := lrefs (hc_argv c) ⊎ R).
  destruct (shows_lookup _ _ _ 1%nat k Ha eq_refl) as (ka & Eka & Vka). unfold call_get. rewrite Eka. cbn [of_ptr mbind cres_bind].
  rewrite (object_val _ _ _ Vka). cbn [mbind cres_bind].
  assert (counted (hs_heap s) (lrefs (hr_list (hc_reply c)) ⊎ F)) as C0 by (eapply eq_ind; [exact C|]; unfold F; multiset_solver).
  assert (length (hr_list (hc_reply c)) + size F <= B)%nat as HF.
  { unfold F, client_refs in *. rewrite length_app in Hsz. rewrite gmultiset_size_disj_union, size_lrefs. lia. }
  set (vr := (match vs_db v !! obj_sds k with None => _ | Some _ => _ end) : vreply).
  assert (exists h1 r1, (match hs_db s !! obj_sds k with
      | None => null ← of_ptr (hs_shared s !! 1%nat); h_addReply (hs_heap s) (hc_reply c) null
      | Some a => h_addReplyBulk (hs_heap s) (hs_shared s) (hc_reply c) a end) = Ret (h1, r1)
    /\ replied_to (hs_heap s) (hc_reply c) F h1 r1 vr 3) as (h1 & r1 & -> & [C1 S1 K1 L1]).
  { unfold vr. pose proof (gd_db _ _ _ H (obj_sds k)) as Hk. destruct (hs_db s !! obj_sds k) as [a|] eqn:Ea; inversion Hk as [? x Vx|]; subst.
    - apply h_addReplyBulk_spec; try done; [| |apply H|apply bulk_len_nonneg|unfold few in *; lia].
      + apply db_elem in Ea. unfold F, R, rest_refs. multiset_solver.
      + unfold F, R, rest_refs. multiset_solver.
    - destruct (shared_at B s v 1 shared_nullbulk H eq_refl) as (nb & -> & Vnb & Inb). cbn [of_ptr mbind cres_bind].
      destruct (h_addReply_spec (hs_heap s) (hc_reply c) r F nb shared_nullbulk C0 Hr) as (h1 & r1 & E1 & [? ? ? ?]);
        [unfold F, R, rest_refs; multiset_solver|done|unfold few in *; lia|]. exists h1, r1. split; [done|]. constructor; try done. lia. }
  cbn [mbind cres_bind]. destruct (rest_keeps B s v i h1 H) as (H1 & H2 & H3); [eapply keeps_sub; [|exact K1]; unfold F; multiset_solver|].
  destruct (reset_ok B s v i c r1 vr h1 R (hc_argv c) (hs_db s) (vs_db v) H Ei eq_refl C1 S1 H1 H2 H3) as (h2 & -> & G).
  { unfold F in HF. rewrite gmultiset_size_disj_union, size_lrefs in HF. lia. }
  cbn [mbind cres_bind]. by eexists h2, _.
Qed.

(** The report of a wrong number of arguments. *)
Lemma arity_ok B s v i c vc : good B s v -> few (B + 8) -> hs_clients s !! i = Some c -> vs_clients v !! i = Some vc ->
  exists h' r', (if negb (Z.of_nat (length (hc_argv c)) =? 3) then err ← of_ptr (hs_shared s !! 3%nat); h_addReply (hs_heap s) (hc_reply c) err
    else mret (hs_heap s, hc_reply c)) = Ret (h', r')
  /\ replied_to (hs_heap s) (hc_reply c) (lrefs (hc_argv c) ⊎ rest_refs s i) h' r' (set_arity (length (vc_argv vc)) (vc_reply vc)) 1.
Proof.
  intros H Hf Ei Ev. destruct (good_client B s v i c _ H Ei Ev) as ([Ha Hr] & C & Hsz). unfold set_arity. rewrite (Forall2_length _ _ _ Ha).
  set (F := lrefs (hc_argv c) ⊎ rest_refs s i).
  assert (counted (hs_heap s) (lrefs (hr_list (hc_reply c)) ⊎ F)) as C0 by (eapply eq_ind; [exact C|]; unfold F; multiset_solver).
  destruct (negb _); [|eexists _, _; split; [done|]; constructor; try done; lia].
  destruct (shared_at B s v 3 shared_syntaxerr H eq_refl) as (e & -> & Ve & Ie). cbn [of_ptr mbind cres_bind]. apply h_addReply_spec; try done.
  - unfold F, rest_refs. multiset_solver.
  - unfold few, F, client_refs in *. rewrite gmultiset_size_disj_union, size_lrefs. rewrite length_app in Hsz. lia.
Qed.

Lemma set_ok B s v i c k x rest w r : good B s v -> few (B + 8) -> hs_clients s !! i = Some c -> vs_clients v !! i = Some (mkVClient (w :: k :: x :: rest) r) ->
  exists h' db' c', call_set (hs_heap s) (hs_shared s) (hs_db s) c = Ret (h', db', c') /\
    good (B + 8) (mkHState h' (hs_shared s) db' (<[i := c']> (hs_clients s)))
      (mkVState (<[obj_sds k := x]> (vs_db v)) (<[i := mkVClient [] (v_addReply (set_arity (length (w :: k :: x :: rest)) r) shared_ok)]> (vs_clients v))).
Proof.
  intros H Hf Ei Ev. destruct (good_client B s v i c _ H Ei Ev) as ([Ha _] & _ & Hsz). cbn [vc_argv vc_reply] in *.
  destruct (arity_ok B s v i c _ H Hf Ei Ev) as (h0 & r0 & E0 & [C0 S0 K0 L0]). unfold call_set. rewrite E0. cbn [mbind cres_bind vc_argv vc_reply] in *.
  set (vr := set_arity _ r) in *. destruct (rest_keeps B s v i h0 H) as (Hsh & Hdb & Hcl); [eapply keeps_sub; [|exact K0]; multiset_solver|].
  apply (shows_keeps _ h0 _ _ _ K0) in Ha; [|multiset_solver].
  destruct (shows_lookup _ _ _ 1%nat k Ha eq_refl) as (ka & Eka & Vka). destruct (shows_lookup _ _ _ 2%nat x Ha eq_refl) as (xa & Exa & Vxa).
  pose proof (elem_lrefs _ _ _ Exa) as Ixa. rewrite Eka, Exa. cbn [of_ptr mbind cres_bind]. rewrite (object_val _ _ _ Vka). cbn [mbind cres_bind].
  set (others := clients_refs (delete i (hs_clients s))). set (Q := lrefs (hc_argv c) ⊎ lrefs (hr_list r0) ⊎ (lrefs (hs_shared s) ⊎ others)).
  assert (counted h0 (db_refs (hs_db s) ⊎ Q)) as CQ by (eapply eq_ind; [exact C0|]; unfold Q, others, rest_refs; multiset_solver).
  assert (size (db_refs (hs_db s) ⊎ Q) <= B + 1)%nat as HQ.
  { unfold Q, others, rest_refs, client_refs in *. rewrite length_app in Hsz. rewrite !gmultiset_size_disj_union, !size_lrefs in *. lia. }
  destruct (h_setKey_spec h0 (hs_db s) (vs_db v) Q (obj_sds k) xa x CQ Hdb) as (h1 & db1 & -> & C1 & D1 & K1 & L1);
    [unfold Q; multiset_solver|done|unfold few in *; lia|]. cbn [mbind cres_bind].
  set (R1 := lrefs (hs_shared s) ⊎ db_refs db1 ⊎ others).
  assert (counted h1 (lrefs (hr_list r0) ⊎ (lrefs (hc_argv c) ⊎ R1))) as C1' by (eapply eq_ind; [exact C1|]; unfold Q, R1; multiset_solver).
  assert (length (hr_list r0) + size (lrefs (hc_argv c) ⊎ R1) <= B + 2)%nat as HR1.
  { unfold Q, R1 in *. rewrite !gmultiset_size_disj_union, !size_lrefs in *. lia. }
  assert (shows h1 (hs_shared s) shared_values) as Hsh1 by (eapply shows_keeps; [exact K1|unfold Q; multiset_solver|done]).
  destruct (shows_lookup _ _ _ 0%nat shared_ok Hsh1 eq_refl) as (ok & Eok & Vok). pose proof (elem_lrefs _ _ _ Eok). rewrite Eok. cbn [of_ptr mbind cres_bind].
  destruct (h_addReply_spec h1 r0 vr (lrefs (hc_argv c) ⊎ R1) ok shared_ok C1') as (h2 & r2 & -> & [C2 S2 K2 L2]); [|unfold R1; multiset_solver|done|unfold few in *; lia|].
  { destruct S0 as [B0 S0]. constructor; [done|]. eapply shows_keeps; [exact K1|unfold Q; multiset_solver|done]. }
  cbn [mbind cres_bind]. assert (keeps h1 h2 R1) as K2' by (eapply keeps_sub; [|exact K2]; multiset_solver).
  destruct (reset_ok B s v i c r2 (v_addReply vr shared_ok) h2 R1 (hc_argv c) db1 (<[obj_sds k := x]> (vs_db v)) H Ei eq_refl C2 S2) as (h3 & -> & G).
  - eapply shows_keeps; [exact K2'|unfold R1; multiset_solver|done].
  - eapply sees_db_keeps; [exact K2'|unfold R1; multiset_solver|done].
  - eapply sees_clients_keeps; [exact K2'|unfold R1, others; multiset_solver|]. by eapply sees_clients_keeps; [exact K1|unfold Q, others; multiset_solver|].
  - rewrite gmultiset_size_disj_union, size_lrefs in HR1. lia.
  - cbn [mbind cres_bind]. by eexists h3, db1, _.
Qed.

Lemma apply_ok B s v w k x rest : good B s v -> few (B + 8 + length (w :: k :: x :: rest)) ->
  forallb (λ w, negb (bool_decide (w = []))) (w :: k :: x :: rest) = true ->
  exists h' db', h_apply_set (hs_heap s) (hs_db s) (w :: k :: x :: rest) = Ret (h', db') /\
    good (B + 8) (mkHState h' (hs_shared s) db' (hs_clients s)) (mkVState (<[k := OBJ_RAW x]> (vs_db v)) (vs_clients v)).
Proof.
  intros H Hf Hw. unfold h_apply_set. rewrite Hw. cbn [require mbind cres_bind]. destruct (create_all (hs_heap s) _) as [l h1] eqn:E. set (words := w :: k :: x :: rest) in *.
  destruct (create_all_counted _ _ _ l h1 (gd_counted _ _ _ H) E) as (C1 & S1 & K1).
  destruct (shows_lookup _ _ _ 1%nat (OBJ_RAW k) S1 eq_refl) as (ka & Eka & Vka). destruct (shows_lookup _ _ _ 2%nat (OBJ_RAW x) S1 eq_refl) as (xa & Exa & Vxa).
  pose proof (elem_lrefs _ _ _ Exa) as Ixa. rewrite Eka, Exa. cbn [of_ptr mbind cres_bind]. rewrite (object_val _ _ _ Vka). cbn [mbind cres_bind obj_sds].
  pose proof (gd_size _ _ _ H) as HB. unfold all_refs in C1, K1, HB. set (Q := lrefs (hs_shared s) ⊎ clients_refs (hs_clients s)).
  assert (counted h1 (db_refs (hs_db s) ⊎ (lrefs l ⊎ Q))) as C1' by (eapply eq_ind; [exact C1|]; unfold Q; multiset_solver).
  assert (length l = length words) as Ll by (by rewrite (Forall2_length _ _ _ S1), length_fmap).
  assert (size (db_refs (hs_db s) ⊎ Q) <= B)%nat as HQ by (unfold Q in *; rewrite !gmultiset_size_disj_union in *; lia).
  destruct (h_setKey_spec h1 (hs_db s) (vs_db v) (lrefs l ⊎ Q) k xa (OBJ_RAW x) C1') as (h2 & db2 & -> & C2 & D2 & K2 & L2).
  - eapply sees_db_keeps; [exact K1|multiset_solver|apply H].
  - multiset_solver.
  - done.
  - unfold few in *. rewrite !gmultiset_size_disj_union, !size_lrefs in *. lia.
  - cbn [mbind cres_bind]. assert (counted h2 (lrefs l ⊎ (db_refs db2 ⊎ Q))) as C2' by (eapply eq_ind; [exact C2|]; multiset_solver).
    destruct (decr_all_counted _ _ _ C2') as (h3 & -> & C3 & K3). cbn [mbind cres_bind]. exists h3, db2. split; [done|].
    assert (keeps (hs_heap s) h3 Q) as K.
    { eapply keeps_trans; [eapply keeps_sub; [|exact K1]; unfold Q; multiset_solver|].
      eapply keeps_trans; [eapply keeps_sub; [|exact K2]; multiset_solver|]. eapply keeps_sub; [|exact K3]. multiset_solver. }
    constructor; cbn [hs_heap hs_shared hs_db hs_clients vs_db vs_clients].
    + eapply eq_ind; [exact C3|]. unfold all_refs, Q. cbn [hs_shared hs_db hs_clients]. multiset_solver.
    + eapply shows_keeps; [exact K|unfold Q; multiset_solver|apply H].
    + eapply sees_db_keeps; [exact K3|multiset_solver|done].
    + eapply sees_clients_keeps; [exact K|unfold Q; multiset_solver|apply H].
    + unfold all_refs, Q in *. cbn [hs_shared hs_db hs_clients]. rewrite !gmultiset_size_disj_union in *. lia.
Qed.

Lemma free_ok B s v i c : good B s v -> hs_clients s !! i = Some c ->
  exists h', free_objects (hs_heap s) c = Ret h' /\ good B (mkHState h' (hs_shared s) (hs_db s) (delete i (hs_clients s))) (mkVState (vs_db v) (delete i (vs_clients v))).
Proof.
  intros H Ei. pose proof (gd_counted _ _ _ H) as C. pose proof (gd_size _ _ _ H) as HB. rewrite (all_split s i c Ei) in C, HB. unfold free_objects.
  assert (counted (hs_heap s) (lrefs (hr_list (hc_reply c)) ⊎ (lrefs (hc_argv c) ⊎ rest_refs s i))) as C0 by (eapply eq_ind; [exact C|]; multiset_solver).
  destruct (decr_all_counted _ _ _ C0) as (h1 & -> & C1 & K1). cbn [mbind cres_bind]. destruct (decr_all_counted _ _ _ C1) as (h2 & -> & C2 & K2).
  exists h2. split; [done|]. destruct (rest_keeps B s v i h2 H) as (H1 & H2 & H3).
  { eapply keeps_trans; [eapply keeps_sub; [|exact K1]; multiset_solver|exact K2]. }
  constructor; try done. rewrite !gmultiset_size_disj_union in HB. change (all_refs _) with (rest_refs s i). lia.
Qed.

(** Every step. *)
Lemma step_ok B s v e v' : good B s v -> few (B + cost e) -> v_step v e = Some v' ->
  exists s', run_oevent s e = Ret s' /\ good (B + cost e) s' v'.
Proof.
  intros H Hf E. destruct v as [vdb vcs].
  assert (forall s' v', good B s' v' -> good (B + cost e) s' v') as Hle by (intros s' w []; constructor; try done; lia).
  destruct s as [h sh db cs]. destruct e as [i|i words|i|i|words|i n|i]; cbn [v_step] in E.
  - destruct (vcs !! i) eqn:Ei; simplify_eq/=. eexists. split; [done|]. by apply Hle, (connect_ok B _ _ i H).
  - destruct (vcs !! i) as [[[|] r]|] eqn:Ei; simplify_eq/=. destruct (seen B _ _ i _ H Ei) as [c Ec]. cbn in Ec. rewrite Ec. cbn [of_ptr mbind cres_bind].
    destruct (create_all h _) as [l h'] eqn:El. eexists. split; [done|]. pose proof (args_ok B _ _ i c r words l h' H Ec Ei El) as []. constructor; try done. cbn in *. lia.
  - destruct (vcs !! i) as [[[|w [|k [|x rest]]] r]|] eqn:Ei; simplify_eq/=. destruct (seen B _ _ i _ H Ei) as [c Ec]. cbn in Ec. rewrite Ec. cbn [of_ptr mbind cres_bind].
    destruct (set_ok B _ _ i c k x rest w r H Hf Ec Ei) as (h' & db' & c' & E' & G). cbn in E'. rewrite E'. by eexists.
  - destruct (vcs !! i) as [[[|w [|k rest]] r]|] eqn:Ei; simplify_eq/=. destruct (seen B _ _ i _ H Ei) as [c Ec]. cbn in Ec. rewrite Ec. cbn [of_ptr mbind cres_bind].
    destruct (get_ok B _ _ i c k rest w r H Hf Ec Ei) as (h' & c' & E' & G). cbn in E'. rewrite E'. by eexists.
  - destruct words as [|w [|k [|x rest]]]; try done. destruct (forallb _ _) eqn:Ew; simplify_eq/=.
    destruct (apply_ok B _ _ w k x rest H) as (h' & db' & E' & G); [unfold few in *; cbn [cost length] in *; lia|done|].
    cbn in E'. rewrite E'. eexists. split; [done|]. destruct G. constructor; try done. cbn in *. lia.
  - destruct (vcs !! i) as [[a r]|] eqn:Ei; simplify_eq/=. destruct (seen B _ _ i _ H Ei) as [c Ec]. cbn in Ec. rewrite Ec. cbn [of_ptr mbind cres_bind].
    destruct (sent_ok B _ _ i c _ n H Ec Ei) as (h' & r' & E' & G). cbn in E'. rewrite E'. eexists. split; [done|]. by apply Hle.
  - destruct (vcs !! i) as [vc|] eqn:Ei; simplify_eq/=. destruct (seen B _ _ i _ H Ei) as [c Ec]. cbn in Ec. rewrite Ec. cbn [of_ptr mbind cres_bind].
    destruct (free_ok B _ _ i c H Ec) as (h' & E' & G). cbn in E'. rewrite E'. eexists. split; [done|]. by apply Hle.
Qed.

Fixpoint v_steps (v : vstate) (es : list oevent) : option vstate :=
  match es with [] => Some v | e :: es => match v_step v e with Some v => v_steps v es | None => None end end.

Lemma steps_ok es : forall B s v v', good B s v -> few (B + sum_list_with cost es) -> v_steps v es = Some v' ->
  exists s', run_oevents s es = Ret s' /\ good (B + sum_list_with cost es) s' v'.
Proof.
  induction es as [|e es IH]; intros B s v v' H Hf; cbn [v_steps run_oevents sum_list_with] in *.
  { intros [= <-]. exists s. by rewrite Nat.add_0_r. }
  destruct (v_step v e) as [v1|] eqn:E; [|done]. intros E'.
  destruct (step_ok B s v e v1 H) as (s1 & -> & G1); [unfold few in *; lia|done|]. cbn [mbind cres_bind].
  rewrite Nat.add_assoc. apply (IH _ s1 v1); [done| |done]. unfold few in *. lia.
Qed.

Definition start_values : vstate := mkVState ∅ ∅.

Lemma start_refs h sh : all_refs (mkHState h sh ∅ ∅) = lrefs sh ⊎ ∅.
Proof. unfold all_refs, db_refs, clients_refs. cbn [hs_shared hs_db hs_clients]. rewrite !mrefs_empty. multiset_solver. Qed.

Lemma start_good : good 36 start_objects start_values.
Proof.
  unfold start_objects. destruct (create_all ∅ shared_values) as [sh h] eqn:E.
  assert (counted ∅ ∅) as H0 by (intros a; by rewrite lookup_empty, multiplicity_empty).
  destruct (create_all_counted shared_values ∅ ∅ sh h H0 E) as (C & S & _).
  constructor; rewrite ?start_refs; cbn [hs_heap hs_shared hs_db hs_clients vs_db vs_clients start_values].
  - exact C.
  - exact S.
  - intros k. rewrite !lookup_empty. constructor.
  - intros i. rewrite !lookup_empty. constructor.
  - rewrite gmultiset_size_disj_union, gmultiset_size_empty, size_lrefs, (Forall2_length _ _ _ S). vm_compute. lia.
Qed.


(** Two clients: one stores a value, the other has it in its replies while a log entry replaces it. *)
Definition ex_events : list oevent :=
  [OConnect 1; OConnect 2;
   OArgs 1 [lit "set"; lit "k"; replicate (Z.to_nat 9000) 97]; OSet 1;
   OArgs 2 [lit "get"; lit "k"]; OGet 2; OArgs 2 [lit "get"; lit "k"]; OGet 2;
   OApply [lit "set"; lit "k"; lit "w"]; OSent 2 1; OArgs 2 [lit "get"; lit "nokey"]; OGet 2; OFree 1].


(** ** Replies as the other files have them *)

(** The buffer and the objects of a client's output. *)
Definition shown (o : output) (r : vreply) : Prop := buf o = vr_buf r /\ rn_obj <$> reply o = Some <$> vr_list r.

Lemma async_same oe c c' : asyncCloseClientOnOutputBufferLimitReached oe c = Ret c' -> buf (out c') = buf (out c) /\ reply (out c') = reply (out c).
Proof.
  unfold asyncCloseClientOnOutputBufferLimitReached, checkClientOutputBufferLimits, freeClientAsync. intros H.
  destruct (_ <? _); [|done]. cbn [prez_assert mbind cres_bind] in H.
  unfold mret, cres_ret in H. repeat case_match; simplify_eq/=; done.
Qed.

Lemma add_to_list_shown oe c obj c' r : has_flag c PREZ_CLOSE_AFTER_REPLY = false -> add_to_list oe c obj = Ret c' -> shown (out c) r ->
  shown (out c') (mkVReply (vr_buf r) (list_add (vr_list r) obj)).
Proof.
  intros Hc E [Hb Hr]. unfold add_to_list in E. rewrite Hc in E. apply async_same in E as [Eb Er]. unfold shown. rewrite Eb, Er. cbn [vr_buf vr_list out set_out].
  clear Eb Er. unfold append_to_tail, list_add, push_node, out_nodes. destruct (vr_list r) as [|t vs _] using rev_ind.
  - destruct (reply (out c)) eqn:El; [|done]. by cbn [last buf reply].
  - rewrite fmap_app in Hr. apply fmap_app_inv in Hr as (l & l1 & Hl & Ht & El). destruct l1 as [|n [|]]; try done. injection Ht as Ht.
    rewrite El, !last_snoc, <- Ht, !removelast_last.
    destruct t as [t|t|n0]; cbn [joins]; [destruct (_ <=? _)|..]; cbn [reply buf]; rewrite ?El, ?fmap_app, <- ?Hl; cbn; by rewrite <- ?Ht.
Qed.

Lemma prepare_same oe c : 0 < fd c -> event_ok oe = true -> exists c1, prepareClientToWrite oe c = (c1, PREZ_OK)
  /\ flags c1 = flags c /\ buf (out c1) = buf (out c) /\ reply (out c1) = reply (out c).
Proof.
  intros Hf He. unfold prepareClientToWrite. rewrite (proj2 (Z.leb_gt _ _)) by lia. rewrite He. destruct (_ && _); by eexists.
Qed.

(** An encoded object in the buffer or the list. *)
Lemma text_shown oe c obj c' r : has_flag c PREZ_CLOSE_AFTER_REPLY = false ->
  (let '(c, z) := _addReplyToBuffer c (obj_sds obj) in if z =? PREZ_OK then mret c else _addReplyObjectToList oe c obj) = Ret c' ->
  shown (out c) r -> shown (out c') (v_put r obj).
Proof.
  intros Hc E [Hb Hr]. unfold _addReplyToBuffer in E. rewrite Hc in E. unfold v_put, to_buffer. rewrite <- Hb.
  assert (bool_decide (reply (out c) = []) = bool_decide (vr_list r = [])) as Ee.
  { apply bool_decide_ext. destruct (reply (out c)), (vr_list r); done. }
  rewrite Ee in E. destruct (bool_decide (vr_list r = [])); cbn [negb andb] in *.
  - rewrite Z.leb_antisym. destruct (_ <? _); cbn [negb] in *.
    + rewrite Hb. eapply add_to_list_shown; [exact Hc|exact E|by split].
    + injection E as <-. by split.
  - rewrite Hb. eapply add_to_list_shown; [exact Hc|exact E|by split].
Qed.

Lemma v_addReply_decoded r obj : obj_ok obj -> v_addReply r obj = v_put r (getDecodedObject obj).
Proof.
  destruct obj as [s|s|n]; [done..|]. intros Hn. cbn [v_addReply getDecodedObject]. destruct (_ && _) eqn:E; [|done].
  unfold v_put, to_buffer. rewrite obj_sds_create. apply andb_prop in E as [-> E]. cbn [andb].
  rewrite ll2text_repr by (done || lia). pose proof (length_ll_repr_max n Hn). apply Z.leb_le in E. by rewrite (proj2 (Z.leb_le _ _)) by lia.
Qed.

(** What [v_addReply] says of a reply is what [addReply] does to a client that takes replies. *)
Lemma addReply_shown oe c obj c' r : 0 < fd c -> event_ok oe = true -> has_flag c PREZ_CLOSE_AFTER_REPLY = false -> obj_ok obj ->
  addReply oe c obj = Ret c' -> shown (out c) r -> shown (out c') (v_addReply r obj).
Proof.
  intros Hf He Hc Ho E [Hb Hr]. rewrite addReply_emit in E. unfold emit in E. rewrite v_addReply_decoded by done.
  destruct (prepare_same oe c Hf He) as (c1 & Ep & F1 & B1 & R1). rewrite Ep in E. change (negb (PREZ_OK =? PREZ_OK)) with false in E. cbn match in E.
  eapply text_shown; [|exact E|unfold shown; by rewrite B1, R1]. unfold has_flag in *. by rewrite F1.
Qed.
