(* ===== verification/Deferred.v ===== *)
(** * networking.c: replies with a deferred length

    [addDeferredMultiBulkLength] puts an object without text into the list of replies;
    the elements follow; [setDeferredMultiBulkLength] fills in their number and joins it with
    the next object.  While the gap is open the list is not one the socket may see, so the
    facts of Client.v do not apply as they are: they are transferred from a list that has an
    empty string in the place of the gap, which no reply function can tell apart. *)

From Stdlib Require Import ZArith Lia.
From stdpp Require Import base tactics numbers list strings.
From S2P Require Import Prelude Util Object Client.

Local Open Scope Z_scope.

Definition gap : rnode := mkRNode None 0.
Definition plug : rnode := mkRNode (Some (OBJ_EMBSTR [])) 0.

Definition with_gap (i : nat) (c : prezClient) : prezClient :=
  set_out c (out_nodes (out c) (<[i := gap]> (reply (out c))) (reply_bytes (out c))).

(** [f] treats a gap as an empty string, and works behind it. *)
Definition gap_safe (f : prezClient -> cres prezClient) : Prop :=
  forall c i c', reply (out c) !! i = Some plug -> f c = Ret c' ->
    f (with_gap i c) = Ret (with_gap i c')
    /\ take (S i) (reply (out c')) = take (S i) (reply (out c)) /\ buf (out c') = buf (out c).

Lemma take_plug (l l' : list rnode) i : take (S i) l' = take (S i) l -> l !! i = Some plug -> l' !! i = Some plug.
Proof. intros E H. rewrite <- (lookup_take_lt l' (S i)) by lia. by rewrite E, lookup_take_lt by lia. Qed.

Lemma gap_safe_ret : gap_safe mret.
Proof. intros c i c' Hi [= <-]. done. Qed.

Lemma gap_safe_bind f g : gap_safe f -> gap_safe g -> gap_safe (λ c, c ← f c; g c).
Proof.
  intros Hf Hg c i c' Hi E. destruct (f c) as [c1| |] eqn:E1; cbn [mbind cres_bind] in E; [|done..].
  destruct (Hf c i c1 Hi E1) as (-> & T1 & B1). cbn [mbind cres_bind].
  destruct (Hg c1 i c' (take_plug _ _ _ T1 Hi) E) as (-> & T2 & B2). by rewrite T2, T1, B2, B1.
Qed.

Lemma gap_safe_const {A} (m : cres A) (g : A -> prezClient -> cres prezClient) :
  (forall a, gap_safe (g a)) -> gap_safe (λ c, a ← m; g a c).
Proof. intros Hg c i c' Hi E. destruct m as [a| |]; cbn [mbind cres_bind] in *; [|done..]. by apply Hg. Qed.

(** ** One string *)

Lemma async_gap oe c i : reply (out c) !! i = Some plug ->
  asyncCloseClientOnOutputBufferLimitReached oe (with_gap i c)
  = (c ← asyncCloseClientOnOutputBufferLimitReached oe c; mret (with_gap i c)).
Proof.
  intros Hi. unfold asyncCloseClientOnOutputBufferLimitReached.
  change (reply_bytes (out (with_gap i c))) with (reply_bytes (out c)).
  destruct (prez_assert _); cbn [mbind cres_bind]; [|done..].
  change (has_flag (with_gap i c) PREZ_CLOSE_ASAP) with (has_flag c PREZ_CLOSE_ASAP). destruct (_ || _); [done|].
  assert (checkClientOutputBufferLimits oe (with_gap i c)
    = let '(c', r) := checkClientOutputBufferLimits oe c in (with_gap i c', r)) as ->.
  { unfold checkClientOutputBufferLimits.
    assert (getClientOutputBufferMemoryUsage (with_gap i c) = getClientOutputBufferMemoryUsage c) as ->.
    { unfold getClientOutputBufferMemoryUsage, with_gap. cbn. by rewrite length_insert. }
    change (obuf_soft_limit_reached_time (out (with_gap i c))) with (obuf_soft_limit_reached_time (out c)).
    by repeat case_match; simplify_eq/=. }
  destruct (checkClientOutputBufferLimits oe c) as [c' [|]]; [|done]. cbn. unfold freeClientAsync.
  change (has_flag (with_gap i c') PREZ_CLOSE_ASAP) with (has_flag c' PREZ_CLOSE_ASAP). by destruct (has_flag c' _).
Qed.

(** The check of the limits leaves the lists alone. *)
Lemma async_keeps oe c c' : asyncCloseClientOnOutputBufferLimitReached oe c = Ret c' ->
  reply (out c') = reply (out c) /\ buf (out c') = buf (out c).
Proof.
  unfold asyncCloseClientOnOutputBufferLimitReached, checkClientOutputBufferLimits, freeClientAsync.
  destruct (prez_assert _); cbn [mbind cres_bind]; [|done..]. intros H.
  repeat (case_match; simplify_eq/=); injection H as <-; done.
Qed.

Lemma append_gap oe o s i : reply o !! i = Some plug ->
  append_to_tail oe (out_nodes o (<[i := gap]> (reply o)) (reply_bytes o)) s
  = (λ o', out_nodes o' (<[i := gap]> (reply o')) (reply_bytes o')) <$> append_to_tail oe o s
  /\ forall o', append_to_tail oe o s = Some o' ->
       take (S i) (reply o') = take (S i) (reply o) /\ buf o' = buf o.
Proof.
  intros Hi. unfold append_to_tail. cbn [reply out_nodes reply_bytes].
  destruct (last (reply o)) as [n|] eqn:El; [|apply last_None in El; by rewrite El in Hi].
  apply last_Some in El as [l El]. rewrite El in *. assert (i <= length l)%nat as Hle.
  { apply lookup_lt_Some in Hi. rewrite length_app in Hi. cbn in Hi. lia. }
  destruct (decide (i = length l)) as [->|Hne].
  - rewrite list_lookup_middle in Hi by done. injection Hi as ->.
    rewrite insert_app_r_alt, Nat.sub_diag by lia. cbn [insert list_insert]. by rewrite last_snoc.
  - rewrite insert_app_l, last_snoc by lia. destruct (rn_obj n) as [[t|t|v]|]; try done.
    rewrite !removelast_last. destruct (_ <=? _); [|done]. cbn [fmap option_fmap option_map]. split.
    + f_equal. unfold out_nodes. cbn [reply reply_bytes buf sentlen obuf_soft_limit_reached_time writable].
      by rewrite insert_app_l by lia.
    + intros o' [= <-]. cbn [reply out_nodes buf]. by rewrite !take_app_le by lia.
Qed.

Lemma add_to_list_gap oe obj : gap_safe (λ c, add_to_list oe c obj).
Proof.
  intros c i c' Hi. unfold add_to_list.
  change (has_flag (with_gap i c) PREZ_CLOSE_AFTER_REPLY) with (has_flag c PREZ_CLOSE_AFTER_REPLY).
  destruct (has_flag c _); [by intros [= <-]|].
  destruct (append_gap oe (out c) (obj_sds obj) i Hi) as [Ea Hk]. change (out (with_gap i c)) with
    (out_nodes (out c) (<[i := gap]> (reply (out c))) (reply_bytes (out c))). rewrite Ea.
  set (o1 := match append_to_tail oe (out c) (obj_sds obj) with Some o' => o' | None => _ end).
  assert (take (S i) (reply o1) = take (S i) (reply (out c)) /\ buf o1 = buf (out c)
    /\ match (λ o', out_nodes o' (<[i := gap]> (reply o')) (reply_bytes o')) <$> append_to_tail oe (out c) (obj_sds obj) with
       | Some o' => o'
       | None => push_node (out_nodes (out c) (<[i := gap]> (reply (out c))) (reply_bytes (out c)))
                   (mkRNode (Some obj) (size_new oe (obj_sds obj)))
       end = out_nodes o1 (<[i := gap]> (reply o1)) (reply_bytes o1)) as (T & B & ->).
  { subst o1. destruct (append_to_tail oe (out c) (obj_sds obj)) as [o'|]; cbn [fmap option_fmap option_map].
    - by destruct (Hk o' eq_refl).
    - pose proof (lookup_lt_Some _ _ _ Hi). unfold push_node, out_nodes.
      cbn [reply buf reply_bytes sentlen obuf_soft_limit_reached_time writable].
      rewrite take_app_le by lia. split_and!; try done. by rewrite insert_app_l by done. }
  intros E. pose proof (async_gap oe (set_out c o1) i) as G. cbn [out set_out] in G.
  change (set_out (with_gap i c) (out_nodes o1 (<[i := gap]> (reply o1)) (reply_bytes o1))) with (with_gap i (set_out c o1)).
  rewrite G by (by eapply take_plug). rewrite E. split; [done|]. apply async_keeps in E as [-> ->]. done.
Qed.

Lemma emit_gap oe obj : gap_safe (λ c, emit oe c obj).
Proof.
  intros c i c' Hi. unfold emit, prepareClientToWrite. change (fd (with_gap i c)) with (fd c).
  destruct (fd c <=? 0); [by intros [= <-]|].
  assert (reply (out c) <> [] /\ reply (out (with_gap i c)) <> []) as [H1 H2].
  { apply lookup_lt_Some in Hi. split; intros E%(f_equal length); cbn in E; rewrite ?length_insert in E; lia. }
  rewrite (bool_decide_false (reply (out c) = [])), (bool_decide_false (reply (out (with_gap i c)) = [])) by done.
  rewrite !andb_false_r. change (negb (PREZ_OK =? PREZ_OK)) with false. cbn match. unfold _addReplyToBuffer.
  change (has_flag (with_gap i c) PREZ_CLOSE_AFTER_REPLY) with (has_flag c PREZ_CLOSE_AFTER_REPLY).
  destruct (has_flag c _); [by intros [= <-]|].
  rewrite (bool_decide_false (reply (out c) = [])), (bool_decide_false (reply (out (with_gap i c)) = [])) by done.
  cbn [negb]. change (PREZ_ERR =? PREZ_OK) with false. cbn match. by apply add_to_list_gap.
Qed.

(** ** Bulk replies *)

Lemma addReply_gap oe obj : gap_safe (λ c, addReply oe c obj).
Proof. intros c i c' Hi. rewrite !addReply_emit. by apply emit_gap. Qed.

Lemma addReplyString_gap oe s : gap_safe (λ c, addReplyString oe c s).
Proof.
  assert (forall c, addReplyString oe c s = emit oe c (createStringObject s)) as E.
  { intros c. unfold addReplyString, emit, _addReplyStringToList. by rewrite obj_sds_create. }
  intros c i c' Hi. rewrite !E. by apply emit_gap.
Qed.

Lemma prefix_gap oe ll prefix : gap_safe (λ c, addReplyLongLongWithPrefix oe c ll prefix).
Proof.
  unfold addReplyLongLongWithPrefix. destruct (_ && _); [|apply addReplyString_gap].
  apply (gap_safe_const (shared_hdr prefix ll) (λ h c, addReply oe c h)). intros h. apply addReply_gap.
Qed.

Lemma cbuffer_gap oe s : gap_safe (λ c, addReplyBulkCBuffer oe c s).
Proof.
  apply (gap_safe_bind _ _ (prefix_gap oe (Z.of_nat (length s)) 36)).
  apply (gap_safe_bind _ _ (addReplyString_gap oe s) (addReply_gap oe shared_crlf)).
Qed.

(** ** The number of elements *)

(** The gap is filled. *)
Lemma fill_ok o pre rest n rest' b :
  out_ok o -> reply o = pre ++ plug :: rest -> node_ok n -> Forall node_ok rest' ->
  b = sumZ getStringObjectSdsUsedMemory (pre ++ n :: rest') -> sumZ weight (pre ++ n :: rest') < 2 ^ 63 ->
  out_ok (out_nodes o (pre ++ n :: rest') b).
Proof.
  intros [Hb Hn Hs Hsb Hsn _ _ Hw] Er On Or Eb Hroom. rewrite Er in Hn, Hsn. constructor; try done; cbn [buf reply sentlen writable out_nodes].
  - apply Forall_app in Hn as [Hpre _]. apply Forall_app. split; [done|]. by constructor.
  - intros E. destruct (Hsn E) as [?|(n0 & l & E0 & Hlt)]; [by left|]. destruct pre as [|n1 pre].
    + cbn in E0. injection E0 as <- _. change (node_bytes plug) with (@nil Z) in Hlt. cbn in Hlt. lia.
    + cbn in E0. injection E0 as <- _. right. by exists n1, (pre ++ n :: rest').
  - intros _. apply Hw. right. rewrite Er. by destruct pre.
Qed.

Definition count_text (len : Z) : bytes := 42 :: ll_repr len ++ CRLF.

(** The output after [setDeferredMultiBulkLength], before the check of the limits. *)
Lemma fill_spec oe o pre rest len : oenv_ok oe -> out_ok o -> reply o = pre ++ plug :: rest ->
  sumZ weight (reply o) + 2 ^ 20 + 4 * Z.of_nat (length (count_text len)) < 2 ^ 63 ->
  exists o', (forall c, out c = o -> setDeferredMultiBulkLength oe (with_gap (length pre) c) (Some (length pre)) len
      = asyncCloseClientOnOutputBufferLimitReached oe (set_out (with_gap (length pre) c) o'))
    /\ out_ok o' /\ buf o' = buf o /\ sentlen o' = sentlen o
    /\ concat (node_bytes <$> reply o') = concat (node_bytes <$> pre) ++ count_text len ++ concat (node_bytes <$> rest)
    /\ sumZ weight (reply o') <= sumZ weight (reply o) + 4 * Z.of_nat (length (count_text len)).
Proof.
  intros E O Er Hroom. set (s := count_text len) in *. set (n := mkRNode (Some (OBJ_RAW s)) (size_new oe s)).
  pose proof (oe_new _ E s) as Hnew. pose proof (oo_nodes _ O) as Hno. rewrite Er in Hno.
  apply Forall_app in Hno as [Hpre Hrest]. apply Forall_cons in Hrest as [_ Hrest].
  pose proof (used_weight _ Hpre) as Up. pose proof (used_weight _ Hrest) as Ur.
  assert (sumZ weight (reply o) = sumZ weight pre + 2 ^ 20 + sumZ weight rest) as Ew.
  { rewrite Er, sumZ_app. cbn [sumZ foldr]. change (weight plug) with (2 ^ 20 + 4 * 0). fold (sumZ weight rest). lia. }
  assert (reply_bytes o = sumZ getStringObjectSdsUsedMemory pre + sumZ getStringObjectSdsUsedMemory rest) as Eb.
  { rewrite (oo_bytes _ O), Er, sumZ_app. cbn [sumZ foldr]. change (getStringObjectSdsUsedMemory plug) with 0.
    fold (sumZ getStringObjectSdsUsedMemory rest). lia. }
  assert (weight n = 2 ^ 20 + 4 * Z.of_nat (length s)) as Wn by done.
  destruct rest as [|nx rest].
  - exists (out_nodes o (pre ++ [n]) (wrap_u64 (reply_bytes o + size_new oe s))). split_and!; try done.
    + intros c Ec. unfold setDeferredMultiBulkLength, with_gap. cbn [out set_out out_nodes reply reply_bytes]. rewrite Ec, Er.
      rewrite (insert_app_r_alt pre), Nat.sub_diag by lia. cbn [insert list_insert].
      rewrite (list_lookup_middle pre [] gap (length pre) eq_refl). cbn [of_ptr mbind cres_bind].
      rewrite lookup_ge_None_2 by (rewrite length_app; cbn; lia).
      rewrite (insert_app_r_alt pre), Nat.sub_diag by lia. cbn [insert list_insert]. done.
    + apply (fill_ok o pre [] n []); try done.
      * split; [by eexists|]. change (getStringObjectSdsUsedMemory n) with (size_new oe s). lia.
      * rewrite sumZ_app. cbn [sumZ foldr]. change (getStringObjectSdsUsedMemory n) with (size_new oe s).
        rewrite Eb in *. cbn [sumZ foldr] in *. rewrite wrap_u64_id; [lia|]. unfold in_u64, ULLONG_MAX. lia.
      * rewrite sumZ_app. cbn [sumZ foldr] in *. lia.
    + cbn [reply out_nodes]. rewrite fmap_bytes_snoc. by rewrite app_nil_r.
    + cbn [reply out_nodes]. rewrite sumZ_app. cbn [sumZ foldr] in *. lia.
  - apply Forall_cons in Hrest as [((x & Ex & _) & Ux) Hrest]. cbn [sumZ foldr] in Ew, Eb, Ur.
    fold (sumZ weight rest) in Ew, Ur. fold (sumZ getStringObjectSdsUsedMemory rest) in Eb, Ur.
    assert (node_bytes nx = obj_sds x) as Enx by (unfold node_bytes; by rewrite Ex).
    assert (weight nx = 2 ^ 20 + 4 * Z.of_nat (length (obj_sds x))) as Wx by (unfold weight; by rewrite Enx).
    set (n' := mkRNode (Some (OBJ_RAW (s ++ obj_sds x))) (size_cat oe n (obj_sds x))).
    pose proof (oe_cat _ E n (obj_sds x)) as Hcat. change (node_bytes n) with s in Hcat.
    assert (weight n' = 2 ^ 20 + 4 * Z.of_nat (length s + length (obj_sds x))) as Wn'.
    { unfold weight, node_bytes, n'. cbn [rn_obj obj_sds]. by rewrite length_app. }
    pose proof (used_weight _ Hrest) as Ur2.
    exists (out_nodes o (pre ++ n' :: rest) (wrap_u64 (wrap_u64 (reply_bytes o + size_new oe s) - size_new oe s
              - getStringObjectSdsUsedMemory nx + size_cat oe n (obj_sds x)))). split_and!; try done.
    + intros c Ec. unfold setDeferredMultiBulkLength, with_gap. cbn [out set_out out_nodes reply reply_bytes]. rewrite Ec, Er.
      rewrite (insert_app_r_alt pre), Nat.sub_diag by lia. cbn [insert list_insert].
      rewrite (list_lookup_middle pre (nx :: rest) gap (length pre) eq_refl). cbn [of_ptr mbind cres_bind].
      change (pre ++ gap :: nx :: rest) with (pre ++ [gap] ++ nx :: rest). rewrite app_assoc.
      rewrite list_lookup_middle by (rewrite length_app; cbn; lia). rewrite Ex.
      rewrite <- app_assoc, take_app_length. cbn [app].
      replace (drop (S (S (length pre))) (pre ++ gap :: nx :: rest)) with rest; [done|].
      rewrite drop_app_ge by lia. by replace (S (S (length pre)) - length pre)%nat with 2%nat by lia.
    + apply (fill_ok o pre (nx :: rest) n' rest); try done.
      * split; [by eexists|]. change (getStringObjectSdsUsedMemory n') with (size_cat oe n (obj_sds x)). lia.
      * rewrite sumZ_app. cbn [sumZ foldr]. fold (sumZ getStringObjectSdsUsedMemory rest).
        change (getStringObjectSdsUsedMemory n') with (size_cat oe n (obj_sds x)).
        rewrite (wrap_u64_id (reply_bytes o + _)) by (unfold in_u64, ULLONG_MAX; lia).
        rewrite wrap_u64_id by (unfold in_u64, ULLONG_MAX; lia). lia.
      * rewrite sumZ_app. cbn [sumZ foldr]. fold (sumZ weight rest). lia.
    + cbn [reply out_nodes]. rewrite fmap_app, concat_app. cbn [fmap list_fmap concat].
      change (node_bytes n') with (s ++ obj_sds x). by rewrite Enx, <- !app_assoc.
    + cbn [reply out_nodes]. rewrite sumZ_app. cbn [sumZ foldr]. fold (sumZ weight rest). lia.
Qed.

(** A client with an empty string where the gap is. *)
Definition plugged (c : prezClient) : prezClient :=
  set_out c (out_nodes (out_writable (out c) true) (reply (out c) ++ [plug]) (reply_bytes (out c))).

Lemma plugged_spec oe k n c : oenv_ok oe -> 0 <= k -> 0 <= n -> ready (k + 1) n c ->
  addDeferredMultiBulkLength oe c = (with_gap (length (reply (out c))) (plugged c), Some (length (reply (out c))))
  /\ ready k n (plugged c) /\ stream (out (plugged c)) = stream (out c).
Proof.
  intros E Hk Hn0 (Hfd & Hfl & O & Hroom). split; [|split].
  - unfold addDeferredMultiBulkLength. destruct (prepare_spec oe c E Hfd O) as (w & -> & ->).
    change (negb (PREZ_OK =? PREZ_OK)) with false. cbn match. unfold with_gap, plugged, set_out, out_nodes, out_writable.
    cbn [out reply reply_bytes buf sentlen obuf_soft_limit_reached_time writable fd flags to_close inp].
    rewrite (insert_app_r_alt (reply (out c))), Nat.sub_diag by lia. done.
  - assert (sumZ weight (reply (out c) ++ [plug]) = sumZ weight (reply (out c)) + 2 ^ 20) as Ew.
    { rewrite sumZ_snoc. change (weight plug) with (2 ^ 20 + 4 * 0). lia. }
    split_and!; [done|done| |cbn [out plugged set_out out_nodes reply]; lia].
    pose proof (oo_room _ O) as Hr. pose proof O as [_ Hn Hs _ _ Eb _ _].
    apply (list_change_ok (out_writable (out c) true) (reply (out c) ++ [plug]) (reply_bytes (out c)) []); try done.
    + by apply writable_ok.
    + apply Forall_app. split; [done|]. constructor; [|done]. split; [by eexists|]. unfold weight. cbn. lia.
    + rewrite fmap_bytes_snoc. done.
    + intros n0 r Er. cbn in Er. rewrite Er. by exists n0, (r ++ [plug]).
    + rewrite sumZ_snoc, Eb. change (getStringObjectSdsUsedMemory plug) with 0. lia.
    + lia.
  - unfold stream, plugged. cbn. rewrite fmap_bytes_snoc. by rewrite app_nil_r.
Qed.

(** An array whose length is filled in at the end: [f] queues its elements. *)
Lemma deferred_spec oe (f : prezClient -> cres prezClient) k t len c :
  oenv_ok oe -> gap_safe f -> 0 <= k ->
  (forall c, ready k (Z.of_nat (length t)) c -> exists c', f c = Ret c' /\ queued k t c c') ->
  ready (k + 2) (Z.of_nat (length (count_text len ++ t))) c ->
  exists c', (let '(c, node) := addDeferredMultiBulkLength oe c in
              c ← f c; setDeferredMultiBulkLength oe c node len) = Ret c'
    /\ queued (k + 2) (count_text len ++ t) c c'.
Proof.
  intros E Hg Hk Hf R. rewrite length_app, Nat2Z.inj_add in R. set (hdr := Z.of_nat (length (count_text len))) in *.
  destruct (plugged_spec oe (k + 1) (hdr + Z.of_nat (length t)) c E) as (-> & R1 & S1); [lia|lia|by replace (k + 1 + 1) with (k + 2) by lia|].
  set (i := length (reply (out c))). set (p := plugged c) in *.
  destruct (Hf p) as (p' & Ep & Q); [eapply ready_le; [exact R1|lia|lia]|].
  assert (reply (out p) !! i = Some plug) as Hi by (cbn; by apply list_lookup_middle).
  destruct (Hg p i p' Hi Ep) as (-> & T & B). cbn [mbind cres_bind].
  assert (exists rest, reply (out p') = reply (out c) ++ plug :: rest) as (rest & Er).
  { exists (drop (S i) (reply (out p'))). rewrite <- (take_drop (S i) (reply (out p'))) at 1. rewrite T.
    cbn [p plugged out set_out out_nodes reply]. rewrite take_ge by (rewrite length_app; cbn; lia). by rewrite <- app_assoc. }
  assert (concat (node_bytes <$> rest) = t) as Et.
  { pose proof (qu_stream _ _ _ _ Q) as Es. rewrite S1 in Es. unfold stream in Es. rewrite B, Er, fmap_app, concat_app in Es.
    cbn in Es. rewrite <- app_assoc in Es. by apply app_inv_head, app_inv_head in Es. }
  destruct R1 as (Hfd & _ & _ & Hroom). pose proof (qu_room _ _ _ _ Q) as Hw. cbn [p plugged out set_out out_nodes reply] in Hroom, Hw.
  destruct (fill_spec oe (out p') (reply (out c)) rest len E (qu_ok _ _ _ _ Q) Er) as (o' & Eo & O' & Bo & So & Co & Wo); [fold hdr; lia|].
  fold i in Eo. rewrite (Eo p' eq_refl).
  destruct (async_close_spec oe (set_out (with_gap i p') o') O') as (c' & -> & [F1 F2 F3 F4 F5 F6 F7]).
  exists c'. split; [done|]. destruct Q as [G1 G2 G3 _ _ G6 _].
  rewrite app_nil_r in F5. cbn [length Z.of_nat out set_out] in F5, F6, F7. constructor; try done.
  - rewrite F1. exact G1.
  - rewrite F2. exact G2.
  - intros fl Hfl. rewrite F3 by done. apply G3, Hfl.
  - rewrite F5. unfold stream. rewrite Bo, Co, B, Et. cbn. by rewrite <- !app_assoc.
  - rewrite F6, So, G6. done.
  - rewrite length_app, Nat2Z.inj_add. fold hdr in Wo |- *.
    pose proof (sumZ_snoc weight (reply (out c)) plug) as Ep2. change (weight plug) with (2 ^ 20 + 4 * 0) in Ep2.
    fold hdr in Wo. lia.
Qed.
