(* ===== verification/Request.v ===== *)
(** * networking.c: requests

    The request side of src/src/networking.c: the inline and the multibulk parser, the loop
    over the query buffer and the handler that reads from the socket.  The query buffer is
    the text of its sds string; the room an sds string keeps does not show.  The main
    facts: a request in the multibulk protocol is parsed into exactly its arguments, however
    the network cuts it into segments and whatever bytes the arguments hold, and requests that
    are sent together are run one by one in their order. *)

From Stdlib Require Import ZArith Lia.
From stdpp Require Import base tactics numbers list strings.
From S2P Require Import Prelude Util Libc SdsArgs Object Client.

Local Open Scope Z_scope.

Definition PREZ_REQ_INLINE : Z := 1.
Definition PREZ_REQ_MULTIBULK : Z := 2.
Definition PREZ_IOBUF_LEN : Z := 1024 * 16.
Definition PREZ_INLINE_MAX_SIZE : Z := 1024 * 64.
Definition PREZ_MBULK_BIG_ARG : Z := 1024 * 32.

(** ** Updates *)

Definition in_querybuf (i : input) (q : bytes) : input :=
  mkInput q (reqtype i) (multibulklen i) (bulklen i) (argv i) (cmd i).
Definition in_argv (i : input) (a : list robj) : input :=
  mkInput (querybuf i) (reqtype i) (multibulklen i) (bulklen i) a (cmd i).
Definition in_lens (i : input) (m b : Z) : input :=
  mkInput (querybuf i) (reqtype i) m b (argv i) (cmd i).
Definition in_reqtype (i : input) (t : Z) : input :=
  mkInput (querybuf i) t (multibulklen i) (bulklen i) (argv i) (cmd i).
Definition in_cmd (i : input) (k : option prezCommand) : input :=
  mkInput (querybuf i) (reqtype i) (multibulklen i) (bulklen i) (argv i) k.

(** [freeClientArgv]: the arguments are released, [argc] is 0 and [cmd] NULL. *)
Definition freeClientArgv (i : input) : input :=
  mkInput (querybuf i) (reqtype i) (multibulklen i) (bulklen i) [] None.

Definition resetClient (c : prezClient) : prezClient :=
  set_inp c (in_lens (in_reqtype (freeClientArgv (inp c)) 0) 0 (-1)).

(** [sdsrange(c->querybuf,pos,-1)] *)
Definition trim (c : prezClient) (pos : nat) : prezClient :=
  set_inp c (in_querybuf (inp c) (drop pos (querybuf (inp c)))).

Definition qlen (c : prezClient) : Z := Z.of_nat (length (querybuf (inp c))).

Section Parse.
Context (oe : oenv).

Definition setProtocolError (c : prezClient) (pos : nat) : prezClient :=
  trim (set_flag c PREZ_CLOSE_AFTER_REPLY) pos.

(** An error reply followed by [setProtocolError]. *)
Definition protocol_error (c : prezClient) (msg : bytes) (pos : nat) : cres prezClient :=
  c ← addReplyError oe c msg; mret (setProtocolError c pos).

(** ** Inline requests *)

Definition processInlineBuffer (c : prezClient) : cres (prezClient * Z) :=
  let q := querybuf (inp c) in
  match strchr q LF with
  | None =>
      if PREZ_INLINE_MAX_SIZE <? qlen c then
        c ← protocol_error c (lit "Protocol error: too big inline request") 0; mret (c, PREZ_ERR)
      else mret (c, PREZ_ERR)
  | Some newline =>
      let querylen := if (0 <? newline)%nat && bool_decide (q !! (newline - 1)%nat = Some CR)
                      then (newline - 1)%nat else newline in
      match sdssplitargs (take querylen q) with
      | None =>
          c ← protocol_error c (lit "Protocol error: unbalanced quotes in request") 0; mret (c, PREZ_ERR)
      | Some args =>
          let c := trim c (querylen + 2) in
          mret (set_inp c (in_argv (inp c) (OBJ_RAW <$> filter (λ a, a <> []) args)), PREZ_OK)
      end
  end.

(** ** Multibulk requests *)

(** The number of arguments: [inl r] is a [return], [inr pos] the position after it. *)
Definition mb_header (c : prezClient) : cres (prezClient * (Z + nat)) :=
  if negb (multibulklen (inp c) =? 0) then mret (c, inr 0%nat) else
  _ ← prez_assert (bool_decide (argv (inp c) = []));
  let q := querybuf (inp c) in
  match strchr q CR with
  | None =>
      if PREZ_INLINE_MAX_SIZE <? qlen c then
        c ← protocol_error c (lit "Protocol error: too big mbulk count string") 0;
        mret (c, inl PREZ_ERR)
      else mret (c, inl PREZ_ERR)
  | Some newline =>
      if qlen c - 2 <? Z.of_nat newline then mret (c, inl PREZ_ERR) else
      _ ← prez_assert (bool_decide (q !! 0%nat = Some 42));
      match string2ll (take (newline - 1) (drop 1 q)) with
      | Some ll =>
          if 1024 * 1024 <? ll then
            c ← protocol_error c (lit "Protocol error: invalid multibulk length") 0;
            mret (c, inl PREZ_ERR)
          else if ll <=? 0 then mret (trim c (newline + 2), inl PREZ_OK)
          else mret (set_inp c (in_argv (in_lens (inp c) ll (bulklen (inp c))) []), inr (newline + 2)%nat)
      | None =>
          c ← protocol_error c (lit "Protocol error: invalid multibulk length") 0;
          mret (c, inl PREZ_ERR)
      end
  end.

(** [%c] of the byte that is not ['$']; the text ends at a NUL. *)
Definition expected_dollar (b : Z) : bytes :=
  lit "Protocol error: expected '$', got '" ++ (if b =? 0 then [] else [b; 39]).

(** The length of the next argument: [None] is the [break] of the loop, [Some (inl r)] a
    [return], and [Some (inr pos)] the position of the argument. *)
Definition mb_length (c : prezClient) (pos : nat) : cres (prezClient * option (Z + nat)) :=
  if negb (bulklen (inp c) =? -1) then mret (c, Some (inr pos)) else
  let q := querybuf (inp c) in
  match strchr (drop pos q) CR with
  | None =>
      if PREZ_INLINE_MAX_SIZE <? qlen c then
        c ← protocol_error c (lit "Protocol error: too big bulk count string") 0;
        mret (c, Some (inl PREZ_ERR))
      else mret (c, None)
  | Some k =>
      let newline := (pos + k)%nat in
      if qlen c - 2 <? Z.of_nat newline then mret (c, None) else
      d ← of_ptr (q !! pos);
      if negb (d =? 36) then
        c ← addReplyErrorFormat oe c (expected_dollar d);
        mret (setProtocolError c pos, Some (inl PREZ_ERR))
      else
      let invalid :=
        c ← protocol_error c (lit "Protocol error: invalid bulk length") pos;
        mret (c, Some (inl PREZ_ERR)) in
      match string2ll (take (newline - (pos + 1)) (drop (pos + 1) q)) with
      | Some ll =>
          if (ll <? 0) || (512 * 1024 * 1024 <? ll) then invalid else
          let pos := (newline + 2)%nat in
          let '(c, pos) := if PREZ_MBULK_BIG_ARG <=? ll then (trim c pos, 0%nat) else (c, pos) in
          mret (set_inp c (in_lens (inp c) (multibulklen (inp c)) ll), Some (inr pos))
      | None => invalid
      end
  end.

(** The argument itself: [None] when it is not complete yet.  A large argument that is alone
    in the buffer takes the buffer over. *)
Definition mb_argument (c : prezClient) (pos : nat) : option (prezClient * nat) :=
  let i := inp c in
  let n := Z.to_nat (bulklen i) in
  if wrap_u64 (qlen c - Z.of_nat pos) <? wrap_u32 (bulklen i + 2) then None
  else if (pos =? 0)%nat && (PREZ_MBULK_BIG_ARG <=? bulklen i) && (wrap_s32 (qlen c) =? bulklen i + 2) then
    Some (set_inp c (mkInput [] (reqtype i) (multibulklen i - 1) (-1)
                       (argv i ++ [OBJ_RAW (take n (querybuf i))]) (cmd i)), 0%nat)
  else
    Some (set_inp c (mkInput (querybuf i) (reqtype i) (multibulklen i - 1) (-1)
                       (argv i ++ [createStringObject (take n (drop pos (querybuf i)))]) (cmd i)),
          (pos + n + 2)%nat).

(** The loop over the arguments; [n] is [multibulklen]. *)
Fixpoint mb_loop (n : nat) (c : prezClient) (pos : nat) : cres (prezClient * (Z + nat)) :=
  match n with
  | O => mret (c, inr pos)
  | S n =>
      '(c, r) ← mb_length c pos;
      match r with
      | None => mret (c, inr pos)
      | Some (inl r) => mret (c, inl r)
      | Some (inr pos) =>
          match mb_argument c pos with
          | None => mret (c, inr pos)
          | Some (c, pos) => mb_loop n c pos
          end
      end
  end.

Definition processMultibulkBuffer (c : prezClient) : cres (prezClient * Z) :=
  '(c, r) ← mb_header c;
  match r with
  | inl r => mret (c, r)
  | inr pos =>
      _ ← prez_assert (0 <? multibulklen (inp c));
      '(c, r) ← mb_loop (Z.to_nat (multibulklen (inp c))) c pos;
      match r with
      | inl r => mret (c, r)
      | inr pos =>
          let c := trim c pos in
          mret (c, if multibulklen (inp c) =? 0 then PREZ_OK else PREZ_ERR)
      end
  end.

(** ** The loop over the query buffer *)

(** [processCommand], on the state of the server and the client. *)
Context {St : Type} (processCommand : St -> prezClient -> cres (St * prezClient * Z)).

Fixpoint input_loop (fuel : nat) (s : St) (c : prezClient) : cres (St * prezClient) :=
  match fuel with
  | O => Undef
  | S fuel =>
      if bool_decide (querybuf (inp c) = []) then mret (s, c) else
      if has_flag c PREZ_BLOCKED || has_flag c PREZ_CLOSE_AFTER_REPLY then mret (s, c) else
      let c := if reqtype (inp c) =? 0
               then set_inp c (in_reqtype (inp c)
                      (if bool_decide (head (querybuf (inp c)) = Some 42) then PREZ_REQ_MULTIBULK else PREZ_REQ_INLINE))
               else c in
      '(c, r) ← (if reqtype (inp c) =? PREZ_REQ_INLINE then processInlineBuffer c
                 else if reqtype (inp c) =? PREZ_REQ_MULTIBULK then processMultibulkBuffer c
                 else Exit);
      if negb (r =? PREZ_OK) then mret (s, c) else
      if bool_decide (argv (inp c) = []) then input_loop fuel s (resetClient c) else
      '(s, c, r) ← processCommand s c;
      input_loop fuel s (if r =? PREZ_OK then resetClient c else c)
  end.

(** A request takes at least one byte of the buffer. *)
Definition processInputBuffer (s : St) (c : prezClient) : cres (St * prezClient) :=
  input_loop (S (length (querybuf (inp c)))) s c.

(** ** Reading from the socket *)

(** How much to read: no more than the rest of a large argument. *)
Definition query_readlen (c : prezClient) : Z :=
  let i := inp c in
  if (reqtype i =? PREZ_REQ_MULTIBULK) && negb (multibulklen i =? 0) && negb (bulklen i =? -1)
     && (PREZ_MBULK_BIG_ARG <=? bulklen i)
  then let remaining := wrap_s32 (wrap_u32 (bulklen i + 2) - qlen c) in
       if remaining <? PREZ_IOBUF_LEN then remaining else PREZ_IOBUF_LEN
  else PREZ_IOBUF_LEN.

(** What [read] finds. *)
Inductive rres := RData (segs : list bytes) | RError | RClosed.

Definition client_max_querybuf_len : Z := 1024 * 1024 * 1024.

(** [None]: the client was freed.  The segments that are left are read at the next event. *)
Definition readQueryFromClient (s : St) (c : prezClient) (r : rres)
    : cres (St * option prezClient * list bytes) :=
  match r with
  | RError | RClosed => mret (s, None, [])
  | RData segs =>
      match sock_read (Z.to_nat (query_readlen c)) segs with
      | None | Some ([], _) => mret (s, Some c, segs)
      | Some (b, segs) =>
          let c := set_inp c (in_querybuf (inp c) (querybuf (inp c) ++ b)) in
          if client_max_querybuf_len <? qlen c then mret (s, None, segs) else
          '(s, c) ← processInputBuffer s c;
          mret (s, Some c, segs)
      end
  end.
End Parse.

(** ** Requests on the wire *)

(** The arguments a server accepts: at most 2^20 of them, of at most 512 MB each. *)
Definition arg_ok (a : bytes) : Prop := Z.of_nat (length a) <= 512 * 1024 * 1024.

Definition enc_header (args : list bytes) : bytes := 42 :: dec (Z.of_nat (length args)).

Definition enc_request (args : list bytes) : bytes := enc_header args ++ CRLF ++ concat (bulk <$> args).

(** What is left of a request whose next argument has the length field [b], -1 when the
    length was not read yet. *)
Definition rest_bytes (b : Z) (rem : list bytes) : bytes :=
  if b =? -1 then concat (bulk <$> rem)
  else match rem with [] => [] | a :: rem => a ++ CRLF ++ concat (bulk <$> rem) end.

(** The fields the parser does not touch. *)
Record same_client (c c' : prezClient) : Prop := {
  sc_fd : fd c' = fd c;
  sc_flags : flags c' = flags c;
  sc_close : to_close c' = to_close c;
  sc_out : out c' = out c;
  sc_type : reqtype (inp c') = reqtype (inp c);
  sc_cmd : cmd (inp c') = cmd (inp c);
}.

#[global] Instance same_client_refl : Reflexive same_client.
Proof. by constructor. Qed.

#[global] Instance same_client_trans : Transitive same_client.
Proof. intros c1 c2 c3 [] []. constructor; congruence. Qed.

(** The client has parsed [args0] and waits for [rem]; the buffer from [pos] on and the
    bytes [fut] still to come are the rest of the request and [tail]. *)
Record at_arg (fut tail : bytes) (c : prezClient) (pos : nat) (args0 rem : list bytes) : Prop := {
  aa_len : multibulklen (inp c) = Z.of_nat (length rem);
  aa_argv : obj_sds <$> argv (inp c) = args0;
  aa_pos : (pos <= length (querybuf (inp c)))%nat;
  aa_data : drop pos (querybuf (inp c)) ++ fut = rest_bytes (bulklen (inp c)) rem ++ tail;
  aa_bulk : bulklen (inp c) = -1 \/ exists a r, rem = a :: r /\ bulklen (inp c) = Z.of_nat (length a);
  aa_room : qlen c <= PREZ_INLINE_MAX_SIZE
    \/ (pos = 0%nat /\ PREZ_MBULK_BIG_ARG <= bulklen (inp c) /\ qlen c <= bulklen (inp c) + 2);
}.

(** What is left in the buffer of a client that waits is short. *)
Definition calm (c : prezClient) (pos : nat) : Prop :=
  let n := Z.of_nat (length (drop pos (querybuf (inp c)))) in
  (bulklen (inp c) = -1 -> n <= 64) /\ (bulklen (inp c) <> -1 -> n < bulklen (inp c) + 2).

Lemma dec_plain n : 0 <= n -> Forall (λ x, x <> CR) (dec n) /\ nonul (dec n).
Proof.
  intros Hn. pose proof (dec_digits n Hn) as Hd. split; (eapply Forall_impl; [exact Hd|]);
    unfold is_digit, CR; cbn; lia.
Qed.

Lemma string2ll_dec n : 0 <= n <= LLONG_MAX -> string2ll (dec n) = Some n.
Proof. intros Hn. apply string2ll_iff. split; [rng|]. by rewrite ll_repr_nonneg by lia. Qed.

(** The search for the end of a header [p ++ CRLF] in the part [q] of it that arrived. *)
Lemma find_cr p q fut r : Forall (λ x, x <> CR) p -> nonul p -> q ++ fut = p ++ CRLF ++ r ->
  match strchr q CR with
  | None => (length q <= length p)%nat
  | Some k => k = length p /\ (length p < length q)%nat
  end.
Proof.
  intros Hp Hn E. apply app_eq_inv in E as [(k & -> & E)|(k & -> & _)].
  - destruct k as [|x k].
    + rewrite app_nil_r, strchr_none by done. done.
    + injection E as <- _. rewrite strchr_app, length_app by done. cbn. lia.
  - apply Forall_app in Hp as [Hp _]. rewrite strchr_none, length_app by done. lia.
Qed.

Definition avail (c : prezClient) (pos : nat) : nat := length (drop pos (querybuf (inp c))).

Lemma mb_length_spec oe fut tail c pos args0 a rem :
  at_arg fut tail c pos args0 (a :: rem) -> arg_ok a -> bulklen (inp c) = -1 ->
  let n := (length (dec (Z.of_nat (length a))) + 3)%nat in
  (avail c pos < n)%nat /\ mb_length oe c pos = Ret (c, None)
  \/ (n <= avail c pos)%nat /\ exists c' pos', mb_length oe c pos = Ret (c', Some (inr pos')) /\ same_client c c'
     /\ bulklen (inp c') = Z.of_nat (length a) /\ at_arg fut tail c' pos' args0 (a :: rem)
     /\ (avail c' pos' = avail c pos - n)%nat.
Proof.
  intros [Hl Ha Hp Hd _ Hr] Hok Hb n. rewrite Hb in Hd, Hr. unfold arg_ok in Hok.
  assert (qlen c <= PREZ_INLINE_MAX_SIZE) as Hq by (unfold PREZ_MBULK_BIG_ARG in Hr; lia). clear Hr.
  unfold avail. set (Q := drop pos (querybuf (inp c))) in *. set (l := Z.of_nat (length a)) in *.
  assert (length Q = length (querybuf (inp c)) - pos)%nat as HQ by (unfold Q; apply length_drop).
  destruct (dec_plain l ltac:(lia)) as [Hcr Hnul].
  assert (Q ++ fut = (36 :: dec l) ++ CRLF ++ a ++ CRLF ++ concat (bulk <$> rem) ++ tail) as E.
  { rewrite Hd. change (rest_bytes (-1) (a :: rem)) with (bulk a ++ concat (bulk <$> rem)).
    rewrite bulk_app. fold l. cbn [app]. by rewrite <- !app_assoc. }
  pose proof (find_cr (36 :: dec l) Q fut _ ltac:(by constructor) ltac:(by constructor) E) as Hf.
  unfold mb_length. rewrite Hb. cbn [negb Z.eqb Pos.eqb]. fold Q. unfold qlen in *.
  destruct (strchr Q CR) as [k|].
  2:{ left. cbn [length] in Hf. rewrite (proj2 (Z.ltb_ge _ _)) by lia. split; [unfold n; lia|done]. }
  destruct Hf as [-> Hlt]. cbn [length] in Hlt |- *.
  destruct (Z.ltb_spec (Z.of_nat (length (querybuf (inp c))) - 2) (Z.of_nat (pos + S (length (dec l))))) as [Hs|Hs].
  { left. split; [unfold n; lia|done]. }
  right. split; [unfold n; lia|].
  assert (Q = (36 :: dec l) ++ CRLF ++ drop n Q) as EQ.
  { apply app_eq_inv in E as [(k & EQ & E)|(k & EQ & _)].
    - destruct k as [|x [|y k]]; [| |injection E as <- <- _]; rewrite EQ in *.
      + rewrite length_app in *. cbn in *. lia.
      + rewrite length_app in *. cbn in *. lia.
      + unfold n. cbn [app length]. rewrite Nat.add_comm. cbn [Nat.add drop].
        rewrite drop_app_ge by lia. replace (S (S (length (dec l))) - length (dec l))%nat with 2%nat by lia. done.
    - apply (f_equal length) in EQ. rewrite length_app in EQ. cbn in EQ. lia. }
  assert (drop pos (querybuf (inp c)) = Q) as EQ0 by done.
  assert (querybuf (inp c) !! pos = Some 36) as E36.
  { rewrite <- (Nat.add_0_r pos), <- lookup_drop, EQ0, EQ. done. }
  rewrite E36. cbn [of_ptr mbind cres_bind negb Z.eqb Pos.eqb].
  assert (take (pos + S (length (dec l)) - (pos + 1)) (drop (pos + 1) (querybuf (inp c))) = dec l) as Ed.
  { rewrite <- drop_drop, EQ0, EQ. cbn [drop app]. replace (pos + S (length (dec l)) - (pos + 1))%nat with (length (dec l)) by lia.
    by rewrite drop_0, take_app_length. }
  rewrite Ed, string2ll_dec by (unfold LLONG_MAX; lia).
  rewrite (proj2 (Z.ltb_ge l 0)), (proj2 (Z.ltb_ge _ l)) by lia. cbn [orb].
  assert (drop (pos + S (length (dec l)) + 2) (querybuf (inp c)) = drop n Q) as En.
  { unfold Q. rewrite drop_drop. f_equal. unfold n. lia. }
  assert (length (drop n Q) = length Q - n)%nat as Hln by apply length_drop.
  assert (drop n Q ++ fut = rest_bytes l (a :: rem) ++ tail) as Erest.
  { rewrite EQ, <- !app_assoc in E. apply app_inv_head in E. apply app_inv_head in E.
    unfold rest_bytes. rewrite (proj2 (Z.eqb_neq l (-1))) by lia. by rewrite E, <- !app_assoc. }
  assert (l = -1 \/ exists x y, a :: rem = x :: y /\ l = Z.of_nat (length x)) as Hbl by (right; by exists a, rem).
  destruct (PREZ_MBULK_BIG_ARG <=? l).
  - eexists _, 0%nat. split; [done|]. split_and!; [by constructor|done| |cbn; by rewrite En].
    constructor; cbn; try done; [lia|by rewrite En, drop_0|left; unfold qlen; cbn; rewrite length_drop; lia].
  - eexists _, _. split; [done|]. split_and!; [by constructor|done| |cbn; by rewrite En].
    constructor; cbn; try done; [lia|by rewrite En|by left].
Qed.

Lemma mb_argument_spec fut tail c pos args0 a rem :
  at_arg fut tail c pos args0 (a :: rem) -> arg_ok a -> bulklen (inp c) = Z.of_nat (length a) ->
  (avail c pos < length a + 2)%nat /\ mb_argument c pos = None
  \/ (length a + 2 <= avail c pos)%nat /\ exists c' pos', mb_argument c pos = Some (c', pos') /\ same_client c c'
     /\ bulklen (inp c') = -1 /\ at_arg fut tail c' pos' (args0 ++ [a]) rem
     /\ (avail c' pos' = avail c pos - (length a + 2))%nat.
Proof.
  intros [Hl Ha Hp Hd _ Hr] Hok Hb. rewrite Hb in Hd, Hr. unfold arg_ok, PREZ_MBULK_BIG_ARG, PREZ_INLINE_MAX_SIZE in *.
  unfold avail, mb_argument. rewrite Hb, Nat2Z.id. unfold qlen in *. set (q := querybuf (inp c)) in *.
  assert (length (drop pos q) = length q - pos)%nat as HQ by apply length_drop.
  rewrite (wrap_u64_id (Z.of_nat (length q) - Z.of_nat pos)) by rng.
  assert (wrap_u32 (Z.of_nat (length a) + 2) = Z.of_nat (length a) + 2) as -> by (apply wrap_u_small; lia).
  destruct (Z.ltb_spec (Z.of_nat (length q) - Z.of_nat pos) (Z.of_nat (length a) + 2)) as [Hlt|Hge].
  { left. split; [lia|done]. }
  right. split; [lia|]. rewrite wrap_s32_id by rng.
  unfold rest_bytes in Hd. rewrite (proj2 (Z.eqb_neq _ _)) in Hd by lia.
  assert (drop pos q = a ++ CRLF ++ drop (length a + 2) (drop pos q)
    /\ drop (length a + 2) (drop pos q) ++ fut = concat (bulk <$> rem) ++ tail) as [Eq Et].
  { assert (drop pos q = (a ++ CRLF) ++ drop (length a + 2) (drop pos q)) as Eq.
    { apply (f_equal (take (length a + 2))) in Hd. rewrite take_app_le in Hd by lia.
      rewrite <- (take_drop (length a + 2) (drop pos q)) at 1. f_equal. rewrite Hd, <- !app_assoc.
      rewrite (app_assoc a), take_app_le by (rewrite length_app; cbn; lia). by rewrite take_ge by (rewrite length_app; cbn; lia). }
    split; [by rewrite app_assoc|]. rewrite Eq, <- !app_assoc in Hd. apply app_inv_head in Hd. by apply app_inv_head in Hd. }
  assert (take (length a) (drop pos q) = a) as Eta by (rewrite Eq; by rewrite take_app_length).
  cbn [length] in Hl.
  destruct ((pos =? 0)%nat && _ && _) eqn:Ebig.
  - apply andb_true_iff in Ebig as [[Ep Hbig]%andb_true_iff Elen]. apply Nat.eqb_eq in Ep. subst pos.
    apply Z.eqb_eq in Elen. rewrite drop_0 in *.
    assert (drop (length a + 2) q = []) as E0 by (apply drop_ge; lia).
    eexists _, 0%nat. split; [done|]. split_and!; [by constructor|done| |cbn; lia].
    constructor; cbn; try done; [lia|by rewrite fmap_app, Ha; cbn; rewrite Eta|by rewrite E0 in Et|by left|left; unfold qlen, PREZ_INLINE_MAX_SIZE; cbn; lia].
  - eexists _, _. split; [done|]. split_and!; [by constructor|done| |cbn].
    + constructor; cbn; try done; [lia|by rewrite fmap_app, Ha; cbn; rewrite Eta, obj_sds_create|lia| |by left|].
      * fold q. rewrite <- Et, drop_drop. do 2 f_equal. lia.
      * left. unfold qlen. cbn. fold q. destruct Hr as [Hr|(-> & Hbig & Hr)]; [done|].
        unfold PREZ_MBULK_BIG_ARG in Ebig. rewrite (proj2 (Z.leb_le _ _) Hbig), (proj2 (Z.eqb_eq (Z.of_nat (length q)) _)) in Ebig by lia. done.
    + fold q. rewrite !length_drop. lia.
Qed.

(** The loop consumes every argument that is complete and stops where the data ends. *)
Lemma mb_loop_spec oe fut tail rem : forall c pos args0,
  Forall arg_ok rem -> at_arg fut tail c pos args0 rem ->
  exists c' pos' args' rem', mb_loop oe (length rem) c pos = Ret (c', inr pos') /\ same_client c c'
    /\ at_arg fut tail c' pos' args' rem' /\ args0 ++ rem = args' ++ rem'
    /\ (rem' <> [] -> calm c' pos')
    /\ ((length (rest_bytes (bulklen (inp c)) rem) <= avail c pos)%nat -> rem' = []).
Proof.
  induction rem as [|a rem IH]; intros c pos args0 Hok Hat.
  { exists c, pos, args0, []. split; [done|]. split_and!; try done. }
  apply Forall_cons in Hok as [Ha Hok]. cbn [mb_loop length].
  assert (forall c1 pos1, same_client c c1 -> bulklen (inp c1) = Z.of_nat (length a) ->
    at_arg fut tail c1 pos1 args0 (a :: rem) -> exists c' pos' args' rem',
      match mb_argument c1 pos1 with
      | None => mret (c1, inr pos1)
      | Some (c, pos) => mb_loop oe (length rem) c pos
      end = Ret (c', inr pos') /\ same_client c c' /\ at_arg fut tail c' pos' args' rem'
      /\ args0 ++ a :: rem = args' ++ rem' /\ (rem' <> [] -> calm c' pos')
      /\ ((length a + 2 + length (concat (bulk <$> rem)) <= avail c1 pos1)%nat -> rem' = [])) as Harg.
  { intros c1 pos1 Hs Hb Hat1. destruct (mb_argument_spec fut tail c1 pos1 args0 a rem Hat1 Ha Hb)
      as [[Hlt ->]|(Hge & c2 & pos2 & -> & Hs2 & Hb2 & Hat2 & Hav)].
    - exists c1, pos1, args0, (a :: rem). split; [done|]. split_and!; try done; [|intros; lia].
      intros _. split; [lia|]. intros _. unfold avail in Hlt. lia.
    - destruct (IH c2 pos2 (args0 ++ [a]) Hok Hat2) as (c3 & pos3 & args' & rem' & E & Hs3 & Hat3 & Eargs & Hcalm & Hfull).
      exists c3, pos3, args', rem'. split; [done|]. split_and!; try done.
      + by transitivity c1; [|transitivity c2].
      + rewrite <- Eargs, <- app_assoc. done.
      + intros Hall. apply Hfull. rewrite Hb2, Hav. change (rest_bytes (-1) rem) with (concat (bulk <$> rem)). lia. }
  destruct (aa_bulk _ _ _ _ _ _ Hat) as [Hb|(x & y & [= <- <-] & Hb)].
  - destruct (mb_length_spec oe fut tail c pos args0 a rem Hat Ha Hb)
      as [[Hlt ->]|(Hge & c1 & pos1 & -> & Hs1 & Hb1 & Hat1 & Hav)]; cbn [mbind cres_bind].
    + assert (length (dec (Z.of_nat (length a))) <= 20)%nat as Hd.
      { apply (length_dec_le _ 19). unfold arg_ok in Ha. split; [lia|]. cbn. lia. }
      exists c, pos, args0, (a :: rem). split; [done|]. split_and!; try done.
      * intros _. unfold calm. rewrite Hb. unfold avail in Hlt. split; [lia|done].
      * rewrite Hb. change (rest_bytes (-1) (a :: rem)) with (bulk a ++ concat (bulk <$> rem)).
        rewrite length_app, bulk_app. cbn [length app]. rewrite !length_app. cbn. lia.
    + destruct (Harg c1 pos1 Hs1 Hb1 Hat1) as (c' & pos' & args' & rem' & E & ? & ? & ? & ? & Hfull).
      exists c', pos', args', rem'. split; [done|]. split_and!; try done.
      intros Hall. apply Hfull. rewrite Hav, Hb in *. revert Hall.
      change (rest_bytes (-1) (a :: rem)) with (bulk a ++ concat (bulk <$> rem)).
      rewrite length_app, bulk_app. cbn [length app]. rewrite !length_app. cbn. lia.
  - unfold mb_length. rewrite Hb, (proj2 (Z.eqb_neq _ _)) by lia. cbn [negb mbind cres_bind mret cres_ret].
    destruct (Harg c pos) as (c' & pos' & args' & rem' & E & ? & ? & ? & ? & Hfull); try done.
    exists c', pos', args', rem'. split; [done|]. split_and!; try done. intros Hall. apply Hfull.
    unfold rest_bytes in Hall. rewrite (proj2 (Z.eqb_neq _ _)), !length_app in Hall by lia. cbn in Hall. lia.
Qed.

Definition req_ok (args : list bytes) : Prop :=
  args <> [] /\ Z.of_nat (length args) <= 1024 * 1024 /\ Forall arg_ok args.

(** The client has read nothing of the request yet, or some of its arguments. *)
Record fresh (fut tail : bytes) (c : prezClient) (args : list bytes) : Prop := {
  fr_len : multibulklen (inp c) = 0;
  fr_bulk : bulklen (inp c) = -1;
  fr_argv : argv (inp c) = [];
  fr_data : querybuf (inp c) ++ fut = enc_request args ++ tail;
  fr_room : qlen c <= PREZ_INLINE_MAX_SIZE;
}.

Definition parsing (fut tail : bytes) (c : prezClient) (args : list bytes) : Prop :=
  fresh fut tail c args
  \/ exists args0 rem, rem <> [] /\ at_arg fut tail c 0 args0 rem /\ args0 ++ rem = args.

(** The request is complete; the rest of the buffer belongs to the next ones. *)
Record parsed (fut tail : bytes) (c : prezClient) (args : list bytes) : Prop := {
  pa_len : multibulklen (inp c) = 0;
  pa_bulk : bulklen (inp c) = -1;
  pa_argv : obj_sds <$> argv (inp c) = args;
  pa_data : querybuf (inp c) ++ fut = tail;
  pa_room : qlen c <= PREZ_INLINE_MAX_SIZE;
}.

Lemma mb_header_spec oe fut tail c args : fresh fut tail c args -> req_ok args ->
  (qlen c <= 32 /\ (length tail < length fut)%nat /\ mb_header oe c = Ret (c, inl PREZ_ERR))
  \/ exists c' pos, mb_header oe c = Ret (c', inr pos) /\ same_client c c' /\ at_arg fut tail c' pos [] args
     /\ bulklen (inp c') = -1.
Proof.
  intros [Hl Hb Ha Hd Hr] (Hne & Hn & Hok). unfold mb_header. rewrite Hl, Ha. cbn [negb Z.eqb].
  rewrite (bool_decide_true (@nil robj = [])) by done. cbn [prez_assert mbind cres_bind]. unfold qlen in *.
  set (q := querybuf (inp c)) in *. set (n := Z.of_nat (length args)) in *.
  destruct (dec_plain n ltac:(lia)) as [Hcr Hnul].
  assert (q ++ fut = (42 :: dec n) ++ CRLF ++ concat (bulk <$> args) ++ tail) as E.
  { rewrite Hd. unfold enc_request, enc_header. fold n. by rewrite <- !app_assoc. }
  assert (length (dec n) <= 20)%nat as Hdl by (apply (length_dec_le _ 19); split; [lia|cbn; lia]).
  assert (length q + length fut = 3 + length (dec n) + length (concat (bulk <$> args)) + length tail)%nat as El.
  { apply (f_equal length) in E. rewrite !length_app in E. cbn in E. lia. }
  pose proof (find_cr (42 :: dec n) q fut _ ltac:(by constructor) ltac:(by constructor) E) as Hf.
  destruct (strchr q CR) as [k|].
  2:{ left. cbn [length] in Hf. rewrite (proj2 (Z.ltb_ge _ _)) by lia. split_and!; [lia|lia|done]. }
  destruct Hf as [-> Hlt]. cbn [length] in Hlt |- *.
  destruct (Z.ltb_spec (Z.of_nat (length q) - 2) (Z.of_nat (S (length (dec n))))) as [Hs|Hs].
  { left. split_and!; [lia|lia|done]. }
  right. apply app_eq_inv in E as [(k & EQ & E)|(k & EQ & _)].
  2:{ apply (f_equal length) in EQ. rewrite length_app in EQ. cbn in EQ. lia. }
  destruct k as [|x [|y k]]; [rewrite EQ in Hlt; rewrite length_app in Hlt; cbn in Hlt; lia
    |rewrite EQ in Hs; rewrite length_app in Hs; cbn in Hs; lia|injection E as <- <- E].
  rewrite bool_decide_true by (by rewrite EQ). cbn [prez_assert mbind cres_bind].
  assert (take (S (length (dec n)) - 1) (drop 1 q) = dec n) as ->.
  { rewrite EQ. cbn [app drop]. rewrite Nat.sub_succ, Nat.sub_0_r, drop_0. by rewrite take_app_length. }
  rewrite string2ll_dec by (unfold LLONG_MAX; lia).
  assert (0 < n) by (unfold n; destruct args; [done|cbn; lia]).
  rewrite (proj2 (Z.ltb_ge _ n)), (proj2 (Z.leb_gt n 0)) by lia. eexists _, _. split; [done|].
  split; [by constructor|]. split; [|done]. constructor; cbn; try done.
  - fold q. rewrite EQ, length_app. cbn. lia.
  - fold q. rewrite Hb. change (rest_bytes (-1) args) with (concat (bulk <$> args)). rewrite E. f_equal.
    rewrite EQ. rewrite drop_app_ge by (cbn; lia). cbn [length].
    replace (length (dec n) + 2 - length (dec n))%nat with 2%nat by lia.
    by replace (S (length (dec n) + 2) - S (length (dec n)))%nat with 2%nat by lia.
  - by left.
  - left. unfold qlen. cbn. by fold q.
Qed.

Lemma trim_same c pos : same_client c (trim c pos).
Proof. by constructor. Qed.

(** Trimming the consumed part of the buffer. *)
Lemma at_arg_trim fut tail c pos args0 rem : at_arg fut tail c pos args0 rem -> rem <> [] -> calm c pos ->
  at_arg fut tail (trim c pos) 0 args0 rem /\ calm (trim c pos) 0.
Proof.
  intros [Hl Ha Hp Hd Hb _] Hne [Hc1 Hc2]. split.
  - constructor; cbn; try done; [lia|]. unfold qlen. cbn. unfold PREZ_INLINE_MAX_SIZE, PREZ_MBULK_BIG_ARG.
    destruct (decide (bulklen (inp c) = -1)) as [E|E]; [left; specialize (Hc1 E); lia|]. specialize (Hc2 E). lia.
  - unfold calm. cbn. done.
Qed.

Lemma processMultibulk_spec oe fut tail c args : parsing fut tail c args -> req_ok args ->
  exists c' r, processMultibulkBuffer oe c = Ret (c', r) /\ same_client c c'
    /\ ((r = PREZ_ERR /\ parsing fut tail c' args /\ calm c' 0 /\ (length tail < length fut)%nat)
        \/ (r = PREZ_OK /\ parsed fut tail c' args)).
Proof.
  intros Hp Hok. pose proof Hok as (Hne & _ & Hargs). unfold processMultibulkBuffer.
  assert (forall c1 pos args0 rem, same_client c c1 -> at_arg fut tail c1 pos args0 rem -> rem <> [] -> args0 ++ rem = args ->
    exists c' r, (_ ← prez_assert (0 <? multibulklen (inp c1));
      '(c, r) ← mb_loop oe (Z.to_nat (multibulklen (inp c1))) c1 pos;
      match r with
      | inl r => mret (c, r)
      | inr pos => mret (trim c pos, if multibulklen (inp (trim c pos)) =? 0 then PREZ_OK else PREZ_ERR)
      end) = Ret (c', r) /\ same_client c c'
    /\ ((r = PREZ_ERR /\ parsing fut tail c' args /\ calm c' 0 /\ (length tail < length fut)%nat)
        \/ (r = PREZ_OK /\ parsed fut tail c' args))) as Hloop.
  { intros c1 pos args0 rem Hs Hat Hrem Eargs. rewrite (aa_len _ _ _ _ _ _ Hat), Nat2Z.id.
    rewrite (proj2 (Z.ltb_lt _ _)) by (destruct rem; [done|cbn; lia]). cbn [prez_assert mbind cres_bind].
    assert (Forall arg_ok rem) as Hr by (rewrite <- Eargs in Hargs; by apply Forall_app in Hargs as [_ ?]).
    destruct (mb_loop_spec oe fut tail rem c1 pos args0 Hr Hat)
      as (c2 & pos2 & args2 & rem2 & -> & Hs2 & Hat2 & Eargs2 & Hcalm & Hfull).
    cbn [mbind cres_bind]. eexists _, _. split; [done|].
    split; [by transitivity c1; [|transitivity c2; [|apply trim_same]]|].
    change (multibulklen (inp (trim c2 pos2))) with (multibulklen (inp c2)). rewrite (aa_len _ _ _ _ _ _ Hat2).
    destruct rem2 as [|a rem2].
    - right. split; [done|]. destruct Hat2 as [Hl2 Ha2 Hp2 Hd2 Hb2 Hr2].
      assert (bulklen (inp c2) = -1) as Hb by (destruct Hb2 as [?|(? & ? & [=] & _)]; done).
      rewrite Hb in Hd2, Hr2. constructor; cbn; try done.
      + rewrite Ha2. rewrite app_nil_r in Eargs2. congruence.
      + unfold qlen in *. cbn. rewrite length_drop. unfold PREZ_INLINE_MAX_SIZE, PREZ_MBULK_BIG_ARG in *. lia.
    - left. destruct (at_arg_trim _ _ _ _ _ _ Hat2 ltac:(done) (Hcalm ltac:(done))) as [Hat3 Hc3].
      split_and!; [done| |done|].
      + right. exists args2, (a :: rem2). split_and!; [done|done|congruence].
      + destruct (decide (length tail < length fut)%nat); [done|]. exfalso.
        assert ((a :: rem2) = []) as E; [|done]. apply Hfull. unfold avail.
        pose proof (f_equal length (aa_data _ _ _ _ _ _ Hat)) as El. rewrite !length_app in El. lia. }
  destruct Hp as [Hf|(args0 & rem & Hrem & Hat & Eargs)].
  - destruct (mb_header_spec oe fut tail c args Hf Hok) as [(Hq & Hlt & ->)|(c1 & pos & -> & Hs & Hat & Hb)]; cbn [mbind cres_bind].
    + exists c, PREZ_ERR. split_and!; try done. left. split_and!; try done; [by left|].
      destruct Hf as [_ Hb _ _ _]. unfold calm. rewrite Hb, drop_0. unfold qlen in Hq. split; [lia|done].
    + by apply (Hloop c1 pos [] args).
  - assert (mb_header oe c = Ret (c, inr 0%nat)) as ->.
    { unfold mb_header. rewrite (aa_len _ _ _ _ _ _ Hat), (proj2 (Z.eqb_neq _ _)) by (destruct rem; [done|cbn; lia]). done. }
    cbn [mbind cres_bind]. by apply (Hloop c 0%nat args0 rem).
Qed.

(** ** Running the requests *)

(** [processCommand] answered with [t]: the query buffer and the flags the loop tests are the
    same, and [t] is queued. *)
Record replied (t : bytes) (c c' : prezClient) : Prop := {
  re_fd : fd c' = fd c;
  re_blocked : has_flag c' PREZ_BLOCKED = has_flag c PREZ_BLOCKED;
  re_closing : has_flag c' PREZ_CLOSE_AFTER_REPLY = has_flag c PREZ_CLOSE_AFTER_REPLY;
  re_querybuf : querybuf (inp c') = querybuf (inp c);
  re_ok : out_ok (out c');
  re_stream : stream (out c') = stream (out c) ++ t;
  re_sent : sentlen (out c') = sentlen (out c);
  re_room : sumZ weight (reply (out c')) <= sumZ weight (reply (out c)) + 3 * 2 ^ 20 + 4 * Z.of_nat (length t);
}.

(** What the parser needs of the command layer, in terms of an abstract state [A]: a command
    whose answer is defined is run to its end, and its answer is queued. *)
Class Executor {St A : Type} (processCommand : St -> prezClient -> cres (St * prezClient * Z))
    (R : St -> A -> Prop) (answer : A -> list bytes -> option (A * bytes)) : Prop := {
  ex_run s a c args a' t :
    R s a -> obj_sds <$> argv (inp c) = args -> args <> [] -> answer a args = Some (a', t) ->
    ready 3 (Z.of_nat (length t)) c ->
    exists s' c', processCommand s c = Ret (s', c', PREZ_OK) /\ R s' a' /\ replied t c c';
}.

(** The answers to a list of requests. *)
Fixpoint answers {A : Type} (answer : A -> list bytes -> option (A * bytes)) (a : A) (reqs : list (list bytes))
    : option (A * list bytes) :=
  match reqs with
  | [] => Some (a, [])
  | r :: reqs => '(a, t) ← answer a r; '(a, ts) ← answers answer a reqs; Some (a, t :: ts)
  end.

(** Between two reads: at the start of a request, or inside one. *)
Definition at_start (fut : bytes) (reqs : list (list bytes)) (c : prezClient) : Prop :=
  reqtype (inp c) = 0 /\ multibulklen (inp c) = 0 /\ bulklen (inp c) = -1 /\ argv (inp c) = []
  /\ querybuf (inp c) ++ fut = concat (enc_request <$> reqs) /\ qlen c <= PREZ_INLINE_MAX_SIZE.

Definition inside (fut : bytes) (reqs : list (list bytes)) (c : prezClient) : Prop :=
  reqtype (inp c) = PREZ_REQ_MULTIBULK
  /\ exists r rs, reqs = r :: rs /\ parsing fut (concat (enc_request <$> rs)) c r.

Definition waiting (fut : bytes) (reqs : list (list bytes)) (c : prezClient) : Prop :=
  at_start fut reqs c \/ inside fut reqs c.

Lemma enc_request_ne args : (0 < length (enc_request args))%nat.
Proof. cbn. lia. Qed.

Lemma parsing_longer fut tail c args : parsing fut tail c args ->
  (length tail < length (querybuf (inp c)) + length fut)%nat.
Proof.
  intros [[_ _ _ Hd _]|(args0 & rem & Hne & [_ _ _ Hd Hb _] & _)]; apply (f_equal length) in Hd; rewrite !length_app in Hd.
  - pose proof (enc_request_ne args). lia.
  - rewrite drop_0 in Hd. destruct rem as [|a rem]; [done|].
    assert (0 < length (rest_bytes (bulklen (inp c)) (a :: rem)))%nat; [|lia].
    unfold rest_bytes. destruct (_ =? _); [cbn; lia|]. rewrite !length_app. cbn. lia.
Qed.

Section Serve.
Context (oe : oenv) {St A : Type}.
Context (processCommand : St -> prezClient -> cres (St * prezClient * Z)).
Context (R : St -> A -> Prop) (answer : A -> list bytes -> option (A * bytes)).
Context `{!Executor processCommand R answer}.

(** The client takes requests and has room for [k] answers of total length [n]. *)
Definition open (k n : Z) (c : prezClient) : Prop :=
  has_flag c PREZ_BLOCKED = false /\ ready (3 * k) n c.

Lemma same_open k n c c' : same_client c c' -> open k n c -> open k n c'.
Proof.
  intros [Ef Efl _ Eo _ _] [Hb (? & ? & ? & ?)]. unfold open, ready, has_flag in *. rewrite Ef, Efl, Eo. done.
Qed.

Lemma replied_open k n t c c' : replied t c c' -> open (k + 1) (Z.of_nat (length t) + n) c -> open k n c'.
Proof.
  intros [? Eb Ec _ ? _ _ ?] [? (? & ? & ? & ?)]. unfold open, ready. rewrite Eb, Ec. split_and!; try done; try congruence. lia.
Qed.

(** One round of the loop on a client that waits. *)
Lemma input_round fuel s c fut reqs :
  waiting fut reqs c -> Forall req_ok reqs -> has_flag c PREZ_BLOCKED = false ->
  has_flag c PREZ_CLOSE_AFTER_REPLY = false -> querybuf (inp c) <> [] ->
  exists r rs c1 res, reqs = r :: rs /\ same_client (set_inp c (in_reqtype (inp c) PREZ_REQ_MULTIBULK)) c1
    /\ ((res = PREZ_ERR /\ inside fut reqs c1 /\ calm c1 0 /\ (length (concat (enc_request <$> rs)) < length fut)%nat
         /\ input_loop oe processCommand (S fuel) s c = Ret (s, c1))
        \/ (res = PREZ_OK /\ parsed fut (concat (enc_request <$> rs)) c1 r
            /\ (length (querybuf (inp c1)) < length (querybuf (inp c)))%nat
            /\ input_loop oe processCommand (S fuel) s c
               = ('(s, c, x) ← processCommand s c1;
                  input_loop oe processCommand fuel s (if x =? PREZ_OK then resetClient c else c)))).
Proof.
  intros Hw Hok Hb Hc Hq. cbn [input_loop]. rewrite (bool_decide_false (querybuf (inp c) = [])) by done.
  rewrite Hb, Hc. cbn [orb].
  set (c0 := if reqtype (inp c) =? 0 then _ else c).
  assert (c0 = set_inp c (in_reqtype (inp c) PREZ_REQ_MULTIBULK)
    /\ exists r rs, reqs = r :: rs /\ parsing fut (concat (enc_request <$> rs)) c0 r) as (E0 & r & rs & -> & Hp).
  { subst c0. destruct Hw as [(Ht & Hl & Hbl & Ha & Hd & Hr)|(Ht & r & rs & -> & Hp)]; rewrite Ht.
    - destruct reqs as [|r rs]; [apply app_eq_nil in Hd as [? _]; done|]. cbn [Z.eqb].
      assert (head (querybuf (inp c)) = Some 42) as Eh.
      { destruct (querybuf (inp c)) as [|x q]; [done|]. cbn in Hd. by injection Hd as ->. }
      rewrite (bool_decide_true (_ = Some 42)) by done. split; [done|]. exists r, rs. split; [done|]. left.
      by constructor.
    - split; [|by exists r, rs]. destruct c as [? ? ? [] ?]. cbn in *. by subst. }
  clearbody c0. subst c0. set (c2 := set_inp c (in_reqtype (inp c) PREZ_REQ_MULTIBULK)) in *. apply Forall_cons in Hok as [Hr Hok].
  destruct (processMultibulk_spec oe fut _ c2 r Hp Hr) as (c1 & res & E & Hs & Hres).
  change (reqtype (inp c2) =? PREZ_REQ_INLINE) with false. change (reqtype (inp c2) =? PREZ_REQ_MULTIBULK) with true.
  cbn match. rewrite E. cbn [mbind cres_bind]. exists r, rs, c1, res. split; [done|]. split; [done|].
  destruct Hres as [(-> & Hp1 & Hcalm & Hlt)|(-> & Hp1)].
  - left. split; [done|]. split; [|done]. split; [by rewrite (sc_type _ _ Hs)|by exists r, rs].
  - right. split_and!; try done.
    + pose proof (parsing_longer _ _ _ _ Hp) as Hl. pose proof (f_equal length (pa_data _ _ _ _ Hp1)) as El.
      rewrite length_app in El. change (querybuf (inp c2)) with (querybuf (inp c)) in Hl. lia.
    + change (negb (PREZ_OK =? PREZ_OK)) with false. cbn match. rewrite bool_decide_false; [done|].
      intros E1. pose proof (pa_argv _ _ _ _ Hp1) as Ea. rewrite E1 in Ea. destruct Hr as [Hne _]. by destruct r.
Qed.

Lemma input_loop_spec fuel : forall s a c fut reqs a' ts,
  waiting fut reqs c -> Forall req_ok reqs -> R s a -> answers answer a reqs = Some (a', ts) ->
  open (Z.of_nat (length reqs)) (Z.of_nat (length (concat ts))) c -> (length (querybuf (inp c)) < fuel)%nat ->
  exists s' c' reqs1 reqs2 a1 ts1 ts2, input_loop oe processCommand fuel s c = Ret (s', c')
    /\ reqs = reqs1 ++ reqs2 /\ ts = ts1 ++ ts2 /\ R s' a1 /\ answers answer a1 reqs2 = Some (a', ts2)
    /\ waiting fut reqs2 c' /\ calm c' 0 /\ (fut = [] -> reqs2 = [])
    /\ stream (out c') = stream (out c) ++ concat ts1 /\ sentlen (out c') = sentlen (out c)
    /\ open (Z.of_nat (length reqs2)) (Z.of_nat (length (concat ts2))) c'.
Proof.
  induction fuel as [|fuel IH]; intros s a c fut reqs a' ts Hw Hok HR Hans Hopen Hf; [lia|].
  destruct (decide (querybuf (inp c) = [])) as [Eq|Hq].
  { exists s, c, [], reqs, a, [], ts. cbn [input_loop]. rewrite bool_decide_true by done.
    rewrite app_nil_r. split_and!; try done.
    - unfold calm. rewrite Eq. cbn. destruct Hw as [(_ & _ & -> & _)|(_ & r & rs & _ & [[_ -> _ _ _]|(? & ? & _ & Hat & _)])];
        [lia|lia|]. split; [lia|]. destruct (aa_bulk _ _ _ _ _ _ Hat) as [?|(? & ? & _ & ->)]; [done|lia].
    - intros ->. destruct Hw as [(_ & _ & _ & _ & Hd & _)|(_ & r & rs & _ & Hp)].
      + rewrite Eq in Hd. destruct reqs; [done|]. cbn in Hd. done.
      + apply parsing_longer in Hp. rewrite Eq in Hp. cbn in Hp. lia. }
  destruct Hopen as [Hb Hready]. pose proof Hready as (_ & Hcl & _).
  destruct (input_round fuel s c fut reqs Hw Hok Hb Hcl Hq) as (r & rs & c1 & res & -> & Hs & Hres).
  assert (open (Z.of_nat (length (r :: rs))) (Z.of_nat (length (concat ts))) c1) as Hopen1 by (by eapply same_open).
  assert (out c1 = out c) as Eo by (by rewrite (sc_out _ _ Hs)).
  destruct Hres as [(-> & Hin & Hcalm & Hlt & E)|(-> & Hp & Hlen & E)].
  { exists s, c1, [], (r :: rs), a, [], ts. rewrite E, Eo, app_nil_r. split_and!; try done; [by right|]. intros ->. cbn in Hlt. lia. }
  cbn [answers] in Hans. destruct (answer a r) as [[a1 t]|] eqn:Er; [|done]. cbn in Hans.
  destruct (answers answer a1 rs) as [[a2 ts']|] eqn:Ers; [|done]. injection Hans as -> <-.
  apply Forall_cons in Hok as [Hr Hok]. cbn [concat length] in Hopen1. rewrite length_app in Hopen1.
  destruct (ex_run s a c1 r a1 t HR (pa_argv _ _ _ _ Hp) (proj1 Hr) Er) as (s1 & c2 & Ex & HR1 & Hrep).
  { eapply ready_le; [apply Hopen1|lia|lia]. }
  rewrite E, Ex. cbn [mbind cres_bind]. change (PREZ_OK =? PREZ_OK) with true. cbn match.
  destruct (IH s1 a1 (resetClient c2) fut rs a' ts') as (s' & c' & q1 & q2 & a3 & ts1 & ts2 & Ei & -> & -> & HR' & Ha' & Hw' & Hc' & Hfut & Hst & Hse & Ho');
    try done.
  - left. cbn. unfold at_start, qlen. cbn. rewrite (re_querybuf _ _ _ Hrep). destruct Hp. done.
  - change (open (Z.of_nat (length rs)) (Z.of_nat (length (concat ts'))) c2). eapply replied_open; [exact Hrep|].
    split; [apply Hopen1|]. eapply ready_le; [apply Hopen1|lia|lia].
  - change (querybuf (inp (resetClient c2))) with (querybuf (inp c2)). rewrite (re_querybuf _ _ _ Hrep). lia.
  - exists s', c', (r :: q1), q2, a3, (t :: ts1), ts2. split_and!; try done.
    + rewrite Hst. change (out (resetClient c2)) with (out c2). rewrite (re_stream _ _ _ Hrep), Eo, <- app_assoc. done.
    + rewrite Hse. change (out (resetClient c2)) with (out c2). by rewrite (re_sent _ _ _ Hrep), Eo.
Qed.

(** *** Reading *)

Definition append_query (c : prezClient) (b : bytes) : prezClient :=
  set_inp c (in_querybuf (inp c) (querybuf (inp c) ++ b)).

Lemma readlen_cases c fut reqs : waiting fut reqs c -> calm c 0 -> Forall req_ok reqs ->
  0 < query_readlen c <= PREZ_IOBUF_LEN
  /\ (qlen c + query_readlen c <= PREZ_INLINE_MAX_SIZE
      \/ (reqtype (inp c) = PREZ_REQ_MULTIBULK /\ PREZ_MBULK_BIG_ARG <= bulklen (inp c)
          /\ qlen c + query_readlen c <= bulklen (inp c) + 2))
  /\ bulklen (inp c) <= 512 * 1024 * 1024.
Proof.
  intros Hw [Hc1 Hc2] Hok. rewrite drop_0 in *. fold (qlen c) in *.
  assert (reqtype (inp c) = 0 \/ reqtype (inp c) = PREZ_REQ_MULTIBULK) as Ht by (destruct Hw as [(? & _)|(? & _)]; auto).
  assert (bulklen (inp c) = -1 \/ (reqtype (inp c) = PREZ_REQ_MULTIBULK /\ multibulklen (inp c) <> 0
    /\ 0 <= bulklen (inp c) <= 512 * 1024 * 1024)) as Hb.
  { destruct Hw as [(_ & _ & ? & _)|(Et & r & rs & -> & [[_ ? _ _ _]|(args0 & rem & Hne & Hat & Eargs)])]; [by left|by left|].
    destruct (aa_bulk _ _ _ _ _ _ Hat) as [?|(x & y & -> & Eb)]; [by left|]. right. split_and!; [done| |lia|].
    - rewrite (aa_len _ _ _ _ _ _ Hat). cbn. lia.
    - apply Forall_cons in Hok as [(_ & _ & Ha) _]. rewrite <- Eargs in Ha. apply Forall_app in Ha as [_ Ha].
      apply Forall_cons in Ha as [Ha _]. unfold arg_ok in Ha. lia. }
  unfold query_readlen, PREZ_IOBUF_LEN, PREZ_INLINE_MAX_SIZE, PREZ_MBULK_BIG_ARG in *.
  destruct Hb as [Hb|(Et & Hm & Hb)].
  - specialize (Hc1 Hb). rewrite Hb.
    assert (forall b : bool, b && negb (-1 =? -1) && (1024 * 32 <=? -1) = false) as -> by (by intros []). lia.
  - specialize (Hc2 ltac:(lia)). rewrite Et, (proj2 (Z.eqb_neq (multibulklen (inp c)) 0) Hm), (proj2 (Z.eqb_neq (bulklen (inp c)) (-1))) by lia.
    cbn [negb andb Z.eqb Pos.eqb PREZ_REQ_MULTIBULK].
    destruct (Z.leb_spec (1024 * 32) (bulklen (inp c))).
    + assert (wrap_u32 (bulklen (inp c) + 2) = bulklen (inp c) + 2) as -> by (apply wrap_u_small; lia).
      unfold qlen in *. rewrite wrap_s32_id by rng.
      destruct (Z.ltb_spec (bulklen (inp c) + 2 - Z.of_nat (length (querybuf (inp c)))) (1024 * 16)); lia.
    + lia.
Qed.

Lemma waiting_append b fut reqs c : waiting (b ++ fut) reqs c -> calm c 0 -> Forall req_ok reqs ->
  Z.of_nat (length b) <= query_readlen c ->
  waiting fut reqs (append_query c b) /\ qlen (append_query c b) <= client_max_querybuf_len.
Proof.
  intros Hw Hcalm Hok Hlen. destruct (readlen_cases c _ _ Hw Hcalm Hok) as (_ & Hroom & Hbl).
  assert (qlen (append_query c b) = qlen c + Z.of_nat (length b)) as Eq by (unfold qlen; cbn; rewrite length_app; lia).
  split; [|rewrite Eq; unfold client_max_querybuf_len, PREZ_INLINE_MAX_SIZE, PREZ_MBULK_BIG_ARG in *; lia].
  destruct Hw as [(Ht & Hl & Hb & Ha & Hd & _)|(Ht & r & rs & -> & Hp)].
  - left. unfold at_start. rewrite Eq. cbn. rewrite <- app_assoc. split_and!; try done.
    unfold PREZ_INLINE_MAX_SIZE, PREZ_MBULK_BIG_ARG in *. lia.
  - right. split; [done|]. exists r, rs. split; [done|].
    destruct Hp as [[Hl Hb Ha Hd _]|(args0 & rem & Hne & [Hl Ha Hps Hd Hb _] & Eargs)].
    + left. constructor; try done; [cbn; by rewrite <- app_assoc|].
      rewrite Eq. unfold PREZ_INLINE_MAX_SIZE, PREZ_MBULK_BIG_ARG in *. lia.
    + right. exists args0, rem. split_and!; try done. constructor; try done; [cbn; lia|cbn; rewrite drop_0 in *; by rewrite <- app_assoc|].
      rewrite Eq. change (bulklen (inp (append_query c b))) with (bulklen (inp c)).
      destruct Hroom as [?|(_ & ? & ?)]; [left; lia|right; split_and!; [done|done|lia]].
Qed.

(** The handler is called as long as there is data; every call reads at least one byte. *)
Fixpoint read_all (fuel : nat) (s : St) (c : prezClient) (segs : list bytes) : cres (St * option prezClient) :=
  match segs with
  | [] => mret (s, Some c)
  | _ =>
      match fuel with
      | O => Undef
      | S fuel =>
          '(s, oc, segs) ← readQueryFromClient oe processCommand s c (RData segs);
          match oc with None => mret (s, None) | Some c => read_all fuel s c segs end
      end
  end.

Lemma read_all_spec fuel : forall s a c segs reqs a' ts,
  waiting (concat segs) reqs c -> calm c 0 -> (segs = [] -> reqs = []) -> Forall req_ok reqs ->
  Forall (λ x, x <> []) segs -> R s a -> answers answer a reqs = Some (a', ts) ->
  open (Z.of_nat (length reqs)) (Z.of_nat (length (concat ts))) c -> (length (concat segs) <= fuel)%nat ->
  exists s' c', read_all fuel s c segs = Ret (s', Some c') /\ R s' a' /\ querybuf (inp c') = []
    /\ stream (out c') = stream (out c) ++ concat ts /\ sentlen (out c') = sentlen (out c) /\ out_ok (out c').
Proof.
  induction fuel as [|fuel IH]; intros s a c segs reqs a' ts Hw Hcalm Hend Hok Hsegs HR Hans Hopen Hf.
  all: destruct segs as [|sg segs].
  1,3: rewrite (Hend eq_refl) in *; injection Hans as <- <-; exists s, c; rewrite app_nil_r;
    split_and!; try done; [|apply Hopen];
    destruct Hw as [(_ & _ & _ & _ & Hd & _)|(_ & r & rs & [=] & _)]; by rewrite app_nil_r in Hd.
  { apply Forall_cons in Hsegs as [Hne _]. cbn in Hf. rewrite length_app in Hf. destruct sg; [done|]. cbn in Hf. lia. }
  apply Forall_cons in Hsegs as [Hne Hsegs]. cbn [read_all]. unfold readQueryFromClient.
  destruct (readlen_cases c _ _ Hw Hcalm Hok) as (Hrl & _ & _).
  destruct (sock_read_spec (Z.to_nat (query_readlen c)) sg segs ltac:(lia) Hne Hsegs) as (b & segs' & -> & Hb & Hlen & Hcat & Hsegs' & _).
  change (sg ++ concat segs) with (concat (sg :: segs)) in Hcat.
  destruct b as [|x b]; [done|]. set (b' := x :: b) in *.
  rewrite <- Hcat in Hw. destruct (waiting_append b' _ _ c Hw Hcalm Hok) as [Hw1 Hmax]; [lia|].
  fold (append_query c b'). rewrite (proj2 (Z.ltb_ge _ _)) by lia. unfold processInputBuffer.
  destruct (input_loop_spec (S (length (querybuf (inp (append_query c b'))))) s a (append_query c b') (concat segs') reqs a' ts)
    as (s1 & c1 & q1 & q2 & a1 & ts1 & ts2 & -> & -> & -> & HR1 & Ha1 & Hw2 & Hc2 & Hfut & Hst & Hse & Ho); try done; [lia|].
  cbn [mbind cres_bind mret cres_ret].
  destruct (IH s1 a1 c1 segs' q2 a' ts2) as (s2 & c2 & E2 & HR2 & Hq & Hst2 & Hse2 & Ho2); try done.
  - intros ->. by apply Hfut.
  - by apply Forall_app in Hok as [_ ?].
  - rewrite <- Hcat in Hf. rewrite length_app in Hf. cbn in Hf. lia.
  - exists s2, c2. split_and!; try done.
    + rewrite Hst2, Hst, concat_app, app_assoc. done.
    + by rewrite Hse2, Hse.
Qed.
End Serve.

(** ** Inline requests *)

Lemma join_plain ws : Forall plain_word ws -> Forall nonul ws ->
  Forall (λ x, x <> LF) (join_words id ws) /\ nonul (join_words id ws)
  /\ (last (join_words id ws) <> Some CR).
Proof.
  intros Hp Hn.
  assert (forall w, plain_word w -> Forall (λ x, x <> LF) w /\ Forall (λ x, x <> CR) w) as Hw.
  { intros w [_ H]. split; (eapply Forall_impl; [exact H|]); intros x Hx ->; done. }
  assert (Forall (λ x, x <> CR) (join_words id ws) -> last (join_words id ws) <> Some CR) as Hlast.
  { intros H E. apply last_Some in E as [l E]. rewrite E in H. apply Forall_app in H as [_ H]. by apply Forall_cons in H as [? _]. }
  assert (Forall (λ x, x <> LF) (join_words id ws) /\ nonul (join_words id ws) /\ Forall (λ x, x <> CR) (join_words id ws)) as (? & ? & ?);
    [|by auto]. clear Hlast.
  induction ws as [|w ws IH]; [by split_and!; constructor|].
  apply Forall_cons in Hp as [Hpw Hp]. apply Forall_cons in Hn as [Hnw Hn]. destruct (Hw w Hpw) as [H1 H2].
  destruct (IH Hp Hn) as (? & ? & ?). cbn [join_words]. destruct ws as [|w' ws]; [done|]. unfold id at 1 3 5.
  split_and!; apply Forall_app; (split; [done|]); by constructor.
Qed.

(** An inline request is split into its words.  A line that ends with CRLF leaves the
    buffer at the start of the next request.  A line that ends with a plain newline does
    not: the parser always skips two bytes and the first byte of the next request is lost. *)
Theorem inline_request oe c ws eol rest :
  Forall plain_word ws -> Forall nonul ws -> ws <> [] -> eol = CRLF \/ eol = [LF] ->
  querybuf (inp c) = join_words id ws ++ eol ++ rest ->
  exists c', processInlineBuffer oe c = Ret (c', PREZ_OK)
    /\ obj_sds <$> argv (inp c') = ws
    /\ (eol = CRLF -> querybuf (inp c') = rest)
    /\ (eol = [LF] -> querybuf (inp c') = drop 1 rest)
    /\ out c' = out c /\ flags c' = flags c.
Proof.
  intros Hp Hn Hne Heol Hq. destruct (join_plain ws Hp Hn) as (Hlf & Hnul & Hcr). set (line := join_words id ws) in *.
  assert (line <> []) as Hline.
  { destruct ws as [|w ws]; [done|]. unfold line. cbn. apply Forall_cons in Hp as [[Hw _] _].
    destruct ws; unfold id; [done|]. destruct w; done. }
  assert (sdssplitargs line = Some ws) as Es.
  { rewrite <- (app_nil_r line). apply sdssplitargs_words; [by left|]. eapply Forall_impl; [exact Hp|]. apply readable_plain. }
  assert (filter (λ a : bytes, a <> []) ws = ws) as Efil.
  { clear -Hp. induction Hp as [|w ws [Hw _] _ IH]; [done|]. by rewrite filter_cons_True, IH. }
  assert (exists pre, strchr (querybuf (inp c)) LF = Some (length line + length pre)%nat /\ eol = pre ++ [LF]
    /\ (pre = [] \/ pre = [CR])) as (pre & Estr & Epre & Hpre).
  { destruct Heol as [-> | ->].
    - exists [CR]. split_and!; [|done|by right]. rewrite Hq. change (CRLF ++ rest) with ([CR] ++ LF :: rest). rewrite app_assoc.
      rewrite strchr_app; [by rewrite length_app| |]; apply Forall_app; (split; [done|]); by repeat constructor.
    - exists []. split_and!; [|done|by left]. rewrite Hq. cbn. rewrite strchr_app by done. f_equal. lia. }
  unfold processInlineBuffer. rewrite Estr.
  set (querylen := if _ : bool then _ else _).
  assert (querylen = length line) as Eql.
  { unfold querylen. rewrite Hq. destruct Hpre as [-> | ->]; cbn [length].
    - rewrite Nat.add_0_r, lookup_app_l by (destruct line; [done|cbn; lia]).
      rewrite bool_decide_false; [by rewrite andb_false_r|].
      intros E. apply Hcr. rewrite last_lookup, <- E. f_equal. lia.
    - rewrite (proj2 (Nat.ltb_lt 0 _)) by lia. rewrite Nat.add_sub, Epre. cbn [app]. rewrite list_lookup_middle by done.
      by rewrite bool_decide_true. }
  clearbody querylen. subst querylen. rewrite Hq, take_app_length, Es. eexists. split; [done|].
  cbn. rewrite Efil, Hq. split_and!; try done.
  - rewrite <- list_fmap_compose. cbn. clear. induction ws; [done|]. cbn. by f_equal.
  - intros ->. rewrite drop_app_ge by lia. by replace (length line + 2 - length line)%nat with 2%nat by lia.
  - intros ->. rewrite drop_app_ge by lia. by replace (length line + 2 - length line)%nat with 2%nat by lia.
Qed.

Lemma inline_request_witness :
  exists c', processInlineBuffer ex_oenv (append_query ex_client (lit "get a" ++ [LF] ++ lit "get b" ++ [LF])) = Ret (c', PREZ_OK)
    /\ obj_sds <$> argv (inp c') = [lit "get"; lit "a"]
    /\ ([LF] = CRLF -> querybuf (inp c') = lit "get b" ++ [LF])
    /\ ([LF] = [LF] -> querybuf (inp c') = drop 1 (lit "get b" ++ [LF]))
    /\ out c' = out ex_client /\ flags c' = flags ex_client.
Proof.
  apply (inline_request ex_oenv (append_query ex_client (lit "get a" ++ [LF] ++ lit "get b" ++ [LF]))
           [lit "get"; lit "a"] [LF] (lit "get b" ++ [LF])); [| |done|by right|done].
  - repeat constructor; done.
  - repeat constructor; done.
Defined.
