(* ===== verification/ParserSafety.v ===== *)
(** * networking.c: any bytes

    Whatever a client sends, the parsers of src/src/networking.c return: no assertion fails,
    nothing is read outside the query buffer, and the loop over the buffer ends.  The command
    layer is an interface: commands return, and leave the rest of the query buffer alone. *)

From Stdlib Require Import ZArith Lia.
From stdpp Require Import base tactics numbers list strings.
From S2P Require Import Prelude Util Libc SdsArgs Object Client Request.

Local Open Scope Z_scope.

Lemma strchr_Some s c k : strchr s c = Some k -> s !! k = Some c.
Proof.
  revert k. induction s as [|x s IH]; intros k; cbn; [done|]. destruct (Z.eqb_spec x c) as [->|]; [by intros [= <-]|].
  destruct (x =? 0); [done|]. destruct (strchr s c) as [j|]; [|done]. intros [= <-]. by apply IH.
Qed.

Definition closing (c : prezClient) : Prop := has_flag c PREZ_CLOSE_AFTER_REPLY = true.

(** Between two arguments, or between two requests, of any stream. *)
Record parsing (c : prezClient) : Prop := {
  ps_type : reqtype (inp c) = 0 \/ reqtype (inp c) = PREZ_REQ_INLINE \/ reqtype (inp c) = PREZ_REQ_MULTIBULK;
  ps_count : 0 <= multibulklen (inp c);
  ps_bulk : -1 <= bulklen (inp c) <= 512 * 1024 * 1024;
  ps_idle : multibulklen (inp c) = 0 -> argv (inp c) = [] /\ bulklen (inp c) = -1;
  ps_kind : reqtype (inp c) <> PREZ_REQ_MULTIBULK -> multibulklen (inp c) = 0;
  ps_star : reqtype (inp c) = PREZ_REQ_MULTIBULK -> multibulklen (inp c) = 0 -> head (querybuf (inp c)) = Some 42;
}.

(** What the functions that parse and reply leave alone: the descriptor; the writable event and
    the place in the queue of clients to close, once there; and the flag that goes with it. *)
Record kept (c c' : prezClient) : Prop := {
  kp_fd : fd c' = fd c;
  kp_writable : writable (out c) = true -> writable (out c') = true;
  kp_queue : to_close c = true -> to_close c' = true;
  kp_flag : has_flag c PREZ_CLOSE_ASAP = to_close c -> has_flag c' PREZ_CLOSE_ASAP = to_close c';
}.

#[global] Instance kept_refl : Reflexive kept.
Proof. by constructor. Qed.

#[global] Instance kept_trans : Transitive kept.
Proof. intros c1 c2 c3 [] []. constructor; [congruence|auto..]. Qed.

Lemma kept_out c c' : fd c' = fd c -> flags c' = flags c -> to_close c' = to_close c ->
  (writable (out c) = true -> writable (out c') = true) -> kept c c'.
Proof. intros Ed Ef Ec Hw. constructor; try done; unfold has_flag; by rewrite ?Ef, ?Ec. Qed.

Lemma kept_same c c' : same_client c c' -> kept c c'.
Proof. intros [Ed Ef Ec Eo _ _]. apply kept_out; [done..|by rewrite Eo]. Qed.

Lemma set_has_flag c f : f <> 0 -> has_flag (set_flag c f) f = true.
Proof.
  intros Hf. unfold has_flag, set_flag. cbn [flags]. rewrite Z.land_comm, Z.land_lor_distr_r, Z.land_diag. apply negb_true_iff, Z.eqb_neq.
  intros E. by apply Z.lor_eq_0_iff in E as [_ E].
Qed.

Lemma freeClientAsync_kept c : kept c (freeClientAsync c).
Proof.
  unfold freeClientAsync. destruct (has_flag c PREZ_CLOSE_ASAP) eqn:E; [done|]. constructor; cbn; [done..|].
  intros _. by apply (set_has_flag c PREZ_CLOSE_ASAP).
Qed.

Lemma emit_kept oe c obj c' : emit oe c obj = Ret c' -> kept c c'.
Proof.
  unfold emit. destruct (prepareClientToWrite oe c) as [c1 r] eqn:E1.
  assert (kept c c1) as H1 by (revert E1; unfold prepareClientToWrite; repeat case_match; intros; simplify_eq; by apply kept_out).
  destruct (negb _); [by intros [= <-]|]. destruct (_addReplyToBuffer c1 _) as [c2 r2] eqn:E2.
  assert (kept c1 c2) as H2 by (revert E2; unfold _addReplyToBuffer; repeat case_match; intros; simplify_eq; by apply kept_out).
  assert (kept c c2) as H by (by etrans). destruct (r2 =? PREZ_OK); [by intros [= <-]|].
  unfold add_to_list. destruct (has_flag c2 _); [by intros [= <-]|]. set (o := match append_to_tail oe _ _ with Some _ => _ | None => _ end).
  assert (writable o = writable (out c2)) as Ew.
  { unfold o, append_to_tail. repeat case_match; simplify_eq; done. }
  assert (kept c2 (set_out c2 o)) as H3 by (apply kept_out; [done..|]; cbn; by rewrite Ew).
  unfold asyncCloseClientOnOutputBufferLimitReached. destruct (prez_assert _); [|done..]. cbn [mbind cres_bind].
  destruct (_ || _); [intros [= <-]; by etrans|]. destruct (checkClientOutputBufferLimits oe (set_out c2 o)) as [c3 b] eqn:E3.
  assert (kept (set_out c2 o) c3) as H4 by (revert E3; unfold checkClientOutputBufferLimits; repeat case_match; intros; simplify_eq; by apply kept_out).
  intros [= <-]. do 2 (etrans; [eassumption|]). destruct b; [|done]. etrans; [exact H4|]. apply freeClientAsync_kept.
Qed.

Lemma addReplyString_kept oe c s c' : addReplyString oe c s = Ret c' -> kept c c'.
Proof.
  intros E. apply (emit_kept oe c (createStringObject s)). rewrite <- E. unfold emit, addReplyString, _addReplyStringToList.
  by rewrite obj_sds_create.
Qed.

Lemma addReplyError_kept oe c s c' : addReplyErrorLength oe c s = Ret c' -> kept c c'.
Proof.
  unfold addReplyErrorLength. destruct (addReplyString oe c _) as [c1| |] eqn:E1; [|done..]. cbn [mbind cres_bind].
  destruct (addReplyString oe c1 _) as [c2| |] eqn:E2; [|done..]. cbn [mbind cres_bind]. intros E3.
  etrans; [by eapply addReplyString_kept|]. etrans; by eapply addReplyString_kept.
Qed.

(** A protocol error was reported: the client is closed once it has the reply, and its buffer
    is not parsed again. *)
Record rejected (c c' : prezClient) : Prop := {
  rj_closing : closing c';
  rj_bulk : bulklen (inp c') = -1;
  rj_blocked : has_flag c' PREZ_BLOCKED = has_flag c PREZ_BLOCKED;
  rj_out : out_ok (out c');
  rj_len : (length (querybuf (inp c')) <= length (querybuf (inp c)))%nat;
  rj_kept : kept c c';
}.

Lemma closing_flag c : closing (set_flag c PREZ_CLOSE_AFTER_REPLY).
Proof. by apply set_has_flag. Qed.

Lemma other_flag c f g : Z.land f g = 0 -> has_flag (set_flag c f) g = has_flag c g.
Proof.
  intros E. unfold has_flag, set_flag. cbn [flags]. by rewrite Z.land_lor_distr_l, E, Z.lor_0_r.
Qed.

Section Parser.
Context (oe : oenv) (Hoe : oenv_ok oe).

(** Room for an error message. *)
Definition roomy (c : prezClient) : Prop := ready 3 200 c.

Lemma reject_text c r pos : roomy c -> bulklen (inp c) = -1 -> rop_ok r -> (length (rop_text r) <= 200)%nat ->
  (forall c', run_rop oe c r = Ret c' -> kept c c') ->
  exists c', (c ← run_rop oe c r; mret (setProtocolError c pos)) = Ret c' /\ rejected c c'.
Proof.
  intros R Hb Hr Hl Hk. destruct (rop_spec oe c r Hoe Hr) as (c1 & E & Q); [eapply ready_le; [exact R|lia|lia]|].
  specialize (Hk c1 E). rewrite E. eexists. split; [done|]. destruct Q as [_ Ei Hf Ho _ _ _]. constructor.
  - apply (closing_flag c1).
  - cbn. by rewrite Ei.
  - change (has_flag (set_flag c1 PREZ_CLOSE_AFTER_REPLY) PREZ_BLOCKED = has_flag c PREZ_BLOCKED).
    rewrite other_flag by done. by apply Hf.
  - exact Ho.
  - cbn. rewrite Ei, length_drop. lia.
  - etrans; [exact Hk|]. constructor; try done. intros E1. transitivity (has_flag c1 PREZ_CLOSE_ASAP); [|exact E1].
    by apply (other_flag c1 PREZ_CLOSE_AFTER_REPLY PREZ_CLOSE_ASAP).
Qed.

Lemma reject_error c msg pos : roomy c -> bulklen (inp c) = -1 -> (length msg <= 100)%nat ->
  exists c', protocol_error oe c msg pos = Ret c' /\ rejected c c'.
Proof.
  intros R Hb Hm. apply (reject_text c (TError msg) pos); [done|done|done| |].
  - cbn [rop_text]. rewrite !length_app. cbn. lia.
  - intros c'. apply addReplyError_kept.
Qed.

(** ** The two parsers *)

(** A parser returns; it asks for more, rejects the client, or has a request, which takes at
    least a byte. *)
Definition parsed (c c' : prezClient) (r : Z) : Prop :=
  (r = PREZ_ERR /\ rejected c c')
  \/ (r = PREZ_ERR /\ same_client c c' /\ parsing c' /\ (length (querybuf (inp c')) <= length (querybuf (inp c)))%nat
      /\ (bulklen (inp c') <> -1 -> qlen c' < bulklen (inp c') + 2))
  \/ (r = PREZ_OK /\ same_client c c' /\ (length (querybuf (inp c')) < length (querybuf (inp c)))%nat).

Lemma inline_total c : parsing c -> roomy c -> reqtype (inp c) = PREZ_REQ_INLINE -> querybuf (inp c) <> [] ->
  exists c' r, processInlineBuffer oe c = Ret (c', r) /\ parsed c c' r.
Proof.
  intros Hp R Ht Hq. assert (multibulklen (inp c) = 0) as Hm by (apply (ps_kind _ Hp); by rewrite Ht).
  destruct (ps_idle _ Hp Hm) as [_ Hb]. unfold processInlineBuffer. destruct (strchr (querybuf (inp c)) LF) as [k|].
  - set (n := if _ && _ then _ else _). destruct (sdssplitargs (take n (querybuf (inp c)))) as [args|].
    + eexists _, _. split; [done|]. right; right. split; [done|]. split; [by constructor|]. cbn. rewrite length_drop.
      assert (length (querybuf (inp c)) <> 0%nat) by (by destruct (querybuf (inp c))). lia.
    + destruct (reject_error c (lit "Protocol error: unbalanced quotes in request") 0 R Hb) as (c' & -> & Hr); [cbn; lia|].
      eexists _, _. split; [done|]. by left.
  - destruct (_ <? _).
    + destruct (reject_error c (lit "Protocol error: too big inline request") 0 R Hb) as (c' & -> & Hr); [cbn; lia|].
      eexists _, _. split; [done|]. by left.
    + eexists _, _. split; [done|]. right; left. split_and!; [done|done|done|done|by rewrite Hb].
Qed.

Definition bulk_ok (c : prezClient) : Prop := -1 <= bulklen (inp c) <= 512 * 1024 * 1024.

Lemma mb_length_total c pos : bulk_ok c -> roomy c -> (pos <= length (querybuf (inp c)))%nat ->
  exists c' r, mb_length oe c pos = Ret (c', r) /\
    match r with
    | None => c' = c /\ bulklen (inp c) = -1
    | Some (inl e) => e = PREZ_ERR /\ rejected c c'
    | Some (inr pos') => same_client c c' /\ multibulklen (inp c') = multibulklen (inp c) /\ 0 <= bulklen (inp c') <= 512 * 1024 * 1024
        /\ (pos' <= length (querybuf (inp c')))%nat /\ (avail c' pos' <= avail c pos)%nat
        /\ (length (querybuf (inp c')) <= length (querybuf (inp c)))%nat
    end.
Proof.
  intros Hb R Hpos. unfold mb_length. destruct (Z.eqb_spec (bulklen (inp c)) (-1)) as [Eb|Eb]; cbn [negb].
  2:{ eexists _, _. split; [done|]. cbn. unfold bulk_ok in Hb. split_and!; try done; lia. }
  destruct (strchr (drop pos (querybuf (inp c))) CR) as [k|] eqn:Ek.
  2:{ destruct (_ <? _); [|by eexists _, _].
      destruct (reject_error c (lit "Protocol error: too big bulk count string") 0 R Eb) as (c' & -> & Hr); [cbn; lia|]. by eexists _, _. }
  apply strchr_Some in Ek. rewrite lookup_drop in Ek. pose proof (lookup_lt_Some _ _ _ Ek) as Hk.
  destruct (Z.ltb_spec (qlen c - 2) (Z.of_nat (pos + k))) as [|Hroom]; [by eexists _, _|]. unfold qlen in Hroom.
  destruct (lookup_lt_is_Some_2 (querybuf (inp c)) pos ltac:(lia)) as [x Ex]. rewrite Ex. cbn [of_ptr mbind cres_bind].
  destruct (x =? 36); cbn [negb].
  2:{ destruct (reject_text c (TErrorFormat (expected_dollar x)) pos R Eb) as (c' & E & Hr); [done| |intros c'; apply addReplyError_kept|].
      { cbn [rop_text]. rewrite !length_app. unfold no_newlines. rewrite length_fmap. unfold expected_dollar. destruct (x =? 0); cbn; lia. }
      cbn [run_rop] in E. destruct (addReplyErrorFormat oe c (expected_dollar x)) as [c1| |]; [|done..].
      cbn [mbind cres_bind mret cres_ret] in *. injection E as <-. by eexists _, _. }
  set (invalid := _ ≫= _).
  assert (exists c', invalid = Ret (c', Some (inl PREZ_ERR)) /\ rejected c c') as (ci & -> & Hi).
  { unfold invalid. destruct (reject_error c (lit "Protocol error: invalid bulk length") pos R Eb) as (c' & -> & Hr); [cbn; lia|]. by eexists. }
  destruct (string2ll _) as [ll|]; [|by eexists _, _].
  destruct ((ll <? 0) || (512 * 1024 * 1024 <? ll)) eqn:Ell; [by eexists _, _|].
  destruct (PREZ_MBULK_BIG_ARG <=? ll); eexists _, _; (split; [done|]); cbn; unfold avail; cbn; rewrite ?length_drop; split_and!; try done; lia.
Qed.

Lemma mb_argument_total c pos : 0 <= bulklen (inp c) <= 512 * 1024 * 1024 -> (pos <= length (querybuf (inp c)))%nat -> qlen c < 2 ^ 63 ->
  match mb_argument c pos with
  | None => Z.of_nat (avail c pos) < bulklen (inp c) + 2
  | Some (c', pos') => same_client c c' /\ multibulklen (inp c') = multibulklen (inp c) - 1 /\ bulklen (inp c') = -1
      /\ (pos' <= length (querybuf (inp c')))%nat /\ (avail c' pos' < avail c pos)%nat
      /\ (length (querybuf (inp c')) <= length (querybuf (inp c)))%nat
  end.
Proof.
  intros Hb Hpos Hq. unfold mb_argument. unfold qlen in *. rewrite wrap_u64_id by rng.
  assert (wrap_u32 (bulklen (inp c) + 2) = bulklen (inp c) + 2) as -> by (apply wrap_u_small; lia).
  unfold avail. destruct (Z.ltb_spec (Z.of_nat (length (querybuf (inp c))) - Z.of_nat pos) (bulklen (inp c) + 2)); [rewrite length_drop; lia|].
  destruct (_ && _) eqn:Ec; cbn; rewrite ?length_drop; (split; [by constructor|]); split_and!; try done; try lia.
Qed.

(** What the loop over the arguments leaves. *)
Definition loop_end (n : nat) (c : prezClient) (pos : nat) (c' : prezClient) (r : Z + nat) : Prop :=
  match r with
  | inl e => e = PREZ_ERR /\ rejected c c'
  | inr pos' => same_client c c' /\ (pos' <= length (querybuf (inp c')))%nat /\ (avail c' pos' <= avail c pos)%nat
      /\ 0 <= multibulklen (inp c') /\ bulk_ok c' /\ (bulklen (inp c') <> -1 -> Z.of_nat (avail c' pos') < bulklen (inp c') + 2)
      /\ (multibulklen (inp c') = 0 -> n <> 0%nat -> (avail c' pos' < avail c pos)%nat)
  end.

Lemma rejected_same c c1 c' : same_client c c1 -> (length (querybuf (inp c1)) <= length (querybuf (inp c)))%nat ->
  rejected c1 c' -> rejected c c'.
Proof.
  intros S Hl [H1 H2 H3 H4 H6 H5]. constructor; [done|done| |done|lia|by etrans; [apply kept_same|]]. rewrite H3. unfold has_flag. by rewrite (sc_flags _ _ S).
Qed.

Lemma roomy_same c c' : same_client c c' -> roomy c -> roomy c'.
Proof. intros [Ed Ef _ Eo _ _]. unfold roomy, ready, has_flag. by rewrite Ed, Ef, Eo. Qed.

Lemma mb_loop_total n : forall c pos, bulk_ok c -> roomy c -> (pos <= length (querybuf (inp c)))%nat -> qlen c < 2 ^ 63 ->
  multibulklen (inp c) = Z.of_nat n -> (n = 0%nat -> bulklen (inp c) = -1) ->
  exists c' r, mb_loop oe n c pos = Ret (c', r) /\ loop_end n c pos c' r.
Proof.
  induction n as [|n IH]; intros c pos Hb R Hpos Hq Hm Hz; cbn [mb_loop].
  { eexists _, _. split; [done|]. unfold loop_end. rewrite (Hz eq_refl). split_and!; try done; lia. }
  destruct (mb_length_total c pos Hb R Hpos) as (c1 & r1 & -> & H1). cbn [mbind cres_bind].
  destruct r1 as [[e|p1]|].
  - destruct H1 as [-> Hr]. by eexists _, _.
  - destruct H1 as (S1 & M1 & B1 & P1 & A1 & L1). unfold qlen in *.
    pose proof (mb_argument_total c1 p1 B1 P1 ltac:(unfold qlen; lia)) as H2. destruct (mb_argument c1 p1) as [[c2 p2]|].
    + destruct H2 as (S2 & M2 & B2 & P2 & A2 & L2). assert (same_client c c2) as S by (by etrans).
      destruct (IH c2 p2) as (c' & r & E & He); [unfold bulk_ok; lia|by eapply roomy_same|done|unfold qlen; lia|lia|done|].
      exists c', r. split; [done|]. destruct r as [e|p']; cbn in He |- *.
      * destruct He as [-> Hr]. split; [done|]. eapply rejected_same; [exact S|lia|done].
      * destruct He as (? & ? & ? & ? & ? & ? & ?). split_and!; try done; [by etrans|lia|]. intros. lia.
    + eexists _, _. split; [done|]. cbn. unfold bulk_ok. split_and!; try done; try lia.
  - destruct H1 as [-> Eb]. eexists _, _. split; [done|]. cbn. rewrite Eb. split_and!; try done; lia.
Qed.

(** From the arguments on. *)
Lemma mb_rest_total c c1 pos : same_client c c1 -> bulk_ok c1 -> roomy c1 -> qlen c1 < 2 ^ 63 -> 0 < multibulklen (inp c1) ->
  (pos <= length (querybuf (inp c1)))%nat -> (length (querybuf (inp c1)) <= length (querybuf (inp c)))%nat ->
  reqtype (inp c) = PREZ_REQ_MULTIBULK ->
  exists c' r, (_ ← prez_assert (0 <? multibulklen (inp c1));
     '(c, r) ← mb_loop oe (Z.to_nat (multibulklen (inp c1))) c1 pos;
     match r with
     | inl r => mret (c, r)
     | inr pos => let c := trim c pos in mret (c, if multibulklen (inp c) =? 0 then PREZ_OK else PREZ_ERR)
     end) = Ret (c', r) /\ parsed c c' r.
Proof.
  intros S Hb R Hq Hm Hpos Hle Ht. rewrite (proj2 (Z.ltb_lt 0 _)) by done. cbn [prez_assert mbind cres_bind].
  destruct (mb_loop_total (Z.to_nat (multibulklen (inp c1))) c1 pos Hb R Hpos Hq) as (c' & r & -> & He); [lia|lia|].
  cbn [mbind cres_bind]. destruct r as [e|p]; cbn in He.
  - destruct He as [-> Hr]. eexists _, _. split; [done|]. left. split; [done|]. by eapply rejected_same.
  - destruct He as (S' & Hp & Ha & Hc & Hbk & Hw & Hfin). eexists _, _. split; [done|].
    assert (same_client c (trim c' p)) as St by (destruct S, S'; constructor; cbn; congruence).
    assert (length (querybuf (inp (trim c' p))) = avail c' p) as El by done. change (multibulklen (inp (trim c' p))) with (multibulklen (inp c')).
    destruct (Z.eqb_spec (multibulklen (inp c')) 0) as [E0|E0].
    + right; right. split_and!; [done|done|]. rewrite El. specialize (Hfin E0 ltac:(lia)). 
      assert (avail c1 pos <= length (querybuf (inp c1)))%nat by (unfold avail; rewrite length_drop; lia). lia.
    + right; left. assert (reqtype (inp c') = PREZ_REQ_MULTIBULK) as Et by (rewrite (sc_type _ _ S'), (sc_type _ _ S); done).
      split_and!; [done|done| |rewrite El; unfold avail in *; rewrite !length_drop in *; lia|unfold qlen; rewrite El; exact Hw].
      constructor; cbn; rewrite ?Et; try done; [by right; right].
Qed.

Lemma multibulk_total c : parsing c -> roomy c -> reqtype (inp c) = PREZ_REQ_MULTIBULK -> qlen c < 2 ^ 63 -> querybuf (inp c) <> [] ->
  exists c' r, processMultibulkBuffer oe c = Ret (c', r) /\ parsed c c' r.
Proof.
  intros Hp R Ht Hq Hne. pose proof (ps_count _ Hp) as Hc. unfold processMultibulkBuffer, mb_header.
  destruct (Z.eqb_spec (multibulklen (inp c)) 0) as [E0|E0]; cbn [negb].
  2:{ cbn [mbind cres_bind mret cres_ret]. apply mb_rest_total; [done|apply Hp|done|done|lia|lia|lia|done]. }
  destruct (ps_idle _ Hp E0) as [Ea Eb]. rewrite (bool_decide_eq_true_2 (argv (inp c) = [])) by done. cbn [prez_assert mbind cres_bind].
  assert (parsed c c PREZ_ERR) as Hwait by (right; left; split_and!; [done|done|done|done|by rewrite Eb]).
  assert (forall msg, (length msg <= 100)%nat -> exists c', protocol_error oe c msg 0 = Ret c' /\ parsed c c' PREZ_ERR) as Hrej.
  { intros msg Hm. destruct (reject_error c msg 0 R Eb Hm) as (c' & -> & Hr). exists c'. split; [done|by left]. }
  destruct (strchr (querybuf (inp c)) CR) as [k|] eqn:Ek.
  2:{ destruct (_ <? _); [|by eexists _, _].
      destruct (Hrej (lit "Protocol error: too big mbulk count string")) as (c' & -> & Hr); [cbn; lia|]. by eexists _, _. }
  apply strchr_Some in Ek. pose proof (lookup_lt_Some _ _ _ Ek) as Hk.
  destruct (Z.ltb_spec (qlen c - 2) (Z.of_nat k)) as [|Hroom]; [by eexists _, _|].
  rewrite (bool_decide_eq_true_2 (querybuf (inp c) !! 0%nat = Some 42)).
  2:{ pose proof (ps_star _ Hp Ht E0) as H. by destruct (querybuf (inp c)). }
  cbn [prez_assert mbind cres_bind]. destruct (string2ll _) as [ll|].
  2:{ destruct (Hrej (lit "Protocol error: invalid multibulk length")) as (c' & -> & Hr); [cbn; lia|]. by eexists _, _. }
  destruct (1024 * 1024 <? ll).
  { destruct (Hrej (lit "Protocol error: invalid multibulk length")) as (c' & -> & Hr); [cbn; lia|]. by eexists _, _. }
  unfold qlen in *. destruct (Z.leb_spec ll 0) as [Hll|Hll].
  - eexists _, _. split; [done|]. right; right. split; [done|]. split; [by constructor|]. cbn. rewrite length_drop. lia.
  - cbn [mbind cres_bind mret cres_ret]. apply mb_rest_total; [by constructor|by apply (ps_bulk _ Hp)|exact R|done|done|cbn; lia|done|done].
Qed.
End Parser.

(** ** The loop, and the socket *)

(** The command layer: [Inv n] holds as long as [n] more requests can be run. *)
Class TotalExecutor {St : Type} (processCommand : St -> prezClient -> cres (St * prezClient * Z))
    (Inv : nat -> St -> prezClient -> Prop) : Prop := {
  te_roomy n s c : Inv n s c -> has_flag c PREZ_CLOSE_AFTER_REPLY = false -> roomy c;
  te_blocked n s c : Inv n s c -> has_flag c PREZ_BLOCKED = false;
  te_out n s c : Inv n s c -> out_ok (out c);
  te_inp n s c i : Inv n s c -> Inv n s (set_inp c i);
  te_fewer n s c : Inv (S n) s c -> Inv n s c;
  te_run n s c : Inv (S n) s c -> argv (inp c) <> [] ->
    exists s' c', processCommand s c = Ret (s', c', PREZ_OK) /\ Inv n s' c' /\ querybuf (inp c') = querybuf (inp c)
      /\ kept c c';
}.

Section Loop.
Context (oe : oenv) (Hoe : oenv_ok oe).
Context {St : Type} (processCommand : St -> prezClient -> cres (St * prezClient * Z)) (Inv : nat -> St -> prezClient -> Prop).
Context `{!TotalExecutor processCommand Inv}.

Lemma te_fewer_le n m s c : (m <= n)%nat -> Inv n s c -> Inv m s c.
Proof. induction 1 as [|n _ IH]; [done|]. intros H. apply IH. by eapply te_fewer. Qed.

Lemma te_same n s c c' : same_client c c' -> Inv n s c -> Inv n s c'.
Proof.
  intros [E1 E2 E3 E4 _ _] H. apply (te_inp n s c (inp c')) in H. destruct c as [? ? ? ? ?], c' as [? ? ? ? ?]. cbn in *. by subst.
Qed.

(** Anything else that holds of the state of the server as long as enough requests are left. *)
Context (P : nat -> St -> Prop) (P_fewer : forall n s, P (S n) s -> P n s).
Context (P_run : forall n s c s' c', Inv (S n) s c -> P (S n) s -> argv (inp c) <> [] ->
  processCommand s c = Ret (s', c', PREZ_OK) -> P n s').

Lemma P_fewer_le n m s : (m <= n)%nat -> P n s -> P m s.
Proof using P_fewer. induction 1 as [|n _ IH]; [done|]. intros H. by apply IH, P_fewer. Qed.

(** Where the loop over the buffer may stop: with [n] requests left to run, or on a client that
    will be closed. *)
Definition settled (n : nat) (s : St) (c : prezClient) : Prop :=
  bulklen (inp c) = -1 /\ closing c /\ has_flag c PREZ_BLOCKED = false /\ out_ok (out c)
  \/ Inv (length (querybuf (inp c)) + n) s c /\ parsing c /\ (closing c -> bulklen (inp c) = -1)
     /\ (bulklen (inp c) <> -1 -> qlen c < bulklen (inp c) + 2).

Lemma parsed_kept c c' r : parsed c c' r -> kept c c'.
Proof. intros [(_ & H)|[(_ & H & _)|(_ & H & _)]]; [apply H|by apply kept_same..]. Qed.

Lemma reset_parsing c : parsing (resetClient c).
Proof. constructor; cbn; try done; auto. Qed.

Lemma input_loop_total fuel : forall n s c, Inv (length (querybuf (inp c)) + n) s c -> P (length (querybuf (inp c)) + n)%nat s ->
  parsing c -> qlen c < 2 ^ 63 -> (has_flag c PREZ_CLOSE_AFTER_REPLY = true -> bulklen (inp c) = -1) ->
  (length (querybuf (inp c)) < fuel)%nat ->
  exists s' c', input_loop oe processCommand fuel s c = Ret (s', c') /\ settled n s' c' /\ P n s' /\ kept c c'
    /\ (length (querybuf (inp c')) <= length (querybuf (inp c)))%nat.
Proof.
  induction fuel as [|fuel IH]; intros n s c HI HP Hp Hq Hcl Hf; [lia|]. cbn [input_loop].
  assert (P n s) as HP0 by (eapply P_fewer_le; [|exact HP]; lia).
  case_bool_decide as E0.
  { eexists _, _. split; [done|]. split; [|split_and!; (done || lia)]. right. split_and!; [done|done|done|]. intros Hb. unfold qlen. rewrite E0.
    pose proof (ps_bulk _ Hp). cbn. lia. }
  rewrite (te_blocked _ _ _ HI). cbn [orb]. destruct (has_flag c PREZ_CLOSE_AFTER_REPLY) eqn:Ef.
  { eexists _, _. split; [done|]. split; [|split_and!; (done || lia)]. left. split_and!; [by apply Hcl|done|by eapply te_blocked|by eapply te_out]. }
  set (c0 := if reqtype (inp c) =? 0 then _ else c).
  assert (parsing c0 /\ reqtype (inp c0) <> 0 /\ querybuf (inp c0) = querybuf (inp c) /\ Inv (length (querybuf (inp c)) + n) s c0
    /\ flags c0 = flags c /\ kept c c0) as (Hp0 & Ht0 & Eq0 & HI0 & Efl & Hk0).
  { unfold c0. destruct (Z.eqb_spec (reqtype (inp c)) 0) as [Et|Et]; [|done].
    split_and!; [|cbn; by case_bool_decide|done|by apply te_inp|done|by apply kept_out].
    assert (multibulklen (inp c) = 0) as Em by (apply (ps_kind _ Hp); by rewrite Et).
    destruct Hp. constructor; cbn; try done; case_bool_decide; auto; try done. }
  clearbody c0. rewrite <- Eq0 in *. assert (roomy c0) as R0.
  { eapply te_roomy; [exact HI0|]. unfold has_flag in *. by rewrite Efl. }
  assert (qlen c0 < 2 ^ 63) as Hq0 by (unfold qlen in *; by rewrite Eq0).
  assert (exists c' r, (if reqtype (inp c0) =? PREZ_REQ_INLINE then processInlineBuffer oe c0
      else if reqtype (inp c0) =? PREZ_REQ_MULTIBULK then processMultibulkBuffer oe c0 else Exit) = Ret (c', r) /\ parsed c0 c' r)
    as (c' & r & -> & Hpar).
  { destruct (ps_type _ Hp0) as [?|[Et|Et]]; [done| |]; rewrite Et.
    - apply inline_total; done.
    - apply multibulk_total; done. }
  assert (kept c c') as Hk by (etrans; [exact Hk0|]; by eapply parsed_kept).
  cbn [mbind cres_bind]. destruct Hpar as [(-> & [Hc Hb Hbl Ho Hlr _])|[(-> & Sc & Hp' & Hle & Hw)|(-> & Sc & Hlt)]].
  - change (negb (PREZ_ERR =? PREZ_OK)) with true. eexists _, _. split; [done|]. split; [|split_and!; (done || lia)]. left. split_and!; [done|done| |done].
    rewrite Hbl. by eapply te_blocked.
  - change (negb (PREZ_ERR =? PREZ_OK)) with true. eexists _, _. split; [done|]. split; [|split_and!; (done || lia)]. right. split_and!; [|done| |done].
    2:{ unfold closing, has_flag in *. by rewrite (sc_flags _ _ Sc), Efl, Ef. }
    eapply te_same; [exact Sc|]. eapply te_fewer_le; [|exact HI0]. lia.
  - change (negb (PREZ_OK =? PREZ_OK)) with false. cbn match.
    assert (Inv (length (querybuf (inp c0)) + n) s c') as HI' by (by eapply te_same).
    assert (forall c2, kept c c2 -> kept c (resetClient c2)) as Hreset by (intros c2 H2; etrans; [exact H2|by apply kept_out]).
    case_bool_decide as Ea.
    + destruct (IH n s (resetClient c')) as (s2 & c2 & E & ? & ? & Hk2 & Hl2); [| |apply reset_parsing|unfold qlen in *; cbn; lia|done|cbn; lia|].
      * apply te_inp. eapply te_fewer_le; [|exact HI']. cbn. lia.
      * eapply P_fewer_le; [|exact HP]. cbn. lia.
      * exists s2, c2. split_and!; try done; [etrans; [by apply Hreset|done]|]. cbn in Hl2. lia.
    + assert (Inv (S (length (querybuf (inp c')) + n)) s c') as HI1 by (eapply te_fewer_le; [|exact HI']; lia).
      destruct (te_run (processCommand := processCommand) (length (querybuf (inp c')) + n) s c' HI1 Ea) as (s2 & c2 & E2 & HI2 & Eq2 & Hk2).
      assert (P (length (querybuf (inp c')) + n)%nat s2) as HP2.
      { apply (P_run _ s c' s2 c2 HI1); [|done|done]. eapply P_fewer_le; [|exact HP]. lia. }
      rewrite E2. cbn [mbind cres_bind]. change (PREZ_OK =? PREZ_OK) with true. cbn match.
      destruct (IH n s2 (resetClient c2)) as (s3 & c3 & E3 & ? & ? & Hk3 & Hl3);
        [| |apply reset_parsing|unfold qlen in *; cbn; rewrite Eq2; lia|done|cbn; rewrite Eq2; lia|].
      * apply te_inp. cbn. by rewrite Eq2.
      * cbn. by rewrite Eq2.
      * exists s3, c3. split_and!; try done; [etrans; [apply Hreset; by etrans|done]|]. cbn in Hl3. rewrite Eq2 in Hl3. lia.
Qed.

Lemma concat_nonempty (segs : list bytes) : Forall (λ x, x <> []) segs -> segs <> [] -> (0 < length (concat segs))%nat.
Proof. intros [|x l Hx _]; [done|]. cbn. rewrite length_app. destruct x; cbn; [done|lia]. Qed.

(** What is asked from [read]. *)
Lemma readlen_bounds n s c : settled n s c -> 0 < query_readlen c <= PREZ_IOBUF_LEN.
Proof.
  intros Hs. unfold query_readlen, PREZ_IOBUF_LEN. destruct (_ && _) eqn:E; [|lia].
  apply andb_true_iff in E as [[_ Hb%negb_true_iff%Z.eqb_neq]%andb_true_iff Hbig%Z.leb_le].
  destruct Hs as [(? & _)|(_ & Hp & _ & Hw)]; [lia|]. specialize (Hw Hb). pose proof (ps_bulk _ Hp). unfold qlen, PREZ_MBULK_BIG_ARG in *.
  unfold wrap_u. rewrite Z.mod_small by lia. rewrite wrap_s32_id by rng. destruct (Z.ltb_spec (bulklen (inp c) + 2 - Z.of_nat (length (querybuf (inp c)))) (1024 * 16)); lia.
Qed.

(** One read, of the bytes [b]. *)
Lemma read_step m s c segs b segs' : sock_read (Z.to_nat (query_readlen c)) segs = Some (b, segs') -> b <> [] ->
  settled (length b + m) s c -> P (length (querybuf (inp c)) + length b + m)%nat s ->
  exists s' oc, readQueryFromClient oe processCommand s c (RData segs) = Ret (s', oc, segs') /\ P m s'
    /\ (forall c', oc = Some c' -> settled m s' c' /\ kept c c' /\ qlen c' <= client_max_querybuf_len).
Proof.
  intros Er Hb Hs HP. cbn [readQueryFromClient]. rewrite Er.
  destruct b as [|b0 b]; [done|]. set (c1 := set_inp c _). destruct (Z.ltb_spec client_max_querybuf_len (qlen c1)) as [Hbig|Hsmall].
  { exists s, None. split_and!; [done| |done]. eapply P_fewer_le; [|exact HP]. lia. }
  assert (querybuf (inp c1) = querybuf (inp c) ++ b0 :: b) as Eq by done.
  assert (exists s' c', processInputBuffer oe processCommand s c1 = Ret (s', c') /\ settled m s' c'
      /\ P m s' /\ kept c1 c' /\ (length (querybuf (inp c')) <= length (querybuf (inp c1)))%nat)
    as (s' & c' & -> & Hset & HP' & Hk & Hlen).
  2:{ exists s', (Some c'). split_and!; [done|done|]. intros ? [= <-]. split_and!; [done| |unfold qlen in *; lia].
      etrans; [|exact Hk]. by apply kept_out. }
  unfold processInputBuffer.
  destruct Hs as [(Hbl & Hc & Hnb & Ho)|(HI & Hp & Hcl & Hw)].
  - exists s, c1. split; [|split_and!; [by left|eapply P_fewer_le; [|exact HP]; lia|done|lia]]. cbn [input_loop].
    rewrite bool_decide_eq_false_2 by (rewrite Eq; by destruct (querybuf (inp c))).
    unfold closing in Hc. change (has_flag c1 PREZ_BLOCKED) with (has_flag c PREZ_BLOCKED).
    change (has_flag c1 PREZ_CLOSE_AFTER_REPLY) with (has_flag c PREZ_CLOSE_AFTER_REPLY). by rewrite Hnb, Hc.
  - apply input_loop_total; [| | |unfold client_max_querybuf_len in Hsmall; lia|exact Hcl|lia].
    + apply te_inp. rewrite Eq, length_app. eapply te_fewer_le; [|exact HI]. lia.
    + rewrite Eq, length_app. eapply P_fewer_le; [|exact HP]. lia.
    + destruct Hp as [? ? ? ? ? Hst]. constructor; cbn; try done. intros H1 H2. specialize (Hst H1 H2). by destruct (querybuf (inp c)).
Qed.

(** One read, with everything that waits counted: what is read is at least a byte. *)
Lemma read_total m s c segs : settled (length (concat segs) + m) s c ->
  P (length (querybuf (inp c)) + length (concat segs) + m)%nat s -> Forall (λ x, x <> []) segs -> segs <> [] ->
  exists s' oc segs', readQueryFromClient oe processCommand s c (RData segs) = Ret (s', oc, segs')
    /\ Forall (λ x, x <> []) segs' /\ (length (concat segs') < length (concat segs))%nat
    /\ (forall c', oc = Some c' -> settled (length (concat segs') + m) s' c').
Proof.
  intros Hs HP Hsegs Hne. destruct segs as [|x segs]; [done|]. apply Forall_cons in Hsegs as [Hx Hsegs].
  pose proof (readlen_bounds _ _ _ Hs) as Hrl.
  destruct (sock_read_spec (Z.to_nat (query_readlen c)) x segs ltac:(lia) Hx Hsegs) as (b & segs' & E & Hb & _ & Eb & Hs' & _).
  assert (length (concat (x :: segs)) = length b + length (concat segs'))%nat as El by (cbn; rewrite <- Eb; by rewrite length_app).
  assert (0 < length b)%nat by (destruct b; [done|cbn; lia]). rewrite El, <- Nat.add_assoc in Hs.
  destruct (read_step (length (concat segs') + m) s c (x :: segs) b segs' E Hb Hs) as (s' & oc & E' & _ & H').
  { eapply P_fewer_le; [|exact HP]. lia. }
  exists s', oc, segs'. split_and!; [done|done|lia|]. intros c' Ec. by apply H'.
Qed.
End Loop.

Section Whole.
Context (oe : oenv) (Hoe : oenv_ok oe).
Context {St : Type} (processCommand : St -> prezClient -> cres (St * prezClient * Z)) (Inv : nat -> St -> prezClient -> Prop).
Context `{!TotalExecutor processCommand Inv}.

Lemma read_all_total fuel : forall m s c segs, settled Inv (length (concat segs) + m) s c -> Forall (λ x, x <> []) segs ->
  (length (concat segs) <= fuel)%nat ->
  exists s' oc, read_all oe processCommand fuel s c segs = Ret (s', oc) /\ (forall c', oc = Some c' -> settled Inv m s' c').
Proof.
  induction fuel as [|fuel IH]; intros m s c segs Hs Hsegs Hf.
  all: destruct segs as [|x segs]; [exists s, (Some c); split; [done|by intros ? [= <-]]|].
  { pose proof (concat_nonempty (x :: segs) Hsegs ltac:(done)). lia. }
  destruct (read_total oe Hoe processCommand Inv (λ _ _, True) ltac:(done) ltac:(done) m s c (x :: segs) Hs I Hsegs ltac:(done))
    as (s1 & oc & segs' & E & Hs1 & Hlt & Hset).
  cbn [read_all]. rewrite E. cbn [mbind cres_bind]. destruct oc as [c1|]; [|by exists s1, None].
  apply IH; [by apply Hset|done|lia].
Qed.

(** A client between requests. *)
Record fresh_client (c : prezClient) : Prop := {
  fc_open : has_flag c PREZ_CLOSE_AFTER_REPLY = false;
  fc_inp : exists k, inp c = mkInput [] 0 0 (-1) [] k;
}.

End Whole.

(** ** An example *)

(** A command layer that answers every request with OK. *)
Definition always_ok (oe : oenv) (s : unit) (c : prezClient) : cres (unit * prezClient * Z) :=
  c ← addReply oe c shared_ok; mret (s, c, PREZ_OK).

Definition ok_inv (n : nat) (s : unit) (c : prezClient) : Prop :=
  ready (3 * (Z.of_nat n + 1)) (200 * (Z.of_nat n + 1)) c /\ has_flag c PREZ_BLOCKED = false.

#[local] Instance always_ok_total : TotalExecutor (always_ok ex_oenv) ok_inv.
Proof.
  constructor.
  - intros n s c [R _] _. eapply ready_le; [exact R|lia|lia].
  - by intros n s c [_ Hb].
  - by intros n s c [(_ & _ & O & _) _].
  - intros n s c i [R Hb]. split; [exact R|exact Hb].
  - intros n s c [R Hb]. split; [|done]. eapply ready_le; [exact R|lia|lia].
  - intros n s c [R Hb] _. destruct (rop_spec ex_oenv c (TObj shared_ok) ex_oenv_ok) as (c' & E & Q); [done| |].
    { eapply ready_le; [exact R|lia|cbn; lia]. }
    change (addReply ex_oenv c shared_ok = Ret c') in E. exists s, c'. unfold always_ok.
    assert (kept c c') as Hk by (apply (emit_kept ex_oenv c (getDecodedObject shared_ok)); by rewrite <- addReply_emit).
    rewrite E. split; [done|]. split; [|split; [|done]].
    + split; [|by rewrite (qu_flag _ _ _ _ Q)]. eapply queued_ready; [exact Q|]. eapply ready_le; [exact R|lia|cbn; lia].
    + by rewrite (qu_inp _ _ _ _ Q).
Qed.

(** Two requests, an argument that never comes, and then nonsense. *)
Definition ex_bytes : list bytes := [lit "ping" ++ [13; 10]; lit "*2" ++ [13; 10; 36; 49]; [13; 10; 97; 13; 10]; lit "x" ++ [13; 10; 0; 255]].

