(* ===== verification/DictTypes.v ===== *)
(** * prez.c and dict.c: keys and hash functions of the dictionaries

    The hash functions of src/src/dict.c, the key types of src/src/prez.c that use them, and
    the command table.  The keys of the data set and of the cluster dictionaries are byte
    strings compared byte by byte; the command table compares C strings without regard to
    case, and its hash function must agree with that. *)

From Stdlib Require Import ZArith Lia.
From stdpp Require Import base tactics numbers list strings.
From S2P Require Import Prelude Libc SdsOps Dict Client.

Local Open Scope Z_scope.

(** ** Hash functions *)

Definition dict_hash_function_seed : Z := 5381.

(** Thomas Wang's mix function on [unsigned int]. *)
Definition dictIntHashFunction (key : Z) : Z :=
  let key := wrap_u32 (key + Z.lnot (Z.shiftl key 15)) in
  let key := Z.lxor key (Z.shiftr key 10) in
  let key := wrap_u32 (key + Z.shiftl key 3) in
  let key := Z.lxor key (Z.shiftr key 6) in
  let key := wrap_u32 (key + Z.lnot (Z.shiftl key 11)) in
  Z.lxor key (Z.shiftr key 16).

Definition murmur_m : Z := 1540483477.   (** 0x5bd1e995 *)

(** [*(uint32_t* )data] on a little endian machine. *)
Definition le32 (b0 b1 b2 b3 : Z) : Z := b0 + 256 * (b1 + 256 * (b2 + 256 * b3)).

(** The loop over groups of four bytes, then the last bytes of the [switch]. *)
Fixpoint murmur_loop (h : Z) (data : bytes) : Z :=
  match data with
  | b0 :: b1 :: b2 :: b3 :: data =>
      let k := wrap_u32 (le32 b0 b1 b2 b3 * murmur_m) in
      let k := Z.lxor k (Z.shiftr k 24) in
      let k := wrap_u32 (k * murmur_m) in
      let h := wrap_u32 (h * murmur_m) in
      murmur_loop (Z.lxor h k) data
  | [b0; b1; b2] =>
      let h := Z.lxor (Z.lxor (Z.lxor h (Z.shiftl b2 16)) (Z.shiftl b1 8)) b0 in wrap_u32 (h * murmur_m)
  | [b0; b1] => let h := Z.lxor (Z.lxor h (Z.shiftl b1 8)) b0 in wrap_u32 (h * murmur_m)
  | [b0] => let h := Z.lxor h b0 in wrap_u32 (h * murmur_m)
  | [] => h
  end.

(** [len] is an [int]; [seed ^ len] is unsigned. *)
Definition dictGenHashFunction (key : bytes) : Z :=
  let h := Z.lxor dict_hash_function_seed (wrap_u32 (Z.of_nat (length key))) in
  let h := murmur_loop h key in
  let h := Z.lxor h (Z.shiftr h 13) in
  let h := wrap_u32 (h * murmur_m) in
  Z.lxor h (Z.shiftr h 15).

(** [hash * 33 + tolower(c)], with wrap-around *)
Definition dictGenCaseHashFunction (buf : bytes) : Z :=
  foldl (λ hash c, wrap_u32 (wrap_u32 (wrap_u32 (Z.shiftl hash 5) + hash) + tolower c)) dict_hash_function_seed buf.

Definition dictSdsHash (key : bytes) : Z := dictGenHashFunction key.
Definition dictSdsCaseHash (key : bytes) : Z := dictGenCaseHashFunction key.

(** ** Comparison of keys *)

Definition dictSdsKeyCompare (key1 key2 : bytes) : bool :=
  if negb (Z.of_nat (length key1) =? Z.of_nat (length key2)) then false else bool_decide (key1 = key2).

(** [strcasecmp(a, b) == 0]: both strings end at their first NUL. *)
Fixpoint strcasecmp0 (a b : bytes) : bool :=
  match a, b with
  | x :: a, y :: b =>
      if tolower x =? tolower y then if x =? 0 then true else strcasecmp0 a b else false
  | x :: _, [] => x =? 0
  | [], y :: _ => y =? 0
  | [], [] => true
  end.

Definition dictSdsKeyCaseCompare (key1 key2 : bytes) : bool := strcasecmp0 key1 key2.

Lemma dictSdsKeyCompare_eq k1 k2 : dictSdsKeyCompare k1 k2 = true <-> k1 = k2.
Proof.
  unfold dictSdsKeyCompare. destruct (Z.eqb_spec (Z.of_nat (length k1)) (Z.of_nat (length k2))) as [_|Hne]; cbn.
  - apply bool_decide_eq_true.
  - split; [done|]. intros ->. done.
Qed.

Lemma tolower_0 x : x <> 0 -> 0 <= x -> tolower x <> 0.
Proof. unfold tolower. intros. destruct (_ && _) eqn:E; lia. Qed.

(** On strings without NUL the comparison is equality of the lower case forms. *)
Lemma strcasecmp0_spec a : forall b, nonul a -> nonul b -> Forall (λ x, 0 <= x) a -> Forall (λ x, 0 <= x) b ->
  strcasecmp0 a b = true <-> tolower <$> a = tolower <$> b.
Proof.
  induction a as [|x a IH]; intros [|y b] Ha Hb Pa Pb; cbn; try done.
  - apply Forall_cons in Hb as [Hy _]. rewrite (proj2 (Z.eqb_neq y 0)) by done. done.
  - apply Forall_cons in Ha as [Hx _]. rewrite (proj2 (Z.eqb_neq x 0)) by done. done.
  - apply Forall_cons in Ha as [Hx Ha]. apply Forall_cons in Hb as [Hy Hb].
    apply Forall_cons in Pa as [_ Pa]. apply Forall_cons in Pb as [_ Pb].
    rewrite (proj2 (Z.eqb_neq x 0)) by done. destruct (Z.eqb_spec (tolower x) (tolower y)) as [E|E].
    + rewrite IH by done. split; [by intros ->; rewrite E|]. by intros [= _ ->].
    + split; [done|]. by intros [= ? _].
Qed.

(** The case insensitive hash does not see the case. *)
Lemma case_hash_lower a b : tolower <$> a = tolower <$> b -> dictSdsCaseHash a = dictSdsCaseHash b.
Proof.
  unfold dictSdsCaseHash, dictGenCaseHashFunction. generalize dict_hash_function_seed. revert b.
  induction a as [|x a IH]; intros [|y b] h; cbn; try done. intros [= -> E]. by apply IH.
Qed.

(** ** The command table *)

Definition PREZ_CMD_WRITE : Z := 1.
Definition PREZ_CMD_READONLY : Z := 2.
Definition PREZ_CMD_ADMIN : Z := 16.
Definition PREZ_CMD_STALE : Z := 1024.

(** Name, function, arity and flags of [prezCommandTable]. *)
Definition prezCommandTable : list (bytes * prezCommandProc * Z * bytes) :=
  [(lit "get", getCommand_proc, 2, lit "r");
   (lit "set", setCommand_proc, -3, lit "w");
   (lit "config", configCommand_proc, -2, lit "art")].

(** The loop over [sflags]; another letter is a panic. *)
Fixpoint command_flags (f : bytes) (fl : Z) : cres Z :=
  match f with
  | [] => mret fl
  | c :: f =>
      if c =? 119 then command_flags f (Z.lor fl PREZ_CMD_WRITE)
      else if c =? 114 then command_flags f (Z.lor fl PREZ_CMD_READONLY)
      else if c =? 97 then command_flags f (Z.lor fl PREZ_CMD_ADMIN)
      else if c =? 116 then command_flags f (Z.lor fl PREZ_CMD_STALE)
      else Exit
  end.

Fixpoint populate_loop (d : dict (K := bytes) (V := prezCommand)) (t : list (bytes * prezCommandProc * Z * bytes))
    : cres (dict (K := bytes) (V := prezCommand)) :=
  match t with
  | [] => mret d
  | (name, p, ar, sflags) :: t =>
      fl ← command_flags sflags 0;
      '(d, retval) ← dictAdd dictSdsCaseHash true d name (mkCommand name p ar fl);
      _ ← prez_assert (retval =? DICT_OK);
      populate_loop d t
  end.

Definition populateCommandTable : cres (dict (K := bytes) (V := prezCommand)) :=
  populate_loop dictCreate prezCommandTable.

(** [server.commands] *)
Definition server_commands : dict (K := bytes) (V := prezCommand) :=
  match populateCommandTable with Ret d => d | _ => dictCreate end.

(** The chain of the slot of [name], searched with the comparison of the table. *)
Definition lookupCommand (name : bytes) : cres (option prezCommand) :=
  c ← chain_at dictSdsCaseHash (ht0 server_commands) name;
  mret (snd <$> (snd <$> list_find (λ e, dictSdsKeyCaseCompare name e.1 = true) c)).

Example commands_populated : populateCommandTable = Ret server_commands /\ dictIsRehashing server_commands = false.
Proof. vm_compute. done. Qed.

(** The three commands. *)
Definition cmd_get : prezCommand := mkCommand (lit "get") getCommand_proc 2 PREZ_CMD_READONLY.
Definition cmd_set : prezCommand := mkCommand (lit "set") setCommand_proc (-3) PREZ_CMD_WRITE.
Definition cmd_config : prezCommand :=
  mkCommand (lit "config") configCommand_proc (-2) (Z.lor (Z.lor PREZ_CMD_ADMIN PREZ_CMD_READONLY) PREZ_CMD_STALE).

Definition command_of (name : bytes) : option prezCommand :=
  let l := tolower <$> name in
  if bool_decide (l = lit "get") then Some cmd_get
  else if bool_decide (l = lit "set") then Some cmd_set
  else if bool_decide (l = lit "config") then Some cmd_config else None.

Lemma commands_table : table (ht0 server_commands)
  = [[]; [(lit "set", cmd_set); (lit "get", cmd_get)]; []; [(lit "config", cmd_config)]]
  /\ sizemask (ht0 server_commands) = 3.
Proof. vm_compute. done. Qed.

Lemma command_slot name : (slot dictSdsCaseHash (ht0 server_commands) name < 4)%nat.
Proof.
  unfold slot. rewrite (proj2 commands_table). change 3 with (Z.ones 2). rewrite Z.land_ones by lia.
  pose proof (Z.mod_pos_bound (dictSdsCaseHash name) (2 ^ 2)). lia.
Qed.

(** A command is found when its name is that of the table without regard to case. *)
Lemma lookupCommand_spec name : nonul name -> Forall (λ x, 0 <= x) name ->
  lookupCommand name = Ret (command_of name).
Proof.
  intros Hn Hp. unfold lookupCommand, command_of, chain_at. rewrite (proj1 commands_table).
  assert (forall k, nonul k -> Forall (λ x, 0 <= x) k -> tolower <$> k = k ->
    dictSdsKeyCaseCompare name k = bool_decide (tolower <$> name = k)) as Hcmp.
  { intros k Hk Pk Ek. apply eq_true_iff_eq. rewrite bool_decide_eq_true. unfold dictSdsKeyCaseCompare.
    rewrite strcasecmp0_spec by done. by rewrite Ek. }
  assert (forall k, tolower <$> name = k -> tolower <$> k = k -> slot dictSdsCaseHash (ht0 server_commands) name
    = slot dictSdsCaseHash (ht0 server_commands) k) as Hslot.
  { intros k E Ek. unfold slot. do 2 f_equal. apply case_hash_lower. congruence. }
  pose proof (command_slot name) as Hlt. set (i := slot dictSdsCaseHash (ht0 server_commands) name) in *.
  assert (tolower <$> name = lit "get" -> i = 1%nat) as Hg by (intros E; rewrite (Hslot _ E eq_refl); by vm_compute).
  assert (tolower <$> name = lit "set" -> i = 1%nat) as Hs by (intros E; rewrite (Hslot _ E eq_refl); by vm_compute).
  assert (tolower <$> name = lit "config" -> i = 3%nat) as Hc by (intros E; rewrite (Hslot _ E eq_refl); by vm_compute).
  pose proof (Hcmp (lit "get") ltac:(by repeat constructor) ltac:(by repeat constructor) eq_refl) as Cg.
  pose proof (Hcmp (lit "set") ltac:(by repeat constructor) ltac:(by repeat constructor) eq_refl) as Cs.
  pose proof (Hcmp (lit "config") ltac:(by repeat constructor) ltac:(by repeat constructor) eq_refl) as Cc.
  clearbody i. clear Hslot Hcmp. assert (lit "set" <> lit "get") as Hsg by done.
  destruct i as [|[|[|[|i]]]]; [..|lia]; cbn [of_ptr lookup list_lookup mbind cres_bind list_find fst snd];
    unfold decide, decide_rel; rewrite ?Cg, ?Cs, ?Cc;
    repeat case_bool_decide; try done; try (by exfalso; lia); try congruence; try (exfalso; naive_solver lia).
Qed.

(** [C26] The command table is searched without regard to case.  For a name that is a C
    string, looking it up in the hash table that [populateCommandTable] builds, with the case
    insensitive hash and comparison, is the same as comparing its lower case form with the
    three names of the table. *)
Theorem lookupCommand_correct (name : bytes) : nonul name -> Forall (λ x, 0 <= x) name ->
  lookupCommand name = Ret (command_of name)
  /\ (forall k, command_of name = Some k <-> (k = cmd_get \/ k = cmd_set \/ k = cmd_config) /\ tolower <$> name = cmd_name k).
Proof.
  intros Hn Hp. split; [by apply lookupCommand_spec|]. intros k. unfold command_of.
  repeat case_bool_decide; split; try naive_solver;
    intros [[->|[->| ->]] E]; rewrite E in *; done.
Qed.

Lemma lookupCommand_correct_witness :
  lookupCommand (lit "GeT") = Ret (Some cmd_get) /\ lookupCommand (lit "gett") = Ret None.
Proof.
  split.
  - rewrite (proj1 (lookupCommand_correct (lit "GeT") ltac:(by repeat constructor) ltac:(by repeat constructor))). reflexivity.
  - rewrite (proj1 (lookupCommand_correct (lit "gett") ltac:(by repeat constructor) ltac:(by repeat constructor))). reflexivity.
Defined.
