(* ===== verification/Keyspace.v ===== *)
(** * db.c and prez.c: the data set and its commands

    The C level interface of the data set in src/src/db.c, on the hash table of Dict.v, and
    the commands GET and SET of src/src/prez.c.  A command runs for a client, or for a
    replicated entry of the log, when the client is NULL.  Objects are values: reference
    counts are not modelled.  The state of the server around the data set is abstract here;
    CONFIG, which works on it, is in Config.v. *)

From Stdlib Require Import ZArith Lia.
From stdpp Require Import base tactics numbers list gmap strings.
From S2P Require Import Prelude Util Object Dict DictTypes Client Request.

Local Open Scope Z_scope.

(** [server.db[0].dict] and the counters of lookups. *)
Record keyspace := mkKeyspace {
  db_dict : dict (K := bytes) (V := robj);
  stat_keyspace_hits : Z;
  stat_keyspace_misses : Z;
}.

Definition set_dict (db : keyspace) (d : dict (K := bytes) (V := robj)) : keyspace :=
  mkKeyspace d (stat_keyspace_hits db) (stat_keyspace_misses db).

(** ** The interface of the data set *)

Definition lookupKey (db : keyspace) (key : robj) : cres (keyspace * option robj) :=
  '(d, o) ← dictFind dictSdsHash (db_dict db) (obj_sds key);
  mret (set_dict db d, o).

Definition lookupKeyRead (db : keyspace) (key : robj) : cres (keyspace * option robj) :=
  '(db, o) ← lookupKey db key;
  match o with
  | None => mret (mkKeyspace (db_dict db) (stat_keyspace_hits db) (stat_keyspace_misses db + 1), o)
  | Some _ => mret (mkKeyspace (db_dict db) (stat_keyspace_hits db + 1) (stat_keyspace_misses db), o)
  end.

Definition lookupKeyWrite : keyspace -> robj -> cres (keyspace * option robj) := lookupKey.

(** The global [dict_can_resize] is 1 in this server. *)
Definition dbAdd (db : keyspace) (key val : robj) : cres keyspace :=
  '(d, retval) ← dictAdd dictSdsHash true (db_dict db) (obj_sds key) val;
  _ ← prez_assert (retval =? PREZ_OK);
  mret (set_dict db d).

Definition dbOverwrite (db : keyspace) (key val : robj) : cres keyspace :=
  '(d, de) ← dictFind dictSdsHash (db_dict db) (obj_sds key);
  _ ← prez_assert (match de with Some _ => true | None => false end);
  '(d, _) ← dictReplace dictSdsHash true d (obj_sds key) val;
  mret (set_dict db d).

Definition setKey (db : keyspace) (key val : robj) : cres keyspace :=
  '(db, o) ← lookupKeyWrite db key;
  match o with
  | None => dbAdd db key val
  | Some _ => dbOverwrite db key val
  end.

Definition dbExists (db : keyspace) (key : robj) : cres (keyspace * bool) :=
  '(d, o) ← dictFind dictSdsHash (db_dict db) (obj_sds key);
  mret (set_dict db d, match o with Some _ => true | None => false end).

Definition dbDelete (db : keyspace) (key : robj) : cres (keyspace * Z) :=
  '(d, r) ← dictDelete dictSdsHash (db_dict db) (obj_sds key);
  mret (set_dict db d, if r =? DICT_OK then 1 else 0).

(** ** The data set is a finite map *)

Definition db_rep (db : keyspace) (m : gmap bytes robj) : Prop := rep dictSdsHash (db_dict db) m.

Lemma lookupKey_spec db m key : db_rep db m ->
  exists db', lookupKey db key = Ret (db', m !! obj_sds key) /\ db_rep db' m.
Proof.
  intros Hr. unfold lookupKey. destruct (dictFind_spec dictSdsHash _ m (obj_sds key) Hr) as (d' & -> & R').
  eexists. split; [done|exact R'].
Qed.

Lemma lookupKeyRead_spec db m key : db_rep db m ->
  exists db', lookupKeyRead db key = Ret (db', m !! obj_sds key) /\ db_rep db' m.
Proof.
  intros Hr. unfold lookupKeyRead. destruct (lookupKey_spec db m key Hr) as (db' & -> & R').
  cbn [mbind cres_bind]. destruct (m !! obj_sds key); (eexists; split; [done|exact R']).
Qed.

Lemma setKey_spec db m key val : db_rep db m -> (base.size m <= Z.to_nat (2 ^ 29))%nat ->
  exists db', setKey db key val = Ret db' /\ db_rep db' (<[obj_sds key := val]> m).
Proof.
  intros Hr Hs. unfold setKey, lookupKeyWrite. destruct (lookupKey_spec db m key Hr) as (db1 & -> & R1).
  cbn [mbind cres_bind]. destruct (m !! obj_sds key) as [v|] eqn:E.
  - unfold dbOverwrite. destruct (dictFind_spec dictSdsHash _ m (obj_sds key) R1) as (d2 & -> & R2).
    cbn [mbind cres_bind]. rewrite E. cbn [prez_assert mbind cres_bind].
    destruct (dictReplace_spec dictSdsHash true d2 m (obj_sds key) val R2 Hs) as (d3 & -> & R3).
    eexists. split; [done|exact R3].
  - unfold dbAdd. destruct (dictAdd_spec dictSdsHash true (db_dict db1) m (obj_sds key) val R1 Hs) as (d2 & -> & R2 & _).
    rewrite E in *. cbn [mbind cres_bind]. eexists. split; [done|exact R2].
Qed.

Lemma dbDelete_spec db m key : db_rep db m ->
  exists db', dbDelete db key = Ret (db', if m !! obj_sds key then 1 else 0) /\ db_rep db' (delete (obj_sds key) m).
Proof.
  intros Hr. unfold dbDelete. destruct (dictDelete_spec dictSdsHash _ m (obj_sds key) Hr) as (d' & -> & R').
  eexists. split; [by destruct (m !! obj_sds key)|exact R'].
Qed.

(** ** Commands *)

(** [addReply] does nothing for a NULL client. *)
Definition addReply_opt (oe : oenv) (c : option prezClient) (o : robj) : cres (option prezClient) :=
  match c with
  | None => mret None
  | Some c => c ← addReply oe c o; mret (Some c)
  end.

Definition setGenericCommand (oe : oenv) (db : keyspace) (c : option prezClient) (key val : robj)
    : cres (keyspace * option prezClient) :=
  db ← setKey db key val;
  c ← addReply_opt oe c shared_ok;
  mret (db, c).

Definition lookupKeyReadOrReply (oe : oenv) (db : keyspace) (c : option prezClient) (key reply : robj)
    : cres (keyspace * option prezClient * option robj) :=
  '(db, o) ← lookupKeyRead db key;
  match o with
  | None => c ← addReply_opt oe c reply; mret (db, c, None)
  | Some o => mret (db, c, Some o)
  end.

Definition lookupKeyWriteOrReply (oe : oenv) (db : keyspace) (c : option prezClient) (key reply : robj)
    : cres (keyspace * option prezClient * option robj) :=
  '(db, o) ← lookupKeyWrite db key;
  match o with
  | None => c ← addReply_opt oe c reply; mret (db, c, None)
  | Some o => mret (db, c, Some o)
  end.

(** The key comes from the client itself, which must not be NULL; the value of every key is
    a string, so the test of the type always succeeds. *)
Definition getGenericCommand (oe : oenv) (db : keyspace) (c : option prezClient)
    : cres (keyspace * option prezClient * Z) :=
  c0 ← of_ptr c;
  key ← of_ptr (argv (inp c0) !! 1%nat);
  '(db, c, o) ← lookupKeyReadOrReply oe db c key shared_nullbulk;
  match o with
  | None => mret (db, c, PREZ_OK)
  | Some o => c ← of_ptr c; c ← addReplyBulk oe c o; mret (db, Some c, PREZ_OK)
  end.

Definition getCommand (oe : oenv) (db : keyspace) (c : option prezClient) (argv : list robj)
    : cres (keyspace * option prezClient) :=
  '(db, c, _) ← getGenericCommand oe db c;
  mret (db, c).

(** After the error reply for a wrong number of arguments the command is run all the same. *)
Definition setCommand (oe : oenv) (db : keyspace) (c : option prezClient) (argv : list robj)
    : cres (keyspace * option prezClient) :=
  c ← (if negb (Z.of_nat (length argv) =? 3) then addReply_opt oe c shared_syntaxerr else mret c);
  key ← of_ptr (argv !! 1%nat);
  val ← of_ptr (argv !! 2%nat);
  setGenericCommand oe db c key val.

(** The state of a server holds its data set; CONFIG works on the rest of it. *)
Class HasKeyspace (W : Type) := {
  w_db : W -> keyspace;
  w_set_db : W -> keyspace -> W;
  w_db_set w k : w_db (w_set_db w k) = k;
}.

Section Commands.
Context {W : Type} `{!HasKeyspace W}.
Context (configCommand : oenv -> W -> option prezClient -> list robj -> cres (W * option prezClient)).

(** A command of the data set. *)
Definition on_db (f : keyspace -> cres (keyspace * option prezClient)) (w : W) : cres (W * option prezClient) :=
  '(db, c) ← f (w_db w); mret (w_set_db w db, c).

(** [cmd->proc(c,argv,argc)] *)
Definition run_proc (oe : oenv) (p : prezCommandProc) (w : W) (c : option prezClient) (argv : list robj)
    : cres (W * option prezClient) :=
  match p with
  | getCommand_proc => on_db (λ db, getCommand oe db c argv) w
  | setCommand_proc => on_db (λ db, setCommand oe db c argv) w
  | configCommand_proc => configCommand oe w c argv
  end.

Definition call (oe : oenv) (w : W) (c : prezClient) : cres (W * prezClient) :=
  match cmd (inp c) with
  | None => mret (w, resetClient c)
  | Some k =>
      '(w, oc) ← run_proc oe (cmd_proc k) w (Some c) (argv (inp c));
      c ← of_ptr oc;
      mret (w, resetClient c)
  end.

(** ** GET and SET *)

(** The size of the largest map the tables hold. *)
Definition fits (m : gmap bytes robj) : Prop := (base.size m <= Z.to_nat (2 ^ 29))%nat.

(** The values of a map can be printed. *)
Definition values_ok (m : gmap bytes robj) : Prop :=
  map_Forall (λ _ o, obj_ok o /\ Z.of_nat (length (reply_text o)) < 2 ^ 63) m.

(** The answer to GET. *)
Definition get_text (m : gmap bytes robj) (key : bytes) : bytes :=
  match m !! key with None => lit "$-1" ++ CRLF | Some o => bulk (reply_text o) end.

Lemma queued_replied k t c c' : queued k t c c' -> k <= 3 -> replied t c c'.
Proof.
  intros [? Ei F ? ? ? ?] Hk. constructor; try done; [by apply F|by apply F|by rewrite Ei|]. lia.
Qed.

Lemma call_get oe w m c g k : oenv_ok oe -> db_rep (w_db w) m -> values_ok m ->
  cmd (inp c) = Some cmd_get -> argv (inp c) = [g; k] ->
  ready 3 (Z.of_nat (length (get_text m (obj_sds k)))) c ->
  exists db' c', call oe w c = Ret (w_set_db w db', resetClient c') /\ db_rep db' m /\ replied (get_text m (obj_sds k)) c c'.
Proof.
  intros E Hr Hv Hc Ha R. unfold call. rewrite Hc. cbn [cmd_proc cmd_get run_proc]. unfold on_db, getCommand, getGenericCommand, lookupKeyReadOrReply.
  cbn [of_ptr mbind cres_bind]. rewrite Ha. cbn [lookup list_lookup of_ptr mbind cres_bind].
  destruct (lookupKeyRead_spec (w_db w) m k Hr) as (db' & -> & R'). cbn [mbind cres_bind]. unfold get_text in *.
  destruct (m !! obj_sds k) as [o|] eqn:Eo.
  - destruct (rop_spec oe c (TBulk o) E) as (c' & Ec & Q); [by apply (Hv (obj_sds k))|done|].
    change (run_rop oe c (TBulk o)) with (addReplyBulk oe c o) in Ec.
    cbn [mbind cres_bind mret cres_ret of_ptr]. rewrite Ec. cbn [mbind cres_bind].
    exists db', c'. split_and!; [done|done|]. by eapply queued_replied.
  - destruct (rop_spec oe c (TObj shared_nullbulk) E) as (c' & Ec & Q); [done|done|].
    change (run_rop oe c (TObj shared_nullbulk)) with (addReply oe c shared_nullbulk) in Ec.
    cbn [mbind cres_bind mret cres_ret addReply_opt]. rewrite Ec. cbn [mbind cres_bind].
    exists db', c'. split_and!; [done|done|]. by eapply queued_replied.
Qed.

(** The answer to a SET with [n] words: one with more than three is reported, and run. *)
Definition set_text (n : nat) : bytes :=
  (if (n =? 3)%nat then [] else lit "-ERR syntax error" ++ CRLF) ++ lit "+OK" ++ CRLF.

Lemma call_set oe w m c s k v rest : oenv_ok oe -> db_rep (w_db w) m -> fits m ->
  cmd (inp c) = Some cmd_set -> argv (inp c) = s :: k :: v :: rest -> ready 6 24 c ->
  exists db' c', call oe w c = Ret (w_set_db w db', resetClient c') /\ db_rep db' (<[obj_sds k := v]> m)
    /\ queued 6 (set_text (3 + length rest)) c c'.
Proof.
  intros E Hr Hf Hc Ha R. unfold call. rewrite Hc. cbn [cmd_proc cmd_set run_proc]. unfold on_db, setCommand. rewrite Ha.
  assert (exists c1, (if negb (Z.of_nat (length (s :: k :: v :: rest)) =? 3) then addReply_opt oe (Some c) shared_syntaxerr
      else mret (Some c)) = Ret (Some c1)
    /\ queued 3 (if (3 + length rest =? 3)%nat then [] else lit "-ERR syntax error" ++ CRLF) c c1) as (c1 & -> & Q1).
  { destruct rest as [|x rest].
    - exists c. split; [done|]. destruct R as (? & ? & ? & ?). constructor; try done; cbn; rewrite ?app_nil_r; try done. lia.
    - rewrite (proj2 (Z.eqb_neq _ _)) by (cbn; lia). cbn [negb Nat.eqb Nat.add length addReply_opt].
      destruct (rop_spec oe c (TObj shared_syntaxerr) E) as (c' & Ec & Q); [done|eapply ready_le; [exact R|lia|cbn; lia]|].
      change (run_rop oe c (TObj shared_syntaxerr)) with (addReply oe c shared_syntaxerr) in Ec. rewrite Ec. by exists c'. }
  cbn [mbind cres_bind mret cres_ret lookup list_lookup of_ptr]. unfold setGenericCommand.
  destruct (setKey_spec (w_db w) m k v Hr Hf) as (db' & -> & R'). cbn [mbind cres_bind addReply_opt].
  destruct (rop_spec oe c1 (TObj shared_ok) E) as (c' & Ec & Q); [done| |].
  { eapply queued_ready; [exact Q1|]. eapply ready_le; [exact R|lia|]. destruct (_ =? _)%nat; cbn; lia. }
  change (run_rop oe c1 (TObj shared_ok)) with (addReply oe c1 shared_ok) in Ec. rewrite Ec. cbn [mbind cres_bind].
  exists db', c'. split_and!; [done|done|]. exact (queued_trans 3 3 _ _ _ _ _ Q1 Q).
Qed.

(** SET for an entry of the log. *)
Lemma apply_set oe w m s k v rest : db_rep (w_db w) m -> fits m ->
  exists db', run_proc oe setCommand_proc w None (s :: k :: v :: rest) = Ret (w_set_db w db', None)
    /\ db_rep db' (<[obj_sds k := v]> m).
Proof.
  intros Hr Hf. cbn [run_proc]. unfold on_db, setCommand.
  replace (if negb _ then _ else _) with (Ret (A := option prezClient) None) by (by destruct (negb _)).
  cbn [mbind cres_bind mret cres_ret lookup list_lookup of_ptr].
  unfold setGenericCommand. destruct (setKey_spec (w_db w) m k v Hr Hf) as (db' & -> & R'). by exists db'.
Qed.
End Commands.
