(* ===== verification/Log.v ===== *)
(** * log.c: the replicated log

    The log of src/src/log.c: the in-memory list of entries and the append-only file
    they are persisted in.  [log_entries] is the sequence held by the adlist
    (Adlist.v), [log_file] the bytes of the file behind [log_fd].  The results of
    [write], [ftruncate] and [fsync] are the parameter [io].  *)

From Stdlib Require Import ZArith Lia.
From stdpp Require Import base tactics numbers list strings.
From S2P Require Import Prelude Util Adlist Object.

Local Open Scope Z_scope.

(** ** Data (cluster.h) *)

Definition PREZ_OK : Z := 0.
Definition PREZ_ERR : Z := -1.
Definition PREZ_COMMAND_NAMELEN : Z := 40.
Definition PREZ_COMMAND_LEN : Z := 40.
Definition PREZ_LOG_MAX_ENTRIES_PER_REQUEST : Z := 50.

(** [commandName] and [command] are the raw arrays of 40 bytes. *)
Record logEntry := mkEntry {
  index : Z;
  term : Z;
  commandName : bytes;
  command : bytes;
}.

(** [addr]: the address of the node's memory, which [last_sent_entry] of a
    cluster node keeps. *)
Record logEntryNode := mkLogNode {
  addr : positive;
  log_entry : logEntry;
  position : Z;
}.

Record logStore := mkStore {
  log_entries : list logEntryNode;
  log_file : bytes;
  log_current_size : Z;
  next_addr : positive;
}.

(** [write] stores a prefix of its argument and returns its size, or fails with a
    negative result; [ftruncate] and [fsync] succeed or fail.  The results may
    depend on the state of the log. *)
Record ioenv := mkIO {
  io_write : logStore -> bytes -> Z;
  io_ftruncate : logStore -> Z -> bool;
  io_fsync : logStore -> bool;
}.

(** [clusterMsgDataAppendEntries], the part log.c reads. *)
Record appendEntries := mkAE {
  ae_term : Z;
  ae_leaderid : bytes;
  prev_log_index : Z;
  prev_log_term : Z;
  leader_commit_index : Z;
  log_entries_count : Z;
  ae_log_entries : list logEntry;
}.

(** [logLength]: [listLength] is an [unsigned long]. *)
Definition logLength (s : logStore) : Z := Z.of_nat (length (log_entries s)).

(** ** Access *)

(** [index-1-logLength] is computed in unsigned arithmetic and passed to
    [listIndex] as a [long]. *)
Definition getLogNode (s : logStore) (index : Z) : option nat :=
  index_pos (log_entries s) (wrap_s64 (index - 1 - logLength s)).

Definition getLogEntry (s : logStore) (index : Z) : option logEntryNode :=
  n ← getLogNode s index; log_entries s !! n.

Definition logCurrentIndex (s : logStore) : Z :=
  match list_index (log_entries s) (-1) with
  | Some en => index (log_entry en)
  | None => 0
  end.

Definition logCurrentTerm (s : logStore) : Z :=
  match list_index (log_entries s) (-1) with
  | Some en => term (log_entry en)
  | None => 0
  end.

Definition logGetTerm (s : logStore) (index : Z) : Z :=
  match getLogEntry s index with
  | Some en => term (log_entry en)
  | None => 0
  end.

(** ** Consistency check *)

Definition logVerifyAppend (s : logStore) (index trm : Z) : cres Z :=
  if index =? 0 then mret PREZ_OK else
  if logLength s <? wrap_u64 index then mret PREZ_ERR else
  entry ← of_ptr (getLogEntry s index);
  if negb (term (log_entry entry) =? trm) then mret PREZ_ERR else
  mret PREZ_OK.

(** ** Truncation and append *)

Definition ftruncate (file : bytes) (n : Z) : bytes :=
  take (Z.to_nat n) file ++ replicate (Z.to_nat n - length file) 0.

(** The comparison with [logLength] is unsigned.  The loop over the list deletes
    every node from the one found to the end ([listDelFrom] of Adlist.v). *)
Definition logTruncate (io : ioenv) (s : logStore) (index : Z) : cres logStore :=
  if wrap_u64 index <? logLength s then
    entry ← of_ptr (getLogEntry s index);
    let pos := position entry in
    let file := if io_ftruncate io s pos then ftruncate (log_file s) pos else log_file s in
    n ← of_ptr (getLogNode s index);
    mret (mkStore (take n (log_entries s)) file pos (next_addr s))
  else mret s.

(** One multi bulk header or length line: [prefix], the number, CR LF, built in a
    stack buffer of 32 bytes. *)
Definition bulk_line (prefix v : Z) : bytes := prefix :: ll2text 31 v ++ CRLF.

Fixpoint catLogEntry_args (dst : bytes) (argv : list robj) : bytes :=
  match argv with
  | [] => dst
  | o :: argv =>
      let o := decoded o in
      let dst := dst ++ bulk_line 36 (Z.of_nat (length o)) in
      let dst := dst ++ o in
      catLogEntry_args (dst ++ CRLF) argv
  end.

Definition catLogEntry (dst : bytes) (argv : list robj) : bytes :=
  catLogEntry_args (dst ++ bulk_line 42 (Z.of_nat (length argv))) argv.

(** Persisting and appending, after the duplicate and conflict checks. *)
Definition logPersist (io : ioenv) (s : logStore) (e : logEntry) : cres logStore :=
  nlen ← of_ptr (strlen (commandName e));
  clen ← of_ptr (strlen (command e));
  let argv := [createStringObjectFromLongLong (index e);
               createStringObjectFromLongLong (term e);
               createStringObject (take nlen (commandName e));
               createStringObject (take clen (command e))] in
  let buf := catLogEntry [] argv in
  let nwritten := io_write io s buf in
  let file := log_file s ++ take (Z.to_nat nwritten) buf in
  let en := mkLogNode (next_addr s)
    (mkEntry (index e) (term e)
       (memcpy (replicate 40 0) (take nlen (commandName e)))
       (memcpy (replicate 40 0) (take clen (command e))))
    (log_current_size s) in
  mret (mkStore (log_entries s ++ [en]) file
          (log_current_size s + Z.of_nat (length buf)) (Pos.succ (next_addr s))).

Definition logWriteEntry (io : ioenv) (s : logStore) (e : logEntry) : cres (logStore * Z) :=
  let en := if 0 <? logLength s then getLogEntry s (index e) else None in
  match en with
  | Some en =>
      if (index (log_entry en) =? index e) && (term (log_entry en) =? term e) then
        mret (s, PREZ_OK)
      else
        s ← (if negb (term e =? term (log_entry en)) && (index e =? index (log_entry en))
             then logTruncate io s (index e) else mret s);
        s ← logPersist io s e;
        mret (s, PREZ_OK)
  | None =>
      s ← logPersist io s e;
      mret (s, PREZ_OK)
  end.

(** The loop over the entries of the message; [log_entries] is an array of 50. *)
Fixpoint logAppend_loop (io : ioenv) (n : nat) (i : nat) (es : list logEntry) (s : logStore)
    : cres (logStore * Z) :=
  match n with
  | O => mret (s, PREZ_OK)
  | S n =>
      e ← of_ptr (es !! i);
      '(s, r) ← logWriteEntry io s e;
      if negb (r =? PREZ_OK) then mret (s, PREZ_ERR)
      else logAppend_loop io n (S i) es s
  end.

Definition logSync (io : ioenv) (s : logStore) : Z :=
  if io_fsync io s then PREZ_OK else PREZ_ERR.

Definition logAppendEntries (io : ioenv) (s : logStore) (entries : appendEntries)
    : cres (logStore * Z) :=
  '(s, r) ← logAppend_loop io (Z.to_nat (log_entries_count entries)) 0 (ae_log_entries entries) s;
  if negb (r =? PREZ_OK) then mret (s, PREZ_ERR) else
  if negb (logSync io s =? PREZ_OK) then mret (s, PREZ_ERR) else
  mret (s, PREZ_OK).

(** The new commit index. *)
Definition logCommitIndex (s : logStore) (commit_index leader_commit_index : Z) : Z :=
  if commit_index <? leader_commit_index then
    if leader_commit_index <? logCurrentIndex s then leader_commit_index else logCurrentIndex s
  else commit_index.

(** ** Abstract log

    What the protocol sees of an entry: its term and the two C strings. *)
Record aentry := mkA { a_term : Z; a_name : bytes; a_cmd : bytes }.

Definition view (e : logEntry) : aentry :=
  mkA (term e) (default [] (cstr (commandName e))) (default [] (cstr (command e))).

(** The log as a sequence: element [i] is the entry of index [i+1]. *)
Definition views (s : logStore) : list aentry := (λ en, view (log_entry en)) <$> log_entries s.

(** The append rule of the protocol for the entry of position [i]: keep an entry
    of the same term, replace a conflicting one and everything after it. *)
Definition raft_put (l : list aentry) (i : nat) (a : aentry) : list aentry :=
  match l !! i with
  | Some b => if a_term b =? a_term a then l else take i l ++ [a]
  | None => l ++ [a]
  end.

Fixpoint raft_merge (l : list aentry) (i : nat) (es : list aentry) : list aentry :=
  match es with
  | [] => l
  | a :: es => raft_merge (raft_put l i a) (S i) es
  end.

(** ** Invariant *)

Definition c40 (a : bytes) : Prop := length a = 40%nat /\ is_Some (cstr a).

Record entry_ok (e : logEntry) : Prop := {
  eo_index : in_s64 (index e);
  eo_term : in_s64 (term e);
  eo_name : c40 (commandName e);
  eo_cmd : c40 (command e);
}.

Definition contiguous (s : logStore) : Prop :=
  forall i en, log_entries s !! i = Some en -> index (log_entry en) = Z.of_nat i + 1.

(** The list fits in memory: far fewer than 2^62 entries. *)
Definition log_small (s : logStore) : Prop := logLength s < 2 ^ 62.

Record log_wf (s : logStore) : Prop := {
  lw_index : contiguous s;
  lw_entry : Forall (λ en, entry_ok (log_entry en)) (log_entries s);
  lw_small : log_small s;
}.

(** ** Access *)

Lemma logLength_nonneg s : 0 <= logLength s.
Proof. unfold logLength. lia. Qed.

#[local] Hint Resolve logLength_nonneg : prez.

(** Where an index leads: inside the log to its entry, past the end back to the
    head of the list, at 0 and below to nothing. *)
Lemma getLogNode_spec s i :
  log_small s -> - 2 ^ 62 <= i <= 2 ^ 62 ->
  getLogNode s i =
    if (1 <=? i) && (i <=? logLength s) then Some (Z.to_nat (i - 1))
    else if (logLength s <? i) && (i <=? 2 * logLength s)
         then Some (Z.to_nat (i - 1 - logLength s)) else None.
Proof.
  unfold log_small. intros Hs Hi. pose proof (logLength_nonneg s).
  unfold getLogNode. rewrite wrap_s64_id by rng. unfold index_pos.
  fold (logLength s). set (n := logLength s) in *.
  destruct (Z.ltb_spec (i - 1 - n) 0).
  - destruct (Z.leb_spec (- (i - 1 - n)) n), (Z.leb_spec 1 i); cbn; try lia.
    + rewrite (proj2 (Z.leb_le i n)) by lia. f_equal. lia.
    + by rewrite (proj2 (Z.ltb_ge n i)) by lia.
  - rewrite (proj2 (Z.leb_gt i n)), andb_false_r, (proj2 (Z.ltb_lt n i)) by lia. cbn.
    destruct (Z.ltb_spec (i - 1 - n) n), (Z.leb_spec i (2 * n)); done || lia.
Qed.

Lemma getLogEntry_in s i :
  log_small s -> 1 <= i <= logLength s -> getLogEntry s i = log_entries s !! Z.to_nat (i - 1).
Proof.
  unfold log_small. intros Hs Hi. unfold getLogEntry.
  rewrite getLogNode_spec by (done || rng).
  by rewrite (proj2 (Z.leb_le 1 i)), (proj2 (Z.leb_le i _)) by lia.
Qed.

Lemma getLogEntry_nonpos s i :
  log_small s -> - 2 ^ 62 <= i <= 0 -> getLogEntry s i = None.
Proof.
  unfold log_small. intros Hs Hi. pose proof (logLength_nonneg s). unfold getLogEntry.
  rewrite getLogNode_spec by (done || rng).
  rewrite (proj2 (Z.leb_gt 1 i)), (proj2 (Z.ltb_ge _ i)) by lia. done.
Qed.

(** One past the end is the head of the list. *)
Lemma getLogEntry_next s :
  log_small s -> getLogEntry s (logLength s + 1) = log_entries s !! 0%nat.
Proof.
  unfold log_small. intros Hs. pose proof (logLength_nonneg s). unfold getLogEntry.
  rewrite getLogNode_spec by (done || rng).
  rewrite (proj2 (Z.leb_gt (logLength s + 1) _)), andb_false_r by lia.
  rewrite (proj2 (Z.ltb_lt _ _)) by lia. cbn [andb].
  destruct (Z.leb_spec (logLength s + 1) (2 * logLength s)) as [?|Hle]; cbn.
  - f_equal. lia.
  - unfold logLength in *. by destruct (log_entries s); cbn in *; [|lia].
Qed.

Lemma getLogEntry_wf s i :
  log_wf s -> 1 <= i <= logLength s ->
  exists en, getLogEntry s i = Some en /\ log_entries s !! Z.to_nat (i - 1) = Some en
    /\ index (log_entry en) = i /\ entry_ok (log_entry en).
Proof.
  intros [Hi He Hs] Hr. rewrite getLogEntry_in by done.
  destruct (lookup_lt_is_Some_2 (log_entries s) (Z.to_nat (i - 1))) as [en E].
  { unfold logLength in Hr. lia. }
  exists en. split_and!; [done..| |].
  - rewrite (Hi _ _ E). lia.
  - by eapply (Forall_lookup_1 _ _ _ _ He).
Qed.

Lemma last_lookup_index {B} (xs : list B) : list_index xs (-1) = last xs.
Proof.
  unfold list_index, index_pos. rewrite last_lookup. cbn [Z.ltb Z.compare Z.opp].
  destruct xs as [|x xs]; [done|].
  rewrite (proj2 (Z.leb_le 1 _)) by (cbn; lia). cbn. f_equal. lia.
Qed.

Lemma logCurrentIndex_wf s : contiguous s -> logCurrentIndex s = logLength s.
Proof.
  intros Hi. unfold logCurrentIndex. rewrite last_lookup_index, last_lookup.
  unfold logLength. destruct (log_entries s !! pred _) as [en|] eqn:E.
  - rewrite (Hi _ _ E). apply lookup_lt_Some in E. lia.
  - apply lookup_ge_None in E. lia.
Qed.

Lemma logCurrentTerm_last s :
  logCurrentTerm s = from_option a_term 0 (last (views s)).
Proof.
  unfold logCurrentTerm, views. rewrite last_lookup_index, fmap_last. by destruct (last _).
Qed.

Lemma logGetTerm_view s i :
  log_small s -> 1 <= i <= logLength s ->
  logGetTerm s i = from_option a_term 0 (views s !! Z.to_nat (i - 1)).
Proof.
  intros. unfold logGetTerm, views. rewrite getLogEntry_in, list_lookup_fmap by done.
  by destruct (log_entries s !! _).
Qed.

(** ** The text of an entry *)

Definition bulk (s : bytes) : bytes :=
  36 :: ll_repr (Z.of_nat (length s)) ++ CRLF ++ s ++ CRLF.

Definition text (i : Z) (a : aentry) : bytes :=
  42 :: ll_repr 4 ++ CRLF ++ bulk (ll_repr i) ++ bulk (ll_repr (a_term a))
  ++ bulk (a_name a) ++ bulk (a_cmd a).

Definition entry_text (e : logEntry) : bytes := text (index e) (view e).
Arguments text : simpl never.
Arguments entry_text : simpl never.

Lemma catLogEntry_args_app dst argv :
  Forall (λ o, in_s64 (Z.of_nat (length (decoded o)))) argv ->
  catLogEntry_args dst argv = dst ++ concat ((λ o, bulk (decoded o)) <$> argv).
Proof.
  intros H. revert dst. induction H as [|o argv Ho _ IH]; intros dst; cbn.
  - by rewrite app_nil_r.
  - rewrite IH. unfold bulk_line, bulk. rewrite ll2text_repr by (done || lia).
    by rewrite <- !app_assoc, <- !app_comm_cons, <- !app_assoc.
Qed.

Lemma catLogEntry_app dst argv :
  Forall (λ o, in_s64 (Z.of_nat (length (decoded o)))) argv ->
  in_s64 (Z.of_nat (length argv)) ->
  catLogEntry dst argv
  = dst ++ 42 :: ll_repr (Z.of_nat (length argv)) ++ CRLF
      ++ concat ((λ o, bulk (decoded o)) <$> argv).
Proof.
  intros H Hn. unfold catLogEntry. rewrite catLogEntry_args_app by done.
  unfold bulk_line. rewrite ll2text_repr by (done || lia).
  by rewrite <- !app_assoc, <- !app_comm_cons, <- !app_assoc.
Qed.

Lemma c40_strlen a : c40 a ->
  exists s, strlen a = Some (length s) /\ take (length s) a = s /\ cstr a = Some s
    /\ nonul s /\ (length s < 40)%nat.
Proof.
  intros [Hl [s E]]. exists s. pose proof E as (r & -> & Hs)%cstr_Some.
  rewrite length_app in Hl. cbn in Hl. rewrite take_app_length.
  split_and!; [by apply cstr_strlen|done..|lia].
Qed.

Lemma length_default_cstr a : c40 a -> (length (default [] (cstr a)) < 40)%nat.
Proof. intros (s & _ & _ & -> & _ & Hl)%c40_strlen. done. Qed.

(** The entry the list gets: the strings of [e], zero padded. *)
Definition padded (e : logEntry) : logEntry :=
  mkEntry (index e) (term e)
    (memcpy (replicate 40 0) (default [] (cstr (commandName e))))
    (memcpy (replicate 40 0) (default [] (cstr (command e)))).

Lemma c40_padded s : nonul s -> (length s < 40)%nat ->
  c40 (memcpy (replicate 40 0) s).
Proof.
  intros. split.
  - rewrite length_memcpy; rewrite length_replicate; lia.
  - rewrite cstr_memcpy_zero by done. done.
Qed.

Lemma padded_ok e : entry_ok e -> entry_ok (padded e).
Proof.
  intros [? ? (s & _ & _ & E & ? & ?)%c40_strlen (t & _ & _ & E' & ? & ?)%c40_strlen].
  constructor; cbn; [done..| |]; rewrite ?E, ?E'; by apply c40_padded.
Qed.

Lemma view_padded e : entry_ok e -> view (padded e) = view e.
Proof.
  intros [_ _ (s & _ & _ & E & ? & ?)%c40_strlen (t & _ & _ & E' & ? & ?)%c40_strlen].
  unfold view, padded. cbn [commandName command term]. rewrite E, E'.
  cbn [from_option]. by rewrite !cstr_memcpy_zero by done.
Qed.

(** The state after [logPersist]. *)
Definition persisted (io : ioenv) (s : logStore) (e : logEntry) : logStore :=
  mkStore (log_entries s ++ [mkLogNode (next_addr s) (padded e) (log_current_size s)])
    (log_file s ++ take (Z.to_nat (io_write io s (entry_text e))) (entry_text e))
    (log_current_size s + Z.of_nat (length (entry_text e)))
    (Pos.succ (next_addr s)).

Lemma logPersist_ret io s e : entry_ok e -> logPersist io s e = Ret (persisted io s e).
Proof.
  intros [Hi Ht (n & En & Tn & Cn & Nn & Ln)%c40_strlen (c & Ec & Tc & Cc & Nc & Lc)%c40_strlen].
  unfold logPersist. rewrite En, Ec. cbn [of_ptr mbind cres_bind]. rewrite Tn, Tc.
  pose proof (length_ll_repr_max _ Hi). pose proof (length_ll_repr_max _ Ht).
  rewrite catLogEntry_app; 
    [|rewrite !Forall_cons, Forall_nil, !decoded_int, !decoded_create by done; split_and!; rng|cbn [length]; rng].
  cbn [app fmap list_fmap concat length]. rewrite !decoded_int, !decoded_create by done.
  unfold persisted, entry_text, text, view, padded. rewrite Cn, Cc. cbn [default a_term a_name a_cmd].
  by rewrite app_nil_r.
Qed.

(** ** Truncation and append *)

(** The log cut before position [n], whose entry is [en]. *)
Definition cut (io : ioenv) (s : logStore) (n : nat) (en : logEntryNode) : logStore :=
  mkStore (take n (log_entries s))
    (if io_ftruncate io s (position en) then ftruncate (log_file s) (position en) else log_file s)
    (position en) (next_addr s).

Lemma logTruncate_in io s i en :
  log_small s -> 1 <= i < logLength s -> log_entries s !! Z.to_nat (i - 1) = Some en ->
  logTruncate io s i = Ret (cut io s (Z.to_nat (i - 1)) en).
Proof.
  unfold log_small. intros Hs Hi En. unfold logTruncate.
  rewrite wrap_u64_id, (proj2 (Z.ltb_lt _ _)) by rng.
  rewrite getLogEntry_in, En by (done || lia). cbn [of_ptr mbind cres_bind].
  rewrite getLogNode_spec by (done || rng).
  by rewrite (proj2 (Z.leb_le 1 i)), (proj2 (Z.leb_le i _)) by lia.
Qed.

(** The last index is not below the length: nothing is cut. *)
Lemma logTruncate_last io s :
  log_small s -> logTruncate io s (logLength s) = Ret s.
Proof.
  unfold log_small. intros Hs. pose proof (logLength_nonneg s). unfold logTruncate.
  rewrite wrap_u64_id by rng. by rewrite Z.ltb_irrefl.
Qed.

Lemma getLogEntry_past s e :
  log_wf s -> index e = logLength s + 1 -> 0 < logLength s ->
  exists en, getLogEntry s (index e) = Some en /\ index (log_entry en) = 1 /\ index e <> 1.
Proof.
  intros Hw Hi Hn. rewrite Hi, getLogEntry_next by apply Hw.
  destruct (getLogEntry_wf s 1 Hw) as (en & _ & E & ? & _); [lia|].
  exists en. split_and!; [done..|lia].
Qed.

(** What [logWriteEntry] does, by the entry found at the position of [e]. *)
Lemma logWriteEntry_eq io s e :
  log_wf s -> 1 <= index e <= logLength s + 1 ->
  logWriteEntry io s e =
    match log_entries s !! Z.to_nat (index e - 1) with
    | Some en =>
        if term (log_entry en) =? term e then Ret (s, PREZ_OK)
        else
          s' ← logPersist io
            (if index e <? logLength s then cut io s (Z.to_nat (index e - 1)) en else s) e;
          mret (s', PREZ_OK)
    | None => s' ← logPersist io s e; mret (s', PREZ_OK)
    end.
Proof.
  intros Hw Hi. pose proof (logLength_nonneg s). unfold logWriteEntry.
  destruct (decide (index e = logLength s + 1)) as [He|He].
  - rewrite (lookup_ge_None_2 (log_entries s)) by (unfold logLength in *; lia).
    destruct (Z.ltb_spec 0 (logLength s)); [|done].
    destruct (getLogEntry_past s e Hw He) as (en & -> & -> & Hne); [done|].
    by rewrite (proj2 (Z.eqb_neq 1 _)), (proj2 (Z.eqb_neq _ 1)), andb_false_r by done.
  - rewrite (proj2 (Z.ltb_lt 0 _)) by lia.
    destruct (getLogEntry_wf s (index e) Hw) as (en & -> & En & -> & _); [lia|].
    rewrite En, Z.eqb_refl, andb_true_r, (Z.eqb_sym (term e)). cbn [andb].
    destruct (term (log_entry en) =? term e) eqn:Et; [done|]. cbn [negb].
    destruct (Z.ltb_spec (index e) (logLength s)).
    + by rewrite (logTruncate_in io s (index e) en) by (apply Hw || done || lia).
    + replace (index e) with (logLength s) by lia. by rewrite logTruncate_last by apply Hw.
Qed.

(** ** The file holds the log *)

(** All writes, truncations and syncs succeed. *)
Record io_good (io : ioenv) : Prop := {
  ig_write : forall s b, io_write io s b = Z.of_nat (length b);
  ig_trunc : forall s n, io_ftruncate io s n = true;
  ig_sync : forall s, io_fsync io s = true;
}.

Definition texts (s : logStore) : list bytes := (λ en, entry_text (log_entry en)) <$> log_entries s.

Record file_wf (s : logStore) : Prop := {
  fw_file : log_file s = concat (texts s);
  fw_size : log_current_size s = Z.of_nat (length (log_file s));
  fw_pos : forall i en, log_entries s !! i = Some en ->
    position en = Z.of_nat (length (concat (take i (texts s))));
}.

Lemma entry_text_padded e : entry_ok e -> entry_text (padded e) = entry_text e.
Proof. intros. unfold entry_text. by rewrite view_padded. Qed.

Lemma logLength_persisted io s e : logLength (persisted io s e) = logLength s + 1.
Proof. unfold logLength, persisted. cbn. rewrite length_app. cbn. lia. Qed.

Lemma views_persisted io s e : entry_ok e -> views (persisted io s e) = views s ++ [view e].
Proof. intros. unfold views, persisted. cbn. rewrite fmap_app. cbn. by rewrite view_padded. Qed.

Lemma log_wf_persisted io s e :
  log_wf s -> entry_ok e -> index e = logLength s + 1 -> logLength s + 1 < 2 ^ 62 ->
  log_wf (persisted io s e).
Proof.
  intros [Hi He Hs] Ho Hx Hn. constructor.
  - intros i en. cbn. rewrite lookup_snoc_Some. intros [[_ E]|[-> <-]]; [by apply Hi|].
    cbn. unfold logLength in Hx. lia.
  - cbn. apply Forall_app. split; [done|]. rewrite Forall_singleton. by apply padded_ok.
  - unfold log_small. by rewrite logLength_persisted.
Qed.

Lemma file_wf_persisted io s e :
  io_good io -> file_wf s -> entry_ok e -> file_wf (persisted io s e).
Proof.
  intros [Hw _ _] [Hf Hz Hp] Ho.
  assert (texts (persisted io s e) = texts s ++ [entry_text e]) as Et.
  { unfold texts. cbn. rewrite fmap_app. cbn. by rewrite entry_text_padded. }
  constructor.
  - rewrite Et, concat_app. cbn. rewrite Hw, Nat2Z.id, firstn_all, app_nil_r. by rewrite Hf.
  - cbn. rewrite Hw, Nat2Z.id, firstn_all, length_app. lia.
  - intros i en. rewrite Et. cbn [log_entries persisted]. rewrite lookup_snoc_Some.
    assert (length (texts s) = length (log_entries s)) as El by apply length_fmap.
    intros [[Hi E]|[-> <-]]; cbn.
    + rewrite take_app_le by lia. by apply Hp.
    + rewrite take_app_le, take_ge by lia. by rewrite <- Hf.
Qed.

Lemma log_wf_cut io s n en : log_wf s -> log_wf (cut io s n en).
Proof.
  intros [Hi He Hs]. constructor.
  - intros i en' [E _]%lookup_take_Some. by apply Hi.
  - cbn. by apply Forall_take.
  - unfold log_small, logLength in *. cbn. rewrite length_take. lia.
Qed.

Lemma file_wf_cut io s n en :
  io_good io -> file_wf s -> log_entries s !! n = Some en -> file_wf (cut io s n en).
Proof.
  intros [_ Ht _] [Hf Hz Hp] En. pose proof (Hp _ _ En) as Ep.
  assert (texts (cut io s n en) = take n (texts s)) as Et
    by (unfold texts; cbn; by rewrite fmap_take).
  assert (ftruncate (log_file s) (position en) = concat (take n (texts s))) as Ef.
  { unfold ftruncate. rewrite Ep, Nat2Z.id, Hf.
    rewrite <- (take_drop n (texts s)) at 2. rewrite concat_app, take_app_length.
    rewrite <- (take_drop n (texts s)) at 3. rewrite concat_app, length_app.
    rewrite Nat.sub_add_distr, Nat.sub_diag. cbn. by rewrite app_nil_r. }
  constructor.
  - rewrite Et. cbn. by rewrite Ht, Ef.
  - cbn. by rewrite Ht, Ef.
  - intros i en' [E Hi]%lookup_take_Some. rewrite Et, take_take, Nat.min_l by lia. by apply Hp.
Qed.

(** ** Refinement of the append rule *)

(** The entry at the position of [e] is absent, of the same term, or not the last. *)
Definition no_last_conflict (l : list aentry) (i : nat) (a : aentry) : Prop :=
  forall b, l !! i = Some b -> a_term b <> a_term a -> (S i < length l)%nat.

Lemma length_views s : Z.of_nat (length (views s)) = logLength s.
Proof. unfold views, logLength. by rewrite length_fmap. Qed.

Lemma views_lookup s i en :
  log_entries s !! i = Some en -> views s !! i = Some (view (log_entry en)).
Proof. intros E. unfold views. by rewrite list_lookup_fmap, E. Qed.

Lemma views_lookup_None s i : log_entries s !! i = None -> views s !! i = None.
Proof. intros E. unfold views. by rewrite list_lookup_fmap, E. Qed.

Lemma views_cut io s n en : views (cut io s n en) = take n (views s).
Proof. unfold views. cbn. by rewrite fmap_take. Qed.

Lemma logWriteEntry_put io s e i :
  log_wf s -> entry_ok e -> index e = Z.of_nat i + 1 -> (i <= length (views s))%nat ->
  logLength s + 1 < 2 ^ 62 -> no_last_conflict (views s) i (view e) ->
  exists s', logWriteEntry io s e = Ret (s', PREZ_OK) /\ log_wf s'
    /\ views s' = raft_put (views s) i (view e)
    /\ (io_good io -> file_wf s -> file_wf s').
Proof.
  intros Hw Ho Hi Hl Hn Hc. pose proof (length_views s) as Ev.
  rewrite logWriteEntry_eq by (done || lia).
  replace (Z.to_nat (index e - 1)) with i by lia. unfold raft_put.
  destruct (log_entries s !! i) as [en|] eqn:En.
  - pose proof (views_lookup _ _ _ En) as Ei. rewrite Ei. cbn [a_term view].
    destruct (Z.eqb_spec (term (log_entry en)) (term e)) as [Et|Et]; [by exists s|].
    specialize (Hc _ Ei Et). rewrite (proj2 (Z.ltb_lt _ _)) by lia.
    assert (logLength (cut io s i en) = Z.of_nat i) as Ec
      by (rewrite <- length_views, views_cut, length_take; lia).
    rewrite logPersist_ret by done. eexists. split; [done|]. split_and!.
    + apply log_wf_persisted; [by apply log_wf_cut|done|lia..].
    + rewrite views_persisted by done. by rewrite views_cut.
    + intros. apply file_wf_persisted; [done| |done]. by apply file_wf_cut.
  - rewrite (views_lookup_None _ _ En). rewrite logPersist_ret by done.
    eexists. split; [done|]. apply lookup_ge_None in En. split_and!.
    + apply log_wf_persisted; [done..| |done]. unfold logLength. unfold views in Hl.
      rewrite length_fmap in Hl. lia.
    + by apply views_persisted.
    + intros. by apply file_wf_persisted.
Qed.

Lemma length_raft_put l i a : (length (raft_put l i a) <= S (length l))%nat.
Proof.
  unfold raft_put. repeat case_match; rewrite ?length_app, ?length_take; cbn; lia.
Qed.

Lemma length_raft_put_ge l i a : (i <= length l)%nat -> (S i <= length (raft_put l i a))%nat.
Proof.
  intros. unfold raft_put. destruct (l !! i) as [b|] eqn:E.
  - apply lookup_lt_Some in E. case_match; rewrite ?length_app, ?length_take; cbn; lia.
  - rewrite length_app. cbn. lia.
Qed.

(** After a step, the later entries of the request meet what they met before, or
    nothing. *)
Lemma raft_put_later l i a j b :
  (i <= length l)%nat -> (i < j)%nat -> raft_put l i a !! j = Some b ->
  l !! j = Some b /\ raft_put l i a = l.
Proof.
  intros Hi Hj. unfold raft_put. destruct (l !! i) as [c|] eqn:E.
  - case_match; [done|]. intros Hl%lookup_lt_Some.
    rewrite length_app, length_take in Hl. cbn in Hl. lia.
  - apply lookup_ge_None in E. intros Hl%lookup_lt_Some.
    rewrite length_app in Hl. cbn in Hl. lia.
Qed.

(** The first conflict of the request, if any, is not with the last entry. *)
Definition no_last_conflicts (l : list aentry) (i : nat) (es : list aentry) : Prop :=
  forall k a, es !! k = Some a ->
    (forall k' a', (k' < k)%nat -> es !! k' = Some a' ->
       a_term <$> l !! (i + k')%nat = Some (a_term a')) ->
    no_last_conflict l (i + k) a.

Lemma raft_put_same l i a : (i <= length l)%nat -> raft_put l i a = l ->
  a_term <$> l !! i = Some (a_term a).
Proof.
  intros Hi E. unfold raft_put in E. destruct (l !! i) as [c|] eqn:Ei; cbn.
  - destruct (Z.eqb_spec (a_term c) (a_term a)) as [->|Hne]; [done|].
    rewrite <- E, list_lookup_middle in Ei; [by injection Ei as <-|].
    apply lookup_lt_Some in Ei. rewrite length_app, length_take in Ei. rewrite length_take. lia.
  - apply (f_equal length) in E. rewrite length_app in E. cbn in E. lia.
Qed.

Lemma no_last_conflicts_put l i a es :
  (i <= length l)%nat -> no_last_conflicts l i (a :: es) ->
  no_last_conflicts (raft_put l i a) (S i) es.
Proof.
  intros Hi H k a' Ek Hm b Eb Hne.
  destruct (raft_put_later l i a (S i + k) b) as [E Es]; [lia..|done|].
  rewrite Es in *. pose proof (raft_put_same l i a Hi Es) as Hh.
  specialize (H (S k) a' Ek). rewrite Nat.add_succ_r in H. apply (H) with b; [|done..].
  intros [|k'] a'' Hk E''; cbn in E''.
  - injection E'' as <-. by rewrite Nat.add_0_r.
  - rewrite Nat.add_succ_r. apply Hm; [lia|done].
Qed.

Lemma logAppend_loop_merge io n : forall j es s i,
  log_wf s -> Forall entry_ok es -> n = (length es - j)%nat -> (j <= length es)%nat ->
  (forall k e, es !! k = Some e -> (j <= k)%nat -> index e = Z.of_nat (i + (k - j)) + 1) ->
  (i <= length (views s))%nat -> logLength s + Z.of_nat n < 2 ^ 62 ->
  no_last_conflicts (views s) i (view <$> drop j es) ->
  exists s', logAppend_loop io n j es s = Ret (s', PREZ_OK) /\ log_wf s'
    /\ views s' = raft_merge (views s) i (view <$> drop j es)
    /\ (io_good io -> file_wf s -> file_wf s').
Proof.
  induction n as [|n IH]; intros j es s i Hw Ho Hn Hj Hx Hi Hl Hc; cbn.
  - exists s. rewrite drop_ge by lia. done.
  - destruct (lookup_lt_is_Some_2 es j) as [e Ej]; [lia|].
    rewrite Ej. cbn [of_ptr mbind cres_bind].
    assert (drop j es = e :: drop (S j) es) as Ed by (by apply drop_S).
    rewrite Ed in Hc |- *. cbn [fmap list_fmap raft_merge].
    destruct (logWriteEntry_put io s e i) as (s1 & -> & Hw1 & Hv1 & Hf1);
      [done|by eapply Forall_lookup_1|rewrite (Hx j e Ej); lia|done|lia| |].
    { specialize (Hc 0%nat (view e) eq_refl). rewrite Nat.add_0_r in Hc. apply Hc. lia. }
    cbn. destruct (IH (S j) es s1 (S i)) as (s2 & -> & Hw2 & Hv2 & Hf2); try (done || lia).
    + intros k e' Ek Hk. rewrite (Hx k e' Ek) by lia. lia.
    + rewrite Hv1. by apply length_raft_put_ge.
    + pose proof (length_raft_put (views s) i (view e)) as Hp. rewrite <- Hv1 in Hp.
      rewrite <- length_views in Hl |- *. lia.
    + rewrite Hv1. by apply no_last_conflicts_put.
    + exists s2. rewrite <- Hv1. split_and!; naive_solver.
Qed.

Lemma logAppendEntries_merge io s ae i :
  log_wf s -> Forall entry_ok (ae_log_entries ae) ->
  log_entries_count ae = Z.of_nat (length (ae_log_entries ae)) ->
  (forall k e, ae_log_entries ae !! k = Some e -> index e = Z.of_nat (i + k) + 1) ->
  (i <= length (views s))%nat -> logLength s + log_entries_count ae < 2 ^ 62 ->
  no_last_conflicts (views s) i (view <$> ae_log_entries ae) ->
  exists s', logAppendEntries io s ae
      = Ret (s', if io_fsync io s' then PREZ_OK else PREZ_ERR)
    /\ log_wf s'
    /\ views s' = raft_merge (views s) i (view <$> ae_log_entries ae)
    /\ (io_good io -> file_wf s -> file_wf s').
Proof.
  intros Hw Ho Hn Hx Hi Hl Hc. unfold logAppendEntries. rewrite Hn, Nat2Z.id.
  destruct (logAppend_loop_merge io (length (ae_log_entries ae)) 0 (ae_log_entries ae) s i)
    as (s' & -> & Hw' & Hv & Hf); try (done || lia).
  - intros k e Ek _. rewrite (Hx k e Ek). lia.
  - exists s'. split_and!; [|done..]. cbn. unfold logSync. by destruct (io_fsync io s').
Qed.

(** What the append rule promises: every entry of the request has its term at its
    position, and the entries before the request are kept. *)
Lemma raft_put_prefix l i a : (i <= length l)%nat -> take i (raft_put l i a) = take i l.
Proof.
  intros. unfold raft_put. repeat case_match; [done| |]; rewrite take_app_le;
    rewrite ?length_take, ?take_take; f_equal; lia.
Qed.

Lemma raft_put_at l i a : (i <= length l)%nat ->
  exists b, raft_put l i a !! i = Some b /\ a_term b = a_term a.
Proof.
  intros. unfold raft_put. destruct (l !! i) as [c|] eqn:E.
  - destruct (Z.eqb_spec (a_term c) (a_term a)); [by exists c|].
    apply lookup_lt_Some in E.
    exists a. by rewrite list_lookup_middle by (rewrite length_take; lia).
  - apply lookup_ge_None in E. exists a. by rewrite list_lookup_middle by lia.
Qed.

Lemma raft_merge_prefix es : forall l i, (i <= length l)%nat ->
  take i (raft_merge l i es) = take i l.
Proof.
  induction es as [|a es IH]; intros l i Hi; cbn; [done|].
  rewrite <- (raft_put_prefix l i a), <- (Nat.min_l i (S i)) at 1 by lia.
  rewrite <- take_take, IH by (by apply length_raft_put_ge).
  by rewrite take_take, Nat.min_l by lia.
Qed.

Lemma raft_merge_at es : forall l i k a, (i <= length l)%nat -> es !! k = Some a ->
  exists b, raft_merge l i es !! (i + k)%nat = Some b /\ a_term b = a_term a.
Proof.
  induction es as [|a' es IH]; intros l i k a Hi Ek; [done|].
  pose proof (length_raft_put_ge l i a' Hi). cbn. destruct k as [|k]; cbn in Ek.
  - injection Ek as <-. destruct (raft_put_at l i a' Hi) as (b & Eb & Ht).
    exists b. split; [|done]. rewrite Nat.add_0_r.
    rewrite <- (lookup_take_lt _ (S i)), raft_merge_prefix, lookup_take_lt by lia. done.
  - rewrite Nat.add_succ_r, <- Nat.add_succ_l. by apply IH.
Qed.

Lemma length_raft_merge es : forall l i, (i <= length l)%nat ->
  (i + length es <= length (raft_merge l i es))%nat.
Proof.
  induction es as [|a es IH]; intros l i Hi; cbn; [lia|].
  specialize (IH (raft_put l i a) (S i) (length_raft_put_ge _ _ _ Hi)). lia.
Qed.

(** ** Properties *)

(** Executable checks of the invariants. *)
Definition in_s64b (x : Z) : bool := (LLONG_MIN <=? x) && (x <=? LLONG_MAX).

Definition entry_okb (e : logEntry) : bool :=
  in_s64b (index e) && in_s64b (term e)
  && bool_decide (length (commandName e) = 40%nat) && bool_decide (is_Some (cstr (commandName e)))
  && bool_decide (length (command e) = 40%nat) && bool_decide (is_Some (cstr (command e))).

Definition log_wfb (s : logStore) : bool :=
  bool_decide ((index ∘ log_entry) <$> log_entries s
               = (λ i : nat, Z.of_nat i + 1) <$> seq 0 (length (log_entries s)))
  && forallb (entry_okb ∘ log_entry) (log_entries s) && (logLength s <? 2 ^ 62).

Lemma entry_okb_ok e : entry_okb e = true -> entry_ok e.
Proof.
  unfold entry_okb, in_s64b. rewrite !andb_true_iff, !bool_decide_eq_true, !Z.leb_le.
  intros. constructor; unfold in_s64, c40; tauto.
Qed.

Lemma log_wfb_ok s : log_wfb s = true -> log_wf s.
Proof.
  unfold log_wfb. rewrite !andb_true_iff, bool_decide_eq_true, forallb_forall, Z.ltb_lt.
  intros [[Hi He] Hs]. constructor.
  - intros i en E. apply (f_equal (λ l, l !! i)) in Hi.
    rewrite !list_lookup_fmap, E in Hi. cbn in Hi.
    rewrite lookup_seq_lt in Hi by (by eapply lookup_lt_Some). by injection Hi.
  - apply Forall_forall. intros en Hen. apply entry_okb_ok, He. by apply list_elem_of_In.
  - done.
Qed.

(** A log of two entries of terms 1 and 2, with a reliable disk. *)
Definition good_io : ioenv :=
  mkIO (λ _ b, Z.of_nat (length b)) (λ _ _, true) (λ _, true).

Definition ex_entry (i t : Z) (c : string) : logEntry :=
  mkEntry i t (memcpy (replicate 40 0) (lit "set")) (memcpy (replicate 40 0) (lit c)).

Definition empty_log : logStore := mkStore [] [] 0 1.

Definition ex_log : logStore :=
  persisted good_io (persisted good_io empty_log (ex_entry 1 1 "set a 1")) (ex_entry 2 2 "set b 2").

Lemma ex_log_wf : log_wf ex_log.
Proof. apply log_wfb_ok. reflexivity. Qed.

Lemma good_io_good : io_good good_io.
Proof. by constructor. Qed.

(** [prev] with term [t] is 0 or an entry of the log. *)
Definition has_entry (l : list aentry) (prev t : Z) : Prop :=
  prev = 0 \/ 1 <= prev /\ a_term <$> l !! Z.to_nat (prev - 1) = Some t.

Lemma logVerifyAppend_cases s i t :
  log_wf s -> - 2 ^ 62 <= i <= 2 ^ 62 ->
  logVerifyAppend s i t = Ret PREZ_OK /\ has_entry (views s) i t
  \/ logVerifyAppend s i t = Ret PREZ_ERR /\ ~ has_entry (views s) i t.
Proof.
  intros Hw Hi. pose proof (lw_small s Hw) as Hs. unfold log_small in Hs.
  pose proof (logLength_nonneg s). pose proof (length_views s) as Ev.
  unfold logVerifyAppend, has_entry. destruct (Z.eqb_spec i 0) as [->|Hz]; [left; auto|].
  destruct (Z.ltb_spec (logLength s) (wrap_u64 i)) as [Hu|Hu].
  { right. split; [done|]. intros [?|[? E]]; [done|].
    rewrite wrap_u64_id in Hu by rng. rewrite lookup_ge_None_2 in E by lia. done. }
  assert (1 <= i <= logLength s) as Hr.
  { destruct (decide (0 < i)) as [Hp|Hp].
    - rewrite wrap_u64_id in Hu by rng. lia.
    - rewrite wrap_u64_neg in Hu by lia. rng. }
  destruct (getLogEntry_wf s i Hw Hr) as (en & -> & En & _).
  apply views_lookup in En. rewrite En. cbn.
  destruct (Z.eqb_spec (term (log_entry en)) t) as [->|Ht]; [left|right]; naive_solver.
Qed.

(** The consistency check.  For a well-formed log, [logVerifyAppend] accepts the
    previous entry of a request exactly when its index is 0 or names an entry of
    the log with that term; it returns, without dereferencing a missing entry,
    also for a negative or too large index. *)
Theorem logVerifyAppend_correct s i t :
  log_wf s -> - 2 ^ 62 <= i <= 2 ^ 62 ->
  exists r, logVerifyAppend s i t = Ret r /\ (r = PREZ_OK <-> has_entry (views s) i t)
    /\ (r = PREZ_OK \/ r = PREZ_ERR).
Proof.
  intros Hw Hi. destruct (logVerifyAppend_cases s i t Hw Hi) as [[-> ?]|[-> ?]];
    eexists; (split; [done|]); unfold PREZ_OK, PREZ_ERR; naive_solver.
Qed.

Lemma logVerifyAppend_correct_witness :
  (exists r, logVerifyAppend ex_log 2 2 = Ret r /\ (r = PREZ_OK <-> has_entry (views ex_log) 2 2)
    /\ (r = PREZ_OK \/ r = PREZ_ERR))
  /\ logVerifyAppend ex_log (-5) 2 = Ret PREZ_ERR.
Proof.
  split; [|reflexivity].
  apply (logVerifyAppend_correct ex_log 2 2); [apply ex_log_wf|lia].
Defined.

(** [C13] [logAppendEntries] implements the append rule of the protocol.  For a
    request whose entries are numbered from [prev_log_index + 1] and whose previous
    index is in the log, and when its first conflict is not with the last entry, the call
    returns, keeps the log well formed, makes it the merge of the old log and the
    request, and answers by the result of [fsync]; with a reliable disk the file
    still holds exactly the log. *)
Theorem logAppendEntries_refines io s ae :
  log_wf s -> Forall entry_ok (ae_log_entries ae) ->
  log_entries_count ae = Z.of_nat (length (ae_log_entries ae)) ->
  0 <= prev_log_index ae <= logLength s ->
  (forall k e, ae_log_entries ae !! k = Some e -> index e = prev_log_index ae + Z.of_nat k + 1) ->
  logLength s + log_entries_count ae < 2 ^ 62 ->
  no_last_conflicts (views s) (Z.to_nat (prev_log_index ae)) (view <$> ae_log_entries ae) ->
  exists s', logAppendEntries io s ae
      = Ret (s', if io_fsync io s' then PREZ_OK else PREZ_ERR)
    /\ log_wf s'
    /\ views s' = raft_merge (views s) (Z.to_nat (prev_log_index ae)) (view <$> ae_log_entries ae)
    /\ (io_good io -> file_wf s -> file_wf s').
Proof.
  intros Hw Ho Hn Hp Hx Hl Hc. apply logAppendEntries_merge; try done.
  - intros k e Ek. rewrite (Hx k e Ek). lia.
  - pose proof (length_views s). lia.
Qed.

(** A request that replaces the first of the two entries and adds a third. *)
Definition ex_request : appendEntries :=
  mkAE 3 (replicate 40 0) 0 0 0 2 [ex_entry 1 3 "set a 9"; ex_entry 2 3 "set c 3"].

Lemma logAppendEntries_refines_witness :
  exists s', logAppendEntries good_io ex_log ex_request = Ret (s', PREZ_OK)
    /\ views s' = view <$> ae_log_entries ex_request /\ log_wf s'.
Proof.
  destruct (logAppendEntries_refines good_io ex_log ex_request)
    as (s' & E & Hw & Hv & _).
  - apply ex_log_wf.
  - repeat constructor; apply entry_okb_ok; reflexivity.
  - reflexivity.
  - split; by vm_compute.
  - intros [|[|k]] e [= <-]; reflexivity.
  - reflexivity.
  - intros [|[|k]] a [= <-] Hm b Eb Hne; [vm_compute; lia|].
    specialize (Hm 0%nat _ ltac:(lia) eq_refl). by vm_compute in Hm.
  - exists s'. rewrite E, Hv. done.
Defined.



Lemma logWriteEntry_present io s e :
  log_wf s -> 1 <= index e ->
  a_term <$> views s !! Z.to_nat (index e - 1) = Some (term e) ->
  logWriteEntry io s e = Ret (s, PREZ_OK).
Proof.
  intros Hw Hi Ht. unfold views in Ht. rewrite list_lookup_fmap in Ht.
  destruct (log_entries s !! _) as [en|] eqn:En; [|done]. injection Ht as Ht. cbn in Ht.
  pose proof (lookup_lt_Some _ _ _ En). unfold logLength.
  rewrite logWriteEntry_eq, En, Ht, Z.eqb_refl by (done || unfold logLength; lia). done.
Qed.

Lemma logAppend_loop_present io es s n : forall j,
  log_wf s -> n = (length es - j)%nat ->
  (forall e, e ∈ es -> 1 <= index e
     /\ a_term <$> views s !! Z.to_nat (index e - 1) = Some (term e)) ->
  logAppend_loop io n j es s = Ret (s, PREZ_OK).
Proof.
  induction n as [|n IH]; intros j Hw Hn He; cbn; [done|].
  destruct (lookup_lt_is_Some_2 es j) as [e Ej]; [lia|]. rewrite Ej. cbn.
  destruct (He e) as [? ?]; [by eapply list_elem_of_lookup_2|].
  rewrite logWriteEntry_present by done. cbn. apply IH; [done|lia|done].
Qed.

(** A request whose entries are all in the log already (a retransmission, or a
    stale request that stops short of the end) changes nothing: neither the list,
    nor the file, nor the entries after it. *)
Theorem logAppendEntries_duplicate io s ae :
  log_wf s -> log_entries_count ae = Z.of_nat (length (ae_log_entries ae)) ->
  (forall e, e ∈ ae_log_entries ae -> 1 <= index e <= logLength s
     /\ logGetTerm s (index e) = term e) ->
  logAppendEntries io s ae = Ret (s, if io_fsync io s then PREZ_OK else PREZ_ERR).
Proof.
  intros Hw Hn He. unfold logAppendEntries. rewrite Hn, Nat2Z.id.
  rewrite logAppend_loop_present; [|done|lia|].
  - cbn. unfold logSync. by destruct (io_fsync io s).
  - intros e [Hi Ht]%He. split; [lia|]. rewrite logGetTerm_view in Ht by (apply Hw || done).
    destruct (lookup_lt_is_Some_2 (views s) (Z.to_nat (index e - 1))) as [a Ea].
    { pose proof (length_views s). lia. }
    rewrite Ea in Ht |- *. cbn in *. by rewrite Ht.
Qed.

Lemma logAppendEntries_duplicate_witness :
  let ae := mkAE 2 (replicate 40 0) 0 0 0 1 [ex_entry 1 1 "set a 1"] in
  logAppendEntries good_io ex_log ae = Ret (ex_log, PREZ_OK).
Proof.
  apply (logAppendEntries_duplicate good_io ex_log (mkAE 2 (replicate 40 0) 0 0 0 1 [ex_entry 1 1 "set a 1"])).
  - apply ex_log_wf.
  - reflexivity.
  - intros e He. apply list_elem_of_singleton in He as ->. by vm_compute.
Defined.

(** A conflict with the last entry is not resolved.  [logTruncate] compares
    with [index < logLength], so an entry that conflicts with the last one is
    appended after it: the log grows, still holds the conflicting entry, has two
    entries of the same index and is no longer numbered by position. *)
Theorem logWriteEntry_last_conflict io s e :
  log_wf s -> entry_ok e -> 0 < logLength s -> index e = logLength s ->
  logCurrentTerm s <> term e ->
  exists s', logWriteEntry io s e = Ret (s', PREZ_OK)
    /\ views s' = views s ++ [view e] /\ views s' <> raft_put (views s) (length (views s) - 1) (view e)
    /\ logCurrentIndex s' = logLength s' - 1 /\ ~ contiguous s'.
Proof.
  intros Hw Ho Hp Hi Ht. pose proof (length_views s) as Ev.
  destruct (getLogEntry_wf s (index e) Hw) as (en & _ & En & _); [lia|].
  rewrite logCurrentTerm_last, last_lookup in Ht.
  pose proof (views_lookup _ _ _ En) as Ei.
  replace (pred (length (views s))) with (Z.to_nat (index e - 1)) in Ht by lia.
  rewrite Ei in Ht. cbn in Ht.
  rewrite logWriteEntry_eq, En, (proj2 (Z.eqb_neq _ _)), Hi, Z.ltb_irrefl by (done || lia).
  rewrite logPersist_ret by done. exists (persisted io s e).
  assert (logCurrentIndex (persisted io s e) = logLength s) as Ex.
  { unfold logCurrentIndex. rewrite last_lookup_index. cbn. by rewrite last_snoc. }
  rewrite views_persisted, logLength_persisted, Ex by done.
  split_and!; [done|done| |lia|].
  - unfold raft_put. replace (length (views s) - 1)%nat with (Z.to_nat (index e - 1)) by lia.
    rewrite Ei. cbn. rewrite (proj2 (Z.eqb_neq _ _)) by done.
    intros Hl%(f_equal length). rewrite !length_app, length_take in Hl. cbn in Hl. lia.
  - intros Hc%logCurrentIndex_wf. rewrite logLength_persisted in Hc. lia.
Qed.

Lemma logWriteEntry_last_conflict_witness :
  exists s', logWriteEntry good_io ex_log (ex_entry 2 3 "set b 9") = Ret (s', PREZ_OK)
    /\ logLength s' = 3 /\ logCurrentIndex s' = 2 /\ ~ contiguous s'.
Proof.
  destruct (logWriteEntry_last_conflict good_io ex_log (ex_entry 2 3 "set b 9"))
    as (s' & E & Hv & _ & Hc & Hn).
  - apply ex_log_wf.
  - apply entry_okb_ok. reflexivity.
  - by vm_compute.
  - reflexivity.
  - by vm_compute.
  - exists s'. rewrite Hc, <- length_views, Hv. split_and!; done.
Defined.

(** The commit index of a follower never moves backwards, and it moves only to
    an index the leader has committed and the follower holds. *)
Theorem logCommitIndex_bounds s ci lci :
  contiguous s ->
  let ci' := logCommitIndex s ci lci in
  (lci <= ci -> ci' = ci)
  /\ (ci < lci -> ci' = Z.min lci (logLength s) /\ ci' <= logLength s)
  /\ (ci <= logLength s -> ci <= ci' <= logLength s).
Proof.
  intros Hc. cbv zeta. unfold logCommitIndex. rewrite logCurrentIndex_wf by done.
  destruct (Z.ltb_spec ci lci), (Z.ltb_spec lci (logLength s)); lia.
Qed.

Lemma logCommitIndex_bounds_witness :
  contiguous ex_log /\ logCommitIndex ex_log 1 7 = 2.
Proof.
  split; [apply ex_log_wf|].
  destruct (logCommitIndex_bounds ex_log 1 7) as (_ & H & _); [apply ex_log_wf|].
  by destruct H as [-> _].
Defined.
