(* ===== verification/LogFile.v ===== *)
(** * log.c: loading the log file

    [loadLogFile] of src/src/log.c, and what it reads back from a file the append side
    (Log.v) wrote: the whole log after a clean stop, nothing (the server refuses to
    start) after a write that was cut short. *)

From Stdlib Require Import ZArith Lia.
From stdpp Require Import base tactics numbers list strings.
From S2P Require Import Prelude Util Libc Adlist Object Log.

Local Open Scope Z_scope.

Section Load.
(** [uninit]: the contents of a block fresh from [zmalloc].  [slack s]: the bytes of
    the heap after the terminator of the sds string [s]; the loader copies 40
    bytes from the start of the string, however short it is. *)
Context (uninit : logEntry) (slack : bytes -> bytes).

Definition set_index (e : logEntry) v := mkEntry v (term e) (commandName e) (command e).
Definition set_term (e : logEntry) v := mkEntry (index e) v (commandName e) (command e).
Definition set_name (e : logEntry) v := mkEntry (index e) (term e) v (command e).
Definition set_command (e : logEntry) v := mkEntry (index e) (term e) (commandName e) v.

(** The 40 bytes at the address of the sds string [arg]. *)
Definition raw40 (arg : bytes) : bytes := take 40 (arg ++ 0 :: slack arg).

(** The [switch] on the number of the argument. *)
Definition load_field (j : Z) (arg : bytes) (e : logEntry) : cres logEntry :=
  if j =? 0 then match string2ll arg with Some v => mret (set_index e v) | None => Exit end
  else if j =? 1 then match string2ll arg with Some v => mret (set_term e v) | None => Exit end
  else if j =? 2 then mret (set_name e (raw40 arg))
  else if j =? 3 then mret (set_command e (raw40 arg))
  else Exit.

(** The loop over the arguments of one record.  It leaves through the default case
    of the [switch] at the fifth argument, whatever [argc] is, so that five rounds
    are enough.  A length for which the size of the block wraps around makes
    [fread] write outside the block. *)
Fixpoint load_args (fuel : nat) (argc j : Z) (f : bytes) (loglen : Z) (e : logEntry)
    : cres (bytes * Z * logEntry) :=
  if argc <=? j then mret (f, loglen, e) else
  match fuel with
  | O => Undef
  | S fuel =>
      match fgets 128 f with
      | None => Exit
      | Some (buf, f) =>
          if negb (hd 0 buf =? 36) then Exit else
          let len := wrap_u64 (strtol (drop 1 buf)) in
          if 2 ^ 64 - 9 <=? len then Undef else
          if negb (len =? 0) && (Z.of_nat (length f) <? len) then Exit else
          let arg := take (Z.to_nat len) f in
          let f := drop (Z.to_nat len) f in
          bl ← of_ptr (strlen (buf ++ [0]));
          let loglen := loglen + (len + Z.of_nat bl) in
          e ← load_field j arg e;
          if Z.of_nat (length f) <? 2 then Exit else
          load_args fuel argc (j + 1) (drop 2 f) (loglen + 2) e
      end
  end.

(** The loop over the records.  Each round reads at least one byte. *)
Fixpoint load_loop (fuel : nat) (f : bytes) (s : logStore) : cres logStore :=
  match fuel with
  | O => Undef
  | S fuel =>
      match fgets 128 f with
      | None => mret s
      | Some (buf, f) =>
          if negb (hd 0 buf =? 42) then Exit else
          let argc := atoi (drop 1 buf) in
          if argc <? 1 then Exit else
          bl ← of_ptr (strlen (buf ++ [0]));
          '(f, loglen, e) ← load_args 5 argc 0 f (Z.of_nat bl) uninit;
          load_loop fuel f (mkStore
            (log_entries s ++ [mkLogNode (next_addr s) e (log_current_size s)])
            (log_file s) (log_current_size s + loglen) (Pos.succ (next_addr s)))
      end
  end.

(** [open_ok], [fopen_ok]: the results of the two calls that open the file. *)
Definition loadLogFile (open_ok fopen_ok : bool) (s : logStore) : cres (logStore * Z) :=
  if negb open_ok then mret (s, PREZ_ERR) else
  let s0 := mkStore (log_entries s) (log_file s) 0 (next_addr s) in
  if fopen_ok && bool_decide (log_file s = []) then mret (s0, PREZ_OK) else
  if negb fopen_ok then Exit else
  s ← load_loop (S (length (log_file s))) (log_file s) s0;
  mret (s, PREZ_OK).

End Load.

(** ** Lines and fields *)

Lemma dec_no_LF v : 0 <= v -> Forall (λ c, c <> LF) (dec v).
Proof.
  intros. eapply Forall_impl; [by apply dec_digits|]. unfold is_digit, LF. intros. lia.
Qed.

(** The first line of a header or of a field: [prefix], the number, CR LF. *)
Definition line (prefix v : Z) : bytes := prefix :: dec v ++ CRLF.

Lemma fgets_header prefix v f :
  prefix <> LF -> 0 <= v <= LLONG_MAX ->
  fgets 128 (line prefix v ++ f) = Some (line prefix v, f).
Proof.
  intros Hp Hv. unfold line.
  replace ((prefix :: dec v ++ CRLF) ++ f) with ((prefix :: dec v ++ [CR]) ++ LF :: f)
    by (cbn; by rewrite <- !app_assoc).
  rewrite fgets_line.
  - cbn. by rewrite <- app_assoc.
  - constructor; [done|]. apply Forall_app. split; [apply dec_no_LF; lia|by repeat constructor].
  - assert (dec v = ll_repr v) as -> by (unfold ll_repr; by rewrite (proj2 (Z.ltb_ge _ _)) by lia).
    pose proof (length_ll_repr_max v ltac:(rng)). cbn. rewrite length_app. cbn. lia.
Qed.

Lemma strtol_line v : 0 <= v <= LLONG_MAX -> strtol (dec v ++ CRLF) = v.
Proof. intros. apply strtol_dec; [done|]. by intros c [= <-]. Qed.

Lemma strlen_line prefix v : prefix <> 0 -> 0 <= v ->
  strlen (line prefix v ++ [0]) = Some (length (line prefix v)).
Proof.
  intros Hp Hv. apply strlen_app_nul. constructor; [done|]. apply Forall_app. split.
  - eapply Forall_impl; [by apply dec_digits|]. unfold is_digit. intros. lia.
  - by repeat constructor.
Qed.

Lemma bulk_line_eq s : bulk s = line 36 (Z.of_nat (length s)) ++ s ++ CRLF.
Proof.
  unfold bulk, line, ll_repr. rewrite (proj2 (Z.ltb_ge _ _)) by lia.
  by rewrite <- app_comm_cons, <- app_assoc.
Qed.

Lemma text_line i a :
  text i a = line 42 4 ++ bulk (ll_repr i) ++ bulk (ll_repr (a_term a))
               ++ bulk (a_name a) ++ bulk (a_cmd a).
Proof. reflexivity. Qed.

Section LoadFacts.
Context (uninit : logEntry) (slack : bytes -> bytes).

(** One field is read back. *)
Lemma load_args_field fuel argc j s f loglen e :
  j < argc -> Z.of_nat (length s) < 2 ^ 62 ->
  load_args slack (S fuel) argc j (bulk s ++ f) loglen e
  = (e' ← load_field slack j s e;
     load_args slack fuel argc (j + 1) f (loglen + Z.of_nat (length (bulk s))) e').
Proof.
  intros Hj Hs. cbn [load_args]. rewrite (proj2 (Z.leb_gt _ _)) by lia.
  rewrite bulk_line_eq, <- !app_assoc, fgets_header by (done || rng).
  cbn [hd drop line]. change (negb (36 =? 36)) with false. cbn iota.
  rewrite drop_0, strtol_line, wrap_u64_id by rng. cbv zeta.
  rewrite (proj2 (Z.leb_gt _ _)) by rng.
  rewrite (proj2 (Z.ltb_ge _ (Z.of_nat (length s)))) by (rewrite length_app; lia).
  rewrite andb_false_r, Nat2Z.id, take_app_length, drop_app_length.
  rewrite strlen_line by lia.
  cbn [of_ptr mbind cres_bind].
  destruct (load_field slack j s e) as [e'| |]; cbn [mbind cres_bind]; [|done..].
  rewrite (proj2 (Z.ltb_ge _ 2)) by (rewrite length_app; cbn; lia).
  cbn [CRLF app drop]. f_equal. rewrite !length_app. cbn. lia.
Qed.

(** What is stored for an entry. *)
Definition loaded (i : Z) (a : aentry) : logEntry :=
  mkEntry i (a_term a) (raw40 slack (a_name a)) (raw40 slack (a_cmd a)).

(** The entries the append side writes. *)
Record aentry_ok (a : aentry) : Prop := {
  ao_term : in_s64 (a_term a);
  ao_name : nonul (a_name a) /\ (length (a_name a) < 40)%nat;
  ao_cmd : nonul (a_cmd a) /\ (length (a_cmd a) < 40)%nat;
}.

Lemma view_ok e : entry_ok e -> aentry_ok (view e).
Proof.
  intros [_ ? (s & _ & _ & E & ? & ?)%c40_strlen (t & _ & _ & E' & ? & ?)%c40_strlen].
  constructor; cbn; rewrite ?E, ?E'; done.
Qed.

Lemma load_args_record i a f n :
  in_s64 i -> aentry_ok a ->
  load_args slack 5 4 0 (bulk (ll_repr i) ++ bulk (ll_repr (a_term a)) ++ bulk (a_name a)
    ++ bulk (a_cmd a) ++ f) n uninit
  = Ret (f, n + (Z.of_nat (length (text i a)) - Z.of_nat (length (line 42 4))), loaded i a).
Proof.
  intros Hi [Ht [_ Hn] [_ Hc]].
  pose proof (length_ll_repr_max i Hi). pose proof (length_ll_repr_max _ Ht).
  assert (load_field slack 0 (ll_repr i) uninit = Ret (set_index uninit i)) as E0
    by (unfold load_field; by rewrite string2ll_complete).
  assert (forall e, load_field slack (0 + 1) (ll_repr (a_term a)) e = Ret (set_term e (a_term a)))
    as E1 by (intros; unfold load_field; by rewrite string2ll_complete).
  rewrite load_args_field, E0 by lia. cbn [mbind cres_bind].
  rewrite load_args_field, E1 by lia. cbn [mbind cres_bind].
  rewrite load_args_field by lia. change (load_field slack (0 + 1 + 1) ?s ?e)
    with (mret (M:=cres) (set_name e (raw40 slack s))). cbn [mbind cres_bind mret cres_ret].
  rewrite load_args_field by lia. change (load_field slack (0 + 1 + 1 + 1) ?s ?e)
    with (mret (M:=cres) (set_command e (raw40 slack s))). cbn [mbind cres_bind mret cres_ret].
  cbn [load_args]. change (4 <=? 0 + 1 + 1 + 1 + 1) with true. cbn iota.
  rewrite text_line, !length_app. unfold mret, cres_ret. do 3 f_equal. lia.
Qed.

Hypothesis slack_length : forall s, (40 <= length (slack s))%nat.

Lemma raw40_c40 s : nonul s -> (length s < 40)%nat -> c40 (raw40 slack s) /\ cstr (raw40 slack s) = Some s.
Proof.
  intros Hs Hl. pose proof (slack_length s). unfold raw40.
  assert (cstr (take 40 (s ++ 0 :: slack s)) = Some s) as E.
  { destruct (40 - length s)%nat as [|k] eqn:Ek; [lia|].
    rewrite take_app, (take_ge s) by lia. rewrite Ek. cbn. by apply cstr_app_nul. }
  rewrite E. split; [split; [|by rewrite E]|done].
  rewrite length_take, length_app. cbn [length]. lia.
Qed.

Lemma loaded_ok i a : in_s64 i -> aentry_ok a -> entry_ok (loaded i a) /\ view (loaded i a) = a.
Proof.
  intros Hi [Ht [Hn Hn'] [Hc Hc']].
  destruct (raw40_c40 _ Hn Hn') as [? En]. destruct (raw40_c40 _ Hc Hc') as [? Ec].
  split; [by constructor|]. unfold view, loaded. cbn [commandName command term].
  rewrite En, Ec. by destruct a.
Qed.

(** The state after one record. *)
Definition load_step (s : logStore) (i : Z) (a : aentry) : logStore :=
  mkStore (log_entries s ++ [mkLogNode (next_addr s) (loaded i a) (log_current_size s)])
    (log_file s) (log_current_size s + Z.of_nat (length (text i a))) (Pos.succ (next_addr s)).

Lemma load_loop_record fuel i a f s :
  in_s64 i -> aentry_ok a ->
  load_loop uninit slack (S fuel) (text i a ++ f) s
  = load_loop uninit slack fuel f (load_step s i a).
Proof.
  intros Hi Ha. cbn [load_loop]. rewrite text_line, <- !app_assoc, fgets_header by (done || rng).
  change (atoi (drop 1 (line 42 4))) with 4. cbn [hd line].
  change (negb (42 =? 42)) with false. change (4 <? 1) with false. cbn iota.
  rewrite strlen_line by lia. cbn [of_ptr mbind cres_bind].
  rewrite load_args_record by done. cbn [mbind cres_bind].
  unfold load_step. do 2 f_equal. rewrite Z.add_comm. lia.
Qed.

Definition record : Type := Z * aentry.
Definition record_text (r : record) : bytes := text r.1 r.2.
Definition record_ok (r : record) : Prop := in_s64 r.1 /\ aentry_ok r.2.
Definition load_records (s : logStore) (rs : list record) : logStore :=
  foldl (λ s r, load_step s r.1 r.2) s rs.

Lemma load_loop_records rs f : forall fuel s,
  Forall record_ok rs ->
  load_loop uninit slack (length rs + fuel) (concat (record_text <$> rs) ++ f) s
  = load_loop uninit slack fuel f (load_records s rs).
Proof.
  induction rs as [|r rs IH]; intros fuel s Hr; cbn [length Nat.add]; [done|].
  apply Forall_cons in Hr as [[Hi Ha] Hr].
  cbn [fmap list_fmap concat load_records foldl]. unfold record_text at 1.
  rewrite <- app_assoc, load_loop_record by done. by apply IH.
Qed.

(** The list holds exactly the records, at the offsets where their texts are. *)
Definition records (s : logStore) : list record :=
  (λ en, (index (log_entry en), view (log_entry en))) <$> log_entries s.

Lemma texts_records s : texts s = record_text <$> records s.
Proof. unfold texts, records. by rewrite <- list_fmap_compose. Qed.

Lemma views_records s : views s = snd <$> records s.
Proof. unfold views, records. by rewrite <- list_fmap_compose. Qed.

Record pos_wf (s : logStore) : Prop := {
  pw_size : log_current_size s = Z.of_nat (length (concat (texts s)));
  pw_pos : forall i en, log_entries s !! i = Some en ->
    position en = Z.of_nat (length (concat (take i (texts s))));
}.

Lemma load_step_wf s r :
  record_ok r -> pos_wf s -> Forall (λ en, entry_ok (log_entry en)) (log_entries s) ->
  let s' := load_step s r.1 r.2 in
  records s' = records s ++ [r] /\ pos_wf s'
  /\ Forall (λ en, entry_ok (log_entry en)) (log_entries s').
Proof.
  intros [Hi Ha] [Hz Hp] He. destruct r as [i a]. cbn [fst snd] in *.
  destruct (loaded_ok i a Hi Ha) as [Ho Hv]. cbv zeta.
  assert (records (load_step s i a) = records s ++ [(i, a)]) as Er.
  { unfold records. cbn. rewrite fmap_app. cbn. by rewrite Hv. }
  assert (texts (load_step s i a) = texts s ++ [text i a]) as Et.
  { by rewrite !texts_records, Er, fmap_app. }
  assert (length (texts s) = length (log_entries s)) as El by apply length_fmap.
  split_and!; [done| |].
  - constructor.
    + rewrite Et, concat_app, length_app. cbn. rewrite app_nil_r. lia.
    + intros k en. rewrite Et. cbn [log_entries load_step]. rewrite lookup_snoc_Some.
      intros [[Hk E]|[-> <-]]; cbn.
      * rewrite take_app_le by lia. by apply Hp.
      * by rewrite take_app_le, take_ge by lia.
  - cbn. by apply Forall_app; split; [|rewrite Forall_singleton].
Qed.

Lemma load_records_wf rs s :
  Forall record_ok rs -> pos_wf s -> Forall (λ en, entry_ok (log_entry en)) (log_entries s) ->
  let s' := load_records s rs in
  records s' = records s ++ rs /\ pos_wf s' /\ log_file s' = log_file s
  /\ Forall (λ en, entry_ok (log_entry en)) (log_entries s').
Proof.
  intros Hr. revert s. induction Hr as [|r rs Hr _ IH]; intros s Hp He; cbn.
  - by rewrite app_nil_r.
  - destruct (load_step_wf s r Hr Hp He) as (Er & Hp' & He').
    destruct (IH _ Hp' He') as (Er' & ? & ? & ?). split_and!; try done.
    etransitivity; [exact Er'|]. by rewrite Er, <- app_assoc.
Qed.
End LoadFacts.

Lemma records_ok s : log_wf s -> Forall record_ok (records s).
Proof.
  intros [_ He _]. unfold records. apply Forall_fmap. eapply Forall_impl; [exact He|].
  intros en Ho. split; [apply Ho|by apply view_ok].
Qed.

Lemma records_contiguous s s' : records s = records s' -> contiguous s -> contiguous s'.
Proof.
  intros E Hc i en En. apply (f_equal (λ l, l !! i)) in E. unfold records in E.
  rewrite !list_lookup_fmap, En in E.
  destruct (log_entries s !! i) as [en'|] eqn:En'; [|done]. cbn in E. injection E as E _.
  rewrite <- E. by apply Hc.
Qed.

Lemma length_concat_texts s : (length (log_entries s) <= length (concat (texts s)))%nat.
Proof.
  unfold texts. induction (log_entries s) as [|en l IH]; cbn; [lia|].
  rewrite length_app. unfold entry_text at 1, text. cbn. lia.
Qed.

Lemma pos_wf_nil f z a : z = 0 -> pos_wf (mkStore [] f z a).
Proof. intros ->. by constructor. Qed.

(** Loading the texts of a log, followed by other bytes. *)
Lemma load_loop_log uninit slack s f fuel :
  (forall b, (40 <= length (slack b))%nat) -> log_wf s -> (length (log_entries s) <= fuel)%nat ->
  exists s', load_loop uninit slack fuel (concat (texts s) ++ f)
                 (mkStore [] (concat (texts s) ++ f) 0 1)
             = load_loop uninit slack (fuel - length (log_entries s)) f s'
    /\ records s' = records s /\ pos_wf s' /\ log_file s' = concat (texts s) ++ f
    /\ Forall (λ en, entry_ok (log_entry en)) (log_entries s').
Proof.
  intros Hk Hw Hf. pose proof (records_ok s Hw) as Hr.
  set (s0 := mkStore [] (concat (texts s) ++ f) 0 1).
  destruct (load_records_wf slack Hk (records s) s0 Hr) as (Er & Hp & Ef & He);
    [by apply pos_wf_nil|constructor|].
  exists (load_records slack s0 (records s)). split_and!; try done.
  replace fuel with (length (records s) + (fuel - length (log_entries s)))%nat at 1
    by (unfold records; rewrite length_fmap; lia).
  rewrite texts_records. by apply load_loop_records.
Qed.

Lemma records_length s s' : records s = records s' -> logLength s = logLength s'.
Proof.
  intros E%(f_equal length). unfold records in E. rewrite !length_fmap in E.
  unfold logLength. lia.
Qed.

Definition ex_slack (b : bytes) : bytes := replicate 40 170.
Definition ex_uninit : logEntry := mkEntry 0 0 (replicate 40 165) (replicate 40 165).

Lemma loadLogFile_log uninit slack s :
  (forall b, (40 <= length (slack b))%nat) -> log_wf s -> file_wf s ->
  exists s', loadLogFile uninit slack true true (mkStore [] (log_file s) 0 1) = Ret (s', PREZ_OK)
    /\ views s' = views s /\ log_wf s' /\ file_wf s'
    /\ log_current_size s' = log_current_size s
    /\ (position <$> log_entries s') = (position <$> log_entries s).
Proof.
  intros Hk Hw [Hf Hz Hp]. unfold loadLogFile. cbn [negb andb log_file log_entries next_addr].
  destruct (load_loop_log uninit slack s [] (S (length (log_file s)))) as (s' & E & Er & Hp' & Ef & He);
    [done..| |].
  { rewrite Hf. pose proof (length_concat_texts s). lia. }
  rewrite app_nil_r, <- Hf in *. rewrite E.
  assert (texts s' = texts s) as Et by (by rewrite !texts_records, Er).
  assert ((position <$> log_entries s') = (position <$> log_entries s)) as Eo.
  { apply list_eq. intros i. rewrite !list_lookup_fmap.
    apply (f_equal (λ l, l !! i)) in Er. unfold records in Er. rewrite !list_lookup_fmap in Er.
    destruct (log_entries s' !! i) as [en|] eqn:E1, (log_entries s !! i) as [en'|] eqn:E2; try done.
    cbn. f_equal. rewrite (pw_pos _ Hp' _ _ E1), (Hp _ _ E2). by rewrite Et. }
  case_bool_decide as Hn.
  - exists (mkStore [] (log_file s) 0 1). assert (log_entries s = []) as El.
    { pose proof (length_concat_texts s). rewrite <- Hf, Hn in *. cbn in *.
      by apply nil_length_inv; lia. }
    unfold views. rewrite El, Hz, Hn. split_and!; try done.
  - exists s'. replace (S (length (log_file s)) - length (log_entries s))%nat
      with (S (length (log_file s) - length (log_entries s))).
    2:{ rewrite Hf. pose proof (length_concat_texts s). lia. }
    cbn. split_and!; try done.
    + by rewrite !views_records, Er.
    + constructor; [by eapply records_contiguous; [symmetry; exact Er|apply Hw]|done|].
      unfold log_small. rewrite (records_length _ _ Er). apply Hw.
    + constructor; [by rewrite Ef, Et|by rewrite (pw_size _ Hp'), Ef, Hf, Et|apply Hp'].
    + by rewrite (pw_size _ Hp'), Et, Hz, Hf.
Qed.

(** [C18] Durability.  A restart recovers the log: from the file of a well-formed log
    that the disk holds in full, [loadLogFile] succeeds and rebuilds the same
    entries (index, term and both strings), at the same offsets and with the same
    current size, whatever the heap holds in fresh blocks and after the strings
    that are copied. *)
Theorem loadLogFile_recovers uninit slack s :
  (forall b, (40 <= length (slack b))%nat) -> log_wf s -> file_wf s ->
  exists s', loadLogFile uninit slack true true (mkStore [] (log_file s) 0 1) = Ret (s', PREZ_OK)
    /\ views s' = views s /\ log_wf s' /\ file_wf s'
    /\ log_current_size s' = log_current_size s
    /\ (position <$> log_entries s') = (position <$> log_entries s).
Proof. apply loadLogFile_log. Qed.

Lemma ex_log_file_wf : file_wf ex_log.
Proof.
  unfold ex_log. apply file_wf_persisted; [apply good_io_good| |by apply entry_okb_ok].
  apply file_wf_persisted; [apply good_io_good| |by apply entry_okb_ok]. by constructor.
Qed.

Lemma loadLogFile_recovers_witness :
  exists s', loadLogFile ex_uninit ex_slack true true (mkStore [] (log_file ex_log) 0 1)
             = Ret (s', PREZ_OK) /\ views s' = views ex_log.
Proof.
  destruct (loadLogFile_recovers ex_uninit ex_slack ex_log) as (s' & E & Hv & _).
  - intros b. unfold ex_slack. rewrite length_replicate. lia.
  - apply ex_log_wf.
  - apply ex_log_file_wf.
  - by exists s'.
Defined.

(** ** Fuel

    Every round consumes input, so the length of the file bounds the rounds. *)
Lemma fgets_loop_app n : forall f l r, fgets_loop n f = (l, r) -> f = l ++ r.
Proof.
  induction n as [|n IH]; intros [|c f] l r; cbn; [by intros [= <- <-]..|].
  destruct (c =? LF); [by intros [= <- <-]|].
  destruct (fgets_loop n f) as [l' r'] eqn:E. intros [= <- <-]. by rewrite (IH _ _ _ E).
Qed.

Lemma fgets_app n f l r : fgets n f = Some (l, r) -> f = l ++ r.
Proof. unfold fgets. destruct f; [done|]. intros [= E]. by eapply fgets_loop_app. Qed.

Lemma load_args_shrinks slack fuel : forall argc j f n e f' n' e',
  load_args slack fuel argc j f n e = Ret (f', n', e') -> (length f' <= length f)%nat.
Proof.
  induction fuel as [|fuel IH]; intros argc j f n e f' n' e'; cbn;
    (destruct (argc <=? j); [by intros [= <- _ _]|done || idtac]).
  destruct (fgets 128 f) as [[buf g]|] eqn:E; [|done]. apply fgets_app in E as ->.
  repeat (case_match; [done|]). intros Hr. cinv. case_match; [done|].
  match goal with H : load_args _ _ _ _ _ _ _ = _ |- _ =>
    apply IH in H; rewrite !length_drop in H end.
  rewrite length_app. lia.
Qed.

(** One round of the loop: the input and the log for the next one, or the result. *)
Definition load_round (uninit : logEntry) (slack : bytes -> bytes) (f : bytes) (s : logStore)
    : (bytes * logStore) + cres logStore :=
  match fgets 128 f with
  | None => inr (mret s)
  | Some (buf, f) =>
      if negb (hd 0 buf =? 42) || (atoi (drop 1 buf) <? 1) then inr Exit else
      match (bl ← of_ptr (strlen (buf ++ [0]));
             load_args slack 5 (atoi (drop 1 buf)) 0 f (Z.of_nat bl) uninit) with
      | Ret (f, loglen, e) => inl (f, mkStore
          (log_entries s ++ [mkLogNode (next_addr s) e (log_current_size s)])
          (log_file s) (log_current_size s + loglen) (Pos.succ (next_addr s)))
      | Exit => inr Exit
      | Undef => inr Undef
      end
  end.

(** The loop as a sequence of rounds, without a bound on their number. *)
Inductive load_runs uninit slack : bytes -> logStore -> cres logStore -> Prop :=
  | runs_end f s r : load_round uninit slack f s = inr r -> load_runs uninit slack f s r
  | runs_next f s f' s' r :
      load_round uninit slack f s = inl (f', s') ->
      load_runs uninit slack f' s' r -> load_runs uninit slack f s r.

Lemma load_loop_round uninit slack n f s :
  load_loop uninit slack (S n) f s
  = match load_round uninit slack f s with
    | inl (f', s') => load_loop uninit slack n f' s'
    | inr r => r
    end.
Proof.
  cbn [load_loop]. unfold load_round. destruct (fgets 128 f) as [[buf g]|]; [|done].
  destruct (hd 0 buf =? 42); [|done]. cbn [negb orb].
  destruct (atoi (drop 1 buf) <? 1); [done|]. destruct (of_ptr _) as [bl| |]; [|done..].
  cbn [mbind cres_bind]. by destruct (load_args _ _ _ _ _ _ _) as [[[f' n'] e']| |].
Qed.

Lemma load_round_shrinks uninit slack f s f' s' :
  load_round uninit slack f s = inl (f', s') -> (length f' < length f)%nat.
Proof.
  unfold load_round. destruct (fgets 128 f) as [[buf g]|] eqn:E; [|done]. apply fgets_app in E as ->.
  destruct buf as [|c buf]; [done|]. case_match; [done|].
  destruct (of_ptr _) as [bl| |]; cbn [mbind cres_bind]; [|done..].
  destruct (load_args _ _ _ _ _ _ _) as [[[f1 n1] e1]| |] eqn:Ea; [|done..].
  apply load_args_shrinks in Ea. intros [= <- _]. cbn [app length]. rewrite length_app. lia.
Qed.

Lemma load_loop_runs uninit slack n : forall f s,
  (length f < n)%nat -> load_runs uninit slack f s (load_loop uninit slack n f s).
Proof.
  induction n as [|n IH]; intros f s Hn; [lia|]. rewrite load_loop_round.
  destruct (load_round uninit slack f s) as [[f' s']|r] eqn:E; [|by constructor].
  eapply runs_next; [exact E|]. apply IH. apply load_round_shrinks in E. lia.
Qed.

(** ** Torn writes *)

(** The lines of fields shorter than 40 bytes: whatever is left of one before its
    newline, the number read is below 40. *)
Lemma line_prefix_strtol (n k : nat) :
  (n < 40)%nat -> (k < length (line 36 (Z.of_nat n)))%nat ->
  0 <= strtol (drop 1 (take k (line 36 (Z.of_nat n)))) < 40.
Proof.
  intros Hn Hk.
  assert (forallb (λ n : nat, forallb (λ k : nat,
      let v := strtol (drop 1 (take k (line 36 (Z.of_nat n)))) in (0 <=? v) && (v <? 40))
      (seq 0 (length (line 36 (Z.of_nat n))))) (seq 0 40) = true) as E by (by vm_compute).
  rewrite forallb_forall in E. specialize (E n). rewrite in_seq in E. specialize (E ltac:(lia)).
  rewrite forallb_forall in E. specialize (E k). rewrite in_seq in E. specialize (E ltac:(lia)).
  cbv beta zeta in E. lia.
Qed.

Lemma prefix_app_cases {A} (p l r : list A) :
  p `prefix_of` l ++ r -> (exists p', p = l ++ p' /\ p' `prefix_of` r) \/ (exists k, (k < length l)%nat /\ p = take k l).
Proof.
  intros [q E]. destruct (decide (length l <= length p)%nat) as [Hl|Hl].
  - left. exists (drop (length l) p).
    assert (take (length l) p = l) as Et.
    { apply (f_equal (take (length l))) in E. rewrite take_app_length in E.
      by rewrite take_app_le in E by lia. }
    split; [by rewrite <- Et at 1; rewrite take_drop|].
    exists q. apply (f_equal (drop (length l))) in E.
    by rewrite drop_app_length, drop_app_le in E by lia.
  - right. exists (length p). split; [lia|].
    apply (f_equal (take (length p))) in E. rewrite take_app_length, take_app_le in E by lia. done.
Qed.

Section Torn.
Context (uninit : logEntry) (slack : bytes -> bytes).

(** The lines have no newline before their end. *)
Lemma line_prefix_no_LF pre v k : pre <> LF -> 0 <= v -> (k < length (line pre v))%nat ->
  Forall (λ c, c <> LF) (take k (line pre v)).
Proof.
  intros Hp Hv Hk.
  assert (line pre v = (pre :: dec v ++ [CR]) ++ [LF]) as E
    by (unfold line; cbn; by rewrite <- app_assoc).
  rewrite E, length_app in Hk. cbn [length] in Hk. rewrite E, take_app_le by (cbn [length]; lia).
  apply Forall_take. constructor; [done|].
  apply Forall_app. split; [by apply dec_no_LF|by repeat constructor].
Qed.

Lemma load_field_defined j s e : load_field slack j s e <> Undef.
Proof. unfold load_field. by repeat case_match. Qed.

Lemma length_line v : 0 <= v <= LLONG_MAX -> (length (line 36 v) <= 24)%nat.
Proof.
  intros. pose proof (length_ll_repr_max v ltac:(rng)) as Hl. unfold ll_repr in Hl.
  rewrite (proj2 (Z.ltb_ge _ _)) in Hl by lia. unfold line. cbn. rewrite length_app. cbn. lia.
Qed.

Lemma line_prefix_nonul v k : 0 <= v -> nonul (take k (line 36 v)).
Proof.
  intros Hv. apply Forall_take. constructor; [done|]. apply Forall_app. split.
  - eapply Forall_impl; [by apply dec_digits|]. unfold is_digit. intros. lia.
  - by repeat constructor.
Qed.

(** A field cut inside its first line. *)
Lemma load_args_torn_line fuel argc j (n k : nat) loglen e :
  j < argc -> (n < 40)%nat -> (k < length (line 36 (Z.of_nat n)))%nat ->
  load_args slack (S fuel) argc j (take k (line 36 (Z.of_nat n))) loglen e = Exit.
Proof.
  intros Hj Hn Hk. cbn [load_args]. rewrite (proj2 (Z.leb_gt _ _)) by lia.
  destruct k as [|k]; [done|].
  pose proof (length_line (Z.of_nat n) ltac:(rng)).
  pose proof (line_prefix_strtol n (S k) Hn Hk) as Hv.
  rewrite fgets_short;
    [|apply line_prefix_no_LF; [done|lia|done]|rewrite length_take; lia|done].
  rewrite (strlen_app_nul _ []) by (apply line_prefix_nonul; lia).
  change (hd 0 (take (S k) (line 36 (Z.of_nat n)))) with 36.
  change (negb (36 =? 36)) with false. cbn iota. cbv zeta.
  set (v := strtol _) in *. rewrite wrap_u64_id by rng.
  rewrite (proj2 (Z.leb_gt _ _)) by rng. cbn [length of_ptr mbind cres_bind].
  destruct (Z.eqb_spec v 0) as [->|Hz]; cbn [negb andb].
  - destruct (load_field _ _ _ _) eqn:E; [done..|by apply load_field_defined in E].
  - by rewrite (proj2 (Z.ltb_lt _ _)) by lia.
Qed.

(** A field cut short, at any place, ends the process. *)
Lemma load_args_torn_field fuel argc j s p loglen e :
  j < argc -> (length s < 40)%nat -> p `prefix_of` bulk s -> p <> bulk s ->
  load_args slack (S fuel) argc j p loglen e = Exit.
Proof.
  intros Hj Hs Hp Hne. rewrite bulk_line_eq in Hp, Hne.
  apply prefix_app_cases in Hp as [(p' & -> & Hp)|(k & Hk & ->)];
    [|by apply load_args_torn_line].
  cbn [load_args]. rewrite (proj2 (Z.leb_gt _ _)) by lia.
  rewrite fgets_header by (done || rng). cbn [hd drop line].
  change (negb (36 =? 36)) with false. cbn iota.
  rewrite drop_0, strtol_line, wrap_u64_id by rng. cbv zeta.
  rewrite (proj2 (Z.leb_gt _ _)), strlen_line, Nat2Z.id by rng.
  destruct (negb _ && _) eqn:Eb; [done|]. cbn [of_ptr mbind cres_bind].
  apply prefix_app_cases in Hp as [(p2 & -> & Hp)|(k & Hk & ->)];
    [|rewrite length_take, andb_false_iff, negb_false_iff, Z.eqb_eq, Z.ltb_ge in Eb; lia].
  rewrite take_app_length, drop_app_length.
  destruct (load_field slack j s e) as [e'| |] eqn:Ef; [|done|by apply load_field_defined in Ef].
  cbn [mbind cres_bind]. rewrite (proj2 (Z.ltb_lt _ 2)); [done|].
  destruct (decide (length p2 < 2)%nat); [lia|]. exfalso. apply Hne. do 2 f_equal.
  apply prefix_length_eq; [done|]. cbn. lia.
Qed.

(** The fields of a record, cut short. *)
Lemma load_args_torn fs p : forall fuel j loglen e,
  p `prefix_of` concat (bulk <$> fs) -> p <> concat (bulk <$> fs) ->
  (length fs <= fuel)%nat -> Forall (λ s, (length s < 40)%nat) fs ->
  load_args slack fuel (j + Z.of_nat (length fs)) j p loglen e = Exit.
Proof.
  revert p. induction fs as [|s fs IH]; intros p fuel j loglen e Hp Hne Hf Hs.
  { by apply prefix_nil_inv in Hp. }
  apply Forall_cons in Hs as [Hs Hfs]. cbn [length] in Hf. destruct fuel as [|fuel]; [lia|].
  cbn [fmap list_fmap concat length] in *.
  apply prefix_app_cases in Hp as [(p' & -> & Hp)|(k & Hk & ->)].
  - rewrite load_args_field by rng.
    destruct (load_field slack j s e) as [e'| |] eqn:Ef;
      [|done|by apply load_field_defined in Ef]. cbn [mbind cres_bind].
    replace (j + Z.of_nat (S (length fs))) with (j + 1 + Z.of_nat (length fs)) by lia.
    apply IH; [done| |lia|done]. by intros ->.
  - rewrite (load_args_torn_field fuel _ j s); [done|lia|done|..].
    + exists (drop k (bulk s)). by rewrite take_drop.
    + intros E%(f_equal length). rewrite length_take in E. lia.
Qed.

Lemma load_loop_torn fuel i a p s :
  in_s64 i -> aentry_ok a -> p `prefix_of` text i a -> p <> text i a -> p <> [] ->
  load_loop uninit slack (S fuel) p s = Exit.
Proof.
  intros Hi [Ht [_ Hn] [_ Hc]] Hp Hne Hnil. cbn [load_loop].
  pose proof (length_ll_repr_max i Hi). pose proof (length_ll_repr_max _ Ht).
  rewrite text_line in Hp, Hne.
  apply prefix_app_cases in Hp as [(p' & -> & Hp)|(k & Hk & ->)].
  - rewrite fgets_header by (done || rng). change (atoi (drop 1 (line 42 4))) with 4.
    cbn [hd line]. change (negb (42 =? 42)) with false. change (4 <? 1) with false. cbn iota.
    rewrite strlen_line by lia. cbn [of_ptr mbind cres_bind].
    pose proof (load_args_torn [ll_repr i; ll_repr (a_term a); a_name a; a_cmd a] p' 5 0) as E.
    cbn [fmap list_fmap concat length] in E. rewrite app_nil_r in E.
    change (0 + Z.of_nat 4) with 4 in E. rewrite E; [done|done|by intros ->|lia|].
    rewrite !Forall_cons, Forall_nil. split_and!; [lia..|done].
  - change (length (line 42 4)) with 4%nat in Hk. destruct k as [|[|[|[|k]]]]; [done|reflexivity..|lia].
Qed.
End Torn.

(** [C24] A torn write is never taken for an entry.  When the last [write] stored only a
    part of an entry (at least one byte, not all), the next start ends with an
    error instead of loading a shortened or altered entry. *)
Theorem loadLogFile_torn uninit slack s e p :
  (forall b, (40 <= length (slack b))%nat) -> log_wf s -> file_wf s -> entry_ok e ->
  p `prefix_of` entry_text e -> p <> entry_text e -> p <> [] ->
  loadLogFile uninit slack true true (mkStore [] (log_file s ++ p) 0 1) = Exit.
Proof.
  intros Hk Hw [Hf _ _] [Hi Ht Hn Hc] Hp Hne Hnil. unfold loadLogFile.
  cbn [negb andb log_file log_entries next_addr].
  rewrite bool_decide_eq_false_2 by (by destruct (log_file s), p).
  pose proof (length_concat_texts s) as Hl. rewrite Hf.
  destruct (load_loop_log uninit slack s p (S (length (concat (texts s) ++ p)))) as (s' & -> & _);
    [done..|rewrite length_app; lia|].
  rewrite length_app, Nat.sub_succ_l by lia.
  by rewrite (load_loop_torn uninit slack _ (index e) (view e)) by (done || by apply view_ok).
Qed.

Lemma loadLogFile_torn_witness :
  loadLogFile ex_uninit ex_slack true true
    (mkStore [] (log_file ex_log ++ take 30 (entry_text (ex_entry 3 2 "set c 3"))) 0 1) = Exit.
Proof.
  apply (loadLogFile_torn ex_uninit ex_slack ex_log (ex_entry 3 2 "set c 3")).
  - intros b. unfold ex_slack. rewrite length_replicate. lia.
  - apply ex_log_wf.
  - apply ex_log_file_wf.
  - apply entry_okb_ok. reflexivity.
  - exists (drop 30 (entry_text (ex_entry 3 2 "set c 3"))). by rewrite take_drop.
  - intros E%(f_equal length). vm_compute in E. discriminate.
  - vm_compute. discriminate.
Defined.

(** The loader terminates on every file.  Every round that goes on has read at least
    one byte, so the loop ends after finitely many rounds, with the result that
    [loadLogFile] computes with one round more than there are bytes; more rounds do
    not change it. *)
Theorem loadLogFile_terminates uninit slack f s n :
  (length f < n)%nat -> load_runs uninit slack f s (load_loop uninit slack n f s).
Proof. apply load_loop_runs. Qed.

Lemma loadLogFile_terminates_witness :
  let s := mkStore [] (lit "*1") 0 1 in load_runs ex_uninit ex_slack (lit "*1") s Exit.
Proof.
  apply (loadLogFile_terminates ex_uninit ex_slack (lit "*1") (mkStore [] (lit "*1") 0 1) 3).
  vm_compute. lia.
Defined.
