(* ===== verification/Wire.v ===== *)
(** * cluster.h, cluster.c: messages of the cluster bus

    The message structures of src/src/cluster.h with their memory layout (LP64, little
    endian, the padding of the ABI written out), what the send functions put in the
    first [totlen] bytes of a packet, and the checks and field reads of
    [clusterProcessPacket].  Fields of the payload travel in host order, [totlen],
    [type], [port] and [log_entries_count] in network order. *)

From Stdlib Require Import ZArith Lia.
From stdpp Require Import base tactics numbers list strings.
From S2P Require Import Prelude Log.

Local Open Scope Z_scope.

(** ** Integers in memory *)

(** [n] bytes of [v], least significant first. *)
Fixpoint le (n : nat) (v : Z) : bytes :=
  match n with
  | O => []
  | S n => v mod 256 :: le n (v / 256)
  end.

Definition be (n : nat) (v : Z) : bytes := reverse (le n v).

Fixpoint le_val (b : bytes) : Z :=
  match b with
  | [] => 0
  | c :: b => c + 256 * le_val b
  end.

Definition be_val (b : bytes) : Z := le_val (reverse b).

(** [n] bytes at an offset of a buffer; [None] outside the buffer. *)
Definition rd (b : bytes) (off n : nat) : option bytes :=
  if bool_decide (off + n <= length b)%nat then Some (take n (drop off b)) else None.

Definition rd_s64 (b : bytes) (off : nat) : option Z := (λ x, wrap_s64 (le_val x)) <$> rd b off 8.
Definition rd_s32 (b : bytes) (off : nat) : option Z := (λ x, wrap_s32 (le_val x)) <$> rd b off 4.
Definition rd_be (b : bytes) (off n : nat) : option Z := be_val <$> rd b off n.

(** ** Messages *)

Definition PREZ_CLUSTER_NAMELEN : Z := 40.
Definition CLUSTERMSG_TYPE_VOTEREQUEST : Z := 1.
Definition CLUSTERMSG_TYPE_VOTEREQUEST_RESP : Z := 2.
Definition CLUSTERMSG_TYPE_APPENDENTRIES : Z := 3.
Definition CLUSTERMSG_TYPE_APPENDENTRIES_RESP : Z := 4.

Record requestVote := mkRV {
  rv_term : Z;
  candidateid : bytes;
  last_log_index : Z;
  last_log_term : Z;
}.

Record responseVote := mkRVR {
  rvr_term : Z;
  vote_granted : Z;
}.

Record responseAppendEntries := mkAER {
  aer_term : Z;
  aer_index : Z;
  aer_commit_index : Z;
  aer_ok : Z;
}.

(** [union clusterMsgData] *)
Inductive clusterMsgData :=
  | RequestVote (v : requestVote)
  | ResponseVote (v : responseVote)
  | AppendEntries (e : appendEntries)
  | ResponseAppendEntries (e : responseAppendEntries).

(** Sizes: [CLUSTERMSG_MIN_LEN] is the offset of the union. *)
Definition CLUSTERMSG_MIN_LEN : Z := 96.
Definition SIZEOF_REQUESTVOTE : Z := 64.
Definition SIZEOF_RESPONSEVOTE : Z := 16.
Definition SIZEOF_RESPONSEAPPENDENTRIES : Z := 32.
Definition SIZEOF_LOGENTRY : Z := 96.
Definition SIZEOF_APPENDENTRIES : Z := 80 + 50 * SIZEOF_LOGENTRY.
Definition SIZEOF_CLUSTERMSG : Z := CLUSTERMSG_MIN_LEN + SIZEOF_APPENDENTRIES.

Definition msg_type (d : clusterMsgData) : Z :=
  match d with
  | RequestVote _ => CLUSTERMSG_TYPE_VOTEREQUEST
  | ResponseVote _ => CLUSTERMSG_TYPE_VOTEREQUEST_RESP
  | AppendEntries _ => CLUSTERMSG_TYPE_APPENDENTRIES
  | ResponseAppendEntries _ => CLUSTERMSG_TYPE_APPENDENTRIES_RESP
  end.

(** [totlen] as the send functions compute it. *)
Definition msg_totlen (d : clusterMsgData) : Z :=
  CLUSTERMSG_MIN_LEN +
  match d with
  | RequestVote _ => SIZEOF_REQUESTVOTE
  | ResponseVote _ => SIZEOF_RESPONSEVOTE
  | AppendEntries e =>
      (SIZEOF_APPENDENTRIES - SIZEOF_LOGENTRY * PREZ_LOG_MAX_ENTRIES_PER_REQUEST)
      + SIZEOF_LOGENTRY * log_entries_count e
  | ResponseAppendEntries _ => SIZEOF_RESPONSEAPPENDENTRIES
  end.

Definition zeros (n : nat) : bytes := replicate n 0.

(** The header [clusterBuildMessageHdr] builds over a cleared buffer. *)
Definition enc_hdr (totlen type : Z) (sender : bytes) (port : Z) : bytes :=
  lit "RCmb" ++ be 4 totlen ++ be 2 0 ++ zeros 2 ++ be 2 type ++ be 2 0
  ++ sender ++ zeros 32 ++ be 2 port ++ zeros 6.

Definition enc_entry (e : logEntry) : bytes :=
  le 8 (index e) ++ le 8 (term e) ++ commandName e ++ command e.

Definition enc_data (d : clusterMsgData) : bytes :=
  match d with
  | RequestVote v =>
      le 8 (rv_term v) ++ candidateid v ++ le 8 (last_log_index v) ++ le 8 (last_log_term v)
  | ResponseVote v => le 8 (rvr_term v) ++ le 4 (vote_granted v) ++ zeros 4
  | AppendEntries e =>
      le 8 (ae_term e) ++ ae_leaderid e ++ le 8 (prev_log_index e) ++ le 8 (prev_log_term e)
      ++ le 8 (leader_commit_index e) ++ be 2 (log_entries_count e) ++ zeros 6
      ++ concat (enc_entry <$> ae_log_entries e)
  | ResponseAppendEntries e =>
      le 8 (aer_term e) ++ le 8 (aer_index e) ++ le 8 (aer_commit_index e)
      ++ le 4 (aer_ok e) ++ zeros 4
  end.

(** The [totlen] bytes of a packet. *)
Definition enc_msg (sender : bytes) (port : Z) (d : clusterMsgData) : bytes :=
  enc_hdr (msg_totlen d) (msg_type d) sender port ++ enc_data d.

(** ** Reading a packet *)

Definition dec_requestvote (b : bytes) : option requestVote :=
  t ← rd_s64 b 96; c ← rd b 104 40; i ← rd_s64 b 144; lt ← rd_s64 b 152;
  mret (mkRV t c i lt).

Definition dec_responsevote (b : bytes) : option responseVote :=
  t ← rd_s64 b 96; g ← rd_s32 b 104; mret (mkRVR t g).

Definition dec_responseappendentries (b : bytes) : option responseAppendEntries :=
  t ← rd_s64 b 96; i ← rd_s64 b 104; c ← rd_s64 b 112; o ← rd_s32 b 120;
  mret (mkAER t i c o).

Definition dec_entry (b : bytes) (off : nat) : option logEntry :=
  i ← rd_s64 b off; t ← rd_s64 b (off + 8); n ← rd b (off + 16) 40; c ← rd b (off + 56) 40;
  mret (mkEntry i t n c).

Fixpoint dec_entries (b : bytes) (off : nat) (n : nat) : option (list logEntry) :=
  match n with
  | O => Some []
  | S n => e ← dec_entry b off; es ← dec_entries b (off + 96) n; mret (e :: es)
  end.

(** [data.appendentries.entries.log_entries_count] *)
Definition dec_count (b : bytes) : option Z := rd_be b 168 2.

(** The structure is passed by value: its array holds 50 entries, however many the
    packet announces. *)
Definition dec_appendentries (b : bytes) : option appendEntries :=
  t ← rd_s64 b 96; l ← rd b 104 40; pi ← rd_s64 b 144; pt ← rd_s64 b 152; lc ← rd_s64 b 160;
  n ← dec_count b; es ← dec_entries b 176 (Nat.min 50 (Z.to_nat n));
  mret (mkAE t l pi pt lc n es).

(** The checks of [clusterProcessPacket] and the message handed to the handler;
    [Ret None]: the packet is ignored. *)
Definition parse_packet (b : bytes) : cres (option clusterMsgData) :=
  totlen ← of_ptr (rd_be b 4 4);
  type ← of_ptr (rd_be b 12 2);
  if totlen <? 16 then mret None else
  ver ← of_ptr (rd_be b 8 2);
  if negb (ver =? 0) then mret None else
  if Z.of_nat (length b) <? totlen then mret None else
  if type =? CLUSTERMSG_TYPE_VOTEREQUEST then
    if negb (totlen =? CLUSTERMSG_MIN_LEN + SIZEOF_REQUESTVOTE) then mret None else
    v ← of_ptr (dec_requestvote b); mret (Some (RequestVote v))
  else if type =? CLUSTERMSG_TYPE_APPENDENTRIES then
    n ← of_ptr (dec_count b);
    if negb (totlen =? CLUSTERMSG_MIN_LEN
        + (SIZEOF_APPENDENTRIES - SIZEOF_LOGENTRY * PREZ_LOG_MAX_ENTRIES_PER_REQUEST
           + n * SIZEOF_LOGENTRY)) then mret None else
    e ← of_ptr (dec_appendentries b); mret (Some (AppendEntries e))
  else if type =? CLUSTERMSG_TYPE_VOTEREQUEST_RESP then
    if negb (totlen =? CLUSTERMSG_MIN_LEN + SIZEOF_RESPONSEVOTE) then mret None else
    v ← of_ptr (dec_responsevote b); mret (Some (ResponseVote v))
  else if type =? CLUSTERMSG_TYPE_APPENDENTRIES_RESP then
    if negb (totlen =? CLUSTERMSG_MIN_LEN + SIZEOF_RESPONSEAPPENDENTRIES) then mret None else
    e ← of_ptr (dec_responseappendentries b); mret (Some (ResponseAppendEntries e))
  else mret None.

(** ** Round trip *)

Lemma length_le n v : length (le n v) = n.
Proof. revert v. induction n; intros; cbn; auto. Qed.

Lemma length_be n v : length (be n v) = n.
Proof. unfold be. by rewrite length_reverse, length_le. Qed.

Lemma length_zeros n : length (zeros n) = n.
Proof. apply length_replicate. Qed.

Lemma le_val_le n : forall v, le_val (le n v) = v mod 256 ^ Z.of_nat n.
Proof.
  induction n as [|n IH]; intros v.
  - cbn. by rewrite Z.mod_1_r.
  - cbn [le le_val]. rewrite IH, Nat2Z.inj_succ, Z.pow_succ_r by lia.
    rewrite Z.rem_mul_r; [lia|lia|]. apply Z.pow_pos_nonneg; lia.
Qed.

Lemma be_val_be n v : be_val (be n v) = v mod 256 ^ Z.of_nat n.
Proof. unfold be_val, be. by rewrite reverse_involutive, le_val_le. Qed.

Lemma wrap_s_mod w v : 0 < w -> - 2 ^ (w - 1) <= v < 2 ^ (w - 1) -> wrap_s w (v mod 2 ^ w) = v.
Proof.
  intros Hw Hv. unfold wrap_s. rewrite Zplus_mod_idemp_l. by apply (wrap_s_small w v).
Qed.

Lemma s64_le v : in_s64 v -> wrap_s64 (le_val (le 8 v)) = v.
Proof.
  intros. rewrite le_val_le. change (256 ^ Z.of_nat 8) with (2 ^ 64).
  apply wrap_s_mod; [done|]. change (64 - 1) with 63. rng.
Qed.

Lemma s32_le v : in_s32 v -> wrap_s32 (le_val (le 4 v)) = v.
Proof.
  intros. rewrite le_val_le. change (256 ^ Z.of_nat 4) with (2 ^ 32).
  apply wrap_s_mod; [done|]. change (32 - 1) with 31. rng.
Qed.

Lemma rd_skip k a b off n : length a = k -> (k <= off)%nat -> rd (a ++ b) off n = rd b (off - k) n.
Proof.
  intros <- H. unfold rd. rewrite length_app, drop_app_ge by lia.
  erewrite bool_decide_ext; [done|]. lia.
Qed.

Lemma rd_here a b n : length a = n -> rd (a ++ b) 0 n = Some a.
Proof.
  intros <-. unfold rd. rewrite drop_0, take_app_length, bool_decide_eq_true_2; [done|].
  rewrite length_app. lia.
Qed.

Lemma rd_last a n : length a = n -> rd a 0 n = Some a.
Proof. intros H. pose proof (rd_here a [] n H) as E. by rewrite app_nil_r in E. Qed.

(** Lengths of the segments of a packet. *)
Ltac seglen := rewrite ?length_le, ?length_be, ?length_zeros; first [done | assumption | lia].

(** Walk to the segment at the offset of a read. *)
Ltac rd_walk :=
  repeat match goal with
  | |- context [rd (?a ++ ?b) 0 ?n] => rewrite (rd_here a b n) by seglen
  | |- context [rd (?a ++ ?b) ?off ?n] =>
      first
        [ rewrite (rd_skip 2 a b off n) by seglen
        | rewrite (rd_skip 4 a b off n) by seglen
        | rewrite (rd_skip 6 a b off n) by seglen
        | rewrite (rd_skip 8 a b off n) by seglen
        | rewrite (rd_skip 32 a b off n) by seglen
        | rewrite (rd_skip 40 a b off n) by seglen ]; cbn [Nat.sub]
  | |- context [rd ?a 0 ?n] => rewrite (rd_last a n) by seglen
  end.

(** ** Well-formed messages *)

Definition wire_entry_ok (e : logEntry) : Prop :=
  in_s64 (index e) /\ in_s64 (term e)
  /\ length (commandName e) = 40%nat /\ length (command e) = 40%nat.

Definition msg_ok (d : clusterMsgData) : Prop :=
  match d with
  | RequestVote v => in_s64 (rv_term v) /\ length (candidateid v) = 40%nat
      /\ in_s64 (last_log_index v) /\ in_s64 (last_log_term v)
  | ResponseVote v => in_s64 (rvr_term v) /\ in_s32 (vote_granted v)
  | AppendEntries e => in_s64 (ae_term e) /\ length (ae_leaderid e) = 40%nat
      /\ in_s64 (prev_log_index e) /\ in_s64 (prev_log_term e)
      /\ in_s64 (leader_commit_index e)
      /\ log_entries_count e = Z.of_nat (length (ae_log_entries e))
      /\ (length (ae_log_entries e) <= 50)%nat /\ Forall wire_entry_ok (ae_log_entries e)
  | ResponseAppendEntries e => in_s64 (aer_term e) /\ in_s64 (aer_index e)
      /\ in_s64 (aer_commit_index e) /\ in_s32 (aer_ok e)
  end.

Lemma length_enc_entry e : wire_entry_ok e -> length (enc_entry e) = 96%nat.
Proof.
  intros (_ & _ & Hn & Hc). unfold enc_entry. rewrite !length_app, !length_le, Hn, Hc. done.
Qed.

Lemma length_enc_entries es : Forall wire_entry_ok es ->
  length (concat (enc_entry <$> es)) = (96 * length es)%nat.
Proof.
  induction 1 as [|e es He _ IH]; [done|].
  rewrite fmap_cons. cbn [concat length]. rewrite length_app, length_enc_entry, IH by done. lia.
Qed.

Lemma length_enc_msg sender port d :
  length sender = 40%nat -> msg_ok d -> Z.of_nat (length (enc_msg sender port d)) = msg_totlen d.
Proof.
  intros Hs Hd. unfold enc_msg, enc_hdr. rewrite !length_app, !length_be, !length_zeros, Hs.
  change (length (lit "RCmb")) with 4%nat.
  destruct d as [v|v|e|e]; cbn [enc_data msg_totlen]; cbn in Hd;
    rewrite !length_app, !length_le, ?length_zeros.
  - destruct Hd as (_ & -> & _). done.
  - done.
  - destruct Hd as (_ & -> & _ & _ & _ & En & _ & He). rewrite length_be, length_enc_entries by done.
    unfold msg_totlen. rewrite En. unfold CLUSTERMSG_MIN_LEN, SIZEOF_APPENDENTRIES, SIZEOF_LOGENTRY, PREZ_LOG_MAX_ENTRIES_PER_REQUEST.
    lia.
  - done.
Qed.

Lemma dec_entry_enc pre e post off :
  wire_entry_ok e -> length pre = off -> dec_entry (pre ++ enc_entry e ++ post) off = Some e.
Proof.
  intros (Hi & Ht & Hn & Hc) <-. unfold dec_entry, rd_s64, enc_entry. rewrite <- !app_assoc.
  assert (forall b o n, rd (pre ++ b) (length pre + o) n = rd b o n) as Hp
    by (intros; rewrite (rd_skip (length pre)) by lia; f_equal; lia).
  rewrite <- (Nat.add_0_r (length pre)) at 1. rewrite !Hp. rd_walk. cbn -[le le_val].
  rewrite !s64_le by done. by destruct e.
Qed.

Lemma dec_entries_enc es : forall pre post off,
  Forall wire_entry_ok es -> length pre = off ->
  dec_entries (pre ++ concat (enc_entry <$> es) ++ post) off (length es) = Some es.
Proof.
  induction es as [|e es IH]; intros pre post off He Hoff; [done|].
  apply Forall_cons in He as [He Hes].
  rewrite fmap_cons. cbn [concat length dec_entries]. rewrite <- app_assoc, dec_entry_enc by done.
  cbn [mbind option_bind]. rewrite app_assoc, IH; [done|done|].
  rewrite length_app, length_enc_entry by done. lia.
Qed.

(** The header fields of a packet. *)
Lemma rd_hdr sender port d :
  length sender = 40%nat -> msg_ok d ->
  let b := enc_msg sender port d in
  rd_be b 4 4 = Some (msg_totlen d) /\ rd_be b 12 2 = Some (msg_type d) /\ rd_be b 8 2 = Some 0.
Proof.
  intros Hs Hd. unfold enc_msg, enc_hdr, rd_be. rewrite <- !app_assoc.
  assert (length (lit "RCmb") = 4%nat) as Hl by done.
  split_and!; rd_walk; cbn [fmap option_fmap option_map]; rewrite be_val_be; f_equal.
  - apply Z.mod_small. destruct d as [v|v|e|e]; try done. cbn in Hd.
    destruct Hd as (_ & _ & _ & _ & _ & Hn & Hc & _). unfold msg_totlen. rewrite Hn.
    unfold CLUSTERMSG_MIN_LEN, SIZEOF_APPENDENTRIES, SIZEOF_LOGENTRY, PREZ_LOG_MAX_ENTRIES_PER_REQUEST.
    change (256 ^ Z.of_nat 4) with 4294967296. lia.
  - by destruct d.
Qed.

(** The entries of an append request start at offset 176. *)
Lemma dec_entries_msg sender port e :
  length sender = 40%nat -> msg_ok (AppendEntries e) ->
  dec_entries (enc_msg sender port (AppendEntries e)) 176 (length (ae_log_entries e))
  = Some (ae_log_entries e).
Proof.
  intros Hs (_ & Hl & _ & _ & _ & _ & _ & He). unfold enc_msg, enc_data.
  rewrite !app_assoc. rewrite <- (app_nil_r (concat _)), app_assoc, <- (app_assoc _ (concat _)).
  apply dec_entries_enc; [done|]. unfold enc_hdr.
  rewrite !length_app, !length_le, !length_be, !length_zeros, Hs, Hl. done.
Qed.

(** The payload of each kind of message. *)
Lemma dec_payload sender port d :
  length sender = 40%nat -> msg_ok d ->
  let b := enc_msg sender port d in
  match d with
  | RequestVote v => dec_requestvote b = Some v
  | ResponseVote v => dec_responsevote b = Some v
  | AppendEntries e => dec_count b = Some (log_entries_count e) /\ dec_appendentries b = Some e
  | ResponseAppendEntries e => dec_responseappendentries b = Some e
  end.
Proof.
  intros Hs Hd b. assert (length (lit "RCmb") = 4%nat) as Hl by done.
  destruct d as [v|v|e|e].
  - destruct Hd as (? & ? & ? & ?). unfold b, enc_msg, enc_hdr, enc_data. rewrite <- !app_assoc.
    unfold dec_requestvote, rd_s64. rd_walk. cbn -[le le_val]. rewrite !s64_le by done. by destruct v.
  - destruct Hd as (? & ?). unfold b, enc_msg, enc_hdr, enc_data. rewrite <- !app_assoc.
    unfold dec_responsevote, rd_s64, rd_s32. rd_walk. cbn -[le le_val].
    rewrite s64_le, s32_le by done. by destruct v.
  - pose proof (dec_entries_msg sender port e Hs Hd) as Hes. fold b in Hes.
    destruct Hd as (? & ? & ? & ? & ? & Hn & Hc & _).
    assert (dec_count b = Some (log_entries_count e)) as En.
    { unfold b, enc_msg, enc_hdr, enc_data. rewrite <- !app_assoc. unfold dec_count, rd_be. rd_walk.
      cbn [fmap option_fmap option_map]. rewrite be_val_be. f_equal. apply Z.mod_small.
      change (256 ^ Z.of_nat 2) with 65536. lia. }
    split; [done|]. unfold dec_appendentries. rewrite En. cbn [mbind option_bind].
    rewrite Hn, Nat2Z.id, Nat.min_r, Hes by lia.
    unfold b, enc_msg, enc_hdr, enc_data. rewrite <- !app_assoc. unfold rd_s64. rd_walk.
    cbn -[le le_val]. rewrite !s64_le by done. rewrite <- Hn. by destruct e.
  - destruct Hd as (? & ? & ? & ?). unfold b, enc_msg, enc_hdr, enc_data. rewrite <- !app_assoc.
    unfold dec_responseappendentries, rd_s64, rd_s32. rd_walk. cbn -[le le_val].
    rewrite !s64_le, s32_le by done. by destruct e.
Qed.

Lemma parse_enc sender port d :
  length sender = 40%nat -> msg_ok d -> parse_packet (enc_msg sender port d) = Ret (Some d).
Proof.
  intros Hs Hd. destruct (rd_hdr sender port d Hs Hd) as (Et & Ey & Ev).
  pose proof (length_enc_msg sender port d Hs Hd) as Hlen.
  pose proof (dec_payload sender port d Hs Hd) as Hp. cbv zeta in Hp.
  unfold parse_packet. rewrite Et, Ey, Ev. cbn [of_ptr mbind cres_bind].
  assert (16 <= msg_totlen d) as H16.
  { destruct d as [v|v|e|e]; try done. destruct Hd as (_ & _ & _ & _ & _ & Hn & _).
    unfold msg_totlen. rewrite Hn. unfold CLUSTERMSG_MIN_LEN, SIZEOF_APPENDENTRIES, SIZEOF_LOGENTRY,
      PREZ_LOG_MAX_ENTRIES_PER_REQUEST. lia. }
  rewrite (proj2 (Z.ltb_ge _ 16)), Hlen, Z.ltb_irrefl by done. cbn [Z.eqb negb].
  destruct d as [v|v|e|e]; cbn [msg_type msg_totlen]; cbn -[enc_msg].
  - by rewrite Hp.
  - by rewrite Hp.
  - destruct Hp as [-> He]. cbn -[enc_msg].
    replace (msg_totlen (AppendEntries e) =? _) with true; [by rewrite He|].
    symmetry. apply Z.eqb_eq. unfold msg_totlen. lia.
  - by rewrite Hp.
Qed.


