(* ===== verification/Cluster.v ===== *)
(** * cluster.c: the state of a node and its handlers

    The cluster state of src/src/cluster.h and the handlers of src/src/cluster.c: elections,
    log replication, commit, command submission and the periodic [clusterCron].
    Nodes and links are blocks of two stores, named by their addresses, because nodes
    point to links and links to nodes.  The clock, [random()], the results of the
    system calls and what uninitialised or foreign memory holds are parameters. *)

From Stdlib Require Import ZArith Lia.
From stdpp Require Import base tactics numbers list gmap sorting strings.
From S2P Require Import Prelude Util SdsArgs Adlist Log Wire.
From S2P Require Sds.

Local Open Scope Z_scope.

(** ** Data *)

Definition PREZ_FOLLOWER : Z := 0.
Definition PREZ_CANDIDATE : Z := 1.
Definition PREZ_LEADER : Z := 2.

Definition PREZ_NODE_MYSELF : Z := 16.
Definition PREZ_NODE_NOADDR : Z := 64.

Definition DENY_VOTE : Z := 0.
Definition GRANT_VOTE : Z := 1.

Definition PREZ_CLUSTER_PORT_INCR : Z := 10000.
Definition PREZ_CLUSTER_ELECTION_TIMEOUT : Z := 150.
Definition PREZ_CLUSTER_HEARTBEAT_INTERVAL : Z := 10.

Definition addr_t : Type := positive.

Record clusterLink := mkLink {
  cl_ctime : Z;
  cl_fd : Z;
  cl_sndbuf : bytes;
  cl_rcvbuf : bytes;
  cl_node : option addr_t;
  cl_writable : bool;     (** a writable event is installed *)
}.

Record clusterNode := mkNode {
  cn_name : bytes;
  cn_flags : Z;
  cn_ctime : Z;
  cn_last_activity_time : Z;
  cn_last_sent_entry : option positive;
  cn_next_index : Z;
  cn_match_index : Z;
  cn_ip : bytes;
  cn_port : Z;
  cn_link : option addr_t;
}.

(** [voted_for] is a [char *] that is sometimes an sds string and sometimes a plain
    [zstrdup] block: [v_len] is what [sdslen] reads in front of it, [v_mem] the bytes
    it points to. *)
Record vstr := mkV { v_len : Z; v_mem : bytes }.

Definition vs_sds (s : bytes) : vstr := mkV (Z.of_nat (length s)) (s ++ [0]).
Definition vs_empty : vstr := vs_sds [].
Definition vs_zstrdup (junk : Z) (s : bytes) : vstr := mkV junk (s ++ [0]).

(** [sdslen] and [sdscmp] on such pointers. *)
Definition vs_sdslen (v : vstr) : Z := wrap_u64 (v_len v).
Definition vs_sdscmp (a b : vstr) : Z :=
  let l1 := vs_sdslen a in
  let l2 := vs_sdslen b in
  let minlen := if l1 <? l2 then l1 else l2 in
  let cmp := Sds.memcmp (v_mem a) (v_mem b) (Z.to_nat minlen) in
  if cmp =? 0 then wrap_s32 (wrap_u64 (l1 - l2)) else cmp.

(** The scalar part of [clusterState]. *)
Record raft := mkRaft {
  state : Z;
  leader : bytes;
  voted_for : vstr;
  votes_granted : Z;
  last_activity_time : Z;
  current_term : Z;
  commit_index : Z;
  last_applied : Z;
}.

(** [nodes]: the dict in its iteration order, from the 40-byte name to the node;
    [proc_clients]: from the decimal index to the client. *)
Record cluster := mkCluster {
  rf : raft;
  log : logStore;
  myself : option addr_t;
  nodes : list (bytes * addr_t);
  node_heap : gmap addr_t clusterNode;
  link_heap : gmap addr_t clusterLink;
  next_block : addr_t;
  proc_clients : gmap bytes addr_t;
  election_timeout : Z;
  heartbeat_interval : Z;
  stats_bus_messages_sent : Z;
  stats_bus_messages_received : Z;
}.

(** [server.name], [server.port], and the environment of a handler. *)
Record server := mkServer { server_name : bytes; server_port : Z }.

Record env := mkEnv {
  mstime : Z;         (** the clock, as the handler reads it *)
  zjunk : Z;          (** the 4 bytes [sdslen] reads before a [zstrdup] block *)
  io : ioenv;
}.

(** ** Updates *)

Definition set_rf (c : cluster) (r : raft) : cluster :=
  mkCluster r (log c) (myself c) (nodes c) (node_heap c) (link_heap c) (next_block c)
    (proc_clients c) (election_timeout c) (heartbeat_interval c)
    (stats_bus_messages_sent c) (stats_bus_messages_received c).

Definition set_log (c : cluster) (s : logStore) : cluster :=
  mkCluster (rf c) s (myself c) (nodes c) (node_heap c) (link_heap c) (next_block c)
    (proc_clients c) (election_timeout c) (heartbeat_interval c)
    (stats_bus_messages_sent c) (stats_bus_messages_received c).

Definition set_node (c : cluster) (a : addr_t) (n : clusterNode) : cluster :=
  mkCluster (rf c) (log c) (myself c) (nodes c) (<[a := n]> (node_heap c)) (link_heap c)
    (next_block c) (proc_clients c) (election_timeout c) (heartbeat_interval c)
    (stats_bus_messages_sent c) (stats_bus_messages_received c).

Definition set_link (c : cluster) (a : addr_t) (l : clusterLink) : cluster :=
  mkCluster (rf c) (log c) (myself c) (nodes c) (node_heap c) (<[a := l]> (link_heap c))
    (next_block c) (proc_clients c) (election_timeout c) (heartbeat_interval c)
    (stats_bus_messages_sent c) (stats_bus_messages_received c).

Definition set_nodes (c : cluster) (d : list (bytes * addr_t)) : cluster :=
  mkCluster (rf c) (log c) (myself c) d (node_heap c) (link_heap c) (next_block c)
    (proc_clients c) (election_timeout c) (heartbeat_interval c)
    (stats_bus_messages_sent c) (stats_bus_messages_received c).

Definition set_proc_clients (c : cluster) (d : gmap bytes addr_t) : cluster :=
  mkCluster (rf c) (log c) (myself c) (nodes c) (node_heap c) (link_heap c) (next_block c)
    d (election_timeout c) (heartbeat_interval c)
    (stats_bus_messages_sent c) (stats_bus_messages_received c).

Definition set_stats (c : cluster) (sent received : Z) : cluster :=
  mkCluster (rf c) (log c) (myself c) (nodes c) (node_heap c) (link_heap c) (next_block c)
    (proc_clients c) (election_timeout c) (heartbeat_interval c) sent received.

(** A fresh block address. *)
Definition bump (c : cluster) : cluster :=
  mkCluster (rf c) (log c) (myself c) (nodes c) (node_heap c) (link_heap c)
    (Pos.succ (next_block c)) (proc_clients c) (election_timeout c) (heartbeat_interval c)
    (stats_bus_messages_sent c) (stats_bus_messages_received c).

Definition r_state (r : raft) v := mkRaft v (leader r) (voted_for r) (votes_granted r)
  (last_activity_time r) (current_term r) (commit_index r) (last_applied r).
Definition r_leader (r : raft) v := mkRaft (state r) v (voted_for r) (votes_granted r)
  (last_activity_time r) (current_term r) (commit_index r) (last_applied r).
Definition r_voted_for (r : raft) v := mkRaft (state r) (leader r) v (votes_granted r)
  (last_activity_time r) (current_term r) (commit_index r) (last_applied r).
Definition r_votes_granted (r : raft) v := mkRaft (state r) (leader r) (voted_for r) v
  (last_activity_time r) (current_term r) (commit_index r) (last_applied r).
Definition r_last_activity_time (r : raft) v := mkRaft (state r) (leader r) (voted_for r)
  (votes_granted r) v (current_term r) (commit_index r) (last_applied r).
Definition r_current_term (r : raft) v := mkRaft (state r) (leader r) (voted_for r)
  (votes_granted r) (last_activity_time r) v (commit_index r) (last_applied r).
Definition r_commit_index (r : raft) v := mkRaft (state r) (leader r) (voted_for r)
  (votes_granted r) (last_activity_time r) (current_term r) v (last_applied r).
Definition r_last_applied (r : raft) v := mkRaft (state r) (leader r) (voted_for r)
  (votes_granted r) (last_activity_time r) (current_term r) (commit_index r) v.

(** ** Sending *)

(** [clusterSendMessage]: append to the send buffer; the writable event is installed
    when the buffer was empty. *)
Definition clusterSendMessage (c : cluster) (l : addr_t) (msg : bytes) : cres cluster :=
  lk ← of_ptr (link_heap c !! l);
  let w := if bool_decide (cl_sndbuf lk = []) && negb (bool_decide (msg = []))
           then true else cl_writable lk in
  let c := set_link c l (mkLink (cl_ctime lk) (cl_fd lk) (cl_sndbuf lk ++ msg)
                           (cl_rcvbuf lk) (cl_node lk) w) in
  mret (set_stats c (stats_bus_messages_sent c + 1) (stats_bus_messages_received c)).

(** The loop of [clusterBroadcastMessage] over the dict. *)
Fixpoint broadcast_loop (c : cluster) (ds : list (bytes * addr_t)) (msg : bytes) : cres cluster :=
  match ds with
  | [] => mret c
  | (_, a) :: ds =>
      node ← of_ptr (node_heap c !! a);
      match cn_link node with
      | None => broadcast_loop c ds msg
      | Some l =>
          if negb (Z.land (cn_flags node) PREZ_NODE_MYSELF =? 0) then broadcast_loop c ds msg
          else c ← clusterSendMessage c l msg; broadcast_loop c ds msg
      end
  end.

Definition clusterBroadcastMessage (c : cluster) (msg : bytes) : cres cluster :=
  broadcast_loop c (nodes c) msg.

(** [clusterBuildMessageHdr] and the payload, as the packet that is sent. *)
Definition build_message (srv : server) (c : cluster) (d : clusterMsgData) : cres bytes :=
  me ← of_ptr (myself c);
  node ← of_ptr (node_heap c !! me);
  mret (enc_msg (cn_name node) (server_port srv) d).

Definition clusterSendResponseVote (srv : server) (c : cluster) (l : addr_t) (granted : Z)
    : cres cluster :=
  msg ← build_message srv c (ResponseVote (mkRVR (current_term (rf c)) granted));
  clusterSendMessage c l msg.

Definition clusterSendResponseAppendEntries (srv : server) (c : cluster) (l : addr_t) (ok : Z)
    : cres cluster :=
  msg ← build_message srv c (ResponseAppendEntries
           (mkAER (current_term (rf c)) (logCurrentIndex (log c)) (commit_index (rf c)) ok));
  clusterSendMessage c l msg.

Definition clusterSendRequestVote (srv : server) (c : cluster) : cres cluster :=
  let last_log_index := logCurrentIndex (log c) in
  let last_log_term := logCurrentTerm (log c) in
  let c := set_rf c (r_current_term (rf c) (wrap_s64 (current_term (rf c) + 1))) in
  me ← of_ptr (myself c);
  node ← of_ptr (node_heap c !! me);
  msg ← build_message srv c (RequestVote
           (mkRV (current_term (rf c)) (cn_name node) last_log_index last_log_term));
  clusterBroadcastMessage c msg.

(** The entries copied into a request: each string is copied up to its NUL over the
    cleared buffer. *)
Definition copy_entry (e : logEntry) : cres logEntry :=
  nlen ← of_ptr (strlen (commandName e));
  clen ← of_ptr (strlen (command e));
  mret (mkEntry (index e) (term e) (memcpy (replicate 40 0) (take nlen (commandName e)))
          (memcpy (replicate 40 0) (take clen (command e)))).

Fixpoint copy_entries (es : list logEntryNode) : cres (list logEntry) :=
  match es with
  | [] => mret []
  | en :: es => e ← copy_entry (log_entry en); es ← copy_entries es; mret (e :: es)
  end.

(** The entries to send: at most 50, from [next_index] on. *)
Definition entries_from (s : logStore) (next : Z) : list logEntryNode :=
  if next <=? logCurrentIndex s then
    match getLogNode s next with
    | Some k => take (Z.to_nat PREZ_LOG_MAX_ENTRIES_PER_REQUEST) (drop k (log_entries s))
    | None => []
    end
  else [].

Definition clusterSendAppendEntries (srv : server) (c : cluster) (l : addr_t) : cres cluster :=
  lk ← of_ptr (link_heap c !! l);
  na ← of_ptr (cl_node lk);
  node ← of_ptr (node_heap c !! na);
  me ← of_ptr (myself c);
  self ← of_ptr (node_heap c !! me);
  let ens := entries_from (log c) (cn_next_index node) in
  es ← copy_entries ens;
  msg ← build_message srv c (AppendEntries
    (mkAE (current_term (rf c)) (cn_name self) (cn_next_index node - 1)
       (logGetTerm (log c) (cn_next_index node - 1)) (commit_index (rf c))
       (Z.of_nat (length es)) es));
  let c := set_node c na (mkNode (cn_name node) (cn_flags node) (cn_ctime node)
    (cn_last_activity_time node) (addr <$> last ens) (cn_next_index node) (cn_match_index node)
    (cn_ip node) (cn_port node) (cn_link node)) in
  clusterSendMessage c l msg.

Definition clusterSendHeartbeat := clusterSendAppendEntries.

(** ** Elections *)

(** Step down to a newer term, as three of the handlers do. *)
Definition step_down (r : raft) (t : Z) : raft :=
  r_voted_for (r_leader (r_current_term (r_state r PREZ_FOLLOWER) t) []) vs_empty.

(** [sdsnew(vote.candidateid)]: without a NUL in the array the string goes on in the
    fields after it. *)
Definition candidate_string (v : requestVote) : cres bytes :=
  of_ptr (cstr (candidateid v ++ le 8 (last_log_index v) ++ le 8 (last_log_term v))).

(** The decision on a vote request: the new state and the answer. *)
Definition decide_vote (r : raft) (s : logStore) (now : Z) (v : requestVote) (cand : bytes)
    : raft * Z :=
  if rv_term v <? current_term r then (r, DENY_VOTE) else
  let newer := current_term r <? rv_term v in
  if negb newer && (0 <? vs_sdslen (voted_for r))
     && negb (vs_sdscmp (voted_for r) (vs_sds cand) =? 0) then (r, DENY_VOTE) else
  let r := if newer then step_down r (rv_term v) else r in
  if (last_log_index v <? logCurrentIndex s) || (last_log_term v <? logCurrentTerm s)
  then (r, DENY_VOTE)
  else (r_last_activity_time (r_voted_for r (vs_sds cand)) now, GRANT_VOTE).

(** The answer carries the term after the decision; the activity time is set after
    the answer is sent and is not part of it. *)
Definition clusterProcessRequestVote (srv : server) (ev : env) (c : cluster) (l : addr_t)
    (v : requestVote) : cres cluster :=
  cand ← candidate_string v;
  let '(r, granted) := decide_vote (rf c) (log c) (mstime ev) v cand in
  clusterSendResponseVote srv (set_rf c r) l granted.

Definition clusterProcessResponseVote (c : cluster) (v : responseVote) : cluster :=
  if negb (vote_granted v =? 0) && (rvr_term v =? current_term (rf c)) then
    set_rf c (r_votes_granted (rf c) (votes_granted (rf c) + 1))
  else if current_term (rf c) <? rvr_term v then set_rf c (step_down (rf c) (rvr_term v))
  else c.

(** ** Replication *)

(** [zstrdup(entries.leaderid)] *)
Definition leader_string (e : appendEntries) : cres bytes :=
  of_ptr (cstr (ae_leaderid e ++ le 8 (prev_log_index e) ++ le 8 (prev_log_term e)
                ++ le 8 (leader_commit_index e))).

(** The state after the term of a request was accepted. *)
Definition accept_leader (r : raft) (now t : Z) (ld : bytes) : raft :=
  let r := r_last_activity_time r now in
  if t =? current_term r then
    let r := if state r =? PREZ_CANDIDATE then r_state r PREZ_FOLLOWER else r in
    r_leader r ld
  else r_voted_for (r_leader (r_current_term (r_state r PREZ_FOLLOWER) t) ld) vs_empty.

Definition clusterProcessAppendEntries (srv : server) (ev : env) (c : cluster) (l : addr_t)
    (e : appendEntries) : cres cluster :=
  if ae_term e <? current_term (rf c) then
    clusterSendResponseAppendEntries srv c l PREZ_ERR
  else
    ld ← leader_string e;
    let c := set_rf c (accept_leader (rf c) (mstime ev) (ae_term e) ld) in
    v ← logVerifyAppend (log c) (prev_log_index e) (prev_log_term e);
    if negb (v =? 0) then clusterSendResponseAppendEntries srv c l PREZ_ERR else
    '(s, a) ← logAppendEntries (io ev) (log c) e;
    let c := set_log c s in
    if negb (a =? 0) then clusterSendResponseAppendEntries srv c l PREZ_ERR else
    let c := set_rf c (r_commit_index (rf c)
               (logCommitIndex (log c) (commit_index (rf c)) (leader_commit_index e))) in
    clusterSendResponseAppendEntries srv c l PREZ_OK.

(** The log entry a remembered address points to; the block may have been freed. *)
Definition entry_at (s : logStore) (a : positive) : option logEntryNode :=
  snd <$> list_find (λ en, addr en = a) (log_entries s).

Definition set_indices (n : clusterNode) (next match_ : Z) : clusterNode :=
  mkNode (cn_name n) (cn_flags n) (cn_ctime n) (cn_last_activity_time n) (cn_last_sent_entry n)
    next match_ (cn_ip n) (cn_port n) (cn_link n).

Definition clusterProcessResponseAppendEntries (c : cluster) (l : addr_t)
    (e : responseAppendEntries) : cres cluster :=
  lk ← of_ptr (link_heap c !! l);
  if aer_ok e =? PREZ_OK then
    na ← of_ptr (cl_node lk);
    node ← of_ptr (node_heap c !! na);
    match cn_last_sent_entry node with
    | None => mret c
    | Some a =>
        en ← of_ptr (entry_at (log c) a);
        mret (set_node c na (set_indices node (index (log_entry en) + 1) (index (log_entry en))))
    end
  else if current_term (rf c) <? aer_term e then mret (set_rf c (step_down (rf c) (aer_term e)))
  else
    na ← of_ptr (cl_node lk);
    node ← of_ptr (node_heap c !! na);
    mret (set_node c na (set_indices node (cn_next_index node - 1) (cn_match_index node))).

(** ** Commit *)

Definition quorumSize (c : cluster) : nat := length (nodes c) / 2 + 1.

(** [compareIndices] returns the difference as an [int]. *)
Definition compareIndices (a b : Z) : Z := wrap_s32 (wrap_s64 (a - b)).

(** [qsort] of the C library with that comparison, as an insertion sort: for a
    comparison that is a total order the result of any sort is the same. *)
Fixpoint qinsert (x : Z) (l : list Z) : list Z :=
  match l with
  | [] => [x]
  | y :: l' => if compareIndices x y <=? 0 then x :: l else y :: qinsert x l'
  end.

Definition qsort (l : list Z) : list Z := foldr qinsert [] l.

(** [reverseIndices]: exchange the two ends, [size/2] times. *)
Definition reverseIndices (indices : list Z) : list Z :=
  swap_ends (length indices / 2) 0 (length indices - 1) indices.

Fixpoint match_indices (c : cluster) (ds : list (bytes * addr_t)) : cres (list Z) :=
  match ds with
  | [] => mret []
  | (_, a) :: ds =>
      node ← of_ptr (node_heap c !! a);
      l ← match_indices c ds;
      mret (cn_match_index node :: l)
  end.

(** [logSync] is called for its effect on the disk; its result is ignored. *)
Definition clusterUpdateCommitIndex (c : cluster) : cres cluster :=
  log_indices ← match_indices c (nodes c);
  let log_indices := reverseIndices (qsort log_indices) in
  ci ← of_ptr (log_indices !! (quorumSize c - 1)%nat);
  if (commit_index (rf c) <? ci) && (current_term (rf c) =? logGetTerm (log c) ci)
  then mret (set_rf c (r_commit_index (rf c) ci))
  else mret c.

(** ** Commands *)

(** [sdscatprintf(s, fmt, n)] with a format that comes from the client and one
    argument of type [size_t]: ["%%"] and one conversion of that type are the only
    ones with a defined result. *)
Fixpoint printf1 (fmt : bytes) (arg : option Z) : cres bytes :=
  match fmt with
  | [] => mret []
  | c :: fmt =>
      if c =? 37 then
        match fmt with
        | d :: fmt' =>
            if d =? 37 then r ← printf1 fmt' arg; mret (37 :: r)
            else match fmt' with
                 | u :: fmt'' =>
                     if ((d =? 108) || (d =? 122)) && (u =? 117) then
                       n ← of_ptr arg; r ← printf1 fmt'' None; mret (dec n ++ r)
                     else Undef
                 | [] => Undef
                 end
        | [] => Undef
        end
      else r ← printf1 fmt arg; mret (c :: r)
  end.

Section Command.
Context (junk : nat -> bytes).

(** The loop that builds the text of the command, on the sds string itself. *)
Fixpoint cmdrepr_loop (s : Sds.sdshdr) (argv : list bytes) : cres Sds.sdshdr :=
  match argv with
  | [] => mret s
  | a :: argv =>
      fmt ← of_ptr (cstr (a ++ [0]));
      t ← printf1 fmt (Some (Z.of_nat (length a)));
      s ← Sds.sdscat junk s (t ++ [0]);
      let s := match argv with [] => s | _ => Sds.sdscatlen junk s [32] end in
      cmdrepr_loop s argv
  end.

(** The result of the last [sdscatlen] is dropped: the string is usable only when
    it was extended in place. *)
Definition command_bytes (argv : list bytes) : cres bytes :=
  s ← Sds.sdsnew [0];
  s ← cmdrepr_loop s argv;
  _ ← require (1 <=? Sds.sdsavail s);
  let s := Sds.sdscatlen junk s [10] in
  mret (Sds.str s).

(** The entry: [memcpy] into the 40-byte arrays of a cleared structure. *)
Definition command_entry (c : cluster) (cmdname : bytes) (argv : list bytes) : cres logEntry :=
  _ ← require (Z.of_nat (length cmdname) + 1 <=? 40);
  t ← command_bytes argv;
  _ ← require (Z.of_nat (length t) <=? 40);
  mret (mkEntry (logCurrentIndex (log c) + 1) (current_term (rf c))
          (memcpy (replicate 40 0) (cmdname ++ [0])) (memcpy (replicate 40 0) t)).

Definition dictAdd_client (d : gmap bytes addr_t) (k : bytes) (v : addr_t) : gmap bytes addr_t :=
  match d !! k with Some _ => d | None => <[k := v]> d end.

Definition clusterProcessCommand (ev : env) (c : cluster) (client : addr_t) (cmdname : bytes)
    (argv : list bytes) : cres cluster :=
  entry ← command_entry c cmdname argv;
  '(s, _) ← logWriteEntry (io ev) (log c) entry;
  let c := set_log c s in
  if (length (nodes c) =? 1)%nat then
    mret (set_rf c (r_commit_index (rf c)
            (logCommitIndex (log c) (commit_index (rf c)) (logCurrentIndex (log c)))))
  else
    mret (set_proc_clients c (dictAdd_client (proc_clients c) (ll_repr (index entry)) client)).
End Command.

(** ** Applying committed entries *)

(** What the log asks of the command layer: the command table, and running a command
    on the data set, either for a waiting client ([call]) or from the words of a
    replicated entry ([cmd->proc(NULL, argv, argc)]). *)
Class Commands (D : Type) := {
  command_t : Type;
  lookupCommand : bytes -> cres (option command_t);
  arity : command_t -> Z;
  proc : command_t -> list bytes -> D -> cres D;
  call : addr_t -> D -> cres D;
}.

Section Apply.
Context {D : Type} `{!Commands D}.

(** The words of a replicated command, run on the data set.  An empty word leaves
    its slot of the argument array uninitialised. *)
Definition apply_words (argv : list bytes) (d : D) : cres D :=
  name ← of_ptr (argv !! 0%nat);
  _ ← require (negb (bool_decide (name = [])));
  found ← lookupCommand name;
  match found with
  | None => mret d
  | Some cmd =>
      let argc := Z.of_nat (length argv) in
      if ((0 <? arity cmd) && negb (arity cmd =? argc)) || (argc <? - arity cmd) then mret d else
      _ ← require (forallb (λ a, negb (bool_decide (a = []))) argv);
      proc cmd argv d
  end.

Definition logApply (c : cluster) (d : D) (idx : Z) : cres (cluster * D) :=
  match getLogEntry (log c) idx with
  | None => mret (c, d)
  | Some entry =>
      match (if state (rf c) =? PREZ_LEADER then proc_clients c !! ll_repr idx else None) with
      | Some client =>
          d ← call client d;
          mret (set_proc_clients c (delete (ll_repr idx) (proc_clients c)), d)
      | None =>
          line ← of_ptr (cstr (command (log_entry entry)));
          match sdssplitargs line with
          | None => mret (c, d)
          | Some argv => d ← apply_words argv d; mret (c, d)
          end
      end
  end.

(** [while (commit_index > last_applied)]: [n] rounds remain. *)
Fixpoint apply_loop (n : nat) (c : cluster) (d : D) : cres (cluster * D) :=
  match n with
  | O => mret (c, d)
  | S n =>
      let c := set_rf c (r_last_applied (rf c) (last_applied (rf c) + 1)) in
      '(c, d) ← logApply c d (last_applied (rf c));
      apply_loop n c d
  end.

Definition apply_committed (c : cluster) (d : D) : cres (cluster * D) :=
  apply_loop (Z.to_nat (commit_index (rf c) - last_applied (rf c))) c d.

(** ** clusterCron *)

(** The environment of one run: the clock at the start, at the start of an election,
    at each connection and around each heartbeat; [random()]; the descriptor
    [anetTcpNonBlockBindConnect] returns, -1 on failure. *)
Record cron_env := mkCron {
  cr_env : env;
  cr_now_election : Z;
  cr_now_connect : addr_t -> Z;
  cr_now_check : addr_t -> Z;
  cr_now_beat : addr_t -> Z;
  cr_random : Z;
  cr_connect : bytes -> Z -> Z;
}.

Definition skip_flags (n : clusterNode) : bool :=
  negb (Z.land (cn_flags n) (Z.lor PREZ_NODE_MYSELF PREZ_NODE_NOADDR) =? 0).

(** [createClusterLink] *)
Definition createClusterLink (now : Z) (node : option addr_t) : clusterLink :=
  mkLink now (-1) [] [] node false.

Definition link_fd (l : clusterLink) (fd : Z) : clusterLink :=
  mkLink (cl_ctime l) fd (cl_sndbuf l) (cl_rcvbuf l) (cl_node l) (cl_writable l).

(** Reconnect the nodes without a link. *)
Fixpoint connect_loop (ce : cron_env) (c : cluster) (ds : list (bytes * addr_t)) : cres cluster :=
  match ds with
  | [] => mret c
  | (_, a) :: ds =>
      node ← of_ptr (node_heap c !! a);
      if skip_flags node then connect_loop ce c ds else
      match cn_link node with
      | Some _ => connect_loop ce c ds
      | None =>
          let fd := cr_connect ce (cn_ip node) (cn_port node + PREZ_CLUSTER_PORT_INCR) in
          if fd =? -1 then connect_loop ce c ds else
          let l := next_block c in
          let c := set_link (bump c) l (link_fd (createClusterLink (cr_now_connect ce a) (Some a)) fd) in
          let c := set_node c a (mkNode (cn_name node) (cn_flags node) (cn_ctime node)
            (cr_now_connect ce a) (cn_last_sent_entry node) (cn_next_index node)
            (cn_match_index node) (cn_ip node) (cn_port node) (Some l)) in
          connect_loop ce c ds
      end
  end.

(** The election timeout plus a random delay below it. *)
Definition timed_out (ce : cron_env) (c : cluster) : bool :=
  let timeout := election_timeout c + Z.rem (cr_random ce) (election_timeout c) in
  negb (state (rf c) =? PREZ_LEADER)
  && (timeout <? mstime (cr_env ce) - last_activity_time (rf c)).

(** Become a candidate: [voted_for] is a [zstrdup] block. *)
Definition candidacy (srv : server) (ce : cron_env) (r : raft) : raft :=
  r_votes_granted
    (r_voted_for
       (r_leader (r_state (r_last_activity_time r (cr_now_election ce)) PREZ_CANDIDATE) [])
       (vs_zstrdup (zjunk (cr_env ce)) (server_name srv))) 1.

Definition start_election (srv : server) (ce : cron_env) (c : cluster) : cres cluster :=
  clusterSendRequestVote srv (set_rf c (candidacy srv ce (rf c))).

(** Reset the indices of the other nodes. *)
Fixpoint leader_init_loop (c : cluster) (next : Z) (ds : list (bytes * addr_t)) : cres cluster :=
  match ds with
  | [] => mret c
  | (_, a) :: ds =>
      node ← of_ptr (node_heap c !! a);
      if skip_flags node then leader_init_loop c next ds
      else leader_init_loop (set_node c a (set_indices node next 0)) next ds
  end.

Definition become_leader (srv : server) (c : cluster) : cres cluster :=
  let c := set_rf c (r_leader (r_state (rf c) PREZ_LEADER) (server_name srv)) in
  leader_init_loop c (logCurrentIndex (log c) + 1) (nodes c).

(** A candidate with a quorum of votes; the comparison is with an [unsigned long]. *)
Definition count_votes (srv : server) (c : cluster) : cres cluster :=
  if (state (rf c) =? PREZ_CANDIDATE)
     && (Z.of_nat (quorumSize c) <=? wrap_u64 (votes_granted (rf c)))
  then become_leader srv c else mret c.

Fixpoint heartbeat_loop (srv : server) (ce : cron_env) (c : cluster) (ds : list (bytes * addr_t))
    : cres cluster :=
  match ds with
  | [] => mret c
  | (_, a) :: ds =>
      node ← of_ptr (node_heap c !! a);
      if skip_flags node then heartbeat_loop srv ce c ds else
      match cn_link node with
      | None => heartbeat_loop srv ce c ds
      | Some l =>
          if heartbeat_interval c <? cr_now_check ce a - cn_last_activity_time node then
            let c := set_node c a (mkNode (cn_name node) (cn_flags node) (cn_ctime node)
              (cr_now_beat ce a) (cn_last_sent_entry node) (cn_next_index node)
              (cn_match_index node) (cn_ip node) (cn_port node) (cn_link node)) in
            c ← clusterSendHeartbeat srv c l;
            heartbeat_loop srv ce c ds
          else heartbeat_loop srv ce c ds
      end
  end.

Definition clusterCron (srv : server) (ce : cron_env) (c : cluster) (d : D) : cres (cluster * D) :=
  c ← connect_loop ce c (nodes c);
  '(c, d) ← apply_committed c d;
  c ← (if timed_out ce c then start_election srv ce c else mret c);
  c ← count_votes srv c;
  if state (rf c) =? PREZ_LEADER then
    c ← clusterUpdateCommitIndex c;
    c ← heartbeat_loop srv ce c (nodes c);
    mret (c, d)
  else mret (c, d).
End Apply.

(** ** Incoming packets *)

(** [clusterProcessPacket]: count, check, dispatch; it always returns 1.  The debug
    line of an append response reads the name of the link's node. *)
Definition clusterProcessPacket (srv : server) (ev : env) (c : cluster) (l : addr_t) : cres cluster :=
  lk ← of_ptr (link_heap c !! l);
  let c := set_stats c (stats_bus_messages_sent c) (stats_bus_messages_received c + 1) in
  m ← parse_packet (cl_rcvbuf lk);
  match m with
  | None => mret c
  | Some (RequestVote v) => clusterProcessRequestVote srv ev c l v
  | Some (AppendEntries e) => clusterProcessAppendEntries srv ev c l e
  | Some (ResponseVote v) => mret (clusterProcessResponseVote c v)
  | Some (ResponseAppendEntries e) =>
      _ ← of_ptr (cl_node lk);
      clusterProcessResponseAppendEntries c l e
  end.
