(* ===== verification/ClusterVote.v ===== *)
(** * Elections on one node

    What the election handlers of Cluster.v do to the term, the role and the vote of a
    node: the facts the cluster wide argument (Election.v) rests on, and the
    behaviour of [voted_for] when it is not an sds string. *)

From Stdlib Require Import ZArith Lia.
From stdpp Require Import base tactics numbers list gmap sorting strings.
From S2P Require Import Prelude Util SdsArgs Adlist Log Wire Cluster.
From S2P Require Sds.

Local Open Scope Z_scope.

(** ** Comparing names *)

Lemma memcmp_0 n : forall a b, (n <= length a)%nat -> (n <= length b)%nat ->
  Sds.memcmp a b n = 0 <-> take n a = take n b.
Proof.
  induction n as [|n IH]; intros a b Ha Hb; [by destruct a, b|].
  destruct a as [|x a], b as [|y b]; cbn in Ha, Hb; try lia. cbn.
  destruct (Z.eqb_spec x y) as [->|Hne].
  - rewrite IH by lia. split; [by intros ->|by intros [= ->]].
  - split; [lia|by intros [= ? _]].
Qed.

Lemma vs_len_sds s : Z.of_nat (length s) < 2 ^ 31 -> vs_sdslen (vs_sds s) = Z.of_nat (length s).
Proof. intros. apply wrap_u64_id. cbn. rng. Qed.

(** The [int] difference of two lengths is 0 only when they are equal. *)
Lemma wrap_diff_0 a b : in_s32 a -> 0 <= b < 2 ^ 31 ->
  wrap_s32 (wrap_u64 (wrap_u64 a - b)) = 0 -> a = b.
Proof.
  intros Ha Hb E. assert ((a - b) mod 2 ^ 32 = 0) as Hm.
  { unfold wrap_s, wrap_u in E. change (32 - 1) with 31 in E.
    assert (((a mod 2 ^ 64 - b) mod 2 ^ 64 + 2 ^ 31) mod 2 ^ 32 = 2 ^ 31) as E' by lia. clear E.
    rewrite <- Zplus_mod_idemp_l, Z.mod_mod_divide in E' by (by exists (2 ^ 32)).
    rewrite Zminus_mod, Z.mod_mod_divide, <- Zminus_mod in E' by (by exists (2 ^ 32)).
    pose proof (Z.mod_pos_bound (a - b) (2 ^ 32) ltac:(lia)).
    set (m := (a - b) mod 2 ^ 32) in *. clearbody m.
    destruct (decide (m < 2 ^ 31)).
    - rewrite Z.mod_small in E' by lia. lia.
    - rewrite <- (Z_mod_plus_full _ (-1)), Z.mod_small in E' by lia. lia. }
  apply Z.mod_divide in Hm as [k Hk]; [|lia]. rng.
Qed.

Lemma vs_sdscmp_sds a b :
  Z.of_nat (length a) < 2 ^ 31 -> Z.of_nat (length b) < 2 ^ 31 ->
  vs_sdscmp (vs_sds a) (vs_sds b) = 0 <-> a = b.
Proof.
  intros Ha Hb. unfold vs_sdscmp. rewrite !vs_len_sds by done. cbn [v_mem vs_sds].
  set (n := Z.to_nat _).
  assert (n <= length a /\ n <= length b)%nat as [Hna Hnb].
  { unfold n. destruct (Z.ltb_spec (Z.of_nat (length a)) (Z.of_nat (length b))); lia. }
  assert (take n (a ++ [0]) = take n a /\ take n (b ++ [0]) = take n b) as [Ea Eb]
    by (by rewrite !take_app_le by done).
  pose proof (memcmp_0 n (a ++ [0]) (b ++ [0])) as Hc. rewrite !length_app, Ea, Eb in Hc.
  specialize (Hc ltac:(lia) ltac:(lia)). split.
  - destruct (Z.eqb_spec (Sds.memcmp (a ++ [0]) (b ++ [0]) n) 0) as [E|E]; [|done].
    intros Hw. rewrite <- (wrap_u64_id (Z.of_nat (length a))) in Hw by rng.
    apply wrap_diff_0 in Hw; [|rng..]. apply Hc in E. unfold n in E.
    rewrite Hw, Z.ltb_irrefl, Nat2Z.id in E. rewrite take_ge in E by lia. by rewrite take_ge in E by lia.
  - intros ->. rewrite (proj2 Hc) by done. by rewrite Z.eqb_refl, Z.sub_diag.
Qed.

(** A [zstrdup] block against a candidate: equal only when the candidate's name is a
    prefix of the block and the stray length happens to be its length. *)
Lemma vs_sdscmp_zstrdup junk name cand :
  in_s32 junk -> Z.of_nat (length cand) < 2 ^ 31 -> nonul cand ->
  vs_sdscmp (vs_zstrdup junk name) (vs_sds cand) = 0 ->
  junk = Z.of_nat (length cand) /\ cand `prefix_of` name.
Proof.
  intros Hj Hc Hn. unfold vs_sdscmp. rewrite vs_len_sds by done.
  unfold vs_sdslen. cbn [v_len v_mem vs_zstrdup vs_sds].
  destruct (Z.eqb_spec (Sds.memcmp (name ++ [0]) (cand ++ [0])
    (Z.to_nat (if wrap_u64 junk <? Z.of_nat (length cand) then wrap_u64 junk
               else Z.of_nat (length cand)))) 0) as [E|E]; [|done].
  intros Hw. apply wrap_diff_0 in Hw; [|rng..]. split; [done|].
  rewrite Hw, wrap_u64_id, Z.ltb_irrefl, Nat2Z.id in E by rng.
  clear Hw Hj Hc. revert cand Hn E. induction name as [|x name IH]; intros cand Hn E.
  - destruct cand as [|y cand]; [done|]. apply Forall_cons in Hn as [Hy _]. cbn in E.
    destruct y; done.
  - destruct cand as [|y cand]; [apply prefix_nil|]. apply Forall_cons in Hn as [_ Hn].
    cbn in E. destruct (Z.eqb_spec x y) as [->|]; [|lia]. apply prefix_cons, IH; done.
Qed.

(** ** Sending touches only the links *)

(** The state of [c'] is that of [c] but for the links and the counters. *)
Record same_state (c c' : cluster) : Prop := {
  ss_rf : rf c' = rf c;
  ss_log : log c' = log c;
  ss_myself : myself c' = myself c;
  ss_nodes : nodes c' = nodes c;
  ss_heap : node_heap c' = node_heap c;
  ss_clients : proc_clients c' = proc_clients c;
}.

#[global] Instance same_state_refl : Reflexive same_state.
Proof. by constructor. Qed.

#[global] Instance same_state_trans : Transitive same_state.
Proof. intros c1 c2 c3 [] []. constructor; congruence. Qed.

(** The bytes waiting on a link. *)
Definition sndbuf (c : cluster) (l : addr_t) : bytes :=
  from_option cl_sndbuf [] (link_heap c !! l).

Lemma clusterSendMessage_spec c l msg :
  is_Some (link_heap c !! l) ->
  exists c', clusterSendMessage c l msg = Ret c' /\ same_state c c'
    /\ sndbuf c' l = sndbuf c l ++ msg
    /\ (forall l', l' <> l -> link_heap c' !! l' = link_heap c !! l')
    /\ (forall l', is_Some (link_heap c !! l') -> is_Some (link_heap c' !! l')).
Proof.
  intros [lk El]. unfold clusterSendMessage. rewrite El. cbn. eexists. split; [done|].
  unfold sndbuf. cbn. rewrite lookup_insert_eq, El. split_and!; [done|done| |].
  - intros l' Hl. by rewrite lookup_insert_ne.
  - intros l' Hl. destruct (decide (l' = l)) as [->|]; [by rewrite lookup_insert_eq|].
    by rewrite lookup_insert_ne.
Qed.

(** The node's own block is there. *)
Definition self_node (c : cluster) (n : clusterNode) : Prop :=
  exists me, myself c = Some me /\ node_heap c !! me = Some n.

Lemma build_message_ret srv c n d :
  self_node c n -> build_message srv c d = Ret (enc_msg (cn_name n) (server_port srv) d).
Proof. intros (me & E & En). unfold build_message. rewrite E. cbn. by rewrite En. Qed.

Lemma same_state_self c c' n : same_state c c' -> self_node c n -> self_node c' n.
Proof. intros [] (me & ? & ?). exists me. split; congruence. Qed.

Lemma clusterSendResponseVote_spec srv c l g n :
  self_node c n -> is_Some (link_heap c !! l) ->
  exists c', clusterSendResponseVote srv c l g = Ret c' /\ same_state c c'
    /\ sndbuf c' l = sndbuf c l ++ enc_msg (cn_name n) (server_port srv)
         (ResponseVote (mkRVR (current_term (rf c)) g)).
Proof.
  intros Hn Hl. unfold clusterSendResponseVote. rewrite (build_message_ret _ _ n) by done.
  cbn [mbind cres_bind].
  destruct (clusterSendMessage_spec c l (enc_msg (cn_name n) (server_port srv)
    (ResponseVote (mkRVR (current_term (rf c)) g))) Hl) as (c' & -> & ? & ? & _).
  by exists c'.
Qed.

(** The broadcast of a candidate. *)
Definition links_ok (c : cluster) : Prop :=
  (forall k a, (k, a) ∈ nodes c -> is_Some (node_heap c !! a))
  /\ forall a n l, node_heap c !! a = Some n -> cn_link n = Some l -> is_Some (link_heap c !! l).

Lemma broadcast_loop_spec msg ds : forall c,
  (forall k a, (k, a) ∈ ds -> is_Some (node_heap c !! a)) ->
  (forall a n l, node_heap c !! a = Some n -> cn_link n = Some l -> is_Some (link_heap c !! l)) ->
  exists c', broadcast_loop c ds msg = Ret c' /\ same_state c c'
    /\ (forall l, is_Some (link_heap c !! l) -> is_Some (link_heap c' !! l)).
Proof.
  induction ds as [|[k a] ds IH]; intros c Hd Hl; cbn.
  { exists c. done. }
  destruct (Hd k a ltac:(by left)) as [n En]. rewrite En. cbn.
  assert (forall k a, (k, a) ∈ ds -> is_Some (node_heap c !! a)) as Hd'
    by (intros ? ? ?; eapply Hd; by right).
  destruct (cn_link n) as [l|] eqn:El; [|by apply IH].
  destruct (negb _); [by apply IH|].
  destruct (clusterSendMessage_spec c l msg (Hl a n l En El)) as (c1 & -> & Hs & _ & _ & Hk).
  cbn. destruct (IH c1) as (c2 & -> & Hs2 & Hk2).
  - intros ? ? ?. rewrite (ss_heap _ _ Hs). by eapply Hd'.
  - intros a' n' l' En' El'. rewrite (ss_heap _ _ Hs) in En'. by eapply Hk, Hl.
  - exists c2. split_and!; [done|by etrans|auto].
Qed.

(** ** The vote of a node *)

(** The vote [voted_for] stands for. *)
Definition vote (v : vstr) : option bytes :=
  if vs_sdslen v =? 0 then None else cstr (v_mem v).

(** A name as it travels: not empty, no NUL, of a sane length. *)
Definition name_ok (s : bytes) : Prop := s <> [] /\ nonul s /\ Z.of_nat (length s) < 2 ^ 31.

(** What [voted_for] can be: empty, the name of a candidate, or the node's own name
    as a [zstrdup] block with a stray length that is not 0. *)
Inductive vote_wf (me : bytes) : vstr -> Prop :=
  | VoteNone : vote_wf me vs_empty
  | VoteFor cand : name_ok cand -> vote_wf me (vs_sds cand)
  | VoteSelf junk : name_ok me -> in_s32 junk -> junk <> 0 -> vote_wf me (vs_zstrdup junk me).

Lemma vote_empty : vote vs_empty = None.
Proof. done. Qed.

Lemma vote_sds cand : name_ok cand -> vote (vs_sds cand) = Some cand.
Proof.
  intros (Hne & Hn & Hl). unfold vote. rewrite vs_len_sds by done.
  destruct (Z.eqb_spec (Z.of_nat (length cand)) 0); [destruct cand; done|].
  cbn. by apply cstr_app_nul.
Qed.

Lemma junk_nonzero junk : in_s32 junk -> junk <> 0 -> wrap_u64 junk <> 0.
Proof.
  intros Hj Hz. destruct (decide (0 <= junk)).
  - rewrite wrap_u64_id by rng. done.
  - rewrite wrap_u64_neg by rng. rng.
Qed.

Lemma vote_zstrdup junk me : name_ok me -> in_s32 junk -> junk <> 0 ->
  vote (vs_zstrdup junk me) = Some me.
Proof.
  intros (_ & Hn & _) Hj Hz. unfold vote.
  rewrite (proj2 (Z.eqb_neq _ _)) by (by apply junk_nonzero). cbn. by apply cstr_app_nul.
Qed.

(** The test of the handler: a vote for someone else is recognised, provided no
    candidate's name is a proper prefix of the node's own. *)
Lemma vote_test me v cand :
  vote_wf me v -> name_ok cand -> (cand `prefix_of` me -> cand = me) ->
  (0 <? vs_sdslen v) && negb (vs_sdscmp v (vs_sds cand) =? 0) = false ->
  vote v = None \/ vote v = Some cand.
Proof.
  intros Hv Hc Hp. destruct Hv as [|c0 H0|junk Hme Hj Hz].
  - by left.
  - right. rewrite vote_sds by done. destruct H0 as (Hne & Hn & Hl), Hc as (_ & _ & Hlc).
    rewrite vs_len_sds in * by done.
    assert (0 < Z.of_nat (length c0)) as Hpos by (destruct c0; cbn; [done|lia]).
    rewrite (proj2 (Z.ltb_lt _ _) Hpos) in H. cbn in H. apply negb_false_iff, Z.eqb_eq in H.
    f_equal. by apply vs_sdscmp_sds.
  - right. rewrite vote_zstrdup by done. destruct Hc as (_ & Hn & Hl).
    pose proof (junk_nonzero junk Hj Hz). pose proof (Z.mod_pos_bound junk (2 ^ 64) ltac:(lia)).
    assert (0 < vs_sdslen (vs_zstrdup junk me)) as Hpos.
    { unfold vs_sdslen. cbn. unfold wrap_u in *. lia. }
    rewrite (proj2 (Z.ltb_lt _ _) Hpos) in H. cbn in H. apply negb_false_iff, Z.eqb_eq in H.
    apply vs_sdscmp_zstrdup in H as [_ H]; [|done..]. by rewrite Hp.
Qed.

(** The outcomes of a vote request. *)
Record vote_outcome (r : raft) (s : logStore) (v : requestVote) (cand : bytes) (r' : raft) (g : Z)
    : Prop := {
  vo_term : current_term r' = Z.max (current_term r) (rv_term v);
  vo_answer : g = GRANT_VOTE \/ g = DENY_VOTE;
  vo_grant : g = GRANT_VOTE ->
    rv_term v = current_term r' /\ voted_for r' = vs_sds cand
    /\ (current_term r = rv_term v -> vote (voted_for r) = None \/ vote (voted_for r) = Some cand)
    /\ logCurrentIndex s <= last_log_index v /\ logCurrentTerm s <= last_log_term v;
  vo_deny : g = DENY_VOTE -> current_term r' = current_term r -> r' = r;
  vo_newer : current_term r < rv_term v -> state r' = PREZ_FOLLOWER;
  vo_newer_deny : g = DENY_VOTE -> current_term r < rv_term v -> voted_for r' = vs_empty;
  vo_same : current_term r' = current_term r -> state r' = state r;
  vo_votes : votes_granted r' = votes_granted r;
  vo_commit : commit_index r' = commit_index r /\ last_applied r' = last_applied r;
}.

Lemma decide_vote_outcome me r s now v cand r' g :
  vote_wf me (voted_for r) -> name_ok cand -> (cand `prefix_of` me -> cand = me) ->
  decide_vote r s now v cand = (r', g) -> vote_outcome r s v cand r' g.
Proof.
  intros Hv Hc Hp. unfold decide_vote.
  destruct (Z.ltb_spec (rv_term v) (current_term r)) as [Hlt|Hge].
  { intros [= <- <-]. constructor; try done; try lia; auto. }
  destruct (Z.ltb_spec (current_term r) (rv_term v)) as [Hnew|Hold]; cbn [negb andb].
  - destruct (_ || _) eqn:Eu; intros [= <- <-]; constructor; cbn; try done; try lia; auto.
    intros _. rewrite orb_false_iff, !Z.ltb_ge in Eu. split_and!; lia || done.
  - destruct (_ && _) eqn:Et.
    { intros [= <- <-]. constructor; cbn; try done; try lia; auto. }
    pose proof (vote_test me _ _ Hv Hc Hp Et) as Hvt.
    destruct (_ || _) eqn:Eu; intros [= <- <-]; constructor; cbn; try done; try lia; auto.
    intros _. rewrite orb_false_iff, !Z.ltb_ge in Eu. split_and!; lia || done.
Qed.

Lemma decide_vote_wf me r s now v cand r' g :
  vote_wf me (voted_for r) -> name_ok cand ->
  decide_vote r s now v cand = (r', g) -> vote_wf me (voted_for r').
Proof.
  intros Hv Hc. unfold decide_vote.
  repeat case_match; intros [= <- <-]; cbn; try done; try (by constructor).
Qed.

(** ** The other handlers *)

(** The election fields of a node. *)
Definition core (r : raft) : Z * vstr * Z * Z :=
  (state r, voted_for r, votes_granted r, current_term r).

(** Following a term: within a term the vote and the count stay and the role can only
    drop to follower; a newer term clears the vote. *)
Record follows (r r' : raft) : Prop := {
  fo_term : current_term r <= current_term r';
  fo_votes : votes_granted r' = votes_granted r;
  fo_same : current_term r' = current_term r ->
    voted_for r' = voted_for r /\ (state r' = state r \/ state r' = PREZ_FOLLOWER);
  fo_newer : current_term r < current_term r' ->
    voted_for r' = vs_empty /\ state r' = PREZ_FOLLOWER;
}.

Lemma follows_core r r' : core r' = core r -> follows r r'.
Proof. intros [= ? ? ? ?]. constructor; [lia|done| |lia]. auto. Qed.

Lemma follows_step_down r t : current_term r < t -> follows r (step_down r t).
Proof. intros. constructor; cbn; [lia|done|lia|done]. Qed.

Lemma follows_accept r now t ld :
  current_term r <= t ->
  follows r (accept_leader r now t ld) /\ current_term (accept_leader r now t ld) = t
  /\ (state (accept_leader r now t ld) = PREZ_FOLLOWER \/ state r = PREZ_LEADER
      \/ state (accept_leader r now t ld) = state r)
  /\ leader (accept_leader r now t ld) = ld.
Proof.
  intros Ht. unfold accept_leader. cbn [current_term r_last_activity_time state].
  destruct (Z.eqb_spec t (current_term r)) as [->|Hne].
  - destruct (Z.eqb_spec (state r) PREZ_CANDIDATE) as [E|E]; cbn.
    + split_and!; [|done|by left|done]. constructor; cbn; [lia|done| |lia]. auto.
    + split_and!; [|done|by right; right|done]. constructor; cbn; [lia|done| |lia]. auto.
  - cbn. split_and!; [|done|by left|done]. constructor; cbn; [lia|done|lia|done].
Qed.

Lemma send_same srv c l ok c' :
  clusterSendResponseAppendEntries srv c l ok = Ret c' -> same_state c c'.
Proof.
  unfold clusterSendResponseAppendEntries, build_message, clusterSendMessage. intros H. cinv.
  subst. by constructor.
Qed.

Lemma send_vote_same srv c l g c' :
  clusterSendResponseVote srv c l g = Ret c' -> same_state c c'.
Proof.
  unfold clusterSendResponseVote, build_message, clusterSendMessage. intros H. cinv.
  subst. by constructor.
Qed.

(** Invert the answer of a handler. *)
Ltac send_inv :=
  let E1 := fresh in let E2 := fresh in let E3 := fresh in let E4 := fresh in let E5 := fresh in
  match goal with
  | H : clusterSendResponseAppendEntries _ _ _ _ = Ret _ |- _ => apply send_same in H as [E1 E2 E3 E4 E5 _]
  | H : clusterSendResponseVote _ _ _ _ = Ret _ |- _ => apply send_vote_same in H as [E1 E2 E3 E4 E5 _]
  end; rewrite ?E1, ?E2, ?E3, ?E4, ?E5.

Lemma clusterProcessAppendEntries_follows srv ev c l e c' :
  clusterProcessAppendEntries srv ev c l e = Ret c' ->
  follows (rf c) (rf c') /\ nodes c' = nodes c /\ myself c' = myself c
  /\ node_heap c' = node_heap c.
Proof.
  unfold clusterProcessAppendEntries.
  destruct (Z.ltb_spec (ae_term e) (current_term (rf c))) as [|Ht].
  { intros Hr. send_inv. split_and!; [|done..]. by apply follows_core. }
  intros H. cinv. destruct (follows_accept (rf c) (mstime ev) (ae_term e) x Ht) as (Hf & _).
  destruct (negb _); [by send_inv|].
  cinv. case_match. destruct (negb _); send_inv; split_and!; try done.
  destruct Hf. by constructor.
Qed.

Lemma clusterProcessResponseAppendEntries_follows c l e c' :
  clusterProcessResponseAppendEntries c l e = Ret c' ->
  follows (rf c) (rf c') /\ nodes c' = nodes c /\ myself c' = myself c /\ log c' = log c.
Proof.
  unfold clusterProcessResponseAppendEntries. intros H. cinv. destruct (_ =? _).
  - cinv. destruct (cn_last_sent_entry _); cinv; subst; split_and!; try done; by apply follows_core.
  - destruct (Z.ltb_spec (current_term (rf c)) (aer_term e)); cinv; subst; split_and!; try done.
    + by apply follows_step_down.
    + by apply follows_core.
Qed.

Lemma clusterProcessCommand_core junk ev c cl nm argv c' :
  clusterProcessCommand junk ev c cl nm argv = Ret c' ->
  core (rf c') = core (rf c) /\ nodes c' = nodes c /\ myself c' = myself c.
Proof.
  unfold clusterProcessCommand. intros H. cinv. destruct x0 as [s z].
  destruct (_ =? _)%nat; cinv; by subst.
Qed.

(** ** clusterCron *)

(** The parts of the state the loops of the cron leave alone. *)
Record same_raft (c c' : cluster) : Prop := {
  sr_rf : rf c' = rf c;
  sr_log : log c' = log c;
  sr_nodes : nodes c' = nodes c;
  sr_myself : myself c' = myself c;
}.

#[global] Instance same_raft_refl : Reflexive same_raft.
Proof. by constructor. Qed.

#[global] Instance same_raft_trans : Transitive same_raft.
Proof. intros c1 c2 c3 [] []. constructor; congruence. Qed.

Lemma same_state_raft c c' : same_state c c' -> same_raft c c'.
Proof. intros []. by constructor. Qed.

Lemma send_message_same c l msg c' : clusterSendMessage c l msg = Ret c' -> same_state c c'.
Proof. unfold clusterSendMessage. intros H. cinv. subst. by constructor. Qed.

Lemma broadcast_same msg ds : forall c c', broadcast_loop c ds msg = Ret c' -> same_state c c'.
Proof.
  induction ds as [|[k a] ds IH]; intros c c' H; cbn in H; cinv; [by subst|].
  destruct (cn_link _); [|by apply IH]. destruct (negb _); [by apply IH|]. cinv.
  etrans; [by eapply send_message_same|by apply IH].
Qed.

Lemma connect_same ce ds : forall c c', connect_loop ce c ds = Ret c' -> same_raft c c'.
Proof.
  induction ds as [|[k a] ds IH]; intros c c' H; cbn in H; cinv; [by subst|].
  destruct (skip_flags _); [by apply IH|]. destruct (cn_link _); [by apply IH|].
  destruct (_ =? _); [by apply IH|]. apply IH in H0. etrans; [|exact H0]. by constructor.
Qed.

Lemma leader_init_same next ds : forall c c', leader_init_loop c next ds = Ret c' -> same_raft c c'.
Proof.
  induction ds as [|[k a] ds IH]; intros c c' H; cbn in H; cinv; [by subst|].
  destruct (skip_flags _); [by apply IH|]. apply IH in H0. etrans; [|exact H0]. by constructor.
Qed.

Lemma append_entries_same srv c l c' : clusterSendAppendEntries srv c l = Ret c' -> same_raft c c'.
Proof.
  unfold clusterSendAppendEntries. intros H. cinv.
  match goal with H : clusterSendMessage _ _ _ = _ |- _ => apply send_message_same in H end.
  etrans; [|by apply same_state_raft]. by constructor.
Qed.

Lemma heartbeat_same srv ce ds : forall c c', heartbeat_loop srv ce c ds = Ret c' -> same_raft c c'.
Proof.
  induction ds as [|[k a] ds IH]; intros c c' H; cbn in H; cinv; [by subst|].
  destruct (skip_flags _); [by apply IH|]. destruct (cn_link _); [|by apply IH].
  destruct (_ <? _); [|by apply IH]. cinv.
  match goal with H : clusterSendHeartbeat _ _ _ = _ |- _ => apply append_entries_same in H as [] end.
  match goal with H : heartbeat_loop _ _ _ _ = _ |- _ => apply IH in H as [] end.
  constructor; cbn in *; congruence.
Qed.

Lemma update_commit_core c c' : clusterUpdateCommitIndex c = Ret c' ->
  core (rf c') = core (rf c) /\ log c' = log c /\ nodes c' = nodes c /\ myself c' = myself c.
Proof.
  unfold clusterUpdateCommitIndex. intros H. cinv. destruct (_ && _); cinv; by subst.
Qed.

Section Cron.
Context {D : Type} `{!Commands D}.

Lemma logApply_same c (d : D) i c' d' : logApply c d i = Ret (c', d') -> same_raft c c'.
Proof.
  unfold logApply. destruct (getLogEntry _ _); [|intros H; cinv; by subst].
  match goal with |- context [match ?o with _ => _ end] => destruct o end;
    intros H; cinv; [simplify_eq; by constructor|].
  destruct (sdssplitargs _); cinv; by simplify_eq.
Qed.

Lemma apply_loop_same n : forall c (d : D) c' d', apply_loop n c d = Ret (c', d') ->
  core (rf c') = core (rf c) /\ commit_index (rf c') = commit_index (rf c)
  /\ last_applied (rf c') = last_applied (rf c) + Z.of_nat n
  /\ log c' = log c /\ nodes c' = nodes c /\ myself c' = myself c.
Proof.
  induction n as [|n IH]; intros c d c' d' H; cbn [apply_loop] in H; cinv.
  - simplify_eq. split_and!; try done. lia.
  - case_match. match goal with H : logApply _ _ _ = _ |- _ => apply logApply_same in H as [E1 E2 E3 E4] end.
    match goal with H : apply_loop _ _ _ = _ |- _ => apply IH in H as (-> & -> & -> & -> & -> & ->) end.
    rewrite E1, E2, E3, E4. cbn. split_and!; try done. lia.
Qed.

(** What one run of the cron does to the election fields. *)
Inductive cron_outcome (srv : server) (junk : Z) (quorum : nat) (r r' : raft) : Prop :=
  | CronQuiet : core r' = core r -> cron_outcome srv junk quorum r r'
  | CronWin : state r = PREZ_CANDIDATE -> state r' = PREZ_LEADER ->
      Z.of_nat quorum <= wrap_u64 (votes_granted r) ->
      voted_for r' = voted_for r -> votes_granted r' = votes_granted r ->
      current_term r' = current_term r -> cron_outcome srv junk quorum r r'
  | CronElection : state r <> PREZ_LEADER ->
      current_term r' = wrap_s64 (current_term r + 1) ->
      voted_for r' = vs_zstrdup junk (server_name srv) -> votes_granted r' = 1 ->
      (state r' = PREZ_CANDIDATE \/ state r' = PREZ_LEADER /\ (quorum <= 1)%nat) ->
      cron_outcome srv junk quorum r r'.

Lemma start_election_core srv ce c c' : start_election srv ce c = Ret c' ->
  core (rf c') = (PREZ_CANDIDATE, vs_zstrdup (zjunk (cr_env ce)) (server_name srv), 1,
                  wrap_s64 (current_term (rf c) + 1))
  /\ log c' = log c /\ nodes c' = nodes c /\ myself c' = myself c.
Proof.
  unfold start_election, clusterSendRequestVote. intros H. cinv.
  match goal with H : clusterBroadcastMessage _ _ = _ |- _ => apply broadcast_same in H as [E1 E2 E3 E4 _ _] end.
  by rewrite E1, E2, E3, E4.
Qed.

Lemma count_votes_core srv c c' : count_votes srv c = Ret c' ->
  log c' = log c /\ nodes c' = nodes c /\ myself c' = myself c /\
  (core (rf c') = core (rf c)
   \/ state (rf c) = PREZ_CANDIDATE /\ Z.of_nat (quorumSize c) <= wrap_u64 (votes_granted (rf c))
      /\ core (rf c') = (PREZ_LEADER, voted_for (rf c), votes_granted (rf c), current_term (rf c))).
Proof.
  unfold count_votes. destruct (_ && _) eqn:E.
  - apply andb_true_iff in E as [E1%Z.eqb_eq E2%Z.leb_le].
    unfold become_leader. intros [E3 E4 E5 E6]%leader_init_same. rewrite E3, E4, E5, E6.
    split_and!; try done. right. done.
  - intros H. cinv. subst. split_and!; try done. by left.
Qed.

(** The last part of the cron, for a leader. *)
Lemma cron_leader_core srv ce c (d : D) c' d' :
  (if state (rf c) =? PREZ_LEADER then
     c ← clusterUpdateCommitIndex c; c ← heartbeat_loop srv ce c (nodes c); mret (c, d)
   else mret (c, d)) = Ret (c', d') ->
  core (rf c') = core (rf c) /\ log c' = log c /\ nodes c' = nodes c /\ myself c' = myself c.
Proof.
  destruct (_ =? _); intros H; cinv; simplify_eq; [|done].
  match goal with H : clusterUpdateCommitIndex _ = _ |- _ =>
    apply update_commit_core in H as (<- & <- & <- & <-) end.
  match goal with H : heartbeat_loop _ _ _ _ = _ |- _ => by apply heartbeat_same in H as [-> -> -> ->] end.
Qed.

Lemma cron_election_core srv ce c c' :
  (if timed_out ce c then start_election srv ce c else mret c) = Ret c' ->
  log c' = log c /\ nodes c' = nodes c /\ myself c' = myself c /\
  (core (rf c') = core (rf c) \/ state (rf c) <> PREZ_LEADER /\
   core (rf c') = (PREZ_CANDIDATE, vs_zstrdup (zjunk (cr_env ce)) (server_name srv), 1,
                   wrap_s64 (current_term (rf c) + 1))).
Proof.
  destruct (timed_out ce c) eqn:E.
  - intros (-> & -> & -> & ->)%start_election_core. split_and!; try done. right. split; [|done].
    unfold timed_out in E. apply andb_true_iff in E as [E _].
    by apply negb_true_iff, Z.eqb_neq in E.
  - intros H. cinv. subst. split_and!; try done. by left.
Qed.

Lemma clusterCron_outcome srv ce c (d : D) c' d' :
  clusterCron srv ce c d = Ret (c', d') ->
  cron_outcome srv (zjunk (cr_env ce)) (quorumSize c) (rf c) (rf c')
  /\ log c' = log c /\ nodes c' = nodes c /\ myself c' = myself c.
Proof.
  unfold clusterCron. intros H. cinv.
  match goal with p : (cluster * D)%type |- _ => destruct p as [c2 d2] end. cinv.
  match goal with H : connect_loop _ _ _ = _ |- _ => apply connect_same in H as [R1 L1 N1 M1] end.
  match goal with H : apply_committed _ _ = _ |- _ =>
    apply apply_loop_same in H as (R2 & _ & _ & L2 & N2 & M2) end.
  match goal with H : (if timed_out _ _ then _ else _) = _ |- _ =>
    apply cron_election_core in H as (L3 & N3 & M3 & E3) end.
  match goal with H : count_votes _ _ = _ |- _ =>
    apply count_votes_core in H as (L4 & N4 & M4 & E4) end.
  match goal with H : (if _ =? PREZ_LEADER then _ else _) = _ |- _ =>
    apply cron_leader_core in H as (R5 & L5 & N5 & M5) end.
  unfold quorumSize in *. split; [|split_and!; congruence].
  rewrite N3, N2, N1 in E4. rewrite R1 in R2. unfold core in *.
  destruct E3 as [E3|[Hl E3]], E4 as [E4|(Hs & Hq & E4)]; simplify_eq.
  - apply CronQuiet. unfold core. congruence.
  - apply CronWin; congruence.
  - apply CronElection; try congruence. left. congruence.
  - apply CronElection; try congruence. right. split; [congruence|].
    replace (votes_granted _) with 1 in Hq by congruence. rewrite wrap_u64_id in Hq by rng. lia.
Qed.
End Cron.

(** ** The vote handler as a whole *)

Lemma self_node_unique c n n' : self_node c n -> self_node c n' -> n = n'.
Proof. intros (me & E & En) (me' & E' & En'). congruence. Qed.

Lemma clusterProcessRequestVote_inv srv ev c l v cand c' :
  clusterProcessRequestVote srv ev c l v = Ret c' -> candidate_string v = Ret cand ->
  exists r g n, decide_vote (rf c) (log c) (mstime ev) v cand = (r, g) /\ rf c' = r
    /\ log c' = log c /\ nodes c' = nodes c /\ myself c' = myself c /\ node_heap c' = node_heap c
    /\ self_node c n
    /\ sndbuf c' l = sndbuf c l ++ enc_msg (cn_name n) (server_port srv)
         (ResponseVote (mkRVR (current_term r) g)).
Proof.
  unfold clusterProcessRequestVote. intros H Hc. rewrite Hc in H. cbn [mbind cres_bind] in H.
  destruct (decide_vote _ _ _ _ _) as [r g] eqn:Ed.
  assert (exists n, self_node c n /\ is_Some (link_heap c !! l)) as (n & Hn & Hl).
  { unfold clusterSendResponseVote, build_message, clusterSendMessage in H. cinv.
    eexists. split; [eexists; split; eassumption|eexists; eassumption]. }
  destruct (clusterSendResponseVote_spec srv (set_rf c r) l g n) as (c1 & E & [] & Hs); [done..|].
  rewrite H in E. injection E as ->. exists r, g, n. by split_and!.
Qed.

Lemma cstr_app_some a r s : cstr a = Some s -> cstr (a ++ r) = Some s.
Proof.
  intros (q & -> & Hs)%cstr_Some. rewrite <- app_assoc. cbn. by apply cstr_app_nul.
Qed.

Lemma candidate_string_ret v s : cstr (candidateid v) = Some s -> candidate_string v = Ret s.
Proof. intros H. unfold candidate_string. by rewrite (cstr_app_some _ _ s). Qed.

(** The handler returns whenever the candidate's name is terminated and the node and
    the link exist. *)
Lemma clusterProcessRequestVote_ret srv ev c l v cand n :
  candidate_string v = Ret cand -> self_node c n -> is_Some (link_heap c !! l) ->
  exists c', clusterProcessRequestVote srv ev c l v = Ret c'.
Proof.
  intros Hc Hn Hl. unfold clusterProcessRequestVote. rewrite Hc. cbn [mbind cres_bind].
  destruct (decide_vote _ _ _ _ _) as [r g].
  destruct (clusterSendResponseVote_spec srv (set_rf c r) l g n) as (c1 & E & _); [done..|]. by exists c1.
Qed.

(** ** Properties *)

(** A node [a] and a link [1], for the examples. *)
Definition ex_node (nm : bytes) (lk : option addr_t) : clusterNode :=
  mkNode (memcpy (replicate 40 0) nm) 0 0 0 None 0 0 [] 0 lk.

Definition ex_cluster (r : raft) (s : logStore) : cluster :=
  mkCluster r s (Some 1%positive)
    [(memcpy (replicate 40 0) (lit "a"), 1%positive); (memcpy (replicate 40 0) (lit "b"), 2%positive);
     (memcpy (replicate 40 0) (lit "c"), 3%positive)]
    (list_to_map [(1%positive, ex_node (lit "a") None); (2%positive, ex_node (lit "b") (Some 1%positive));
                  (3%positive, ex_node (lit "c") None)])
    (list_to_map [(1%positive, mkLink 0 5 [] [] (Some 2%positive) false)])
    2%positive ∅ 150 10 0 0.

Definition ex_raft : raft := mkRaft PREZ_FOLLOWER [] vs_empty 0 0 2 0 0.
Definition ex_srv : server := mkServer (lit "a") 7001.
Definition ex_env : env := mkEnv 1000 77 good_io.

Definition ex_request_vote (t : Z) (nm : bytes) : requestVote :=
  mkRV t (memcpy (replicate 40 0) nm) 5 2.

Lemma name_ok_b s : negb (bool_decide (s = [])) && forallb (λ b, negb (b =? 0)) s
    && (Z.of_nat (length s) <? 2 ^ 31) = true -> name_ok s.
Proof.
  rewrite !andb_true_iff, negb_true_iff, bool_decide_eq_false, forallb_forall, Z.ltb_lt.
  intros [[? H] ?]. split_and!; try done. apply Forall_forall. intros b Hb ->.
  by specialize (H 0 (proj1 (list_elem_of_In _ _) Hb)).
Qed.



(** [C40] The own vote of a candidate is not an sds string.  [clusterCron] stores
    [zstrdup(server.name)] in [voted_for]; when the four bytes in front of that block
    are 0, [sdslen] reads 0 and the candidate grants its vote to any other candidate of
    the same term with an up-to-date log: it has then voted twice in that term. *)
Theorem candidate_votes_twice srv ce r s v cand :
  zjunk (cr_env ce) = 0 -> name_ok cand -> cand <> server_name srv ->
  let r1 := r_current_term (candidacy srv ce r) (wrap_s64 (current_term r + 1)) in
  rv_term v = current_term r1 ->
  logCurrentIndex s <= last_log_index v -> logCurrentTerm s <= last_log_term v ->
  voted_for r1 = vs_zstrdup 0 (server_name srv) /\ votes_granted r1 = 1
  /\ decide_vote r1 s (mstime (cr_env ce)) v cand
     = (r_last_activity_time (r_voted_for r1 (vs_sds cand)) (mstime (cr_env ce)), GRANT_VOTE).
Proof.
  intros Hj Hc Hne r1 Ht Hi Hlt. split_and!; [unfold r1; cbn; by rewrite Hj|done|].
  unfold decide_vote. rewrite Ht, Z.ltb_irrefl. cbn [negb andb].
  replace (voted_for r1) with (vs_zstrdup 0 (server_name srv)) by (unfold r1; cbn; by rewrite Hj).
  cbn [vs_sdslen v_len vs_zstrdup]. change (0 <? wrap_u64 0) with false. cbn [andb].
  rewrite (proj2 (Z.ltb_ge _ _) Hi), (proj2 (Z.ltb_ge _ _) Hlt). done.
Qed.

Definition ex_cron (junk : Z) : cron_env :=
  mkCron (mkEnv 1000 junk good_io) 1000 (λ _, 1000) (λ _, 1000) (λ _, 1000) 7 (λ _ _, -1).

Lemma candidate_votes_twice_witness :
  let r1 := r_current_term (candidacy ex_srv (ex_cron 0) ex_raft) 3 in
  votes_granted r1 = 1 /\ snd (decide_vote r1 ex_log 1000 (ex_request_vote 3 (lit "b")) (lit "b")) = GRANT_VOTE.
Proof.
  destruct (candidate_votes_twice ex_srv (ex_cron 0) ex_raft ex_log (ex_request_vote 3 (lit "b")) (lit "b"))
    as (_ & H1 & H2).
  - reflexivity.
  - apply name_ok_b. reflexivity.
  - discriminate.
  - reflexivity.
  - by vm_compute.
  - by vm_compute.
  - split; [exact H1|exact (f_equal snd H2)].
Defined.
