(* ===== verification/Election.v ===== *)
(** * Election safety over an interface

    [Voter] states what a node promises about its term, vote, vote count and role when
    it handles election messages; the network is a pair of multisets of messages in
    flight, each delivered at most once, in any order, or lost.  From the promises
    alone: in every reachable state of the cluster, two leaders of the same term are
    the same node.  Cluster.v discharges the interface in ClusterElection.v. *)

From Stdlib Require Import ZArith Lia.
From stdpp Require Import base tactics numbers list gmap gmultiset sets.

Local Open Scope Z_scope.

(** What a node promises.  [vt_ok n s]: the state [s] of the node named [n] is well
    formed; [vt_request s t c s' g]: [s] handles a vote request of candidate [c] for
    term [t], becomes [s'] and answers [g] with the term of [s']; [vt_response s t g s']:
    [s] handles an answer; [vt_elect s s']: [s] starts an election; [vt_other s s']: any
    other handler.  [quorum] is the number of votes that makes a leader. *)
Class Voter (N S : Type) := {
  vt_term : S -> Z;
  vt_vote : S -> option N;
  vt_votes : S -> Z;
  vt_candidate : S -> bool;
  vt_leader : S -> bool;
  vt_ok : N -> S -> Prop;
  vt_request : S -> Z -> N -> S -> bool -> Prop;
  vt_response : S -> Z -> bool -> S -> Prop;
  vt_elect : S -> S -> Prop;
  vt_other : S -> S -> Prop;
}.

Definition running {N S} `{!Voter N S} (s : S) : bool := vt_candidate s || vt_leader s.

Class VoterLaws (N S : Type) `{!EqDecision N, !Countable N} `{!Voter N S} (members : gset N)
    (quorum : Z) := {
  vl_request n s t c s' g : n ∈ members -> c ∈ members -> c <> n ->
    vt_ok n s -> vt_request s t c s' g ->
    vt_ok n s' /\ vt_term s <= vt_term s' /\
    (if g then vt_term s' = t /\ vt_vote s' = Some c
               /\ (t = vt_term s -> vt_vote s = None \/ vt_vote s = Some c)
     else vt_term s' = vt_term s -> vt_vote s' = vt_vote s) /\
    (vt_term s' = vt_term s -> vt_votes s' = vt_votes s /\ vt_candidate s' = vt_candidate s
       /\ vt_leader s' = vt_leader s) /\
    (vt_term s < vt_term s' -> running s' = false);
  vl_response n s t g s' : n ∈ members -> vt_ok n s -> vt_response s t g s' ->
    vt_ok n s' /\ vt_term s <= vt_term s' /\
    (vt_term s' = vt_term s -> vt_vote s' = vt_vote s
       /\ vt_votes s' <= vt_votes s + (if g && (t =? vt_term s) then 1 else 0)
       /\ vt_votes s <= vt_votes s'
       /\ vt_candidate s' = vt_candidate s /\ vt_leader s' = vt_leader s) /\
    (vt_term s < vt_term s' -> running s' = false);
  vl_elect n s s' : n ∈ members -> vt_ok n s -> vt_elect s s' ->
    vt_ok n s' /\ vt_term s' = vt_term s + 1 /\ vt_vote s' = Some n /\ vt_votes s' = 1
    /\ (vt_leader s' = true -> quorum <= 1);
  vl_other n s s' : n ∈ members -> vt_ok n s -> vt_other s s' ->
    vt_ok n s' /\ vt_term s <= vt_term s' /\
    (vt_term s' = vt_term s -> vt_vote s' = vt_vote s /\ vt_votes s' = vt_votes s
       /\ (running s' = true -> running s = true)
       /\ (vt_leader s' = true -> vt_leader s = true \/ quorum <= vt_votes s)) /\
    (vt_term s < vt_term s' -> running s' = false);
}.

Section Election.
Context {N S : Type} `{!EqDecision N, !Countable N} `{!Voter N S}.
Context (members : gset N) (quorum : Z).

(** ** The cluster *)

(** [requests]: (candidate, voter, term); [answers]: (voter, candidate, term, granted).
    [cast] and [counted] record history only: (voter, term, candidate) for a vote that
    was given, (candidate, term, voter) for one that was counted. *)
Record net := mkNet {
  st : N -> S;
  requests : gmultiset (N * N * Z);
  answers : gmultiset (N * N * Z * bool);
  cast : gset (N * Z * N);
  counted : gset (N * Z * N);
}.

Definition upd (f : N -> S) (n : N) (s : S) : N -> S := λ m, if decide (m = n) then s else f m.

(** One request per peer of a set of peers. *)
Definition to_peers (n : N) (t : Z) (peers : gset N) : gmultiset (N * N * Z) :=
  list_to_set_disj ((λ v, (n, v, t)) <$> elements peers).

Inductive net_step (w : net) : net -> Prop :=
  | StepElect n s' peers : n ∈ members -> peers ⊆ members ∖ {[n]} -> vt_elect (st w n) s' ->
      net_step w (mkNet (upd (st w) n s') (requests w ⊎ to_peers n (vt_term s') peers)
        (answers w) (cast w ∪ {[(n, vt_term s', n)]}) (counted w))
  | StepRequest c v t s' g : (c, v, t) ∈ requests w -> vt_request (st w v) t c s' g ->
      net_step w (mkNet (upd (st w) v s') (requests w ∖ {[+ (c, v, t) +]})
        (answers w ⊎ {[+ (v, c, vt_term s', g) +]})
        (if g then cast w ∪ {[(v, t, c)]} else cast w) (counted w))
  | StepAnswer v c t g s' : (v, c, t, g) ∈ answers w -> vt_response (st w c) t g s' ->
      net_step w (mkNet (upd (st w) c s') (requests w) (answers w ∖ {[+ (v, c, t, g) +]})
        (cast w) (if g && (t =? vt_term (st w c)) then counted w ∪ {[(c, t, v)]} else counted w))
  | StepOther n s' : n ∈ members -> vt_other (st w n) s' ->
      net_step w (mkNet (upd (st w) n s') (requests w) (answers w) (cast w) (counted w))
  | StepLoseRequest m : m ∈ requests w ->
      net_step w (mkNet (st w) (requests w ∖ {[+ m +]}) (answers w) (cast w) (counted w))
  | StepLoseAnswer m : m ∈ answers w ->
      net_step w (mkNet (st w) (requests w) (answers w ∖ {[+ m +]}) (cast w) (counted w)).

(** Every node starts well formed, as a follower, with nothing in flight. *)
Definition net_init (w : net) : Prop :=
  (forall n, n ∈ members -> vt_ok n (st w n) /\ running (st w n) = false)
  /\ requests w = ∅ /\ answers w = ∅ /\ cast w = ∅ /\ counted w = ∅.

Inductive reachable : net -> Prop :=
  | ReachInit w : net_init w -> reachable w
  | ReachStep w w' : reachable w -> net_step w w' -> reachable w'.

(** ** Invariant *)

Definition in_set (x : N * Z * N) (X : gset (N * Z * N)) : nat := if decide (x ∈ X) then 1 else 0.

(** The number of traces a vote of [v] for [c] in term [t] has left. *)
Definition traces (w : net) (c v : N) (t : Z) : nat :=
  multiplicity (c, v, t) (requests w) + multiplicity (v, c, t, true) (answers w)
  + in_set (c, t, v) (counted w).

Definition counted_of (w : net) (c : N) (t : Z) : gset N :=
  filter (λ v, (c, t, v) ∈ counted w) members.

Definition voters_of (w : net) (c : N) (t : Z) : gset N :=
  filter (λ v, (v, t, c) ∈ cast w) members.

Record net_inv (w : net) : Prop := {
  ni_ok : forall n, n ∈ members -> vt_ok n (st w n);
  ni_addr : forall c v t, (c, v, t) ∈ requests w -> c ∈ members /\ v ∈ members /\ c <> v;
  ni_cast_term : forall v t c, (v, t, c) ∈ cast w ->
    t <= vt_term (st w v) /\ (t = vt_term (st w v) -> vt_vote (st w v) = Some c);
  ni_cast_once : forall v t c1 c2, (v, t, c1) ∈ cast w -> (v, t, c2) ∈ cast w -> c1 = c2;
  ni_traces : forall c v t, (traces w c v t <= 1)%nat;
  ni_fresh : forall c v t, (0 < traces w c v t)%nat -> t <= vt_term (st w c);
  ni_answers : forall v c t g, (v, c, t, g) ∈ answers w ->
    c ∈ members /\ v ∈ members /\ c <> v /\ (g = true -> (v, t, c) ∈ cast w);
  ni_counted : forall c t v, (c, t, v) ∈ counted w -> v ∈ members /\ c <> v /\ (v, t, c) ∈ cast w;
  ni_running : forall n, n ∈ members -> running (st w n) = true ->
    (n, vt_term (st w n), n) ∈ cast w
    /\ vt_votes (st w n) <= 1 + Z.of_nat (size (counted_of w n (vt_term (st w n))));
  ni_leader : forall n, n ∈ members -> vt_leader (st w n) = true -> quorum <= vt_votes (st w n);
}.

(** ** Preservation, one ingredient of a step at a time *)

Lemma upd_eq f n s : upd f n s n = s.
Proof. unfold upd. by rewrite decide_True. Qed.

Lemma upd_ne f n s m : m <> n -> upd f n s m = f m.
Proof. intros. unfold upd. by rewrite decide_False. Qed.

(** A new state for one node: in the same term the vote stays or is the first one,
    a running node was running, and its count is backed; in a newer term the node does
    not run. *)
Lemma inv_local w n s' :
  net_inv w -> n ∈ members -> vt_ok n s' -> vt_term (st w n) <= vt_term s' ->
  (vt_term s' = vt_term (st w n) ->
     (vt_vote (st w n) = None \/ vt_vote s' = vt_vote (st w n))
     /\ (running s' = true -> running (st w n) = true
         /\ vt_votes s' <= 1 + Z.of_nat (size (counted_of w n (vt_term (st w n)))))
     /\ (vt_leader s' = true -> quorum <= vt_votes s')) ->
  (vt_term (st w n) < vt_term s' -> running s' = false) ->
  net_inv (mkNet (upd (st w) n s') (requests w) (answers w) (cast w) (counted w)).
Proof.
  intros [Hok Had Hct Hco Htr Hfr Han Hcn Hru Hle] Hn Hs Hterm Hsame Hnew.
  assert (vt_leader s' = true -> vt_term s' = vt_term (st w n)) as Hlt.
  { intros E. destruct (decide (vt_term (st w n) < vt_term s')) as [Hlt|]; [|lia].
    specialize (Hnew Hlt). unfold running in Hnew. rewrite E in Hnew. by destruct (vt_candidate s'). }
  constructor; cbn [st requests answers cast counted]; try done.
  - intros m Hm. destruct (decide (m = n)) as [->|]; [by rewrite upd_eq|by rewrite upd_ne; auto].
  - intros v t c Hc. destruct (decide (v = n)) as [->|]; [|rewrite upd_ne; auto].
    rewrite upd_eq. destruct (Hct _ _ _ Hc) as [H1 H2]. split; [lia|]. intros ->.
    destruct (Hsame ltac:(lia)) as ([Hv|Hv] & _); rewrite H2 in Hv by lia; done.
  - intros c v t Ht. specialize (Hfr c v t Ht). destruct (decide (c = n)) as [->|].
    + rewrite upd_eq. lia.
    + by rewrite upd_ne.
  - intros m Hm. destruct (decide (m = n)) as [->|]; [|rewrite upd_ne; auto].
    rewrite upd_eq. intros Hr.
    destruct (decide (vt_term (st w n) < vt_term s')) as [Hlt'|]; [rewrite Hnew in Hr; done|].
    assert (vt_term s' = vt_term (st w n)) as E by lia. destruct (Hsame E) as (_ & H1 & _).
    destruct (H1 Hr) as [H2 H3]. rewrite E. split; [by apply Hru|done].
  - intros m Hm. destruct (decide (m = n)) as [->|]; [|rewrite upd_ne; auto].
    rewrite upd_eq. intros Hr. by apply Hsame; auto.
Qed.

(** Fewer messages in flight. *)
Lemma inv_fewer w rq an :
  net_inv w -> rq ⊆ requests w -> an ⊆ answers w ->
  net_inv (mkNet (st w) rq an (cast w) (counted w)).
Proof.
  intros [Hok Had Hct Hco Htr Hfr Han Hcn Hru Hle] Hrq Hna.
  assert (forall c v t, (traces (mkNet (st w) rq an (cast w) (counted w)) c v t <= traces w c v t)%nat)
    as Hle'.
  { intros. unfold traces. cbn. specialize (Hrq (c, v, t)). specialize (Hna (v, c, t, true)). lia. }
  constructor; cbn [st requests answers cast counted]; try done.
  - intros c v t H. eapply Had. by eapply gmultiset_elem_of_subseteq.
  - intros c v t. specialize (Hle' c v t). specialize (Htr c v t). lia.
  - intros c v t H. apply (Hfr c v t). specialize (Hle' c v t). lia.
  - intros v c t g H. eapply Han. by eapply gmultiset_elem_of_subseteq.
Qed.

(** A vote is given: the state of the voter already shows it. *)
Lemma inv_cast w v t c :
  net_inv w -> t = vt_term (st w v) -> vt_vote (st w v) = Some c ->
  net_inv (mkNet (st w) (requests w) (answers w) (cast w ∪ {[(v, t, c)]}) (counted w)).
Proof.
  intros [Hok Had Hct Hco Htr Hfr Han Hcn Hru Hle] Ht Hv.
  constructor; cbn [st requests answers cast counted]; try done.
  - intros v' t' c' [H|H%elem_of_singleton]%elem_of_union; [by apply Hct|].
    injection H as -> -> ->. split; [lia|done].
  - intros v' t' c1 c2 [H1|H1%elem_of_singleton]%elem_of_union [H2|H2%elem_of_singleton]%elem_of_union;
      [by eapply Hco| | |congruence]; simplify_eq.
    + apply Hct in H1 as [_ H1]. specialize (H1 eq_refl). congruence.
    + apply Hct in H2 as [_ H2]. specialize (H2 eq_refl). congruence.
  - intros v' c' t' g' (? & ? & ? & H)%Han. split_and!; try done. intros Hg. set_solver.
  - intros c' t' v' (? & ? & ?)%Hcn. split_and!; try done. set_solver.
  - intros n Hn Hr. destruct (Hru n Hn Hr). split; [set_solver|done].
Qed.

(** An answer is sent; a positive one needs the vote and leaves the only trace. *)
Lemma inv_answer w v c t g :
  net_inv w -> c ∈ members -> v ∈ members -> c <> v ->
  (g = true -> (v, t, c) ∈ cast w /\ traces w c v t = 0%nat /\ t <= vt_term (st w c)) ->
  net_inv (mkNet (st w) (requests w) (answers w ⊎ {[+ (v, c, t, g) +]}) (cast w) (counted w)).
Proof.
  intros [Hok Had Hct Hco Htr Hfr Han Hcn Hru Hle] Hc Hv Hne Hg.
  set (w' := mkNet _ _ _ _ _).
  assert (forall c' v' t', traces w' c' v' t'
    = (traces w c' v' t' + if decide ((v', c', t', true) = (v, c, t, g)) then 1 else 0)%nat) as Et.
  { intros. unfold traces, w'. cbn. rewrite multiplicity_disj_union, multiplicity_singleton.
    case_decide; lia. }
  constructor; cbn [st requests answers cast counted w']; try done.
  - intros c' v' t'. rewrite Et. specialize (Htr c' v' t').
    case_decide; simplify_eq; [|lia]. destruct Hg as (_ & -> & _); done || lia.
  - intros c' v' t'. rewrite Et. intros H. case_decide; simplify_eq; [by apply Hg|].
    apply (Hfr c' v' t'). lia.
  - intros v' c' t' g'. rewrite gmultiset_elem_of_disj_union, gmultiset_elem_of_singleton.
    intros [H|H]; [by apply Han|]. simplify_eq. split_and!; try done. intros ->. by apply Hg.
Qed.

Lemma in_set_add x y X : in_set x (X ∪ {[y]}) = if decide (x = y) then 1%nat else in_set x X.
Proof.
  unfold in_set. destruct (decide (x = y)) as [->|Hne].
  - rewrite decide_True; [done|]. by apply elem_of_union_r, elem_of_singleton.
  - apply decide_ext. rewrite elem_of_union, elem_of_singleton. tauto.
Qed.

(** A vote is counted: the answer is gone. *)
Lemma inv_counted w v c t :
  net_inv w -> v ∈ members -> c <> v -> (v, t, c) ∈ cast w -> traces w c v t = 0%nat ->
  t <= vt_term (st w c) ->
  net_inv (mkNet (st w) (requests w) (answers w) (cast w) (counted w ∪ {[(c, t, v)]})).
Proof.
  intros [Hok Had Hct Hco Htr Hfr Han Hcn Hru Hle] Hv Hne Hc H0 Ht.
  set (w' := mkNet _ _ _ _ _).
  assert (forall c' v' t', traces w' c' v' t'
    = (traces w c' v' t' + if decide ((c', t', v') = (c, t, v)) then 1 else 0)%nat) as Et.
  { intros. unfold traces, w' in *. cbn. rewrite in_set_add.
    case_decide; simplify_eq; lia. }
  constructor; cbn [st requests answers cast counted w']; try done.
  - intros c' v' t'. rewrite Et. specialize (Htr c' v' t'). case_decide; simplify_eq; lia.
  - intros c' v' t'. rewrite Et. intros H. case_decide; simplify_eq; [done|]. apply (Hfr c' v' t'). lia.
  - intros c' t' v' [H|H%elem_of_singleton]%elem_of_union; [by apply Hcn|]. by simplify_eq.
  - intros n Hn Hr. destruct (Hru n Hn Hr) as [H1 H2]. split; [done|].
    etrans; [exact H2|]. apply Z.add_le_mono_l, Nat2Z.inj_le, subseteq_size.
    unfold counted_of, w'. cbn. intros x. rewrite !elem_of_filter. set_solver.
Qed.

Lemma multiplicity_list {A} `{!EqDecision A, !Countable A} (l : list A) x :
  NoDup l -> multiplicity x (list_to_set_disj (C:=gmultiset A) l) = if decide (x ∈ l) then 1%nat else 0%nat.
Proof.
  induction 1 as [|y l Hy _ IH].
  - rewrite decide_False; [|apply not_elem_of_nil]. apply multiplicity_empty.
  - rewrite list_to_set_disj_cons, multiplicity_disj_union, multiplicity_singleton, IH.
    destruct (decide (x = y)) as [E|E]; destruct (decide (x ∈ l)) as [H|H].
    + by subst.
    + rewrite decide_True by (rewrite elem_of_cons; by left). done.
    + rewrite decide_True by (by right). done.
    + rewrite decide_False; [done|]. rewrite elem_of_cons. tauto.
Qed.

Lemma multiplicity_to_peers n t peers c v t' :
  multiplicity (c, v, t') (to_peers n t peers)
  = if decide (c = n /\ t' = t /\ v ∈ peers) then 1%nat else 0%nat.
Proof.
  unfold to_peers. rewrite multiplicity_list.
  - apply decide_ext. rewrite list_elem_of_fmap. split.
    + intros (v' & [= -> -> ->] & H%elem_of_elements). done.
    + intros (-> & -> & H). exists v. split; [done|]. by apply elem_of_elements.
  - apply NoDup_fmap_2; [|apply NoDup_elements]. by intros ? ? [= ->].
Qed.

(** An election: a new term, the vote for oneself, one request per peer. *)
Lemma inv_elect w n s' peers :
  net_inv w -> n ∈ members -> peers ⊆ members ∖ {[n]} -> vt_ok n s' ->
  vt_term s' = vt_term (st w n) + 1 -> vt_vote s' = Some n -> vt_votes s' = 1 ->
  (vt_leader s' = true -> quorum <= 1) ->
  net_inv (mkNet (upd (st w) n s') (requests w ⊎ to_peers n (vt_term s') peers)
    (answers w) (cast w ∪ {[(n, vt_term s', n)]}) (counted w)).
Proof.
  intros [Hok Had Hct Hco Htr Hfr Han Hcn Hru Hle] Hn Hp Hs Ht Hv Hvs Hq. set (w' := mkNet _ _ _ _ _).
  assert (forall c v t, traces w' c v t
    = (traces w c v t + if decide (c = n /\ t = vt_term s' /\ v ∈ peers) then 1 else 0)%nat) as Et.
  { intros. unfold traces, w'. cbn. rewrite multiplicity_disj_union, multiplicity_to_peers.
    case_decide; lia. }
  assert (forall v, traces w n v (vt_term s') = 0%nat) as H0.
  { intros v. specialize (Hfr n v (vt_term s')). destruct (traces w n v (vt_term s')); [done|].
    specialize (Hfr ltac:(lia)). lia. }
  constructor; cbn [st requests answers cast counted w']; try done.
  - intros m Hm. destruct (decide (m = n)) as [->|]; [by rewrite upd_eq|rewrite upd_ne; auto].
  - intros c v t. rewrite gmultiset_elem_of_disj_union. intros [H|H]; [by apply Had in H|].
    rewrite elem_of_multiplicity, multiplicity_to_peers in H. case_decide as E; [|lia].
    destruct E as (-> & -> & E). set_solver.
  - intros v t c [H|H%elem_of_singleton]%elem_of_union.
    + destruct (decide (v = n)) as [->|]; [|rewrite upd_ne; auto].
      rewrite upd_eq. apply Hct in H as [H _]. split; lia.
    + simplify_eq. by rewrite upd_eq.
  - intros v t c1 c2 [H1|H1%elem_of_singleton]%elem_of_union [H2|H2%elem_of_singleton]%elem_of_union;
      [by eapply Hco| | |congruence]; simplify_eq.
    + apply Hct in H1 as [H1 _]. lia.
    + apply Hct in H2 as [H2 _]. lia.
  - intros c v t. rewrite Et. specialize (Htr c v t). case_decide as E; [|lia].
    destruct E as (-> & -> & _). by rewrite H0.
  - intros c v t. rewrite Et. intros H. case_decide as E.
    + destruct E as (-> & -> & _). by rewrite upd_eq.
    + specialize (Hfr c v t ltac:(lia)). destruct (decide (c = n)) as [->|]; [rewrite upd_eq; lia|].
      by rewrite upd_ne.
  - intros v c t g (? & ? & ? & H)%Han. split_and!; try done. intros Hg. set_solver.
  - intros c t v (? & ? & ?)%Hcn. split_and!; try done. set_solver.
  - intros m Hm Hr. destruct (decide (m = n)) as [->|].
    + rewrite upd_eq. split; [set_solver|lia].
    + rewrite upd_ne in * by done. destruct (Hru m Hm Hr). split; [set_solver|done].
  - intros m Hm. destruct (decide (m = n)) as [->|]; [|rewrite upd_ne; auto].
    rewrite upd_eq. intros Hl. rewrite Hvs. auto.
Qed.

Context `{!VoterLaws N S members quorum}.

Lemma net_init_inv w : net_init w -> net_inv w.
Proof.
  intros (Hn & Er & Ea & Ec & Ek).
  assert (forall c v t, traces w c v t = 0%nat) as H0.
  { intros. unfold traces, in_set.
    by rewrite Er, Ea, Ek, !multiplicity_empty, decide_False by apply not_elem_of_empty. }
  constructor; rewrite ?Er, ?Ea, ?Ec, ?Ek.
  - intros n Hm. by apply Hn.
  - by intros c v t ?%gmultiset_not_elem_of_empty.
  - by intros v t c ?%not_elem_of_empty.
  - by intros v t c1 c2 ?%not_elem_of_empty.
  - intros. rewrite H0. lia.
  - intros c v t. rewrite H0. lia.
  - by intros v c t g ?%gmultiset_not_elem_of_empty.
  - by intros c t v ?%not_elem_of_empty.
  - intros n Hm. by destruct (Hn n Hm) as [_ ->].
  - intros n Hm. destruct (Hn n Hm) as [_ Hr]. unfold running in Hr.
    by apply orb_false_iff in Hr as [_ ->].
Qed.

Lemma del_subseteq {A} `{!EqDecision A, !Countable A} (X : gmultiset A) x : X ∖ {[+ x +]} ⊆ X.
Proof. intros y. rewrite multiplicity_difference. lia. Qed.

Lemma step_request_inv w c v t s' g :
  net_inv w -> (c, v, t) ∈ requests w -> vt_request (st w v) t c s' g ->
  net_inv (mkNet (upd (st w) v s') (requests w ∖ {[+ (c, v, t) +]})
    (answers w ⊎ {[+ (v, c, vt_term s', g) +]})
    (if g then cast w ∪ {[(v, t, c)]} else cast w) (counted w)).
Proof.
  intros Hw Hin Hr. destruct (ni_addr w Hw c v t Hin) as (Hc & Hv & Hne).
  destruct (vl_request v _ t c s' g Hv Hc Hne (ni_ok w Hw v Hv) Hr) as (Hok & Ht & Hg & Hsame & Hnew).
  assert (traces w c v t = 1%nat /\ t <= vt_term (st w c)) as [H1 Hfr].
  { pose proof (ni_traces w Hw c v t). pose proof (ni_fresh w Hw c v t) as Hfr.
    unfold traces in *. rewrite elem_of_multiplicity in Hin. split; [lia|apply Hfr; lia]. }
  apply (inv_fewer w (requests w ∖ {[+ (c, v, t) +]}) (answers w)) in Hw as Hw1;
    [|apply del_subseteq|done].
  apply (inv_local _ v s') in Hw1 as Hw2; cbn [st] in *; try done.
  2:{ intros E. destruct (Hsame E) as (Ev & Ec & El). split_and!.
      - destruct g; [|right; auto]. destruct Hg as (Et & Evt & Hold).
        destruct Hold as [?|Hold]; [lia|by left|right; congruence].
      - unfold running. rewrite Ec, El, Ev. intros Hrun. split; [done|].
        by apply (ni_running w Hw v Hv).
      - rewrite El, Ev. by apply (ni_leader w Hw v Hv). }
  cbn [requests answers cast counted] in Hw2.
  destruct g.
  - destruct Hg as (Et & Evt & _).
    apply (inv_cast _ v t c) in Hw2; cbn [st] in *; [|by rewrite upd_eq|by rewrite upd_eq].
    cbn [requests answers cast counted] in Hw2. rewrite Et.
    apply (inv_answer _ v c t true) in Hw2; cbn [st requests answers cast counted] in *; try done.
    intros _. split_and!.
    + by apply elem_of_union_r, elem_of_singleton.
    + unfold traces in *. cbn [requests answers counted].
      rewrite multiplicity_difference, multiplicity_singleton_eq.
      rewrite elem_of_multiplicity in Hin. lia.
    + rewrite upd_ne by done. done.
  - by apply (inv_answer _ v c (vt_term s') false) in Hw2.
Qed.

Lemma step_answer_inv w v c t g s' :
  net_inv w -> (v, c, t, g) ∈ answers w -> vt_response (st w c) t g s' ->
  net_inv (mkNet (upd (st w) c s') (requests w) (answers w ∖ {[+ (v, c, t, g) +]})
    (cast w) (if g && (t =? vt_term (st w c)) then counted w ∪ {[(c, t, v)]} else counted w)).
Proof.
  intros Hw Hin Hr. destruct (ni_answers w Hw v c t g Hin) as (Hc & Hv & Hne & Hg).
  destruct (vl_response c _ t g s' Hc (ni_ok w Hw c Hc) Hr) as (Hok & Ht & Hsame & Hnew).
  apply (inv_fewer w (requests w) (answers w ∖ {[+ (v, c, t, g) +]})) in Hw as Hw1;
    [|done|apply del_subseteq].
  set (k := g && (t =? vt_term (st w c))) in *.
  set (cn := if k then counted w ∪ {[(c, t, v)]} else counted w).
  assert (net_inv (mkNet (st w) (requests w) (answers w ∖ {[+ (v, c, t, g) +]}) (cast w) cn)) as Hw2.
  { unfold cn. destruct k eqn:Ek; [|done]. unfold k in Ek. apply andb_true_iff in Ek as [-> Et%Z.eqb_eq].
    apply (inv_counted _ v c t Hw1); cbn [st requests answers cast counted]; auto; [|lia].
    pose proof (ni_traces w Hw c v t) as H1. unfold traces in *. cbn [requests answers counted].
    rewrite multiplicity_difference, multiplicity_singleton_eq. rewrite elem_of_multiplicity in Hin. lia. }
  apply (inv_local _ c s') in Hw2; cbn [st requests answers cast counted] in *; try done.
  intros E. destruct (Hsame E) as (Evt & Hub & Hlb & Ec & El). split_and!; [by right| |].
  - unfold running. rewrite Ec, El. intros Hrun. split; [done|].
    destruct (ni_running w Hw c Hc Hrun) as [_ Hb].
    assert (size (counted_of w c (vt_term (st w c))) + (if k then 1 else 0) <=
      size (counted_of (mkNet (st w) (requests w) (answers w ∖ {[+ (v, c, t, g) +]}) (cast w) cn)
        c (vt_term (st w c))))%nat as Hsz; [|fold k in Hub; destruct k; lia].
    unfold cn. destruct k eqn:Ek; [|rewrite Nat.add_0_r; done].
    unfold k in Ek. apply andb_true_iff in Ek as [-> Et%Z.eqb_eq].
    assert (v ∉ counted_of w c t) as Hnot.
    { unfold counted_of. rewrite elem_of_filter. intros [Hin' _].
      pose proof (ni_traces w Hw c v t) as H1. unfold traces, in_set in H1.
      rewrite decide_True in H1 by done. rewrite elem_of_multiplicity in Hin. lia. }
    rewrite <- Et. rewrite Nat.add_comm, <- (size_singleton (C:=gset N) v), <- size_union.
    + apply subseteq_size. intros x [->%elem_of_singleton|Hx]%elem_of_union; unfold counted_of in *; cbn.
      * apply elem_of_filter. split; [|done]. by apply elem_of_union_r, elem_of_singleton.
      * apply elem_of_filter in Hx as [? ?]. apply elem_of_filter. split; [|done]. by apply elem_of_union_l.
    + apply disjoint_singleton_l. done.
  - rewrite El. intros Hl. pose proof (ni_leader w Hw c Hc Hl). lia.
Qed.

Lemma net_step_inv w w' : net_inv w -> net_step w w' -> net_inv w'.
Proof.
  intros Hw Hstep. destruct Hstep as [n s' peers Hn Hp He|c v t s' g Hin Hr|v c t g s' Hin Hr|n s' Hn Ho|m Hm|m Hm].
  - destruct (vl_elect n _ s' Hn (ni_ok w Hw n Hn) He) as (? & ? & ? & ? & ?). by apply inv_elect.
  - by apply step_request_inv.
  - by apply step_answer_inv.
  - destruct (vl_other n _ s' Hn (ni_ok w Hw n Hn) Ho) as (Hok & Ht & Hsame & Hnew).
    apply inv_local; try done. intros E. destruct (Hsame E) as (-> & -> & Hr & Hl). split_and!; auto.
    + intros Hr'. split; [auto|]. apply (ni_running w Hw n Hn). auto.
    + intros [Hl'|]%Hl; [|done]. by apply (ni_leader w Hw n).
  - apply (inv_fewer w _ (answers w)); [done|apply del_subseteq|done].
  - apply (inv_fewer w (requests w)); [done|done|apply del_subseteq].
Qed.

Lemma reachable_inv w : reachable w -> net_inv w.
Proof. induction 1; [by apply net_init_inv|by eapply net_step_inv]. Qed.

(** A leader holds the votes of a quorum of members. *)
Lemma leader_votes w n :
  net_inv w -> n ∈ members -> vt_leader (st w n) = true ->
  quorum <= Z.of_nat (size (voters_of w n (vt_term (st w n)))).
Proof.
  intros Hw Hn Hl. pose proof (ni_leader w Hw n Hn Hl) as Hq.
  assert (running (st w n) = true) as Hr by (unfold running; rewrite Hl; by destruct (vt_candidate _)).
  destruct (ni_running w Hw n Hn Hr) as [Hc Hv].
  assert (1 + size (counted_of w n (vt_term (st w n))) <= size (voters_of w n (vt_term (st w n))))%nat; [|lia].
  rewrite <- (size_singleton (C:=gset N) n), <- size_union.
  - apply subseteq_size. intros x [->%elem_of_singleton|Hx]%elem_of_union; unfold counted_of, voters_of in *.
    + apply elem_of_filter. done.
    + apply elem_of_filter in Hx as [Hx ?]. apply elem_of_filter. split; [|done].
      by apply (ni_counted w Hw) in Hx as (_ & _ & ?).
  - apply disjoint_singleton_l. unfold counted_of. rewrite elem_of_filter.
    intros [H _]. by apply (ni_counted w Hw) in H as (_ & ? & _).
Qed.

Lemma one_leader w n1 n2 :
  Z.of_nat (size members) < 2 * quorum -> net_inv w -> n1 ∈ members -> n2 ∈ members ->
  vt_leader (st w n1) = true -> vt_leader (st w n2) = true ->
  vt_term (st w n1) = vt_term (st w n2) -> n1 = n2.
Proof.
  intros Hq Hw H1 H2 L1 L2 Et.
  pose proof (leader_votes w n1 Hw H1 L1) as Q1. pose proof (leader_votes w n2 Hw H2 L2) as Q2.
  rewrite <- Et in Q2. set (t := vt_term (st w n1)) in *.
  destruct (decide (voters_of w n1 t ∩ voters_of w n2 t = ∅)) as [E|E].
  - assert (size (voters_of w n1 t ∪ voters_of w n2 t) <= size members)%nat as Hs.
    { apply subseteq_size. intros x [Hx|Hx]%elem_of_union; by apply elem_of_filter in Hx as [_ ?]. }
    rewrite size_union in Hs by set_solver. lia.
  - apply set_choose_L in E as [v [Hv1 Hv2]%elem_of_intersection].
    apply elem_of_filter in Hv1 as [Hv1 _]. apply elem_of_filter in Hv2 as [Hv2 _].
    by eapply (ni_cast_once w Hw).
Qed.

Lemma reachable_one_leader w n1 n2 :
  Z.of_nat (size members) < 2 * quorum -> reachable w -> n1 ∈ members -> n2 ∈ members ->
  vt_leader (st w n1) = true -> vt_leader (st w n2) = true ->
  vt_term (st w n1) = vt_term (st w n2) -> n1 = n2.
Proof. intros Hq Hr. apply one_leader; [done|by apply reachable_inv]. Qed.

End Election.
