(* ===== verification/ClusterElection.v ===== *)
(** * Election safety of the cluster

    The handlers of Cluster.v as an instance of the interface of Election.v: the node
    state is the server configuration, the cluster state and the data set, and a step is
    a run of [clusterProcessPacket] on a packet in the receive buffer of a link, of
    [clusterCron], or of [clusterProcessCommand].  The cluster wide result: at most one
    leader per term. *)

From Stdlib Require Import ZArith Lia.
From stdpp Require Import base tactics numbers list gmap gmultiset sets strings.
From S2P Require Import Prelude Util Adlist Log Wire Cluster ClusterVote Election.

Local Open Scope Z_scope.

Section Instance.
Context {D : Type} `{!Commands D} (junk : nat -> bytes).

(** The names of the configured nodes. *)
Context (members : gset bytes).

Record node_state := mkNS { ns_srv : server; ns_cluster : cluster; ns_data : D }.

(** A packet in the receive buffer of a link. *)
Definition packet_on (c : cluster) (l : addr_t) (d : clusterMsgData) : Prop :=
  exists lk sender port, link_heap c !! l = Some lk /\ cl_rcvbuf lk = enc_msg sender port d
    /\ length sender = 40%nat /\ msg_ok d.

(** A vote request of candidate [cand] is processed and answered with [g]. *)
Definition request_step (s : node_state) (t : Z) (cand : bytes) (s' : node_state) (g : bool) : Prop :=
  exists ev l v n, ns_srv s' = ns_srv s /\ ns_data s' = ns_data s
    /\ packet_on (ns_cluster s) l (RequestVote v)
    /\ rv_term v = t /\ cstr (candidateid v) = Some cand
    /\ clusterProcessPacket (ns_srv s) ev (ns_cluster s) l = Ret (ns_cluster s')
    /\ self_node (ns_cluster s) n
    /\ sndbuf (ns_cluster s') l = sndbuf (ns_cluster s) l
         ++ enc_msg (cn_name n) (server_port (ns_srv s))
              (ResponseVote (mkRVR (current_term (rf (ns_cluster s'))) (Z.b2z g))).

(** An answer to a vote request is processed. *)
Definition response_step (s : node_state) (t : Z) (g : bool) (s' : node_state) : Prop :=
  exists ev l v, ns_srv s' = ns_srv s /\ ns_data s' = ns_data s
    /\ packet_on (ns_cluster s) l (ResponseVote v)
    /\ rvr_term v = t /\ (vote_granted v =? 0) = negb g
    /\ clusterProcessPacket (ns_srv s) ev (ns_cluster s) l = Ret (ns_cluster s').

(** A run of the cron; the stray length in front of a [zstrdup] block is not 0. *)
Definition cron_step (s s' : node_state) : Prop :=
  exists ce, ns_srv s' = ns_srv s
    /\ in_s32 (zjunk (cr_env ce)) /\ zjunk (cr_env ce) <> 0
    /\ clusterCron (ns_srv s) ce (ns_cluster s) (ns_data s) = Ret (ns_cluster s', ns_data s').

(** A run of the cron that starts an election, terms staying below 2^63 - 1. *)
Definition elect_step (s s' : node_state) : Prop :=
  cron_step s s' /\ in_s64 (current_term (rf (ns_cluster s)) + 1)
  /\ current_term (rf (ns_cluster s')) <> current_term (rf (ns_cluster s)).

(** Everything else: a cron run without election, append requests and answers, packets
    that are ignored, client commands, bytes moving in and out of the links. *)
Inductive other_step (s s' : node_state) : Prop :=
  | OtherCron : cron_step s s' ->
      current_term (rf (ns_cluster s')) = current_term (rf (ns_cluster s)) -> other_step s s'
  | OtherAppend ev l e : ns_srv s' = ns_srv s -> packet_on (ns_cluster s) l (AppendEntries e) ->
      clusterProcessPacket (ns_srv s) ev (ns_cluster s) l = Ret (ns_cluster s') -> other_step s s'
  | OtherAppendAnswer ev l e : ns_srv s' = ns_srv s ->
      packet_on (ns_cluster s) l (ResponseAppendEntries e) ->
      clusterProcessPacket (ns_srv s) ev (ns_cluster s) l = Ret (ns_cluster s') -> other_step s s'
  | OtherCommand ev client nm argv : ns_srv s' = ns_srv s ->
      clusterProcessCommand junk ev (ns_cluster s) client nm argv = Ret (ns_cluster s') ->
      other_step s s'
  | OtherIO : ns_srv s' = ns_srv s -> same_raft (ns_cluster s) (ns_cluster s') -> other_step s s'.

Definition node_ok (n : bytes) (s : node_state) : Prop :=
  server_name (ns_srv s) = n /\ vote_wf n (voted_for (rf (ns_cluster s)))
  /\ length (nodes (ns_cluster s)) = size members /\ 0 <= votes_granted (rf (ns_cluster s)).

#[local] Instance cluster_voter : Voter bytes node_state := {
  vt_term s := current_term (rf (ns_cluster s));
  vt_vote s := vote (voted_for (rf (ns_cluster s)));
  vt_votes s := votes_granted (rf (ns_cluster s));
  vt_candidate s := state (rf (ns_cluster s)) =? PREZ_CANDIDATE;
  vt_leader s := state (rf (ns_cluster s)) =? PREZ_LEADER;
  vt_ok := node_ok;
  vt_request := request_step;
  vt_response := response_step;
  vt_elect := elect_step;
  vt_other := other_step;
}.

(** ** Reading the packet *)

Lemma packet_dispatch srv ev c l d c' :
  packet_on c l d -> clusterProcessPacket srv ev c l = Ret c' ->
  let c1 := set_stats c (stats_bus_messages_sent c) (stats_bus_messages_received c + 1) in
  match d with
  | RequestVote v => clusterProcessRequestVote srv ev c1 l v = Ret c'
  | AppendEntries e => clusterProcessAppendEntries srv ev c1 l e = Ret c'
  | ResponseVote v => clusterProcessResponseVote c1 v = c'
  | ResponseAppendEntries e => clusterProcessResponseAppendEntries c1 l e = Ret c'
  end.
Proof.
  intros (lk & sender & port & El & Eb & Hs & Hd). unfold clusterProcessPacket.
  rewrite El. cbn [of_ptr mbind cres_bind]. rewrite Eb, parse_enc by done. cbn [mbind cres_bind].
  destruct d; intros H; cinv; done.
Qed.

(** The answer shows the decision. *)
Lemma answer_inj nm port t g g' b :
  b ++ enc_msg nm port (ResponseVote (mkRVR t g)) = b ++ enc_msg nm port (ResponseVote (mkRVR t (Z.b2z g'))) ->
  g = GRANT_VOTE \/ g = DENY_VOTE -> g = Z.b2z g'.
Proof.
  intros E Hg. apply app_inv_head in E. unfold enc_msg in E. cbn [msg_totlen msg_type] in E.
  apply app_inv_head in E. unfold enc_data in E. cbn [rvr_term vote_granted] in E.
  apply app_inv_head, app_inv_tail in E. by destruct Hg as [-> | ->], g'.
Qed.

Lemma running_follower (s : node_state) :
  state (rf (ns_cluster s)) = PREZ_FOLLOWER -> running s = false.
Proof. intros E. unfold running. cbn. by rewrite E. Qed.

(** Nothing to do with elections, or a step down. *)
Lemma follows_law n (s s' : node_state) :
  node_ok n s -> ns_srv s' = ns_srv s -> nodes (ns_cluster s') = nodes (ns_cluster s) ->
  follows (rf (ns_cluster s)) (rf (ns_cluster s')) ->
  node_ok n s' /\ vt_term s <= vt_term s' /\
  (vt_term s' = vt_term s -> vt_vote s' = vt_vote s /\ vt_votes s' = vt_votes s
     /\ (vt_candidate s' = true -> vt_candidate s = true)
     /\ (vt_leader s' = true -> vt_leader s = true)) /\
  (vt_term s < vt_term s' -> running s' = false).
Proof.
  intros (E1 & Hv & El & Hp) Es En [Ht Ev Hsame Hnew]. split_and!; try done; cbn.
  - unfold node_ok. rewrite Es, En, Ev. split_and!; try done.
    destruct (decide (current_term (rf (ns_cluster s')) = current_term (rf (ns_cluster s)))) as [E|E].
    + destruct (Hsame E) as (-> & _). done.
    + destruct Hnew as [-> _]; [lia|constructor].
  - intros E. rewrite Ev. destruct (Hsame E) as (-> & Hst). split_and!; try done;
      destruct Hst as [-> | ->]; done.
  - intros H. apply running_follower. by apply Hnew.
Qed.
(** ** The laws *)

Context (members_ok : forall n, n ∈ members -> name_ok n).
Context (members_free : forall n m, n ∈ members -> m ∈ members -> n `prefix_of` m -> n = m).

Definition quorum_of : Z := Z.of_nat (size members / 2 + 1).

Lemma request_law n s t c s' g :
  n ∈ members -> c ∈ members -> c <> n -> node_ok n s -> request_step s t c s' g ->
  node_ok n s' /\ vt_term s <= vt_term s' /\
  (if g then vt_term s' = t /\ vt_vote s' = Some c
             /\ (t = vt_term s -> vt_vote s = None \/ vt_vote s = Some c)
   else vt_term s' = vt_term s -> vt_vote s' = vt_vote s) /\
  (vt_term s' = vt_term s -> vt_votes s' = vt_votes s /\ vt_candidate s' = vt_candidate s
     /\ vt_leader s' = vt_leader s) /\
  (vt_term s < vt_term s' -> running s' = false).
Proof.
  intros Hn Hc Hne (E1 & Hv & El & Hp) (ev & l & v & nd & Es & _ & Hpk & Et & Ec & Hr & Hnd & Hans).
  pose proof (packet_dispatch _ _ _ _ _ _ Hpk Hr) as H. cbv zeta in H.
  destruct (clusterProcessRequestVote_inv _ _ _ _ _ c _ H) as
    (r & g' & nd' & Ed & Er & _ & En & _ & _ & Hnd' & Es'); [by apply candidate_string_ret|].
  cbn [rf log set_stats] in Ed. rewrite <- Er in *.
  change (sndbuf (set_stats _ _ _) l) with (sndbuf (ns_cluster s) l) in Es'.
  assert (nd' = nd) as -> by (by eapply self_node_unique).
  assert (c `prefix_of` n -> c = n) as Hfree by (by apply members_free).
  pose proof (decide_vote_outcome n _ _ _ _ _ _ _ Hv (members_ok c Hc) Hfree Ed) as
    [Ot Oa Og Od On Ond Os Evg _].
  rewrite Hans in Es'. symmetry in Es'. apply answer_inj in Es'; [|done].
  split_and!; cbn; [|lia| | |].
  - split_and!; [by rewrite Es|by eapply decide_vote_wf; [exact Hv|by apply members_ok|]|by rewrite En|lia].
  - destruct g; cbn in Es'.
    + destruct (Og Es') as (G1 & G2 & G3 & _). rewrite G2, vote_sds by auto.
      split_and!; [lia|done|]. intros. apply G3. lia.
    + intros E. by rewrite (Od Es' E).
  - intros E. by rewrite (Os E), Evg.
  - intros Hlt. apply running_follower, On. lia.
Qed.
Lemma response_law n s t g s' :
  node_ok n s -> response_step s t g s' ->
  node_ok n s' /\ vt_term s <= vt_term s' /\
  (vt_term s' = vt_term s -> vt_vote s' = vt_vote s
     /\ vt_votes s' <= vt_votes s + (if g && (t =? vt_term s) then 1 else 0)
     /\ vt_votes s <= vt_votes s'
     /\ vt_candidate s' = vt_candidate s /\ vt_leader s' = vt_leader s) /\
  (vt_term s < vt_term s' -> running s' = false).
Proof.
  intros Hok (ev & l & v & Es & _ & Hpk & Et & Eg & Hr).
  pose proof (packet_dispatch _ _ _ _ _ _ Hpk Hr) as H. cbv zeta in H.
  unfold clusterProcessResponseVote in H. cbn [rf set_stats] in H. rewrite Eg, negb_involutive, Et in H.
  destruct Hok as (E1 & Hv & El & Hp).
  destruct (g && (t =? current_term (rf (ns_cluster s)))) eqn:Ek.
  - split_and!; cbn; rewrite <- ?H, ?Ek; cbn; try done; try lia.
    + unfold node_ok. rewrite Es, <- H. cbn. split_and!; done || lia.
    + intros _. split_and!; done || lia.
  - destruct (Z.ltb_spec (current_term (rf (ns_cluster s))) t).
    + split_and!; cbn; rewrite <- ?H, ?Ek; cbn; try done; try lia.
      * unfold node_ok. rewrite Es, <- H. cbn. split_and!; try done. constructor.
      * intros _. apply running_follower. by rewrite <- H.
    + split_and!; cbn; rewrite <- ?H, ?Ek; cbn; try done; try lia.
      * unfold node_ok. rewrite Es, <- H. cbn. by split_and!.
      * intros _. split_and!; done || lia.
Qed.

Lemma cron_law n s s' :
  n ∈ members -> node_ok n s -> cron_step s s' ->
  exists jk, in_s32 jk /\ jk <> 0 /\ ns_srv s' = ns_srv s
    /\ nodes (ns_cluster s') = nodes (ns_cluster s)
    /\ cron_outcome (ns_srv s) jk (size members / 2 + 1) (rf (ns_cluster s)) (rf (ns_cluster s')).
Proof.
  intros Hn (E1 & Hv & El & Hp) (ce & Es & Hj & Hz & Hr).
  apply clusterCron_outcome in Hr as (Ho & _ & En & _). exists (zjunk (cr_env ce)).
  split_and!; try done. unfold quorumSize in Ho. by rewrite El in Ho.
Qed.

Lemma elect_law n s s' :
  n ∈ members -> node_ok n s -> elect_step s s' ->
  node_ok n s' /\ vt_term s' = vt_term s + 1 /\ vt_vote s' = Some n /\ vt_votes s' = 1
  /\ (vt_leader s' = true -> quorum_of <= 1).
Proof.
  intros Hn Hok (Hc & Ht & Hne). pose proof Hok as (E1 & Hv & El & Hp).
  destruct (cron_law n s s' Hn Hok Hc) as (jk & Hj & Hz & Es & En & Ho).
  destruct Ho as [E|_ _ _ _ _ E|_ Et Ev Evt Hst].
  - exfalso. apply Hne. unfold core in E. congruence.
  - done.
  - rewrite wrap_s64_id in Et by done. cbn. rewrite Ev, E1, vote_zstrdup by auto.
    split_and!; try done.
    + unfold node_ok. rewrite Es, En, Ev, Evt, E1. split_and!; try done. constructor; auto.
    + intros Hl%Z.eqb_eq. destruct Hst as [Hst|[_ Hq]]; [by rewrite Hst in Hl|].
      unfold quorum_of. lia.
Qed.

Lemma other_law n s s' :
  n ∈ members -> node_ok n s -> other_step s s' ->
  node_ok n s' /\ vt_term s <= vt_term s' /\
  (vt_term s' = vt_term s -> vt_vote s' = vt_vote s /\ vt_votes s' = vt_votes s
     /\ (running s' = true -> running s = true)
     /\ (vt_leader s' = true -> vt_leader s = true \/ quorum_of <= vt_votes s)) /\
  (vt_term s < vt_term s' -> running s' = false).
Proof.
  intros Hn Hok Hstep.
  assert (forall c', ns_cluster s' = c' -> nodes c' = nodes (ns_cluster s) ->
    ns_srv s' = ns_srv s -> follows (rf (ns_cluster s)) (rf c') ->
    node_ok n s' /\ vt_term s <= vt_term s' /\
    (vt_term s' = vt_term s -> vt_vote s' = vt_vote s /\ vt_votes s' = vt_votes s
       /\ (running s' = true -> running s = true)
       /\ (vt_leader s' = true -> vt_leader s = true \/ quorum_of <= vt_votes s)) /\
    (vt_term s < vt_term s' -> running s' = false)) as Hfollow.
  { intros c' <- En Es Hf.
    destruct (follows_law n s s' Hok Es En Hf) as (? & ? & Hsame & ?). split_and!; try done.
    intros E. destruct (Hsame E) as (? & ? & Ha & Hb). split_and!; try done; [|by left; auto].
    unfold running. rewrite !orb_true_iff. tauto. }
  destruct Hstep as [Hc Et|ev l e Es Hpk Hr|ev l e Es Hpk Hr|ev cl nm argv Es Hr|Es Hr].
  - destruct (cron_law n s s' Hn Hok Hc) as (jk & Hj & Hz & Es & En & Ho).
    destruct Ho as [E|Hs Hs' Hq Ev Evt E|Hl Et' Ev Evt Hst].
    + by eapply Hfollow; [..|apply follows_core].
    + destruct Hok as (E1 & Hv & El & Hp).
      assert (quorum_of <= votes_granted (rf (ns_cluster s))) as Hqv.
      { etrans; [exact Hq|]. apply Z.mod_le; [done|lia]. }
      split_and!; cbn; try lia.
      * unfold node_ok. rewrite Es, En, Ev, Evt. by split_and!.
      * intros _. rewrite Ev, Evt. split_and!; try done; [|auto].
        intros _. unfold running. cbn. by rewrite Hs.
    + exfalso. rewrite Et' in Et. unfold wrap_s in Et.
      pose proof (Z.mod_pos_bound (current_term (rf (ns_cluster s)) + 1 + 2 ^ 63) (2 ^ 64)).
      assert ((current_term (rf (ns_cluster s)) + 1 + 2 ^ 63) mod 2 ^ 64
        = current_term (rf (ns_cluster s)) + 2 ^ 63) as Em by (change (64 - 1) with 63 in Et; lia).
      pose proof (Z.div_mod (current_term (rf (ns_cluster s)) + 1 + 2 ^ 63) (2 ^ 64)). lia.
  - pose proof (packet_dispatch _ _ _ _ _ _ Hpk Hr) as H. cbv zeta in H.
    apply clusterProcessAppendEntries_follows in H as (Hf & En & _). by eapply Hfollow.
  - pose proof (packet_dispatch _ _ _ _ _ _ Hpk Hr) as H. cbv zeta in H.
    apply clusterProcessResponseAppendEntries_follows in H as (Hf & En & _). by eapply Hfollow.
  - apply clusterProcessCommand_core in Hr as (Hc & En & _). eapply Hfollow; try done.
    by apply follows_core.
  - destruct Hr as [Er _ En _]. eapply Hfollow; try done. rewrite Er. by apply follows_core.
Qed.

#[local] Instance cluster_voter_laws : VoterLaws bytes node_state members quorum_of := {
  vl_request := request_law;
  vl_response n s t g s' _ := response_law n s t g s';
  vl_elect := elect_law;
  vl_other := other_law;
}.
(** [C1] Election safety.  In every reachable state of a cluster of nodes that run the
    handlers of cluster.c over a network that delivers each message at most once, in
    any order, or loses it: two nodes that are leaders in the same term are the same
    node.  Assumed: no restart, names that are not empty and not a prefix of one
    another, every node knows all the members, and a stray length in front of a
    candidate's own [voted_for] that is not 0. *)
Theorem cluster_election_safety w n1 n2 :
  reachable members w -> n1 ∈ members -> n2 ∈ members ->
  state (rf (ns_cluster (st w n1))) = PREZ_LEADER ->
  state (rf (ns_cluster (st w n2))) = PREZ_LEADER ->
  current_term (rf (ns_cluster (st w n1))) = current_term (rf (ns_cluster (st w n2))) ->
  n1 = n2.
Proof.
  intros Hr H1 H2 L1 L2 Et. apply (reachable_one_leader members quorum_of w); try done.
  - unfold quorum_of. pose proof (Nat.div_mod_eq (size members) 2).
    pose proof (Nat.mod_upper_bound (size members) 2). lia.
  - cbn. by rewrite L1.
  - cbn. by rewrite L2.
Qed.
End Instance.

(** ** A cluster of three nodes, up to the election of the first leader *)

#[global] Instance no_commands : Commands unit := {
  command_t := unit; lookupCommand _ := Ret None; arity _ := 0; proc _ _ d := Ret d; call _ d := Ret d;
}.

Module Three.
Definition name40 (nm : bytes) : bytes := memcpy (replicate 40 0) nm.
Definition na : bytes := lit "a".
Definition nb : bytes := lit "b".
Definition nc : bytes := lit "c".
Definition all : gset bytes := {[na; nb; nc]}.

Definition peer (nm : bytes) (flags : Z) (lk : option addr_t) : clusterNode :=
  mkNode (name40 nm) flags 0 0 None 1 0 [] 7001 lk.

(** The state of node [me], connected to [p] through the link [1]. *)
Definition start (me p q : bytes) : @node_state unit :=
  mkNS (mkServer me 7001)
    (mkCluster (mkRaft PREZ_FOLLOWER [] vs_empty 0 0 0 0 0) empty_log (Some 1%positive)
       [(name40 me, 1%positive); (name40 p, 2%positive); (name40 q, 3%positive)]
       (list_to_map [(1%positive, peer me PREZ_NODE_MYSELF None);
                     (2%positive, peer p 0 (Some 1%positive)); (3%positive, peer q 0 None)])
       (list_to_map [(1%positive, mkLink 0 5 [] [] (Some 2%positive) false)])
       2%positive ∅ 150 10 0 0) tt.

(** The bytes [b] arrive on link [1]. *)
Definition receive (s : @node_state unit) (b : bytes) : @node_state unit :=
  let c := ns_cluster s in
  mkNS (ns_srv s)
    (match link_heap c !! 1%positive with
     | Some lk => set_link c 1%positive
         (mkLink (cl_ctime lk) (cl_fd lk) (cl_sndbuf lk) b (cl_node lk) (cl_writable lk))
     | None => c
     end) tt.

Definition run_cron (s : @node_state unit) : @node_state unit :=
  match clusterCron (ns_srv s) (ex_cron 77) (ns_cluster s) tt with
  | Ret (c, d) => mkNS (ns_srv s) c d
  | _ => s
  end.

Definition run_packet (s : @node_state unit) : @node_state unit :=
  match clusterProcessPacket (ns_srv s) ex_env (ns_cluster s) 1%positive with
  | Ret c => mkNS (ns_srv s) c tt
  | _ => s
  end.

Definition rv : requestVote := mkRV 1 (name40 na) 0 0.
Definition rvr : responseVote := mkRVR 1 1.

Definition a0 := start na nb nc.
Definition a1 := run_cron a0.
Definition a2 := receive a1 (enc_msg (name40 nb) 7001 (ResponseVote rvr)).
Definition a3 := run_packet a2.
Definition a4 := run_cron a3.
Definition b0 := start nb na nc.
Definition b1 := receive b0 (enc_msg (name40 na) 7001 (RequestVote rv)).
Definition b2 := run_packet b1.

Definition w0 : @net bytes (@node_state unit) _ _ :=
  mkNet (λ n, if decide (n = na) then a0 else if decide (n = nb) then b0 else start nc na nb)
    ∅ ∅ ∅ ∅.

#[local] Instance voter : Voter bytes (@node_state unit) := cluster_voter (λ _, []) all.

Definition upd_net (w : @net bytes (@node_state unit) _ _) n s rq an ca cn :=
  mkNet (upd (st w) n s) rq an ca cn.

Definition w1 := upd_net w0 na a1 (requests w0 ⊎ to_peers na (vt_term a1) {[nb]}) (answers w0)
  (cast w0 ∪ {[(na, vt_term a1, na)]}) (counted w0).
Definition w2 := upd_net w1 nb b1 (requests w1) (answers w1) (cast w1) (counted w1).
Definition w3 := upd_net w2 nb b2 (requests w2 ∖ {[+ (na, nb, 1) +]})
  (answers w2 ⊎ {[+ (nb, na, vt_term b2, true) +]}) (cast w2 ∪ {[(nb, 1, na)]}) (counted w2).
Definition w4 := upd_net w3 na a2 (requests w3) (answers w3) (cast w3) (counted w3).
Definition w5 := upd_net w4 na a3 (requests w4) (answers w4 ∖ {[+ (nb, na, 1, true) +]}) (cast w4)
  (if true && (1 =? vt_term a2) then counted w4 ∪ {[(na, 1, nb)]} else counted w4).
Definition w6 := upd_net w5 na a4 (requests w5) (answers w5) (cast w5) (counted w5).

Definition returns {A} (m : cres A) : bool := match m with Ret _ => true | _ => false end.

Lemma run_cron_step s :
  returns (clusterCron (ns_srv s) (ex_cron 77) (ns_cluster s) tt) = true -> cron_step s (run_cron s).
Proof.
  intros H. unfold run_cron. destruct (clusterCron _ _ _ _) as [[c d]| |] eqn:E; [|done..].
  exists (ex_cron 77). destruct (ns_data s). by split_and!.
Qed.

Lemma run_packet_ret s :
  returns (clusterProcessPacket (ns_srv s) ex_env (ns_cluster s) 1%positive) = true ->
  clusterProcessPacket (ns_srv s) ex_env (ns_cluster s) 1%positive = Ret (ns_cluster (run_packet s))
  /\ ns_srv (run_packet s) = ns_srv s.
Proof.
  intros H. unfold run_packet. destruct (clusterProcessPacket _ _ _ _) as [c| |]; done.
Qed.

(** The runs return; the terms and the answer are the expected ones. *)
Lemma runs :
  returns (clusterCron (ns_srv a0) (ex_cron 77) (ns_cluster a0) tt) = true
  /\ returns (clusterCron (ns_srv a3) (ex_cron 77) (ns_cluster a3) tt) = true
  /\ returns (clusterProcessPacket (ns_srv a2) ex_env (ns_cluster a2) 1%positive) = true
  /\ returns (clusterProcessPacket (ns_srv b1) ex_env (ns_cluster b1) 1%positive) = true
  /\ vt_term a0 = 0 /\ vt_term a1 = 1 /\ vt_term a2 = 1 /\ vt_term a3 = 1 /\ vt_term a4 = 1
  /\ vt_term b2 = 1 /\ state (rf (ns_cluster a4)) = PREZ_LEADER
  /\ sndbuf (ns_cluster b2) 1%positive = sndbuf (ns_cluster b1) 1%positive
       ++ enc_msg (name40 nb) 7001 (ResponseVote (mkRVR 1 1)).
Proof. vm_compute. split_and!; reflexivity. Qed.

Lemma w0_st : st w0 na = a0 /\ st w0 nb = b0.
Proof. cbn [st w0]. by rewrite (decide_True (P:=na = na)), decide_False, decide_True. Qed.

Lemma start_ok me p q : vt_ok me (start me p q) /\ running (start me p q) = false.
Proof.
  split; [|done]. split_and!; [done|constructor| |done].
  cbn [nodes ns_cluster start length]. vm_compute. reflexivity.
Qed.

Lemma w0_init : net_init all w0.
Proof.
  split_and!; try done. intros n Hn. assert (n = na \/ n = nb \/ n = nc) as Hx by set_solver.
  destruct Hx as [-> | [-> | ->]]; cbn [st w0]; apply start_ok.
Qed.

Lemma w1_step : net_step all w0 w1.
Proof.
  apply (StepElect all w0 na a1 {[nb]}); [set_solver|set_solver|].
  rewrite (proj1 w0_st). destruct runs as (Hr & _ & _ & _ & E0 & E1 & _).
  cbn [vt_term voter cluster_voter] in E0, E1. split_and!.
  - by apply run_cron_step.
  - rewrite E0. rng.
  - by rewrite E0, E1.
Qed.

Lemma receive_other s b : other_step (λ _, []) s (receive s b).
Proof. apply OtherIO; [done|]. cbn. destruct (link_heap _ !! _); by constructor. Qed.

Lemma receive_packet s sender port d :
  bool_decide (is_Some (link_heap (ns_cluster s) !! 1%positive)) = true ->
  length sender = 40%nat -> msg_ok d ->
  packet_on (ns_cluster (receive s (enc_msg sender port d))) 1%positive d.
Proof.
  intros [lk E]%bool_decide_eq_true Hs Hd. unfold receive. cbn [ns_cluster]. rewrite E.
  eexists _, sender, port. split_and!; [cbn; apply lookup_insert_eq|done..].
Qed.

Lemma links :
  bool_decide (is_Some (link_heap (ns_cluster a1) !! 1%positive)) = true
  /\ bool_decide (is_Some (link_heap (ns_cluster b0) !! 1%positive)) = true.
Proof. vm_compute. done. Qed.

Lemma w1_st : st w1 na = a1 /\ st w1 nb = b0.
Proof. cbn [st w1 upd_net]. by rewrite upd_eq, upd_ne by done; rewrite (proj2 w0_st). Qed.

Lemma w2_step : net_step all w1 w2.
Proof.
  apply (StepOther all w1 nb b1); [set_solver|]. rewrite (proj2 w1_st). apply receive_other.
Qed.

Lemma w2_st : st w2 na = a1 /\ st w2 nb = b1.
Proof. cbn [st w2 upd_net]. by rewrite upd_eq, upd_ne by done; rewrite (proj1 w1_st). Qed.

Lemma w3_step : net_step all w2 w3.
Proof.
  destruct runs as (_ & _ & _ & Hr & _ & E1 & _ & _ & _ & Eb & _ & Hs).
  destruct (run_packet_ret b1 Hr) as [Hp Hsrv].
  apply (StepRequest all w2 na nb 1 b2 true).
  - cbn [requests w2 w1 upd_net]. rewrite E1. apply gmultiset_elem_of_disj_union. right.
    rewrite elem_of_multiplicity, multiplicity_to_peers, decide_True; [lia|].
    split_and!; [done|done|by apply elem_of_singleton].
  - rewrite (proj2 w2_st).
    exists ex_env, 1%positive, rv, (peer nb PREZ_NODE_MYSELF None). cbn [vt_term voter cluster_voter] in Eb.
    split_and!; [exact Hsrv|by destruct (ns_data b2), (ns_data b1)| |reflexivity|reflexivity|exact Hp|
      |rewrite Eb; exact Hs].
    + apply receive_packet; [apply links|done|vm_compute; split_and!; done].
    + exists 1%positive. split; [done|]. unfold b1, receive. cbn [ns_cluster].
      by destruct (link_heap _ !! _).
Qed.

Lemma w3_st : st w3 na = a1.
Proof. cbn [st w3 upd_net]. by rewrite upd_ne by done; rewrite (proj1 w2_st). Qed.

Lemma w4_step : net_step all w3 w4.
Proof. apply (StepOther all w3 na a2); [set_solver|]. rewrite w3_st. apply receive_other. Qed.

Lemma w5_step : net_step all w4 w5.
Proof.
  destruct runs as (_ & _ & Hr & _ & _ & _ & _ & _ & _ & Eb & _).
  destruct (run_packet_ret a2 Hr) as [Hp Hsrv].
  assert (st w4 na = a2) as Ea by (cbn [st w4 upd_net]; by rewrite upd_eq).
  pose proof (StepAnswer all w4 nb na 1 true a3) as Hstep. rewrite Ea in Hstep. apply Hstep; clear Hstep.
  - cbn [answers w4 w3 upd_net]. rewrite Eb. apply gmultiset_elem_of_disj_union. right.
    by apply gmultiset_elem_of_singleton.
  - exists ex_env, 1%positive, rvr.
    split_and!; [exact Hsrv|by destruct (ns_data a3), (ns_data a2)| |reflexivity|reflexivity|exact Hp].
    apply receive_packet; [apply links|done|vm_compute; split_and!; done].
Qed.

Lemma w6_step : net_step all w5 w6.
Proof.
  destruct runs as (_ & Hr & _ & _ & _ & _ & _ & E3 & E4 & _).
  apply (StepOther all w5 na a4); [set_solver|]. cbn [st w5 upd_net]. rewrite upd_eq.
  apply OtherCron; [by apply run_cron_step|]. cbn [vt_term voter cluster_voter] in E3, E4.
  by rewrite E3, E4.
Qed.

Lemma w6_reachable : reachable all w6.
Proof.
  eapply ReachStep, w6_step. eapply ReachStep, w5_step. eapply ReachStep, w4_step.
  eapply ReachStep, w3_step. eapply ReachStep, w2_step. eapply ReachStep, w1_step.
  apply ReachInit, w0_init.
Qed.

Lemma w6_leader : state (rf (ns_cluster (st w6 na))) = PREZ_LEADER.
Proof. cbn [st w6 upd_net]. rewrite upd_eq. apply runs. Qed.

Lemma all_ok n : n ∈ all -> name_ok n.
Proof.
  intros Hn. assert (n = na \/ n = nb \/ n = nc) as Hx by set_solver.
  destruct Hx as [-> | [-> | ->]]; by apply name_ok_b.
Qed.

Lemma all_free n m : n ∈ all -> m ∈ all -> n `prefix_of` m -> n = m.
Proof.
  intros Hn Hm [k Hk]. assert (n = na \/ n = nb \/ n = nc) as Hx by set_solver.
  assert (m = na \/ m = nb \/ m = nc) as Hy by set_solver.
  by destruct Hx as [-> | [-> | ->]], Hy as [-> | [-> | ->]].
Qed.
End Three.

Lemma cluster_election_safety_witness :
  reachable (Voter0:=Three.voter) Three.all Three.w6
  /\ state (rf (ns_cluster (st Three.w6 Three.na))) = PREZ_LEADER
  /\ forall n, n ∈ Three.all -> state (rf (ns_cluster (st Three.w6 n))) = PREZ_LEADER ->
       current_term (rf (ns_cluster (st Three.w6 n)))
       = current_term (rf (ns_cluster (st Three.w6 Three.na))) -> n = Three.na.
Proof.
  split_and!; [apply Three.w6_reachable|apply Three.w6_leader|].
  intros n Hn Hl Et.
  apply (cluster_election_safety (λ _, []) Three.all Three.all_ok Three.all_free Three.w6 n Three.na);
    [apply Three.w6_reachable|done|set_solver|done|apply Three.w6_leader|done].
Defined.
