(* ===== verification/ClusterRepl.v ===== *)
(** * Replication and commit

    What the replication handlers of Cluster.v compute: the request a leader builds, what
    a follower makes of it, the commit index of the leader, the log entry of a client
    command and how a follower reads it back. *)

From Stdlib Require Import ZArith Lia.
From stdpp Require Import base tactics numbers list gmap sorting strings.
From S2P Require Import Prelude Util SdsArgs Adlist Log Wire Cluster ClusterVote.
From S2P Require Sds.

Local Open Scope Z_scope.

(** ** The commit index *)

(** Indices of logs of sane length: the [int] difference is the difference. *)
Definition idx_ok (x : Z) : Prop := 0 <= x < 2 ^ 31.

Lemma compareIndices_ok a b : idx_ok a -> idx_ok b -> compareIndices a b = a - b.
Proof.
  unfold idx_ok. intros. unfold compareIndices.
  rewrite (wrap_s64_id (a - b)), wrap_s32_id by rng. done.
Qed.

Lemma qinsert_perm x l : qinsert x l ≡ₚ x :: l.
Proof.
  induction l as [|y l IH]; cbn; [done|]. case_match; [done|]. rewrite IH. apply perm_swap.
Qed.

Lemma qsort_perm l : qsort l ≡ₚ l.
Proof. induction l as [|x l IH]; cbn; [done|]. by rewrite qinsert_perm, IH. Qed.

Lemma qinsert_sorted x l : idx_ok x -> Forall idx_ok l -> StronglySorted Z.le l ->
  StronglySorted Z.le (qinsert x l).
Proof.
  intros Hx Hl Hs. induction Hs as [|y l Hs IH Hy]; cbn; [by repeat constructor|].
  apply Forall_cons in Hl as [Hyo Hl]. rewrite compareIndices_ok by done.
  destruct (Z.leb_spec (x - y) 0).
  - constructor; [by constructor|]. constructor; [lia|].
    eapply Forall_impl; [exact Hy|]. cbn. lia.
  - constructor; [by apply IH|]. rewrite qinsert_perm. constructor; [lia|done].
Qed.

Lemma qsort_sorted l : Forall idx_ok l -> StronglySorted Z.le (qsort l).
Proof.
  induction 1 as [|x l Hx Hl IH]; cbn; [constructor|].
  apply qinsert_sorted; [done|by rewrite qsort_perm|done].
Qed.

Lemma reverseIndices_reverse l : reverseIndices l = reverse l.
Proof. apply swap_all_reverse. Qed.

Lemma sorted_lookup_le s i j x y : StronglySorted Z.le s -> (i <= j)%nat ->
  s !! i = Some x -> s !! j = Some y -> x <= y.
Proof.
  intros Hs. revert i j. induction Hs as [|z s Hs IH Hz]; intros i j Hij Ei Ej; [done|].
  destruct i as [|i], j as [|j]; cbn in *; simplify_eq; [done| |lia|].
  - by eapply (Forall_lookup_1 _ _ _ _ Hz).
  - eapply (IH i j); [lia|done|done].
Qed.

(** The number of indices that are at least [m]. *)
Definition support (l : list Z) (m : Z) : nat := length (filter (λ x, m <= x) l).

Lemma support_perm l l' m : l ≡ₚ l' -> support l m = support l' m.
Proof. intros H. unfold support. by rewrite H. Qed.

Lemma support_app l l' m : support (l ++ l') m = (support l m + support l' m)%nat.
Proof. unfold support. by rewrite filter_app, length_app. Qed.

Lemma support_all l m : Forall (λ x, m <= x) l -> support l m = length l.
Proof.
  unfold support. induction 1 as [|x l Hx _ IH]; [done|].
  rewrite filter_cons_True by done. cbn. by rewrite IH.
Qed.

Lemma support_none l m : Forall (λ x, x < m) l -> support l m = 0%nat.
Proof.
  unfold support. induction 1 as [|x l Hx _ IH]; [done|]. by rewrite filter_cons_False by lia.
Qed.

(** The element [q - 1] of the descending array is the largest index with a support of
    [q]. *)
Lemma quorum_index l q ci :
  Forall idx_ok l -> (0 < q)%nat -> reverseIndices (qsort l) !! (q - 1)%nat = Some ci ->
  (q <= support l ci)%nat /\ forall m, (q <= support l m)%nat -> m <= ci.
Proof.
  intros Hl Hq E. pose proof (qsort_sorted l Hl) as Hs. pose proof (qsort_perm l) as Hp.
  rewrite reverseIndices_reverse in E. set (s := qsort l) in *.
  assert (q - 1 < length s)%nat as Hlt by (apply lookup_lt_Some in E; by rewrite length_reverse in E).
  rewrite lookup_rev_Z in E by done. set (k := (length s - 1 - (q - 1))%nat) in *.
  rewrite <- (support_perm _ _ ci Hp). split.
  - rewrite <- (take_drop k s), support_app, (support_all (drop k s)), length_drop.
    + unfold k. lia.
    + apply Forall_lookup. intros i x Ex. rewrite lookup_drop in Ex.
      eapply (sorted_lookup_le s k (k + i)); [done|lia|done|done].
  - intros m. rewrite <- (support_perm _ _ m Hp). intros Hm.
    destruct (decide (m <= ci)) as [|Hgt]; [done|]. exfalso.
    rewrite <- (take_drop (S k) s), support_app, (support_none (take (S k) s)) in Hm.
    + assert (support (drop (S k) s) m <= length s - S k)%nat
        by (unfold support; etrans; [apply length_filter|]; rewrite length_drop; lia).
      unfold k in *. lia.
    + apply Forall_lookup. intros i x [Ex Hi]%lookup_take_Some.
      pose proof (sorted_lookup_le s i k x ci Hs ltac:(lia) Ex E). lia.
Qed.

(** The match indices of the nodes, in the order of the dict. *)
Definition indices (c : cluster) : list Z :=
  (λ '(_, a), from_option cn_match_index 0 (node_heap c !! a)) <$> nodes c.

Lemma match_indices_ret c ds :
  (forall k a, (k, a) ∈ ds -> is_Some (node_heap c !! a)) ->
  match_indices c ds = Ret ((λ '(_, a), from_option cn_match_index 0 (node_heap c !! a)) <$> ds).
Proof.
  induction ds as [|[k a] ds IH]; intros H; cbn; [done|].
  destruct (H k a ltac:(by left)) as [n En]. rewrite En. cbn.
  rewrite IH; [done|]. intros k' a' Hin. eapply H. by right.
Qed.


Definition ex_repl : cluster :=
  mkCluster (mkRaft PREZ_LEADER [] vs_empty 2 0 2 1 1) ex_log (Some 1%positive)
    [(memcpy (replicate 40 0) (lit "a"), 1%positive); (memcpy (replicate 40 0) (lit "b"), 2%positive);
     (memcpy (replicate 40 0) (lit "c"), 3%positive)]
    (list_to_map
       [(1%positive, mkNode (memcpy (replicate 40 0) (lit "a")) 16 0 0 None 0 2 [] 0 None);
        (2%positive, mkNode (memcpy (replicate 40 0) (lit "b")) 0 0 0 None 2 2 [] 0 (Some 1%positive));
        (3%positive, mkNode (memcpy (replicate 40 0) (lit "c")) 0 0 0 None 1 0 [] 0 None)])
    (list_to_map [(1%positive, mkLink 0 5 [] [] (Some 2%positive) false)])
    2%positive ∅ 150 10 0 0.

Lemma ex_repl_links : links_ok ex_repl.
Proof.
  split.
  - intros k a Hin. assert (a = 1 \/ a = 2 \/ a = 3)%positive as Ha by (cbn in Hin; set_solver).
    destruct Ha as [-> | [-> | ->]]; by eexists.
  - intros a n l En El. cbn in En.
    repeat (rewrite lookup_insert_Some in En; destruct En as [[<- <-]|[? En]];
      [cbn in El; by simplify_eq|]). done.
Qed.


(** ** Log matching *)

(** Two logs with an entry of the same term at a position agree up to it. *)
Definition log_match (f l : list aentry) : Prop :=
  forall i a b, f !! i = Some a -> l !! i = Some b -> a_term a = a_term b ->
    take (S i) f = take (S i) l.

Lemma log_match_prefix l n : log_match (take n l) l.
Proof.
  intros i a b Ha Hb _. apply lookup_take_Some in Ha as [_ Hi].
  rewrite take_take. f_equal. lia.
Qed.

(** One step of the append rule with the leader's own entry. *)
Lemma raft_put_match f l i a :
  log_match f l -> l !! i = Some a -> take i f = take i l ->
  let f' := raft_put f i a in
  take (S i) f' = take (S i) l /\ log_match f' l.
Proof.
  intros Hm Ha Hp. pose proof (lookup_lt_Some _ _ _ Ha) as Hil.
  assert (take i f ++ [a] = take (S i) l) as Es by (rewrite Hp; by rewrite (take_S_r l i a)).
  cbn. unfold raft_put. destruct (f !! i) as [b|] eqn:Eb.
  - destruct (Z.eqb_spec (a_term b) (a_term a)) as [Et|Et].
    + split; [by eapply Hm|done].
    + rewrite Es. split; [by rewrite take_take, Nat.min_id|apply log_match_prefix].
  - apply lookup_ge_None in Eb. assert (f ++ [a] = take (S i) l) as ->
      by (rewrite <- Es; by rewrite take_ge by lia).
    split; [by rewrite take_take, Nat.min_id|apply log_match_prefix].
Qed.

Lemma raft_merge_match es : forall f l i,
  log_match f l -> take i f = take i l -> (i <= length f)%nat ->
  es = take (length es) (drop i l) ->
  take (i + length es) (raft_merge f i es) = take (i + length es) l
  /\ log_match (raft_merge f i es) l.
Proof.
  induction es as [|a es IH]; intros f l i Hm Hp Hi He; cbn [raft_merge length].
  - rewrite Nat.add_0_r. done.
  - assert (l !! i = Some a) as Ha.
    { apply (f_equal (λ x, x !! 0%nat)) in He. rewrite lookup_take_lt in He by (cbn; lia).
      rewrite lookup_drop, Nat.add_0_r in He. by cbn in He. }
    destruct (raft_put_match f l i a Hm Ha Hp) as [Hp' Hm'].
    rewrite <- Nat.add_succ_comm. apply IH; [done|done|by apply length_raft_put_ge|].
    rewrite (drop_S l a i Ha) in He. cbn in He. by injection He.
Qed.

(** ** Building a request *)

Lemma copy_entry_ret e : entry_ok e -> copy_entry e = Ret (padded e).
Proof.
  intros [_ _ (n & En & Tn & Cn & _)%c40_strlen (t & Et & Tt & Ct & _)%c40_strlen].
  unfold copy_entry, padded. rewrite En, Et. cbn [of_ptr mbind cres_bind].
  by rewrite Tn, Tt, Cn, Ct.
Qed.

Lemma copy_entries_ret ens :
  Forall (λ en, entry_ok (log_entry en)) ens ->
  copy_entries ens = Ret ((λ en, padded (log_entry en)) <$> ens).
Proof.
  induction 1 as [|en ens He _ IH]; cbn [copy_entries]; [done|].
  rewrite copy_entry_ret by done. cbn [mbind cres_bind]. by rewrite IH.
Qed.

(** The entries a leader sends: up to 50, from [next] on. *)
Lemma entries_from_wf s next :
  log_wf s -> 1 <= next <= logLength s + 1 ->
  entries_from s next = take 50 (drop (Z.to_nat (next - 1)) (log_entries s)).
Proof.
  intros Hw Hn. unfold entries_from. rewrite logCurrentIndex_wf by apply Hw.
  pose proof (lw_small s Hw) as Hs. unfold log_small in Hs.
  destruct (Z.leb_spec next (logLength s)) as [Hle|Hgt].
  - rewrite getLogNode_spec by (done || rng).
    by rewrite (proj2 (Z.leb_le 1 next)), (proj2 (Z.leb_le next _)) by lia.
  - rewrite drop_ge by (unfold logLength in *; lia). done.
Qed.

(** The request for a peer whose next index is [next]. *)
Definition request_for (c : cluster) (name : bytes) (next : Z) : appendEntries :=
  let es := (λ en, padded (log_entry en)) <$> entries_from (log c) next in
  mkAE (current_term (rf c)) name (next - 1) (logGetTerm (log c) (next - 1)) (commit_index (rf c))
    (Z.of_nat (length es)) es.

Lemma entries_from_ok s next :
  log_wf s -> Forall (λ en, entry_ok (log_entry en)) (entries_from s next).
Proof.
  intros [_ He _]. unfold entries_from. repeat case_match; try constructor.
  by apply Forall_take, Forall_drop.
Qed.

Lemma request_for_ok c name next :
  log_wf (log c) -> 1 <= next <= logLength (log c) + 1 ->
  let e := request_for c name next in
  Forall entry_ok (ae_log_entries e)
  /\ log_entries_count e = Z.of_nat (length (ae_log_entries e))
  /\ (length (ae_log_entries e) <= 50)%nat
  /\ (forall k x, ae_log_entries e !! k = Some x -> index x = prev_log_index e + Z.of_nat k + 1)
  /\ (view <$> ae_log_entries e)
     = take (length (ae_log_entries e)) (drop (Z.to_nat (next - 1)) (views (log c)))
  /\ has_entry (views (log c)) (prev_log_index e) (prev_log_term e).
Proof.
  intros Hw Hn. cbv zeta. pose proof (entries_from_ok (log c) next Hw) as Ho.
  pose proof (entries_from_wf (log c) next Hw Hn) as Ee.
  cbn [request_for ae_log_entries log_entries_count prev_log_index prev_log_term].
  rewrite length_fmap. split_and!.
  - apply Forall_fmap. eapply Forall_impl; [exact Ho|]. intros en. apply padded_ok.
  - done.
  - rewrite Ee, length_take. lia.
  - intros k x. rewrite list_lookup_fmap, Ee. destruct (_ !! k) as [en|] eqn:Ek; [|done].
    cbn. intros [= <-]. apply lookup_take_Some in Ek as [Ek _]. rewrite lookup_drop in Ek.
    cbn. rewrite (lw_index _ Hw _ _ Ek). lia.
  - rewrite <- list_fmap_compose.
    assert ((view ∘ (λ en, padded (log_entry en)) <$> entries_from (log c) next)
      = ((λ en, view (log_entry en)) <$> entries_from (log c) next)) as ->.
    { apply list_fmap_ext. intros i en Hi. cbn. apply view_padded. by eapply (Forall_lookup_1 _ _ _ _ Ho). }
    unfold views. rewrite <- fmap_drop, <- fmap_take. f_equal.
    rewrite Ee. set (x := drop _ _). rewrite length_take.
    destruct (decide (50 <= length x)%nat); [by rewrite Nat.min_l by lia|].
    rewrite Nat.min_r by lia. by rewrite !take_ge by lia.
  - unfold has_entry. destruct (decide (next = 1)) as [->|Hne]; [by left|]. right. split; [lia|].
    rewrite logGetTerm_view by (apply Hw || lia).
    destruct (lookup_lt_is_Some_2 (views (log c)) (Z.to_nat (next - 1 - 1))) as [a Ea];
      [pose proof (length_views (log c)); lia|]. by rewrite Ea.
Qed.

(** Sending a request: the packet and the entry remembered as last sent. *)
Lemma clusterSendAppendEntries_spec srv c l lk na node self :
  link_heap c !! l = Some lk -> cl_node lk = Some na -> node_heap c !! na = Some node ->
  self_node c self -> log_wf (log c) ->
  exists c', clusterSendAppendEntries srv c l = Ret c' /\ same_raft c c'
    /\ sndbuf c' l = sndbuf c l ++ enc_msg (cn_name self) (server_port srv)
         (AppendEntries (request_for c (cn_name self) (cn_next_index node)))
    /\ (exists node', node_heap c' !! na = Some node'
         /\ cn_last_sent_entry node' = addr <$> last (entries_from (log c) (cn_next_index node))
         /\ cn_next_index node' = cn_next_index node /\ cn_match_index node' = cn_match_index node).
Proof.
  intros El Ena En Hs Hw. unfold clusterSendAppendEntries.
  rewrite El. cbn [of_ptr mbind cres_bind]. rewrite Ena. cbn [of_ptr mbind cres_bind].
  rewrite En. cbn [of_ptr mbind cres_bind].
  pose proof Hs as (me & -> & Eme). cbn [of_ptr mbind cres_bind].
  rewrite Eme. cbn [of_ptr mbind cres_bind].
  rewrite copy_entries_ret by (by apply entries_from_ok). cbn [mbind cres_bind].
  rewrite (build_message_ret srv c self) by done. cbn [mbind cres_bind].
  set (node' := mkNode _ _ _ _ _ _ _ _ _ _).
  destruct (clusterSendMessage_spec (set_node c na node') l (enc_msg (cn_name self) (server_port srv)
    (AppendEntries (request_for c (cn_name self) (cn_next_index node)))))
    as (c' & E & Hst & Hb & _); [by exists lk|].
  exists c'. split_and!.
  - exact E.
  - by apply same_state_raft in Hst as [].
  - exact Hb.
  - exists node'. rewrite (ss_heap _ _ Hst). cbn. rewrite lookup_insert_eq. done.
Qed.

(** ** Handling a request *)

Lemma clusterSendResponseAppendEntries_spec srv c l ok n :
  self_node c n -> is_Some (link_heap c !! l) ->
  exists c', clusterSendResponseAppendEntries srv c l ok = Ret c' /\ same_state c c'
    /\ sndbuf c' l = sndbuf c l ++ enc_msg (cn_name n) (server_port srv)
         (ResponseAppendEntries (mkAER (current_term (rf c)) (logCurrentIndex (log c))
            (commit_index (rf c)) ok)).
Proof.
  intros Hn Hl. unfold clusterSendResponseAppendEntries. rewrite (build_message_ret _ _ n) by done.
  cbn [mbind cres_bind].
  destruct (clusterSendMessage_spec c l (enc_msg (cn_name n) (server_port srv)
    (ResponseAppendEntries (mkAER (current_term (rf c)) (logCurrentIndex (log c))
            (commit_index (rf c)) ok))) Hl) as (c' & -> & ? & ? & _).
  by exists c'.
Qed.

(** What the answer of a follower in state [c'] says. *)
Definition answers_with (srv : server) (c c' : cluster) (l : addr_t) (n : clusterNode) (ok : Z) : Prop :=
  sndbuf c' l = sndbuf c l ++ enc_msg (cn_name n) (server_port srv)
    (ResponseAppendEntries (mkAER (current_term (rf c')) (logCurrentIndex (log c'))
       (commit_index (rf c')) ok)).

(** A request numbered from the previous index on. *)
Record request_ok (s : logStore) (e : appendEntries) : Prop := {
  ro_entries : Forall entry_ok (ae_log_entries e);
  ro_count : log_entries_count e = Z.of_nat (length (ae_log_entries e));
  ro_numbers : forall k x, ae_log_entries e !! k = Some x -> index x = prev_log_index e + Z.of_nat k + 1;
  ro_small : logLength s + log_entries_count e < 2 ^ 62;
  ro_prev : - 2 ^ 62 <= prev_log_index e <= 2 ^ 62;
  ro_last : no_last_conflicts (views s) (Z.to_nat (prev_log_index e)) (view <$> ae_log_entries e);
}.

(** The three outcomes of a request: the term is old; the previous entry is missing;
    the entries are merged and the commit index follows. *)
Inductive append_outcome (now : Z) (c : cluster) (e : appendEntries) (ld : bytes) (c' : cluster)
    : Z -> Prop :=
  | AppendOld : ae_term e < current_term (rf c) -> rf c' = rf c -> log c' = log c ->
      append_outcome now c e ld c' PREZ_ERR
  | AppendMissing : current_term (rf c) <= ae_term e ->
      ~ has_entry (views (log c)) (prev_log_index e) (prev_log_term e) ->
      rf c' = accept_leader (rf c) now (ae_term e) ld -> log c' = log c ->
      append_outcome now c e ld c' PREZ_ERR
  | AppendMerged : current_term (rf c) <= ae_term e ->
      has_entry (views (log c)) (prev_log_index e) (prev_log_term e) ->
      rf c' = r_commit_index (accept_leader (rf c) now (ae_term e) ld)
                (logCommitIndex (log c') (commit_index (rf c)) (leader_commit_index e)) ->
      log_wf (log c') ->
      views (log c') = raft_merge (views (log c)) (Z.to_nat (prev_log_index e))
                         (view <$> ae_log_entries e) ->
      append_outcome now c e ld c' PREZ_OK.

Lemma has_entry_bound s i t : has_entry (views s) i t -> 0 <= i <= logLength s.
Proof.
  pose proof (length_views s). pose proof (logLength_nonneg s).
  intros [->|[? E]]; [lia|]. destruct (views s !! _) eqn:El; [|done].
  apply lookup_lt_Some in El. lia.
Qed.

Lemma accept_commit r now t ld : commit_index (accept_leader r now t ld) = commit_index r.
Proof. unfold accept_leader. by repeat case_match. Qed.

Lemma process_append srv ev c l e ld n :
  self_node c n -> is_Some (link_heap c !! l) -> log_wf (log c) ->
  leader_string e = Ret ld -> request_ok (log c) e -> (forall s, io_fsync (io ev) s = true) ->
  exists c' ok, clusterProcessAppendEntries srv ev c l e = Ret c'
    /\ append_outcome (mstime ev) c e ld c' ok /\ answers_with srv c c' l n ok.
Proof.
  intros Hn Hl Hw Hld [Ro Rc Rn Rs Rp Rl] Hsync. unfold clusterProcessAppendEntries.
  destruct (Z.ltb_spec (ae_term e) (current_term (rf c))) as [Ht|Ht].
  { destruct (clusterSendResponseAppendEntries_spec srv c l PREZ_ERR n Hn Hl) as (c' & -> & [Er El' _ _ _ _] & Hb).
    exists c', PREZ_ERR. split_and!; [done|by apply AppendOld|]. unfold answers_with. by rewrite Er, El'. }
  rewrite Hld. cbn [mbind cres_bind].
  set (c1 := set_rf c (accept_leader (rf c) (mstime ev) (ae_term e) ld)).
  destruct (logVerifyAppend_cases (log c1) (prev_log_index e) (prev_log_term e) Hw Rp)
    as [[-> Hh]|[-> Hh]]; cbn [mbind cres_bind Z.eqb negb PREZ_OK PREZ_ERR].
  2:{ destruct (clusterSendResponseAppendEntries_spec srv c1 l PREZ_ERR n Hn Hl) as (c' & -> & [Er El' _ _ _ _] & Hb).
      exists c', PREZ_ERR. split_and!; [done|by apply AppendMissing|]. unfold answers_with. by rewrite Er, El'. }
  pose proof (has_entry_bound _ _ _ Hh) as Hb.
  destruct (logAppendEntries_merge (io ev) (log c1) e (Z.to_nat (prev_log_index e)))
    as (s' & -> & Hw' & Hv & _); try done.
  { intros k x Ek. rewrite (Rn k x Ek). lia. }
  { pose proof (length_views (log c1)). lia. }
  rewrite Hsync. cbn [mbind cres_bind Z.eqb negb PREZ_OK].
  set (c2 := set_rf (set_log c1 s') _).
  destruct (clusterSendResponseAppendEntries_spec srv c2 l PREZ_OK n Hn Hl) as (c' & -> & [Er El' _ _ _ _] & Hb').
  exists c', PREZ_OK. split_and!; [done| |].
  - apply AppendMerged; try done; [|by rewrite El'..]. rewrite Er, El'. cbn. by rewrite accept_commit.
  - unfold answers_with. by rewrite Er, El'.
Qed.

(** ** Properties *)


Lemma ex_request_ok : request_ok ex_log ex_request.
Proof.
  constructor.
  - repeat constructor; apply entry_okb_ok; reflexivity.
  - reflexivity.
  - intros [|[|k]] e [= <-]; reflexivity.
  - reflexivity.
  - cbn. lia.
  - intros [|[|k]] a [= <-] Hm b Eb Hne; [vm_compute; lia|].
    specialize (Hm 0%nat _ ltac:(lia) eq_refl). by vm_compute in Hm.
Qed.


Lemma follower_prefix f l prev t :
  log_match f l -> has_entry f prev t -> has_entry l prev t ->
  take (Z.to_nat prev) f = take (Z.to_nat prev) l.
Proof.
  intros Hm [->|[Hp Ef]] Hl; [done|]. destruct Hl as [->|[_ El]]; [done|].
  destruct (f !! _) as [a|] eqn:Ea; [|done]. destruct (l !! _) as [b|] eqn:Eb; [|done].
  cbn in Ef, El. pose proof (Hm _ a b Ea Eb ltac:(congruence)) as H.
  by replace (S (Z.to_nat (prev - 1))) with (Z.to_nat prev) in H by lia.
Qed.

(** A leader about to send to the node behind link [l]. *)
Record can_send (c : cluster) (l : addr_t) (node self : clusterNode) : Prop := {
  cs_link : exists lk na, link_heap c !! l = Some lk /\ cl_node lk = Some na
    /\ node_heap c !! na = Some node;
  cs_self : self_node c self;
  cs_name : c40 (cn_name self);
  cs_log : log_wf (log c);
  cs_term : in_s64 (current_term (rf c));
  cs_commit : in_s64 (commit_index (rf c));
  cs_next : 1 <= cn_next_index node <= logLength (log c) + 1;
}.

Lemma request_for_msg_ok c l node self :
  can_send c l node self -> msg_ok (AppendEntries (request_for c (cn_name self) (cn_next_index node))).
Proof.
  intros [_ _ [Hn _] Hw Ht Hci Hnx]. set (e := request_for _ _ _).
  destruct (request_for_ok c (cn_name self) (cn_next_index node) Hw Hnx) as (Ro & Rc & R50 & _ & _ & Rh).
  fold e in Ro, Rc, R50, Rh. pose proof (lw_small _ Hw) as HsL. unfold log_small in HsL.
  split_and!; try done; [cbn; rng| |].
  - destruct Rh as [E0|[_ E0]]; cbn in E0 |- *.
    + rewrite E0. unfold logGetTerm. rewrite getLogEntry_nonpos by (apply Hw || lia). rng.
    + unfold views in E0. rewrite list_lookup_fmap in E0.
      destruct (log_entries (log c) !! _) as [en|] eqn:Een; [|done]. cbn in E0. injection E0 as <-.
      apply (Forall_lookup_1 _ _ _ _ (lw_entry _ Hw) Een).
  - eapply Forall_impl; [exact Ro|]. intros x [? ? [? _] [? _]]. done.
Qed.

Lemma leader_string_ret e s : cstr (ae_leaderid e) = Some s -> leader_string e = Ret s.
Proof. intros H. unfold leader_string. by rewrite (cstr_app_some _ _ s). Qed.

(** A follower that can take the request [e]: not ahead in terms, holding the entry
    before it, with a log that matches the leader's. *)
Record can_take (ev : env) (cL c : cluster) (l : addr_t) (pkt : bytes) (n : clusterNode)
    (e : appendEntries) : Prop := {
  ct_link : exists lk, link_heap c !! l = Some lk /\ cl_rcvbuf lk = pkt;
  ct_self : self_node c n;
  ct_log : log_wf (log c);
  ct_term : current_term (rf c) <= ae_term e;
  ct_small : logLength (log c) + 50 < 2 ^ 62;
  ct_sync : forall s, io_fsync (io ev) s = true;
  ct_prev : has_entry (views (log c)) (prev_log_index e) (prev_log_term e);
  ct_match : log_match (views (log c)) (views (log cL));
  ct_last : no_last_conflicts (views (log c)) (Z.to_nat (prev_log_index e)) (view <$> ae_log_entries e);
}.


(** A follower with the first of the leader's two entries. *)
Definition ex_follower (pkt : bytes) : cluster :=
  mkCluster ex_raft (persisted good_io empty_log (ex_entry 1 1 "set a 1")) (Some 1%positive)
    [(memcpy (replicate 40 0) (lit "b"), 1%positive)]
    (list_to_map [(1%positive, ex_node (lit "b") None)])
    (list_to_map [(1%positive, mkLink 0 6 [] pkt None false)]) 2%positive ∅ 150 10 0 0.

Definition ex_peer : clusterNode :=
  mkNode (memcpy (replicate 40 0) (lit "b")) 0 0 0 None 2 2 [] 0 (Some 1%positive).
Definition ex_self : clusterNode :=
  mkNode (memcpy (replicate 40 0) (lit "a")) 16 0 0 None 0 2 [] 0 None.

Lemma ex_can_send : can_send ex_repl 1%positive ex_peer ex_self.
Proof.
  constructor.
  - by eexists _, 2%positive.
  - by exists 1%positive.
  - apply c40_padded; [by repeat constructor|cbn; lia].
  - apply ex_log_wf.
  - cbn. rng.
  - cbn. rng.
  - split; by vm_compute.
Qed.

Lemma ex_can_take :
  let e := request_for ex_repl (cn_name ex_self) 2 in
  let pkt := enc_msg (cn_name ex_self) 7001 (AppendEntries e) in
  can_take ex_env ex_repl (ex_follower pkt) 1%positive pkt (ex_node (lit "b") None) e.
Proof.
  constructor.
  - by eexists.
  - by exists 1%positive.
  - apply log_wfb_ok. reflexivity.
  - by vm_compute.
  - reflexivity.
  - done.
  - right. split; [done|]. reflexivity.
  - change (log_match (take 1 (views ex_log)) (views ex_log)). apply log_match_prefix.
  - intros k a Hk _ b Eb. exfalso. apply lookup_lt_Some in Eb. cbn in Eb. lia.
Qed.


(** An acknowledgement counts whatever was sent last.  On a positive answer the
    leader sets the match index of the node to the index of the entry it sent most
    recently, whatever the answer says: the answer to an earlier request, from a follower
    whose log ends at [aer_index], before that entry, counts as an acknowledgement of it. *)
Theorem ack_counts_last_sent c l lk na node a en e :
  link_heap c !! l = Some lk -> cl_node lk = Some na -> node_heap c !! na = Some node ->
  cn_last_sent_entry node = Some a -> entry_at (log c) a = Some en ->
  aer_ok e = PREZ_OK -> aer_index e < index (log_entry en) ->
  exists c' node', clusterProcessResponseAppendEntries c l e = Ret c'
    /\ node_heap c' !! na = Some node'
    /\ cn_match_index node' = index (log_entry en) /\ aer_index e < cn_match_index node'
    /\ cn_next_index node' = index (log_entry en) + 1.
Proof.
  intros El Ena En Ea Een Ek Hlt. unfold clusterProcessResponseAppendEntries.
  rewrite El. cbn [of_ptr mbind cres_bind]. rewrite Ek, Z.eqb_refl, Ena.
  cbn [of_ptr mbind cres_bind]. rewrite En. cbn [of_ptr mbind cres_bind].
  rewrite Ea, Een. cbn [of_ptr mbind cres_bind]. eexists _, _.
  split; [done|]. cbn. rewrite lookup_insert_eq. by split_and!.
Qed.

(** The leader of the examples after it sent both entries to [b]. *)
Definition ex_sent : cluster :=
  set_node ex_repl 2%positive
    (mkNode (memcpy (replicate 40 0) (lit "b")) 0 0 0 (Some 2%positive) 1 0 [] 0 (Some 1%positive)).

Lemma ack_counts_last_sent_witness :
  exists c' node', clusterProcessResponseAppendEntries ex_sent 1%positive (mkAER 2 0 0 PREZ_OK) = Ret c'
    /\ node_heap c' !! 2%positive = Some node' /\ cn_match_index node' = 2.
Proof.
  destruct (ack_counts_last_sent ex_sent 1%positive (mkLink 0 5 [] [] (Some 2%positive) false) 2%positive
    (mkNode (memcpy (replicate 40 0) (lit "b")) 0 0 0 (Some 2%positive) 1 0 [] 0 (Some 1%positive))
    2%positive (mkLogNode 2 (padded (ex_entry 2 2 "set b 2")) 40) (mkAER 2 0 0 PREZ_OK))
    as (c' & node' & E & En & Em & _).
  - reflexivity.
  - reflexivity.
  - reflexivity.
  - reflexivity.
  - reflexivity.
  - reflexivity.
  - by vm_compute.
  - exists c', node'. by split_and!.
Defined.

(** A negative answer of the same term. *)
Lemma refused_decrements c l lk na node e :
  link_heap c !! l = Some lk -> cl_node lk = Some na -> node_heap c !! na = Some node ->
  aer_ok e = PREZ_ERR -> aer_term e <= current_term (rf c) ->
  clusterProcessResponseAppendEntries c l e
  = Ret (set_node c na (set_indices node (cn_next_index node - 1) (cn_match_index node))).
Proof.
  intros El Ena En Ek Ht. unfold clusterProcessResponseAppendEntries.
  rewrite El. cbn [of_ptr mbind cres_bind]. rewrite Ek, Ena.
  rewrite (proj2 (Z.ltb_ge _ _)) by done. cbn [Z.eqb PREZ_ERR PREZ_OK of_ptr mbind cres_bind].
  by rewrite En.
Qed.

(** A next index of 0 or less never recovers.  [next_index] is decremented on every
    negative answer without a lower bound (several can be on their way for the same
    mismatch).  Once it is 0 or less the request carries no entries and a negative
    previous index, every follower refuses it and keeps its log, and the refusal
    decrements the index again. *)
Theorem next_index_never_recovers c l lk na node e cF :
  link_heap c !! l = Some lk -> cl_node lk = Some na -> node_heap c !! na = Some node ->
  log_wf (log c) -> - 2 ^ 61 <= cn_next_index node <= 0 ->
  log_wf (log cF) -> aer_ok e = PREZ_ERR -> aer_term e <= current_term (rf c) ->
  entries_from (log c) (cn_next_index node) = []
  /\ logVerifyAppend (log cF) (cn_next_index node - 1) (logGetTerm (log c) (cn_next_index node - 1))
     = Ret PREZ_ERR
  /\ exists c' node', clusterProcessResponseAppendEntries c l e = Ret c'
       /\ node_heap c' !! na = Some node' /\ cn_next_index node' < cn_next_index node <= 0.
Proof.
  intros El Ena En Hw Hn HwF Ek Ht. pose proof (lw_small _ Hw) as Hs. unfold log_small in Hs.
  pose proof (logLength_nonneg (log c)). split_and!.
  - unfold entries_from. destruct (_ <=? _); [|done].
    rewrite getLogNode_spec by (apply Hw || lia).
    rewrite (proj2 (Z.leb_gt 1 _)), (proj2 (Z.ltb_ge _ (cn_next_index node))) by lia. done.
  - destruct (logVerifyAppend_cases (log cF) (cn_next_index node - 1)
      (logGetTerm (log c) (cn_next_index node - 1)) HwF ltac:(lia)) as [[_ Hh]|[-> _]]; [|done].
    destruct Hh as [?|[? _]]; lia.
  - rewrite (refused_decrements c l lk na node e) by done. eexists _, _.
    split; [done|]. cbn. rewrite lookup_insert_eq. split; [done|]. cbn. lia.
Qed.

Lemma next_index_never_recovers_witness :
  let node := mkNode (memcpy (replicate 40 0) (lit "b")) 0 0 0 None 0 0 [] 0 (Some 1%positive) in
  let c := set_node ex_repl 2%positive node in
  logVerifyAppend (log (ex_cluster ex_raft ex_log)) (-1) (logGetTerm (log c) (-1)) = Ret PREZ_ERR
  /\ exists c' node', clusterProcessResponseAppendEntries c 1%positive (mkAER 2 2 0 PREZ_ERR) = Ret c'
       /\ node_heap c' !! 2%positive = Some node' /\ cn_next_index node' < 0 <= 0.
Proof.
  intros node c.
  destruct (next_index_never_recovers c 1%positive (mkLink 0 5 [] [] (Some 2%positive) false) 2%positive
    node (mkAER 2 2 0 PREZ_ERR) (ex_cluster ex_raft ex_log)) as (_ & H1 & H2).
  - reflexivity.
  - reflexivity.
  - reflexivity.
  - apply ex_log_wf.
  - cbn. lia.
  - apply ex_log_wf.
  - reflexivity.
  - by vm_compute.
  - by split.
Defined.
