(* ===== verification/ClusterCommand.v ===== *)
(** * Client commands

    From the words of a client command to the log entry of the leader
    ([clusterProcessCommand]) and back to the words a follower runs ([logApply]): when the
    text of the command is built at all, what it is, and for which words a follower reads
    back what the client sent. *)

From Stdlib Require Import ZArith Lia.
From stdpp Require Import base tactics numbers list gmap strings.
From S2P Require Import Prelude Util SdsArgs Adlist Log Wire Cluster ClusterVote.
From S2P Require Sds.

Local Open Scope Z_scope.

(** ** The space left in the string *)

(** Length and free space after appending [n] bytes to a string below 1 MB. *)
Definition room_step (lf : Z * Z) (n : Z) : Z * Z :=
  if n <=? lf.2 then (lf.1 + n, lf.2 - n) else (lf.1 + n, lf.1 + n).

(** After the words of a command, separated by blanks. *)
Fixpoint room (lf : Z * Z) (argv : list bytes) : Z * Z :=
  match argv with
  | [] => lf
  | a :: argv =>
      let lf := room_step lf (Z.of_nat (length a)) in
      room (match argv with [] => lf | _ => room_step lf 1 end) argv
  end.

Section Text.
Context (junk : nat -> bytes) (junk_length : forall n, length (junk n) = n).

Lemma sdscatlen_room s t :
  Sds.wf s -> Sds.len s + Z.of_nat (length t) < 2 ^ 20 ->
  (Sds.len (Sds.sdscatlen junk s t), Sds.free (Sds.sdscatlen junk s t))
  = room_step (Sds.len s, Sds.free s) (Z.of_nat (length t)).
Proof.
  intros W Hb. pose proof W as [W1 W2 W3 W4 W5]. destruct (Sds.wf_bounds s W) as [El Ea].
  unfold Sds.sdscatlen, Sds.sdsMakeRoomFor, room_step. rewrite El, Ea. cbn [fst snd].
  change (2 ^ 20) with 1048576 in Hb. unfold Sds.SDS_MAX_PREALLOC.
  destruct (Z.leb_spec (Z.of_nat (length t)) (Sds.free s)); cbn [Sds.len Sds.free].
  - rewrite !wrap_s32_id by rng. done.
  - rewrite (proj2 (Z.ltb_lt _ _)) by lia. rewrite (wrap_s32_id (_ * 2 - _)) by rng.
    rewrite !wrap_s32_id by rng. f_equal. lia.
Qed.

(** A word [printf] copies as it is. *)
Definition fmt_word (w : bytes) : Prop := nonul w /\ Forall (λ c, c <> 37) w.

Lemma printf1_plain w n : Forall (λ c, c <> 37) w -> printf1 w n = Ret w.
Proof.
  induction 1 as [|c w Hc _ IH]; cbn [printf1]; [done|].
  rewrite (proj2 (Z.eqb_neq _ _) Hc), IH. done.
Qed.

(** One word of the loop. *)
Lemma cmdrepr_word s w :
  Sds.wf s -> fmt_word w -> Sds.len s + Z.of_nat (length w) < 2 ^ 20 ->
  exists s', (fmt ← of_ptr (cstr (w ++ [0])); t ← printf1 fmt (Some (Z.of_nat (length w)));
              Sds.sdscat junk s (t ++ [0])) = Ret s'
    /\ Sds.wf s' /\ Sds.str s' = Sds.str s ++ w
    /\ (Sds.len s', Sds.free s') = room_step (Sds.len s, Sds.free s) (Z.of_nat (length w)).
Proof.
  intros W [Hn Hf] Hb. rewrite cstr_app_nul by done. cbn [of_ptr mbind cres_bind].
  rewrite printf1_plain by done. cbn [mbind cres_bind]. unfold Sds.sdscat.
  rewrite strlen_app_nul by done. cbn [of_ptr mbind cres_bind]. rewrite take_app_length.
  exists (Sds.sdscatlen junk s w).
  destruct (Sds.sdscatlen_wf junk junk_length s w W) as [W' E];
    [unfold Sds.SDS_MAX_PREALLOC; change (2 ^ 20) with 1048576 in Hb; lia|].
  split_and!; try done. by apply sdscatlen_room.
Qed.

Lemma join_words_cons w w' l : join_words id (w :: w' :: l) = w ++ 32 :: join_words id (w' :: l).
Proof. done. Qed.

Lemma cmdrepr_loop_cons s w argv :
  cmdrepr_loop junk s (w :: argv)
  = (s1 ← (fmt ← of_ptr (cstr (w ++ [0])); t ← printf1 fmt (Some (Z.of_nat (length w)));
           Sds.sdscat junk s (t ++ [0]));
     cmdrepr_loop junk (match argv with [] => s1 | _ => Sds.sdscatlen junk s1 [32] end) argv).
Proof.
  cbn [cmdrepr_loop]. destruct (of_ptr _) as [fmt| |]; cbn [mbind cres_bind]; [|done..].
  destruct (printf1 _ _) as [t| |]; cbn [mbind cres_bind]; [|done..].
  by destruct (Sds.sdscat _ _ _).
Qed.

Lemma cmdrepr_loop_ret argv : forall s,
  Sds.wf s -> Forall fmt_word argv ->
  Sds.len s + Z.of_nat (length (join_words id argv)) < 2 ^ 20 ->
  exists s', cmdrepr_loop junk s argv = Ret s' /\ Sds.wf s'
    /\ Sds.str s' = Sds.str s ++ join_words id argv
    /\ (Sds.len s', Sds.free s') = room (Sds.len s, Sds.free s) argv.
Proof.
  induction argv as [|w argv IH]; intros s W Hf Hb.
  { exists s. cbn. by rewrite app_nil_r. }
  apply Forall_cons in Hf as [Hw Hf].
  assert (Z.of_nat (length w) <= Z.of_nat (length (join_words id (w :: argv)))) as Hl.
  { destruct argv; cbn; [done|]. rewrite length_app. unfold id. lia. }
  destruct (cmdrepr_word s w W Hw) as (s1 & E1 & W1 & S1 & R1); [lia|].
  rewrite cmdrepr_loop_cons, E1. cbn [mbind cres_bind].
  assert (Sds.len s1 = Sds.len s + Z.of_nat (length w)) as L1.
  { unfold room_step in R1. destruct (_ <=? _); by injection R1. }
  destruct argv as [|w' argv].
  - exists s1. cbn [cmdrepr_loop room join_words]. rewrite S1, R1. done.
  - rewrite join_words_cons, length_app in Hb. cbn [length] in Hb.
    destruct (Sds.sdscatlen_wf junk junk_length s1 [32] W1) as [W2 S2];
      [unfold Sds.SDS_MAX_PREALLOC; change (2 ^ 20) with 1048576 in Hb; cbn; lia|].
    pose proof (sdscatlen_room s1 [32] W1 ltac:(cbn; lia)) as R2.
    assert (Sds.len (Sds.sdscatlen junk s1 [32]) = Sds.len s1 + 1) as L2.
    { unfold room_step in R2. destruct (_ <=? _); by injection R2. }
    destruct (IH (Sds.sdscatlen junk s1 [32])) as (s2 & -> & W3 & S3 & R3); [done|done|lia|].
    exists s2. rewrite S3, S2, S1, join_words_cons, <- !app_assoc, R3, R2, R1. done.
Qed.

Lemma command_bytes_room argv :
  Forall fmt_word argv -> Z.of_nat (length (join_words id argv)) + 1 < 2 ^ 20 ->
  command_bytes junk argv
  = if 1 <=? (room (0, 0) argv).2 then Ret (join_words id argv ++ [10]) else Undef.
Proof.
  intros Hf Hb. unfold command_bytes.
  change (Sds.sdsnew [0]) with (Ret (Sds.sdsnewlen [])). cbn [mbind cres_bind].
  destruct (Sds.sdsnewlen_wf []) as [W0 S0]; [done|].
  destruct (cmdrepr_loop_ret argv (Sds.sdsnewlen []) W0 Hf) as (s & -> & W & Es & Er); [change (Sds.len (Sds.sdsnewlen [])) with 0; lia|].
  cbn [mbind cres_bind]. destruct (Sds.wf_bounds s W) as [_ ->].
  change (Sds.len (Sds.sdsnewlen []), Sds.free (Sds.sdsnewlen [])) with (0, 0) in Er.
  rewrite <- Er. cbn [snd]. destruct (1 <=? Sds.free s); [|done]. cbn [require mbind cres_bind].
  destruct (Sds.sdscatlen_wf junk junk_length s [10] W) as [_ ->].
  - pose proof (Sds.length_str s W) as Hl. rewrite Es, S0 in Hl. cbn in Hl |- *.
    unfold Sds.SDS_MAX_PREALLOC. change (2 ^ 20) with 1048576 in Hb. lia.
  - by rewrite Es, S0.
Qed.

(** The text of a command.  For words without NUL and percent sign, and a text below
    1 MB, the text is the words separated by blanks and a newline, provided the buffer
    has a free byte before the newline is added; otherwise the newline goes to a new
    block that is dropped, and the old one is used after it was given back.  [room]
    computes that space: 0 for example after [DEL ab]. *)
Theorem command_bytes_exact argv :
  Forall fmt_word argv -> Z.of_nat (length (join_words id argv)) + 1 < 2 ^ 20 ->
  command_bytes junk argv
  = if 1 <=? (room (0, 0) argv).2 then Ret (join_words id argv ++ [10]) else Undef.
Proof. apply command_bytes_room. Qed.
End Text.

Definition ex_junk (n : nat) : bytes := replicate n 170.

Lemma ex_junk_length n : length (ex_junk n) = n.
Proof. apply length_replicate. Qed.

Lemma fmt_word_b w : forallb (λ c, negb (c =? 0) && negb (c =? 37)) w = true -> fmt_word w.
Proof.
  intros H. rewrite forallb_forall in H. split; apply Forall_forall; intros c Hc ->;
    by specialize (H _ (proj1 (list_elem_of_In _ _) Hc)).
Qed.

Lemma fmt_words_b l :
  forallb (forallb (λ c, negb (c =? 0) && negb (c =? 37))) l = true -> Forall fmt_word l.
Proof.
  intros H. rewrite forallb_forall in H. apply Forall_forall. intros w Hw.
  by apply fmt_word_b, H, list_elem_of_In.
Qed.

Lemma command_bytes_exact_witness :
  command_bytes ex_junk [lit "set"; lit "a"; lit "1"]
    = Ret (join_words id [lit "set"; lit "a"; lit "1"] ++ [10])
  /\ command_bytes ex_junk [lit "del"; lit "ab"] = Undef.
Proof.
  split.
  - apply (command_bytes_exact ex_junk ex_junk_length [lit "set"; lit "a"; lit "1"]); [|done].
    by apply fmt_words_b.
  - apply (command_bytes_exact ex_junk ex_junk_length [lit "del"; lit "ab"]); [|done].
    by apply fmt_words_b.
Defined.

(** A word that is also read back: not empty, no blank, no quote. *)
Definition cmd_word (w : bytes) : Prop := fmt_word w /\ plain_word w.

Lemma join_words_nonul argv : Forall fmt_word argv -> nonul (join_words id argv).
Proof.
  induction 1 as [|w argv [Hw _] Hf IH]; [constructor|].
  destruct argv as [|w' argv]; cbn; [done|]. apply Forall_app. split; [done|]. by constructor.
Qed.

Section Submit.
Context (junk : nat -> bytes) (junk_length : forall n, length (junk n) = n).

(** The entry of a command that fits. *)
Lemma command_entry_ret c nm argv :
  nonul nm -> (length nm < 40)%nat -> Forall fmt_word argv ->
  (length (join_words id argv) < 39)%nat -> 1 <= (room (0, 0) argv).2 ->
  in_s64 (current_term (rf c)) -> log_wf (log c) -> logLength (log c) + 1 < 2 ^ 62 ->
  exists e, command_entry junk c nm argv = Ret e /\ entry_ok e
    /\ index e = logLength (log c) + 1
    /\ view e = mkA (current_term (rf c)) nm (join_words id argv ++ [10]).
Proof.
  intros Hn Hl Hf Hj Hr Ht Hw Hs. unfold command_entry.
  rewrite (proj2 (Z.leb_le _ 40)) by lia. cbn [require mbind cres_bind].
  rewrite command_bytes_room, (proj2 (Z.leb_le 1 _)) by (done || lia). cbn [mbind cres_bind].
  set (t := join_words id argv ++ [10]).
  assert (length t < 40)%nat as Hlt by (unfold t; rewrite length_app; cbn; lia).
  assert (nonul t) as Hnt by (apply Forall_app; split; [by apply join_words_nonul|by repeat constructor]).
  rewrite (proj2 (Z.leb_le _ 40)) by lia. cbn [require mbind cres_bind].
  rewrite logCurrentIndex_wf by apply Hw. eexists. split; [done|].
  assert (memcpy (replicate 40 0) (nm ++ [0]) = memcpy (replicate 40 0) nm) as Em.
  { unfold memcpy. rewrite length_app, !drop_replicate, <- app_assoc. f_equal.
    destruct (40 - length nm)%nat as [|k] eqn:E; [lia|]. cbn [app length].
    replace (40 - (length nm + 1))%nat with k by lia. done. }
  rewrite Em. pose proof (logLength_nonneg (log c)). split_and!; [|done|].
  - constructor; cbn [index term commandName command]; [rng|done|by apply c40_padded|by apply c40_padded].
  - unfold view. cbn [term commandName command]. by rewrite !cstr_memcpy_zero by done.
Qed.

End Submit.

Lemma plain_words_b l : forallb (λ w, negb (bool_decide (w = [])) && forallb plain_char w) l = true ->
  Forall plain_word l.
Proof.
  intros H. rewrite forallb_forall in H. apply Forall_forall. intros w Hw.
  specialize (H w (proj1 (list_elem_of_In _ _) Hw)).
  apply andb_true_iff in H as [H1%negb_true_iff%bool_decide_eq_false H2].
  split; [done|]. rewrite forallb_forall in H2. apply Forall_forall. intros c Hc.
  by apply H2, list_elem_of_In.
Qed.

Lemma cmd_words_b l :
  forallb (forallb (λ c, negb (c =? 0) && negb (c =? 37))) l
  && forallb (λ w, negb (bool_decide (w = [])) && forallb plain_char w) l = true -> Forall cmd_word l.
Proof. intros [H1%fmt_words_b H2%plain_words_b]%andb_true_iff. by apply Forall_and. Qed.


(** A blank inside a word is lost on the followers.  The leader runs the words the
    client sent, but the entry holds them unquoted: when the last word is two words with a
    blank between them, the text that is stored is that of the longer command, and a
    follower splits it into one word more than the leader runs. *)
Theorem blank_splits_word junk ws u v :
  (forall n, length (junk n) = n) -> Forall cmd_word ws -> cmd_word u -> cmd_word v -> ws <> [] ->
  let argv := ws ++ [u ++ [32] ++ v] in
  Z.of_nat (length (join_words id argv)) + 1 < 2 ^ 20 -> 1 <= (room (0, 0) argv).2 ->
  exists t, command_bytes junk argv = Ret t /\ sdssplitargs t = Some (ws ++ [u; v])
    /\ ws ++ [u; v] <> argv.
Proof.
  intros Hj Hws Hu Hv Hne argv Hb Hr.
  assert (join_words id argv = join_words id (ws ++ [u; v])) as Ej.
  { unfold argv. clear -Hne. induction ws as [|w ws IH]; [done|].
    destruct ws as [|w' ws]; [done|]. cbn [app] in *. rewrite !join_words_cons. f_equal. f_equal.
    by apply IH. }
  assert (Forall fmt_word argv) as Hf.
  { apply Forall_app. split; [eapply Forall_impl; [exact Hws|by intros w []]|].
    apply Forall_singleton. destruct Hu as [[? ?] _], Hv as [[? ?] _].
    split; repeat (apply Forall_app; split); try done; by repeat constructor. }
  exists (join_words id argv ++ [10]). split_and!.
  - rewrite (command_bytes_room junk Hj) by done. by rewrite (proj2 (Z.leb_le 1 _)).
  - rewrite Ej. apply sdssplitargs_words; [by right|].
    apply (Forall_impl cmd_word); [|by intros w [_ ?]; apply readable_plain].
    apply Forall_app. split; [done|]. constructor; [done|]. by apply Forall_singleton.
  - intros E%(f_equal length). unfold argv in E. rewrite !length_app in E. cbn in E. lia.
Qed.

Lemma blank_splits_word_witness :
  exists t, command_bytes ex_junk [lit "set"; lit "k"; lit "a b"] = Ret t
    /\ sdssplitargs t = Some [lit "set"; lit "k"; lit "a"; lit "b"].
Proof.
  destruct (blank_splits_word ex_junk [lit "set"; lit "k"] (lit "a") (lit "b")) as (t & E & Hs & _).
  - apply ex_junk_length.
  - by apply cmd_words_b.
  - apply (Forall_inv (cmd_words_b [lit "a"] eq_refl)).
  - apply (Forall_inv (cmd_words_b [lit "b"] eq_refl)).
  - discriminate.
  - by vm_compute.
  - by vm_compute.
  - exists t. split; [exact E|exact Hs].
Defined.
