(* ===== verification/ClusterNet.v ===== *)
(** * cluster.c: links, the read and write handlers

    [freeClusterLink], [handleLinkIOError], [clusterAcceptHandler],
    [clusterWriteHandler] and [clusterReadHandler] of src/src/cluster.c.  The bytes that
    arrive on a socket are a list of segments: a [read] returns a part of the first one,
    an empty segment is the end of the stream, and no segment is EAGAIN; every sequence of
    results of [read] is such a list.  The main fact: however the stream is cut into
    segments, the messages one node sends on a link are handled by the other, each once
    and in order. *)

From Stdlib Require Import ZArith Lia.
From stdpp Require Import base tactics numbers list gmap strings.
From S2P Require Import Prelude Libc Log Wire Cluster ClusterVote.
From S2P Require Sds SdsOps.

Local Open Scope Z_scope.

(** ** Operations *)

Definition del_link (c : cluster) (l : addr_t) : cluster :=
  mkCluster (rf c) (log c) (myself c) (nodes c) (node_heap c) (delete l (link_heap c))
    (next_block c) (proc_clients c) (election_timeout c) (heartbeat_interval c)
    (stats_bus_messages_sent c) (stats_bus_messages_received c).

Definition node_set_link (n : clusterNode) (l : option addr_t) : clusterNode :=
  mkNode (cn_name n) (cn_flags n) (cn_ctime n) (cn_last_activity_time n) (cn_last_sent_entry n)
    (cn_next_index n) (cn_match_index n) (cn_ip n) (cn_port n) l.

(** The node of the link forgets it, and the block goes back to the heap. *)
Definition freeClusterLink (c : cluster) (l : addr_t) : cres cluster :=
  lk ← of_ptr (link_heap c !! l);
  match cl_node lk with
  | None => mret (del_link c l)
  | Some na =>
      node ← of_ptr (node_heap c !! na);
      mret (del_link (set_node c na (node_set_link node None)) l)
  end.

Definition handleLinkIOError : cluster -> addr_t -> cres cluster := freeClusterLink.

Definition MAX_CLUSTER_ACCEPTS_PER_CALL : nat := 1000.

(** [fds]: the results of [anetTcpAccept] until it fails; [now]: the clock when the link of
    a descriptor is created. *)
Fixpoint accept_loop (max : nat) (now : Z -> Z) (c : cluster) (fds : list Z) : cluster :=
  match max, fds with
  | S max, fd :: fds =>
      let l := next_block c in
      accept_loop max now (set_link (bump c) l (link_fd (createClusterLink (now fd) None) fd)) fds
  | _, _ => c
  end.

Definition clusterAcceptHandler (now : Z -> Z) (c : cluster) (fds : list Z) : cluster :=
  accept_loop MAX_CLUSTER_ACCEPTS_PER_CALL now c fds.

Definition link_sndbuf (lk : clusterLink) (b : bytes) (w : bool) : clusterLink :=
  mkLink (cl_ctime lk) (cl_fd lk) b (cl_rcvbuf lk) (cl_node lk) w.

Definition link_rcvbuf (lk : clusterLink) (b : bytes) : clusterLink :=
  mkLink (cl_ctime lk) (cl_fd lk) (cl_sndbuf lk) b (cl_node lk) (cl_writable lk).

(** [write_ret]: the result of [write] on the buffer.  The second component of the result
    is what went to the socket. *)
Definition clusterWriteHandler (write_ret : bytes -> Z) (c : cluster) (l : addr_t)
    : cres (cluster * bytes) :=
  lk ← of_ptr (link_heap c !! l);
  let nwritten := write_ret (cl_sndbuf lk) in
  if nwritten <=? 0 then c ← handleLinkIOError c l; mret (c, [])
  else
    let b := Sds.str (Sds.sdsrange (Sds.sdsnewlen (cl_sndbuf lk)) (wrap_s32 nwritten) (-1)) in
    let w := if bool_decide (b = []) then false else cl_writable lk in
    mret (set_link c l (link_sndbuf lk b w), take (Z.to_nat nwritten) (cl_sndbuf lk)).

(** The number of bytes to read next; [None]: the header is refused.  The difference is
    computed as an unsigned 32-bit number and stored in an [int]. *)
Definition read_len (rcvbuf : bytes) : cres (option Z) :=
  let rcvbuflen := Z.of_nat (length rcvbuf) in
  if rcvbuflen <? 8 then mret (Some (8 - rcvbuflen))
  else
    totlen ← of_ptr (rd_be rcvbuf 4 4);
    if (rcvbuflen =? 8)
       && (negb (bool_decide (take 4 rcvbuf = lit "RCmb")) || (totlen <? CLUSTERMSG_MIN_LEN))
    then mret None
    else
      let readlen := wrap_s32 (totlen - rcvbuflen) in
      mret (Some (if SIZEOF_CLUSTERMSG <? wrap_u64 readlen then SIZEOF_CLUSTERMSG else readlen)).

Definition set_rcvbuf (c : cluster) (l : addr_t) (b : bytes) : cres cluster :=
  lk ← of_ptr (link_heap c !! l); mret (set_link c l (link_rcvbuf lk b)).

(** [rcvbuflen >= 8 && rcvbuflen == ntohl(hdr->totlen)] *)
Definition complete (rcvbuf : bytes) : cres bool :=
  let rcvbuflen := Z.of_nat (length rcvbuf) in
  if rcvbuflen <? 8 then mret false
  else totlen ← of_ptr (rd_be rcvbuf 4 4); mret (rcvbuflen =? totlen).

(** The loop: [k] packets were handled so far, and [evs k] is the environment of the next.
    Every round reads a byte or ends.  The result: the state and the unread segments. *)
Fixpoint read_loop (fuel : nat) (srv : server) (evs : nat -> env) (k : nat) (c : cluster)
    (l : addr_t) (inp : list bytes) : cres (cluster * list bytes) :=
  match fuel with
  | O => Undef
  | S fuel =>
      lk ← of_ptr (link_heap c !! l);
      n ← read_len (cl_rcvbuf lk);
      match n with
      | None => c ← handleLinkIOError c l; mret (c, inp)
      | Some readlen =>
          match sock_read (Z.to_nat readlen) inp with
          | None => mret (c, inp)
          | Some ([], inp) => c ← handleLinkIOError c l; mret (c, inp)
          | Some (b, inp) =>
              c ← set_rcvbuf c l (cl_rcvbuf lk ++ b);
              done ← complete (cl_rcvbuf lk ++ b);
              if (done : bool) then
                c ← clusterProcessPacket srv (evs k) c l;
                c ← set_rcvbuf c l [];
                read_loop fuel srv evs (S k) c l inp
              else read_loop fuel srv evs k c l inp
          end
      end
  end.

(** One round more than there are bytes and segments. *)
Definition clusterReadHandler (srv : server) (evs : nat -> env) (c : cluster) (l : addr_t)
    (inp : list bytes) : cres (cluster * list bytes) :=
  read_loop (S (length (concat inp) + length inp)) srv evs 0 c l inp.

(** ** Handlers keep the links *)

Definition keeps_links (c c' : cluster) : Prop :=
  forall l, is_Some (link_heap c !! l) -> is_Some (link_heap c' !! l).

#[global] Instance keeps_links_refl : Reflexive keeps_links.
Proof. by intros c l. Qed.

#[global] Instance keeps_links_trans : Transitive keeps_links.
Proof. intros c1 c2 c3 H1 H2 l Hl. by apply H2, H1. Qed.

Lemma send_keeps c l msg c' : clusterSendMessage c l msg = Ret c' -> keeps_links c c'.
Proof.
  unfold clusterSendMessage. intros H l' Hl'. cinv. subst. cbn.
  destruct (decide (l' = l)) as [->|]; [by rewrite lookup_insert_eq|by rewrite lookup_insert_ne].
Qed.

Lemma send_ae_keeps srv c l ok c' :
  clusterSendResponseAppendEntries srv c l ok = Ret c' -> keeps_links c c'.
Proof. unfold clusterSendResponseAppendEntries. intros H. cinv. by eapply send_keeps. Qed.

Lemma process_append_keeps srv ev c l e c' :
  clusterProcessAppendEntries srv ev c l e = Ret c' -> keeps_links c c'.
Proof.
  unfold clusterProcessAppendEntries. destruct (_ <? _); [apply send_ae_keeps|].
  intros H. cinv. destruct (negb _); [by apply send_ae_keeps in H1|].
  cinv. destruct x1 as [s a]. destruct (negb _); by apply send_ae_keeps in H2.
Qed.

Lemma process_packet_keeps srv ev c l c' :
  clusterProcessPacket srv ev c l = Ret c' -> keeps_links c c'.
Proof.
  unfold clusterProcessPacket. intros H. cinv. destruct x0 as [[v|v|e|e]|].
  - unfold clusterProcessRequestVote in H1. cinv. case_match.
    unfold clusterSendResponseVote in H2. cinv. by apply send_keeps in H4.
  - cinv. subst. unfold clusterProcessResponseVote. intros l'. by repeat case_match.
  - by apply process_append_keeps in H1.
  - cinv. unfold clusterProcessResponseAppendEntries in H2. cinv. destruct (_ =? _); cinv.
    + destruct (cn_last_sent_entry _); cinv; subst; by intros l'.
    + destruct (_ <? _); cinv; subst; by intros l'.
  - cinv. subst. by intros l'.
Qed.

(** ** Framing *)

(** A packet the reader can find the end of. *)
Record framed (p : bytes) : Prop := {
  fr_sig : take 4 p = lit "RCmb";
  fr_len : rd_be p 4 4 = Some (Z.of_nat (length p));
  fr_min : CLUSTERMSG_MIN_LEN <= Z.of_nat (length p) < 2 ^ 31;
}.

Lemma rd_be_prefix a p off n :
  a `prefix_of` p -> (off + n <= length a)%nat -> rd_be a off n = rd_be p off n.
Proof.
  intros [r ->] Hl. unfold rd_be, rd. rewrite !bool_decide_eq_true_2; rewrite ?length_app; [|lia..].
  cbn. do 2 f_equal. rewrite drop_app_le by lia. rewrite take_app_le; [done|]. rewrite length_drop. lia.
Qed.

(** How much the reader asks for while a packet is incomplete: at least one byte, and never
    a byte of the next packet. *)
Lemma read_len_framed p r :
  framed p -> r `prefix_of` p -> (length r < length p)%nat ->
  exists n, read_len r = Ret (Some n) /\ 0 < n <= Z.of_nat (length p) - Z.of_nat (length r).
Proof.
  intros [Fs Fl Fm] Hp Hl. unfold read_len, CLUSTERMSG_MIN_LEN in *.
  destruct (Z.ltb_spec (Z.of_nat (length r)) 8); [eexists; split; [done|lia]|].
  rewrite (rd_be_prefix r p), Fl by (done || lia). cbn [of_ptr mbind cres_bind].
  assert (take 4 r = lit "RCmb") as ->.
  { destruct Hp as [q ->]. rewrite take_app_le in Fs by lia. done. }
  rewrite bool_decide_eq_true_2, (proj2 (Z.ltb_ge _ 96)), andb_false_r by (done || lia).
  rewrite wrap_s32_id, wrap_u64_id by rng. cbn [negb orb].
  eexists. split; [done|]. destruct (Z.ltb_spec SIZEOF_CLUSTERMSG (Z.of_nat (length p) - Z.of_nat (length r)));
    unfold SIZEOF_CLUSTERMSG, CLUSTERMSG_MIN_LEN, SIZEOF_APPENDENTRIES, SIZEOF_LOGENTRY in *; lia.
Qed.

Lemma complete_framed p r :
  framed p -> r `prefix_of` p -> complete r = Ret (bool_decide (length r = length p)).
Proof.
  intros [_ Fl Fm] Hp. unfold complete. destruct (Z.ltb_spec (Z.of_nat (length r)) 8).
  - rewrite bool_decide_eq_false_2; [done|]. unfold CLUSTERMSG_MIN_LEN in *. lia.
  - rewrite (rd_be_prefix r p), Fl by (done || lia). cbn. f_equal.
    destruct (Z.eqb_spec (Z.of_nat (length r)) (Z.of_nat (length p))); case_bool_decide; lia || done.
Qed.

(** One packet handed to [clusterProcessPacket]. *)
Definition deliver (srv : server) (ev : env) (c : cluster) (l : addr_t) (p : bytes) : cres cluster :=
  c ← set_rcvbuf c l p;
  c ← clusterProcessPacket srv ev c l;
  set_rcvbuf c l [].

Fixpoint deliver_all (srv : server) (evs : nat -> env) (k : nat) (c : cluster) (l : addr_t)
    (ps : list bytes) : cres cluster :=
  match ps with
  | [] => mret c
  | p :: ps => c ← deliver srv (evs k) c l p; deliver_all srv evs (S k) c l ps
  end.

(** The bytes read so far on a link. *)
Definition rcvbuf (c : cluster) (l : addr_t) : bytes :=
  from_option cl_rcvbuf [] (link_heap c !! l).

Lemma set_rcvbuf_some c l b :
  is_Some (link_heap c !! l) ->
  exists lk, link_heap c !! l = Some lk
    /\ set_rcvbuf c l b = Ret (set_link c l (link_rcvbuf lk b)).
Proof. intros [lk E]. exists lk. unfold set_rcvbuf. rewrite E. done. Qed.

(** Reading a buffer in two steps or in one is the same. *)
Lemma set_rcvbuf_twice c l lk b1 b2 :
  link_heap c !! l = Some lk ->
  set_rcvbuf (set_link c l (link_rcvbuf lk b1)) l b2 = set_rcvbuf c l b2.
Proof.
  intros E. unfold set_rcvbuf. rewrite E. cbn. rewrite lookup_insert_eq. cbn.
  unfold set_link, link_rcvbuf. cbn. by rewrite insert_insert_eq.
Qed.

Lemma deliver_set c l lk srv ev b p :
  link_heap c !! l = Some lk ->
  deliver srv ev (set_link c l (link_rcvbuf lk b)) l p = deliver srv ev c l p.
Proof. intros E. unfold deliver. by rewrite (set_rcvbuf_twice c l lk). Qed.

Lemma deliver_empty srv ev c l p c' :
  deliver srv ev c l p = Ret c' -> exists lk, link_heap c' !! l = Some lk /\ cl_rcvbuf lk = [].
Proof.
  unfold deliver. intros H. cinv. unfold set_rcvbuf in *. cinv. subst. cbn.
  rewrite lookup_insert_eq. by eexists.
Qed.

(** The result of handing over [ps] and keeping [rest] for later. *)
Definition outcome (srv : server) (evs : nat -> env) (k : nat) (c : cluster) (l : addr_t)
    (ps : list bytes) (rest : bytes) : cres (cluster * list bytes) :=
  c ← deliver_all srv evs k c l ps; c ← set_rcvbuf c l rest; mret (c, []).

Lemma outcome_set srv evs k c l lk b ps rest :
  link_heap c !! l = Some lk ->
  outcome srv evs k (set_link c l (link_rcvbuf lk b)) l ps rest = outcome srv evs k c l ps rest.
Proof.
  intros E. unfold outcome. destruct ps as [|p ps]; cbn [deliver_all].
  - cbn [mbind cres_bind mret cres_ret]. by rewrite (set_rcvbuf_twice c l lk).
  - by rewrite (deliver_set c l lk).
Qed.

Lemma set_rcvbuf_same c l lk :
  link_heap c !! l = Some lk -> set_rcvbuf c l (cl_rcvbuf lk) = Ret c.
Proof.
  intros E. unfold set_rcvbuf. rewrite E. cbn. unfold set_link, mret, cres_ret. f_equal.
  replace (link_rcvbuf lk (cl_rcvbuf lk)) with lk by (by destruct lk).
  rewrite insert_id by done. by destruct c.
Qed.

(** Two prefixes of one stream. *)
Lemma prefix_by_length (a p t u : bytes) :
  a ++ t = p ++ u -> (length a <= length p)%nat -> a `prefix_of` p.
Proof.
  intros E Hl. exists (drop (length a) p).
  rewrite <- (take_drop (length a) p) at 1. f_equal.
  apply (f_equal (take (length a))) in E. rewrite take_app_length, take_app_le in E by done. done.
Qed.

Lemma read_loop_framed srv evs l q rest : framed q -> rest `prefix_of` q -> (length rest < length q)%nat ->
  forall fuel k c lk inp ps,
  (length (concat inp) + length inp < fuel)%nat -> link_heap c !! l = Some lk ->
  Forall (λ s, s <> []) inp -> Forall framed ps ->
  cl_rcvbuf lk ++ concat inp = concat ps ++ rest ->
  (length (cl_rcvbuf lk) < length (hd q ps))%nat ->
  read_loop fuel srv evs k c l inp = outcome srv evs k c l ps rest.
Proof.
  intros Hq [qr Eq] Hrest. induction fuel as [|fuel IH]; intros k c lk inp ps Hfu El Hin Hps Es Hr; [lia|].
  cbn [read_loop]. rewrite El. cbn [of_ptr mbind cres_bind]. set (r := cl_rcvbuf lk) in *.
  assert (framed (hd q ps)) as Hp by (by destruct Hps).
  assert (exists u, concat ps ++ q = hd q ps ++ u) as [u Eu].
  { destruct ps as [|p ps]; [exists []; by rewrite app_nil_r|]. exists (concat ps ++ q). cbn. by rewrite <- app_assoc. }
  assert (forall a t, a ++ t = concat ps ++ rest -> (length a <= length (hd q ps))%nat ->
    a `prefix_of` hd q ps) as Hpre.
  { intros a t E Hl. apply (prefix_by_length a (hd q ps) (t ++ qr) u); [|done].
    by rewrite <- Eu, Eq, app_assoc, E, <- app_assoc. }
  destruct (read_len_framed (hd q ps) r Hp (Hpre r _ Es ltac:(lia)) Hr) as (n & -> & Hn).
  cbn [mbind cres_bind]. destruct inp as [|s inp].
  { (* nothing more to read *)
    cbn [sock_read]. cbn [concat] in Es. rewrite app_nil_r in Es.
    destruct ps as [|p ps].
    - unfold outcome. cbn [deliver_all mbind cres_bind mret cres_ret]. cbn [concat app] in Es.
      rewrite <- Es. unfold r. by rewrite set_rcvbuf_same.
    - apply (f_equal length) in Es. cbn [concat hd] in *. rewrite !length_app in Es. lia. }
  apply Forall_cons in Hin as [Hs Hin].
  destruct (sock_read_spec (Z.to_nat n) s inp ltac:(lia) Hs Hin)
    as (b & inp' & -> & Hb & Hlb & Eb & Hin' & Hm).
  destruct b as [|x b]; [done|]. set (b' := x :: b) in *.
  destruct (set_rcvbuf_some c l (r ++ b') (ltac:(by rewrite El))) as (lk' & El' & ->).
  assert (lk' = lk) as -> by congruence. cbn [mbind cres_bind]. clear El'.
  assert ((r ++ b') ++ concat inp' = concat ps ++ rest) as Es' by (by rewrite <- app_assoc, Eb, <- Es).
  assert (length (r ++ b') <= length (hd q ps))%nat as Hl' by (rewrite length_app; lia).
  pose proof (Hpre _ _ Es' Hl') as Hp'.
  rewrite (complete_framed (hd q ps)) by done. cbn [mbind cres_bind].
  set (c1 := set_link c l (link_rcvbuf lk (r ++ b'))).
  assert (link_heap c1 !! l = Some (link_rcvbuf lk (r ++ b'))) as E1 by apply lookup_insert_eq.
  case_bool_decide as Hd.
  - destruct ps as [|p ps]; cbn [hd] in *.
    { exfalso. apply (f_equal length) in Es'. cbn [concat app] in Es'. rewrite length_app in Es'. lia. }
    apply Forall_cons in Hps as [_ Hps].
    assert (r ++ b' = p) as Ep by (apply prefix_length_eq; [done|lia]).
    unfold outcome. cbn [deliver_all]. unfold deliver.
    replace (set_rcvbuf c l p) with (Ret c1) by (unfold set_rcvbuf, c1; by rewrite El, Ep).
    cbn [mbind cres_bind]. destruct (clusterProcessPacket srv (evs k) c1 l) as [c2| |] eqn:E2; [|done..].
    cbn [mbind cres_bind].
    destruct (set_rcvbuf_some c2 l []) as (lk2 & El2 & ->).
    { apply (process_packet_keeps _ _ _ _ _ E2). by rewrite E1. }
    cbn [mbind cres_bind].
    apply (IH (S k) _ (link_rcvbuf lk2 []) inp' ps); [lia|apply lookup_insert_eq|done|done| |].
    + cbn. rewrite <- Ep in Es'. cbn [concat] in Es'. rewrite <- (app_assoc (r ++ b')) in Es'. by apply app_inv_head in Es'.
    + cbn [cl_rcvbuf link_rcvbuf length]. destruct ps as [|p2 ps]; cbn [hd]; [lia|].
      apply Forall_cons in Hps as [[_ _ Hm2] _]. unfold CLUSTERMSG_MIN_LEN in *. lia.
  - rewrite (IH k c1 (link_rcvbuf lk (r ++ b')) inp' ps); [by apply outcome_set|lia|exact E1|done|done|done|].
    cbn [cl_rcvbuf link_rcvbuf]. lia.
Qed.

Lemma msg_totlen_bounds d : msg_ok d -> CLUSTERMSG_MIN_LEN <= msg_totlen d < 2 ^ 31.
Proof.
  unfold msg_totlen, CLUSTERMSG_MIN_LEN, SIZEOF_REQUESTVOTE, SIZEOF_RESPONSEVOTE, SIZEOF_APPENDENTRIES,
    SIZEOF_RESPONSEAPPENDENTRIES, SIZEOF_LOGENTRY, PREZ_LOG_MAX_ENTRIES_PER_REQUEST.
  destruct d as [v|v|e|e]; cbn [msg_ok]; intros H; lia.
Qed.

(** A sent packet is framed. *)
Lemma enc_msg_framed sender port d :
  length sender = 40%nat -> msg_ok d -> framed (enc_msg sender port d).
Proof.
  intros Hs Hd. pose proof (length_enc_msg sender port d Hs Hd) as Hl.
  pose proof (msg_totlen_bounds d Hd) as Hb. constructor.
  - done.
  - rewrite Hl. by apply rd_hdr.
  - rewrite Hl. exact Hb.
Qed.

(** The reader finds the packets, however the stream is cut.  For any list of non-empty
    segments that carries, after the bytes already read, whole packets [ps] and then a part
    [rest] of a further one, [clusterReadHandler] hands exactly the packets [ps] to
    [clusterProcessPacket], one by one and in order, keeps [rest] for the next call, and has
    read everything. *)
Theorem clusterReadHandler_framing srv evs c l lk segs ps q rest :
  link_heap c !! l = Some lk -> Forall (λ s, s <> []) segs -> Forall framed ps ->
  framed q -> rest `prefix_of` q -> (length rest < length q)%nat ->
  cl_rcvbuf lk ++ concat segs = concat ps ++ rest ->
  (length (cl_rcvbuf lk) < length (hd q ps))%nat ->
  clusterReadHandler srv evs c l segs = outcome srv evs 0 c l ps rest.
Proof.
  intros El Hs Hp Hq Hr Hl Es Hh. by apply (read_loop_framed _ _ _ q rest Hq Hr Hl _ _ _ lk); [lia|..].
Qed.

(** ** Writing *)

(** The writable event is installed exactly while there is something to send. *)
Definition link_ready (lk : clusterLink) : Prop :=
  cl_writable lk = negb (bool_decide (cl_sndbuf lk = [])).

Lemma write_spec c l lk k :
  link_heap c !! l = Some lk -> link_ready lk ->
  0 < k <= Z.of_nat (length (cl_sndbuf lk)) -> Z.of_nat (length (cl_sndbuf lk)) < 2 ^ 31 ->
  exists lk', clusterWriteHandler (λ _, k) c l
      = Ret (set_link c l lk', take (Z.to_nat k) (cl_sndbuf lk))
    /\ link_ready lk' /\ cl_sndbuf lk' = drop (Z.to_nat k) (cl_sndbuf lk).
Proof.
  intros El Hr Hk Hb. unfold clusterWriteHandler. rewrite El. cbn [of_ptr mbind cres_bind].
  rewrite (proj2 (Z.leb_gt _ _)), wrap_s32_id by rng.
  destruct (Sds.sdsnewlen_wf (cl_sndbuf lk) Hb) as [W E].
  pose proof (Sds.length_str _ W) as Hl. rewrite E in Hl.
  destruct (SdsOps.sdsrange_tail (Sds.sdsnewlen (cl_sndbuf lk)) k W) as [_ ->]; [lia|]. rewrite E.
  eexists. split; [done|]. split; [|done]. unfold link_ready in *. cbn. rewrite Hr.
  rewrite (bool_decide_eq_false_2 (cl_sndbuf lk = [])) by (intros E0; rewrite E0 in Hk; cbn in Hk; lia).
  by case_bool_decide.
Qed.

Lemma send_spec c l lk msg :
  link_heap c !! l = Some lk -> link_ready lk ->
  exists lk' c', clusterSendMessage c l msg = Ret c' /\ link_heap c' !! l = Some lk'
    /\ link_ready lk' /\ cl_sndbuf lk' = cl_sndbuf lk ++ msg.
Proof.
  intros El Hr. unfold clusterSendMessage. rewrite El. cbn [of_ptr mbind cres_bind].
  eexists _, _. split; [done|]. cbn. rewrite lookup_insert_eq. split; [done|]. split; [|done].
  unfold link_ready in *. cbn. rewrite Hr. destruct (cl_sndbuf lk); cbn.
  - by destruct msg.
  - done.
Qed.

(** What happens to the sending end of a link: a message is queued, or the socket is writable
    and takes up to [k] bytes.  The event loop calls the handler only when its event is
    installed. *)
Inductive link_event :=
  | LSend (msg : bytes)
  | LWritable (k : Z).

Definition link_step (e : link_event) (c : cluster) (l : addr_t) : cres (cluster * bytes) :=
  match e with
  | LSend msg => c ← clusterSendMessage c l msg; mret (c, [])
  | LWritable k =>
      lk ← of_ptr (link_heap c !! l);
      if cl_writable lk
      then clusterWriteHandler (λ b, Z.min k (Z.of_nat (length b))) c l
      else mret (c, [])
  end.

Fixpoint link_run (es : list link_event) (c : cluster) (l : addr_t) : cres (cluster * bytes) :=
  match es with
  | [] => mret (c, [])
  | e :: es =>
      '(c, w) ← link_step e c l;
      '(c, w') ← link_run es c l;
      mret (c, w ++ w')
  end.

Definition sent (es : list link_event) : bytes :=
  concat ((λ e, match e with LSend msg => msg | LWritable _ => [] end) <$> es).

Definition takes_bytes (e : link_event) : Prop :=
  match e with LSend _ => True | LWritable k => 0 < k end.

Lemma link_run_spec l es : forall c lk,
  link_heap c !! l = Some lk -> link_ready lk -> Forall takes_bytes es ->
  Z.of_nat (length (cl_sndbuf lk ++ sent es)) < 2 ^ 31 ->
  exists c' lk' w, link_run es c l = Ret (c', w) /\ link_heap c' !! l = Some lk'
    /\ link_ready lk' /\ w ++ cl_sndbuf lk' = cl_sndbuf lk ++ sent es.
Proof.
  induction es as [|e es IH]; intros c lk El Hr Hf Hb.
  { exists c, lk, []. cbn. by rewrite app_nil_r. }
  apply Forall_cons in Hf as [He Hf]. cbn [link_run].
  change (sent (e :: es)) with (match e with LSend msg => msg | LWritable _ => [] end ++ sent es) in *.
  assert (exists c1 lk1 w1, link_step e c l = Ret (c1, w1) /\ link_heap c1 !! l = Some lk1
    /\ link_ready lk1
    /\ w1 ++ cl_sndbuf lk1 = cl_sndbuf lk ++ match e with LSend msg => msg | LWritable _ => [] end)
    as (c1 & lk1 & w1 & -> & E1 & R1 & S1).
  { destruct e as [msg|k]; cbn [link_step].
    - destruct (send_spec c l lk msg El Hr) as (lk' & c' & -> & ? & ? & ?). by exists c', lk', [].
    - rewrite El. cbn [of_ptr mbind cres_bind]. rewrite app_nil_r.
      destruct (cl_writable lk) eqn:Ew; [|by exists c, lk, []].
      assert (cl_sndbuf lk <> []) as Hne.
      { unfold link_ready in Hr. rewrite Ew in Hr. by case_bool_decide. }
      assert (0 < Z.of_nat (length (cl_sndbuf lk))) by (destruct (cl_sndbuf lk); cbn; [done|lia]).
      cbn in He. rewrite !length_app in Hb.
      destruct (write_spec c l lk (Z.min k (Z.of_nat (length (cl_sndbuf lk)))) El Hr) as (lk' & E & R & S);
        [lia|lia|].
      assert (clusterWriteHandler (λ b, Z.min k (Z.of_nat (length b))) c l
        = clusterWriteHandler (λ _, Z.min k (Z.of_nat (length (cl_sndbuf lk)))) c l) as ->.
      { unfold clusterWriteHandler. by rewrite El. }
      eexists _, lk', _. split; [exact E|]. split_and!; [apply lookup_insert_eq|done|].
      by rewrite S, take_drop. }
  cbn [mbind cres_bind]. rewrite app_assoc, <- S1 in Hb |- *.
  destruct (IH c1 lk1 E1 R1 Hf) as (c2 & lk2 & w2 & -> & E2 & R2 & S2).
  { rewrite <- app_assoc, length_app in Hb. lia. }
  cbn [mbind cres_bind]. exists c2, lk2, (w1 ++ w2). split_and!; [done..|].
  by rewrite <- !app_assoc, S2.
Qed.

(** Sending on a link.  For any interleaving of messages queued with
    [clusterSendMessage] and writable sockets that take any positive number of bytes, the bytes
    that went to the socket followed by those still buffered are the bytes buffered at first
    followed by all the messages, in order; and the writable event stays installed exactly
    while there is something to send, so that nothing is left behind. *)
Theorem link_sends_in_order es c l lk :
  link_heap c !! l = Some lk -> link_ready lk -> Forall takes_bytes es ->
  Z.of_nat (length (cl_sndbuf lk ++ sent es)) < 2 ^ 31 ->
  exists c' lk' w, link_run es c l = Ret (c', w) /\ link_heap c' !! l = Some lk'
    /\ link_ready lk' /\ w ++ cl_sndbuf lk' = cl_sndbuf lk ++ sent es
    /\ (cl_writable lk' = false -> w = cl_sndbuf lk ++ sent es).
Proof.
  intros El Hr Hf Hb. destruct (link_run_spec l es c lk El Hr Hf Hb) as (c' & lk' & w & E & El' & R & S).
  exists c', lk', w. split_and!; [done..|]. unfold link_ready in R. intros Ew. rewrite Ew in R.
  case_bool_decide as Hn; [|done]. by rewrite Hn, app_nil_r in S.
Qed.

(** ** From one node to another *)

(** What [clusterProcessPacket] does with a message it has read. *)
Definition handle_msg (srv : server) (ev : env) (c : cluster) (l : addr_t) (d : clusterMsgData)
    : cres cluster :=
  lk ← of_ptr (link_heap c !! l);
  let c := set_stats c (stats_bus_messages_sent c) (stats_bus_messages_received c + 1) in
  match d with
  | RequestVote v => clusterProcessRequestVote srv ev c l v
  | AppendEntries e => clusterProcessAppendEntries srv ev c l e
  | ResponseVote v => mret (clusterProcessResponseVote c v)
  | ResponseAppendEntries e => _ ← of_ptr (cl_node lk); clusterProcessResponseAppendEntries c l e
  end.

(** The receiving node handles one message; while it does, the packet is in the buffer. *)
Definition receive (srv : server) (ev : env) (c : cluster) (l : addr_t) (sender : bytes) (port : Z)
    (d : clusterMsgData) : cres cluster :=
  c ← set_rcvbuf c l (enc_msg sender port d);
  c ← handle_msg srv ev c l d;
  set_rcvbuf c l [].

Fixpoint receive_all (srv : server) (evs : nat -> env) (k : nat) (c : cluster) (l : addr_t)
    (sender : bytes) (port : Z) (ds : list clusterMsgData) : cres cluster :=
  match ds with
  | [] => mret c
  | d :: ds => c ← receive srv (evs k) c l sender port d; receive_all srv evs (S k) c l sender port ds
  end.

Lemma deliver_receive srv ev c l sender port d :
  length sender = 40%nat -> msg_ok d ->
  deliver srv ev c l (enc_msg sender port d) = receive srv ev c l sender port d.
Proof.
  intros Hs Hd. unfold deliver, receive.
  destruct (set_rcvbuf c l _) as [c1| |] eqn:E; cbn [mbind cres_bind]; [|done..]. f_equal.
  unfold set_rcvbuf in E. cinv. subst c1. unfold clusterProcessPacket, handle_msg. cbn [link_heap set_link].
  rewrite lookup_insert_eq. cbn [of_ptr mbind cres_bind cl_rcvbuf link_rcvbuf].
  rewrite parse_enc by done. by destruct d.
Qed.

Lemma deliver_all_receive srv evs sender port ds : length sender = 40%nat -> Forall msg_ok ds ->
  forall k c l, deliver_all srv evs k c l (enc_msg sender port <$> ds)
    = receive_all srv evs k c l sender port ds.
Proof.
  intros Hs Hd. induction Hd as [|d ds Hd _ IH]; intros k c l; [done|].
  cbn [fmap list_fmap deliver_all receive_all]. rewrite deliver_receive by done.
  destruct (receive _ _ _ _ _ _ _); cbn [mbind cres_bind]; [apply IH|done..].
Qed.

(** Nothing is left in the buffer after whole packets. *)
Lemma outcome_whole srv evs ps : forall k c l lk,
  link_heap c !! l = Some lk -> cl_rcvbuf lk = [] ->
  outcome srv evs k c l ps [] = (c ← deliver_all srv evs k c l ps; mret (c, [])).
Proof.
  unfold outcome. induction ps as [|p ps IH]; intros k c l lk El Hr; cbn [deliver_all].
  - cbn [mbind cres_bind mret cres_ret]. by rewrite <- Hr, set_rcvbuf_same.
  - destruct (deliver srv (evs k) c l p) as [c1| |] eqn:E; cbn [mbind cres_bind]; [|done..].
    destruct (deliver_empty _ _ _ _ _ _ E) as (lk1 & E1 & R1). by apply (IH _ _ _ lk1).
Qed.

(** A packet, to name the one that has not begun. *)
Lemma some_framed : exists q, framed q.
Proof.
  exists (enc_msg (replicate 40 0) 0 (ResponseVote (mkRVR 0 0))). apply enc_msg_framed; [done|].
  split; cbn; rng.
Qed.


(** ** Examples *)

Definition ex_msgs : list clusterMsgData :=
  [ResponseVote (mkRVR 2 1); RequestVote (ex_request_vote 3 (lit "b"))].

Definition ex_sender : bytes := memcpy (replicate 40 0) (lit "b").

Definition ex_stream : bytes := concat (enc_msg ex_sender 7002 <$> ex_msgs).

(** The stream in three pieces, the first of them shorter than a header. *)
Definition ex_segs : list bytes :=
  [take 5 ex_stream; take 200 (drop 5 ex_stream); drop 205 ex_stream].

Definition ex_sends : list link_event :=
  [LSend (enc_msg ex_sender 7002 (ResponseVote (mkRVR 2 1))); LWritable 50;
   LSend (enc_msg ex_sender 7002 (RequestVote (ex_request_vote 3 (lit "b")))); LWritable 100; LWritable 1000].

Definition ex_c : cluster := ex_cluster ex_raft ex_log.
Definition ex_lk : clusterLink := mkLink 0 5 [] [] (Some 2%positive) false.

Lemma ex_msgs_ok : Forall msg_ok ex_msgs.
Proof. unfold ex_msgs. repeat constructor; cbn; rng. Qed.

Lemma ex_segs_ok : Forall (λ s : bytes, s <> []) ex_segs.
Proof. unfold ex_segs. repeat constructor; vm_compute; discriminate. Qed.

Lemma ex_sends_ok : Forall takes_bytes ex_sends.
Proof. unfold ex_sends. repeat constructor. Qed.

Lemma clusterReadHandler_framing_witness :
  clusterReadHandler ex_srv (λ _, ex_env) ex_c 1%positive (ex_segs ++ [lit "RC"])
  = outcome ex_srv (λ _, ex_env) 0 ex_c 1%positive (enc_msg ex_sender 7002 <$> ex_msgs) (lit "RC").
Proof.
  apply (clusterReadHandler_framing ex_srv (λ _, ex_env) ex_c 1%positive ex_lk
    (ex_segs ++ [lit "RC"]) (enc_msg ex_sender 7002 <$> ex_msgs)
    (enc_msg ex_sender 7002 (ResponseVote (mkRVR 2 1))) (lit "RC")).
  - reflexivity.
  - apply Forall_app. split; [apply ex_segs_ok|]. by repeat constructor.
  - apply Forall_fmap. eapply Forall_impl; [exact ex_msgs_ok|]. intros d Hd. by apply enc_msg_framed.
  - apply enc_msg_framed; [done|]. split; cbn; rng.
  - by eexists.
  - vm_compute. lia.
  - vm_compute. reflexivity.
  - vm_compute. lia.
Defined.

Lemma link_sends_in_order_witness :
  exists c' lk' w, link_run ex_sends ex_c 1%positive = Ret (c', w)
    /\ link_heap c' !! 1%positive = Some lk' /\ link_ready lk'
    /\ w ++ cl_sndbuf lk' = cl_sndbuf ex_lk ++ sent ex_sends
    /\ (cl_writable lk' = false -> w = cl_sndbuf ex_lk ++ sent ex_sends).
Proof.
  apply (link_sends_in_order ex_sends ex_c 1%positive ex_lk).
  - reflexivity.
  - reflexivity.
  - apply ex_sends_ok.
  - vm_compute. reflexivity.
Defined.

