(* ===== verification/ClusterConf.v ===== *)
(** * cluster.c: nodes, the configuration file, initialisation

    The node functions ([createClusterNode], [clusterAddNode], [clusterLookupNode],
    [clusterRenameNode], [freeClusterNode]), [clusterLoadConfig], [initClusterConfig] and
    [clusterInit] of src/src/cluster.c.  What uninitialised memory holds, the bytes behind an
    sds string, the clock and the results of system calls are parameters.  The dict of the
    nodes is used through an interface: its iteration order after an insertion or a deletion
    is some order of the expected pairs. *)

From Stdlib Require Import ZArith Lia.
From stdpp Require Import base tactics numbers list gmap strings.
From S2P Require Import Prelude Util Libc SdsArgs Log LogFile Wire Cluster ClusterVote ClusterNet.
From S2P Require Import SdsOps.

Local Open Scope Z_scope.

Definition nodes_dict : Type := list (bytes * addr_t).

(** What the node table asks of dict.c. *)
Class NodesDict := {
  dict_insert : nodes_dict -> bytes -> addr_t -> nodes_dict;
  dict_remove : nodes_dict -> bytes -> nodes_dict;
  dict_insert_perm d k a : dict_insert d k a ≡ₚ (k, a) :: d;
  dict_remove_perm d k : dict_remove d k ≡ₚ filter (λ e, e.1 <> k) d;
}.

(** [dictFind] *)
Definition dict_find (d : nodes_dict) (k : bytes) : option addr_t :=
  (λ x, x.2.2) <$> list_find (λ e, e.1 = k) d.

Section Nodes.
Context `{ND : !NodesDict}.

(** ** Nodes *)

Definition PREZ_IP_STR_LEN : nat := 46.

(** [uninit]: what the fresh block holds; [name40]: the 40 bytes at [nodename], or the
    random name.  The flags argument is not used by the code. *)
Definition createClusterNode (uninit : clusterNode) (now : Z) (name40 : bytes) : clusterNode :=
  mkNode name40 (cn_flags uninit) now (cn_last_activity_time uninit) (cn_last_sent_entry uninit)
    (cn_next_index uninit) (cn_match_index uninit) (replicate PREZ_IP_STR_LEN 0) 0 None.

(** The key is the 40 bytes of the name; a second node of that name is refused. *)
Definition clusterAddNode (c : cluster) (a : addr_t) : cres (cluster * Z) :=
  node ← of_ptr (node_heap c !! a);
  match dict_find (nodes c) (cn_name node) with
  | Some _ => mret (c, PREZ_ERR)
  | None => mret (set_nodes c (dict_insert (nodes c) (cn_name node) a), PREZ_OK)
  end.

Definition clusterLookupNode (c : cluster) (name40 : bytes) : option addr_t :=
  dict_find (nodes c) name40.

Definition del_node (c : cluster) (a : addr_t) : cluster :=
  mkCluster (rf c) (log c) (myself c) (nodes c) (delete a (node_heap c)) (link_heap c)
    (next_block c) (proc_clients c) (election_timeout c) (heartbeat_interval c)
    (stats_bus_messages_sent c) (stats_bus_messages_received c).

Definition freeClusterNode (c : cluster) (a : addr_t) : cres cluster :=
  n ← of_ptr (node_heap c !! a);
  _ ← prez_assert (bool_decide (is_Some (dict_find (nodes c) (cn_name n))));
  let c := set_nodes c (dict_remove (nodes c) (cn_name n)) in
  c ← (match cn_link n with Some l => freeClusterLink c l | None => mret c end);
  mret (del_node c a).

Definition clusterDelNode : cluster -> addr_t -> cres cluster := freeClusterNode.

Definition node_set_name (n : clusterNode) (name40 : bytes) : clusterNode :=
  mkNode name40 (cn_flags n) (cn_ctime n) (cn_last_activity_time n) (cn_last_sent_entry n)
    (cn_next_index n) (cn_match_index n) (cn_ip n) (cn_port n) (cn_link n).

Definition clusterRenameNode (c : cluster) (a : addr_t) (newname40 : bytes) : cres cluster :=
  n ← of_ptr (node_heap c !! a);
  _ ← prez_assert (bool_decide (is_Some (dict_find (nodes c) (cn_name n))));
  let c := set_nodes c (dict_remove (nodes c) (cn_name n)) in
  let c := set_node c a (node_set_name n newname40) in
  '(c, _) ← clusterAddNode c a;
  mret c.

(** ** The configuration file *)

Definition set_myself (c : cluster) (a : addr_t) : cluster :=
  mkCluster (rf c) (log c) (Some a) (nodes c) (node_heap c) (link_heap c) (next_block c)
    (proc_clients c) (election_timeout c) (heartbeat_interval c)
    (stats_bus_messages_sent c) (stats_bus_messages_received c).

(** [strcasecmp(a, b) == 0] *)
Definition strcaseeq (a b : bytes) : bool := bool_decide (tolower <$> a = tolower <$> b).

(** [n->flags |= PREZ_NODE_MYSELF] *)
Definition node_set_myself (n : clusterNode) : clusterNode :=
  mkNode (cn_name n) (Z.lor (cn_flags n) PREZ_NODE_MYSELF) (cn_ctime n) (cn_last_activity_time n)
    (cn_last_sent_entry n) (cn_next_index n) (cn_match_index n) (cn_ip n) (cn_port n) (cn_link n).

Definition node_set_addr (n : clusterNode) (ip : bytes) (port : Z) : clusterNode :=
  mkNode (cn_name n) (cn_flags n) (cn_ctime n) (cn_last_activity_time n) (cn_last_sent_entry n)
    (cn_next_index n) (cn_match_index n) (memcpy (cn_ip n) ip) port (cn_link n).

(** The environment of one line: the contents of the fresh node block, the bytes in memory
    after the terminator of the first word, the clock. *)
Record conf_env := mkConfEnv {
  ce_uninit : clusterNode;
  ce_slack : bytes;
  ce_now : Z;
}.

(** Look the node up by the 40 bytes at its name, or create and add it. *)
Definition conf_node (ce : conf_env) (c : cluster) (name : bytes) : cres (cluster * addr_t) :=
  let name40 := take 40 (name ++ 0 :: ce_slack ce) in
  match clusterLookupNode c name40 with
  | Some a => mret (c, a)
  | None =>
      let a := next_block c in
      let c := set_node (bump c) a (createClusterNode (ce_uninit ce) (ce_now ce) name40) in
      '(c, _) ← clusterAddNode c a;
      mret (c, a)
  end.

(** The address [ip:port]: the port is read from the second character after the colon. *)
Definition conf_addr (c : cluster) (a : addr_t) (addr : bytes) : cres cluster :=
  s ← of_ptr (cstr (addr ++ [0]));
  match strchr s 58 with
  | None => Exit
  | Some p =>
      _ ← require (p + 1 <=? PREZ_IP_STR_LEN)%nat;
      _ ← require (p + 2 <=? length addr)%nat;
      n ← of_ptr (node_heap c !! a);
      mret (set_node c a (node_set_addr n (take p s ++ [0]) (atoi (drop (p + 2) addr))))
  end.

Definition conf_line (srv : server) (ce : conf_env) (c : cluster) (line : bytes) : cres cluster :=
  if hd 0 line =? LF then mret c else
  s ← of_ptr (cstr (line ++ [0]));
  match sdssplitargs s with
  | None => Exit
  | Some argv =>
      name ← of_ptr (argv !! 0%nat);
      '(c, a) ← conf_node ce c name;
      nm ← of_ptr (cstr (name ++ [0]));
      c ← (if strcaseeq nm (server_name srv)
           then n ← of_ptr (node_heap c !! a);
                mret (set_myself (set_node c a (node_set_myself n)) a)
           else mret c);
      addr ← of_ptr (argv !! 1%nat);
      conf_addr c a addr
  end.

Definition maxline : nat := 1024.

(** The loop over the lines; every round reads at least a byte. *)
Fixpoint conf_loop (fuel : nat) (srv : server) (ces : nat -> conf_env) (i : nat) (c : cluster)
    (f : bytes) : cres cluster :=
  match fuel with
  | O => Undef
  | S fuel =>
      match fgets maxline f with
      | None => mret c
      | Some (line, f) =>
          c ← conf_line srv (ces i) c line;
          conf_loop fuel srv ces (S i) c f
      end
  end.

(** What [fopen] finds.  The test for a missing name comes after the name was used. *)
Inductive conf_file :=
  | ConfNoName
  | ConfMissing
  | ConfError
  | ConfFile (text : bytes).

Definition clusterLoadConfig (srv : server) (ces : nat -> conf_env) (c : cluster) (f : conf_file)
    : cres (cluster * Z) :=
  match f with
  | ConfNoName => Undef
  | ConfMissing => mret (c, PREZ_ERR)
  | ConfError => Exit
  | ConfFile text =>
      c ← conf_loop (S (length text)) srv ces 0 c text;
      _ ← prez_assert (bool_decide (is_Some (myself c)));
      mret (c, PREZ_OK)
  end.

(** ** Initialisation *)

Definition initClusterConfig (c : cluster) : cluster :=
  mkCluster (rf c) (log c) None (nodes c) (node_heap c) (link_heap c) (next_block c)
    (proc_clients c) PREZ_CLUSTER_ELECTION_TIMEOUT PREZ_CLUSTER_HEARTBEAT_INTERVAL 0 0.

(** The fields [clusterInit] sets before it reads the configuration; the log file is what
    the disk holds. *)
Definition init_state (now : Z) (file : bytes) (c : cluster) : cluster :=
  mkCluster (mkRaft PREZ_FOLLOWER [] vs_empty 0 now 0 0 0) (mkStore [] file 0 1) (myself c) []
    (node_heap c) (link_heap c) (next_block c) ∅ (election_timeout c) (heartbeat_interval c)
    (stats_bus_messages_sent c) (stats_bus_messages_received c).

Record init_env := mkInitEnv {
  ie_now : Z;
  ie_conf : conf_file;
  ie_lines : nat -> conf_env;
  ie_random : bytes;            (** [getRandomHexChars] *)
  ie_listen : bool;             (** [listenToPort] and the file events succeed *)
  ie_open : bool;
  ie_fopen : bool;
  ie_uninit : logEntry;
  ie_slack : bytes -> bytes;
}.

Definition node_set_port (n : clusterNode) (port : Z) : clusterNode :=
  mkNode (cn_name n) (cn_flags n) (cn_ctime n) (cn_last_activity_time n) (cn_last_sent_entry n)
    (cn_next_index n) (cn_match_index n) (cn_ip n) port (cn_link n).

(** No configuration file: a node with a random name. *)
Definition init_random (ie : init_env) (c : cluster) : cres cluster :=
  let a := next_block c in
  let c := set_node (bump c) a
             (createClusterNode (ce_uninit (ie_lines ie 0)) (ce_now (ie_lines ie 0)) (ie_random ie)) in
  '(c, _) ← clusterAddNode (set_myself c a) a;
  mret c.

(** A log that can not be opened is reported, and the server goes on without it. *)
Definition clusterInit (srv : server) (ie : init_env) (file : bytes) (c : cluster) : cres cluster :=
  '(c, r) ← clusterLoadConfig srv (ie_lines ie) (init_state (ie_now ie) file c) (ie_conf ie);
  c ← (if r =? PREZ_ERR then init_random ie c else mret c);
  _ ← prez_assert (ie_listen ie);
  me ← of_ptr (myself c);
  n ← of_ptr (node_heap c !! me);
  let c := set_node c me (node_set_port n (server_port srv)) in
  '(s, _) ← loadLogFile (ie_uninit ie) (ie_slack ie) (ie_open ie) (ie_fopen ie) (log c);
  let c := set_log c s in
  mret (set_rf c (r_current_term (rf c) (logCurrentTerm (log c)))).

(** ** Loading a configuration *)

(** One line of the file: [name ip:port]. *)
Record conf_entry := mkConf { e_name : bytes; e_ip : bytes; e_port : Z }.

Definition entry_line (e : conf_entry) : bytes :=
  e_name e ++ 32 :: (e_ip e ++ 58 :: dec (e_port e)) ++ [LF].

Record conf_entry_ok (e : conf_entry) : Prop := {
  eo_name : plain_word (e_name e) /\ nonul (e_name e) /\ (length (e_name e) < 40)%nat;
  eo_ip : Forall (λ c, plain_char c = true /\ c <> 58) (e_ip e) /\ nonul (e_ip e)
          /\ (length (e_ip e) < PREZ_IP_STR_LEN)%nat;
  eo_port : 10000 <= e_port e <= 19999;
}.

(** The digits after the first one. *)
Lemma dval_shift a w : dval a w = a * 10 ^ Z.of_nat (length w) + dval 0 w.
Proof.
  revert a. induction w as [|c w IH]; intros a; cbn [length]; [cbn; lia|].
  rewrite Nat2Z.inj_succ, Z.pow_succ_r by lia.
  change (dval a (c :: w)) with (dval (a * 10 + (c - 48)) w).
  change (dval 0 (c :: w)) with (dval (c - 48) w).
  rewrite IH, (IH (c - 48)). lia.
Qed.

Lemma dval_bound w : Forall (λ c, is_digit c = true) w -> 0 <= dval 0 w < 10 ^ Z.of_nat (length w).
Proof.
  induction 1 as [|c w Hc _ IH]; [cbn; lia|]. change (dval 0 (c :: w)) with (dval (c - 48) w).
  rewrite dval_shift. cbn [length]. rewrite Nat2Z.inj_succ, Z.pow_succ_r by lia.
  unfold is_digit in Hc. nia.
Qed.

Lemma atoi_digits w : Forall (λ c, is_digit c = true) w -> dval 0 w < 2 ^ 31 -> atoi w = dval 0 w.
Proof.
  intros Hw Hb. pose proof (dval_bound w Hw) as [Hp _]. unfold atoi.
  assert (strtol w = dval 0 w) as ->; [|rewrite wrap_s32_id by rng; done].
  pose proof (strtol_digits_dval w 0 [] Hw ltac:(done)) as E. rewrite app_nil_r in E. unfold strtol.
  destruct Hw as [|c w Hc Hw]; [done|]. destruct (digit_not_special c Hc) as (Hs & H45 & H43).
  cbn [skip_spaces]. rewrite Hs, (proj2 (Z.eqb_neq _ _) H45), (proj2 (Z.eqb_neq _ _) H43), E. rng.
Qed.

(** The port without its first digit. *)
Lemma atoi_tail p : 1 <= p <= 65535 ->
  exists d k, 1 <= d <= 9 /\ d * 10 ^ Z.of_nat k <= p < (d + 1) * 10 ^ Z.of_nat k
    /\ atoi (drop 1 (dec p)) = p - d * 10 ^ Z.of_nat k.
Proof.
  intros Hp. destruct (dec_head p ltac:(lia)) as (c & w & Ed & Hc).
  pose proof (dec_digits p ltac:(lia)) as Hd. pose proof (dval_dec p ltac:(lia)) as Ev.
  rewrite Ed in Hd, Ev |- *. apply Forall_cons in Hd as [_ Hd].
  change (dval 0 (c :: w)) with (dval (c - 48) w) in Ev. rewrite dval_shift in Ev.
  pose proof (dval_bound w Hd). exists (c - 48), (length w). cbn [drop]. rewrite drop_0.
  rewrite atoi_digits by (done || nia). split_and!; lia.
Qed.

Lemma atoi_tail_five p : 10000 <= p <= 19999 -> atoi (drop 1 (dec p)) = p - 10000.
Proof.
  intros Hp. destruct (atoi_tail p ltac:(lia)) as (d & k & Hd & Hk & ->).
  destruct k as [|[|[|[|[|[|k]]]]]]; cbn in Hk |- *; try lia.
  assert (0 < 10 ^ Z.of_nat k) by (apply Z.pow_pos_nonneg; lia).
  replace (Z.of_nat (S (S (S (S (S (S k))))))) with (6 + Z.of_nat k) in Hk by lia.
  rewrite Z.pow_add_r in Hk by lia. lia.
Qed.

Lemma dict_find_None d k : dict_find d k = None <-> k ∉ d.*1.
Proof.
  unfold dict_find. rewrite fmap_None, list_find_None, Forall_forall. split.
  - intros H Hk. apply list_elem_of_fmap in Hk as (e & -> & He). by apply (H e).
  - intros H e He <-. apply H. apply list_elem_of_fmap. by exists e.
Qed.

(** A loaded node: where it is, the environment of its line, and its block. *)
Record loaded_node := mkLoaded { ln_entry : conf_entry; ln_env : conf_env; ln_addr : addr_t }.

Definition ln_name40 (x : loaded_node) : bytes :=
  take 40 (e_name (ln_entry x) ++ 0 :: ce_slack (ln_env x)).

Definition ln_mine (srv : server) (x : loaded_node) : bool :=
  strcaseeq (e_name (ln_entry x)) (server_name srv).

Definition ln_block (srv : server) (x : loaded_node) : clusterNode :=
  let n := createClusterNode (ce_uninit (ln_env x)) (ce_now (ln_env x)) (ln_name40 x) in
  let n := if ln_mine srv x then node_set_myself n else n in
  node_set_addr n (e_ip (ln_entry x) ++ [0]) (e_port (ln_entry x) - 10000).

(** The state after some lines. *)
Record conf_inv (srv : server) (c0 : cluster) (l : list loaded_node) (c : cluster) : Prop := {
  ci_nodes : nodes c ≡ₚ (λ x, (ln_name40 x, ln_addr x)) <$> l;
  ci_block x : x ∈ l -> node_heap c !! ln_addr x = Some (ln_block srv x);
  ci_old x : x ∈ l -> (ln_addr x < next_block c)%positive;
  ci_mine x : x ∈ l -> ln_mine srv x = true -> myself c = Some (ln_addr x);
  ci_rest : rf c = rf c0 /\ log c = log c0;
}.

Lemma name40_cstr name slack : nonul name -> (length name < 40)%nat ->
  cstr (take 40 (name ++ 0 :: slack)) = Some name.
Proof.
  intros Hn Hl. rewrite take_app_ge by lia. destruct (40 - length name)%nat as [|k] eqn:E; [lia|].
  cbn [take]. by apply cstr_app_nul.
Qed.

(** The words of a line. *)
Lemma entry_line_words e : conf_entry_ok e ->
  cstr (entry_line e ++ [0]) = Some (entry_line e) /\ (hd 0 (entry_line e) =? LF) = false
  /\ sdssplitargs (entry_line e) = Some [e_name e; e_ip e ++ 58 :: dec (e_port e)].
Proof.
  intros [([Hne Hpl] & Hn & Hl) (Hip & Hin & Hil) Hp].
  assert (Forall (λ c, is_digit c = true) (dec (e_port e))) as Hd by (apply dec_digits; lia).
  assert (nonul (dec (e_port e))) as Hdn.
  { eapply Forall_impl; [exact Hd|]. unfold is_digit. intros c Hc ->. done. }
  assert (nonul (entry_line e)) as Hnl.
  { unfold entry_line. apply Forall_app. split; [done|]. constructor; [done|].
    apply Forall_app. split; [|by repeat constructor]. apply Forall_app. split; [done|]. by constructor. }
  split_and!.
  - by apply cstr_app_nul.
  - unfold entry_line. destruct (e_name e) as [|x w]; [done|]. cbn.
    apply Forall_cons in Hpl as [Hx _]. unfold plain_char, isspace in Hx.
    apply Z.eqb_neq. unfold LF. intros ->. done.
  - replace (entry_line e) with (join_words id [e_name e; e_ip e ++ 58 :: dec (e_port e)] ++ [10]).
    2:{ unfold entry_line. cbn. unfold id. by rewrite <- app_assoc. }
    apply sdssplitargs_words; [by right|].
    constructor; [by apply readable_plain|]. apply Forall_singleton, readable_plain.
    split; [by destruct (e_ip e)|]. apply Forall_app. split.
    + eapply Forall_impl; [exact Hip|]. by intros c [? _].
    + constructor; [done|]. eapply Forall_impl; [exact Hd|]. unfold is_digit, plain_char, isspace. intros c Hc. lia.
Qed.

(** An address with any port. *)
Lemma conf_addr_any c a n ip p :
  node_heap c !! a = Some n -> Forall (λ c, c <> 58) ip -> nonul ip ->
  (length ip < PREZ_IP_STR_LEN)%nat -> 1 <= p ->
  exists n', conf_addr c a (ip ++ 58 :: dec p) = Ret (set_node c a n')
    /\ n' = node_set_addr n (ip ++ [0]) (atoi (drop 1 (dec p))).
Proof.
  intros En Hip Hin Hil Hp. unfold conf_addr.
  assert (Forall (λ c, is_digit c = true) (dec p)) as Hd by (apply dec_digits; lia).
  rewrite cstr_app_nul.
  2:{ apply Forall_app. split; [done|]. constructor; [done|].
      eapply Forall_impl; [exact Hd|]. unfold is_digit. intros x Hx ->. done. }
  cbn [of_ptr mbind cres_bind]. rewrite strchr_app by done.
  rewrite (proj2 (Nat.leb_le (length ip + 1) PREZ_IP_STR_LEN)) by lia.
  cbn [require mbind cres_bind].
  destruct (dec_head p ltac:(lia)) as (x & w & Ew & _).
  rewrite (proj2 (Nat.leb_le (length ip + 2) _)) by (rewrite length_app, Ew; cbn; lia).
  cbn [require mbind cres_bind]. rewrite En. cbn [of_ptr mbind cres_bind].
  rewrite take_app_length, drop_app_ge by lia.
  replace (length ip + 2 - length ip)%nat with 2%nat by lia. by eexists.
Qed.

Lemma conf_addr_entry c a n e : conf_entry_ok e -> node_heap c !! a = Some n ->
  conf_addr c a (e_ip e ++ 58 :: dec (e_port e))
  = Ret (set_node c a (node_set_addr n (e_ip e ++ [0]) (e_port e - 10000))).
Proof.
  intros [_ (Hip & Hin & Hil) Hp] En.
  destruct (conf_addr_any c a n (e_ip e) (e_port e) En) as (n' & -> & ->); [|done|done|lia|].
  - eapply Forall_impl; [exact Hip|]. by intros x [_ ?].
  - by rewrite atoi_tail_five.
Qed.

Definition names (l : list loaded_node) : list bytes := (λ x, e_name (ln_entry x)) <$> l.

Lemma conf_line_entry srv c0 l c ce e :
  conf_inv srv c0 l c -> conf_entry_ok e -> Forall (λ x, conf_entry_ok (ln_entry x)) l ->
  e_name e ∉ names l ->
  (strcaseeq (e_name e) (server_name srv) = true -> Forall (λ x, ln_mine srv x = false) l) ->
  exists c', conf_line srv ce c (entry_line e) = Ret c'
    /\ conf_inv srv c0 (l ++ [mkLoaded e ce (next_block c)]) c'.
Proof.
  intros Hi He Hl Hnew Hm. destruct (entry_line_words e He) as (Ec & Eh & Es).
  destruct He as [(Hpw & Hn & Hlen) Hip Hp]. unfold conf_line. rewrite Eh, Ec. cbn [of_ptr mbind cres_bind].
  rewrite Es. cbn [lookup list_lookup of_ptr mbind cres_bind].
  set (x := mkLoaded e ce (next_block c)).
  assert (dict_find (nodes c) (ln_name40 x) = None) as Hf.
  { apply dict_find_None. rewrite (ci_nodes _ _ _ _ Hi), <- list_fmap_compose. intros Hk.
    apply list_elem_of_fmap in Hk as (y & Ey & Hy). cbn in Ey. apply Hnew, list_elem_of_fmap.
    exists y. split; [|done]. rewrite Forall_forall in Hl. destruct (Hl y Hy) as [(_ & Hny & Hly) _ _].
    apply (f_equal cstr) in Ey. unfold ln_name40 in Ey. rewrite !name40_cstr in Ey by done. by injection Ey. }
  unfold conf_node, clusterLookupNode.
  change (take 40 (e_name e ++ 0 :: ce_slack ce)) with (ln_name40 x). rewrite Hf.
  set (n0 := createClusterNode _ _ _). unfold clusterAddNode. cbn [node_heap set_node bump].
  rewrite lookup_insert_eq. cbn [of_ptr mbind cres_bind nodes set_node bump].
  change (cn_name n0) with (ln_name40 x). rewrite Hf. cbn [mbind cres_bind mret cres_ret].
  rewrite cstr_app_nul by done. cbn [of_ptr mbind cres_bind].
  set (a := next_block c) in *.
  set (c1 := set_nodes _ _).
  assert (node_heap c1 !! a = Some n0) as E1 by apply lookup_insert_eq.
  assert (forall y, y ∈ l -> ln_addr y <> a) as Hold.
  { intros y Hy E. pose proof (ci_old _ _ _ _ Hi y Hy) as Ho. rewrite E in Ho. unfold a in Ho. lia. }
  assert (forall c2 n2, node_heap c2 = <[a := n2]> (node_heap c) -> next_block c2 = Pos.succ a ->
    nodes c2 = nodes c1 -> n2 = ln_block srv x ->
    (forall y, y ∈ l ++ [x] -> ln_mine srv y = true -> myself c2 = Some (ln_addr y)) ->
    rf c2 = rf c -> log c2 = log c -> conf_inv srv c0 (l ++ [x]) c2) as Hfin.
  { intros c2 n2 Hh Hb Hns -> Hmine Hr Hlg. constructor.
    - rewrite Hns. unfold c1. cbn [nodes set_nodes]. rewrite dict_insert_perm, fmap_app, Permutation_app_comm.
      cbn. by rewrite (ci_nodes _ _ _ _ Hi).
    - intros y [Hy|Hy%list_elem_of_singleton]%elem_of_app.
      + rewrite Hh, lookup_insert_ne by (intros E; by apply (Hold y)). by apply (ci_block _ _ _ _ Hi).
      + subst y. rewrite Hh. apply lookup_insert_eq.
    - intros y [Hy|Hy%list_elem_of_singleton]%elem_of_app; rewrite Hb.
      + pose proof (ci_old _ _ _ _ Hi y Hy). unfold a in *. lia.
      + subst y. cbn. unfold a. lia.
    - done.
    - destruct (ci_rest _ _ _ _ Hi). split; congruence. }
  destruct (strcaseeq (e_name e) (server_name srv)) eqn:Emine.
  - rewrite E1. cbn [of_ptr mbind cres_bind mret cres_ret].
    rewrite (conf_addr_entry _ a (node_set_myself n0) e); [|by constructor|apply lookup_insert_eq].
    eexists. split; [done|]. eapply Hfin.
    + cbn. rewrite !insert_insert_eq. done.
    + done.
    + done.
    + unfold ln_block, ln_mine. cbn. by rewrite Emine.
    + intros y [Hy|Hy%list_elem_of_singleton]%elem_of_app Hym; [|by subst y].
      specialize (Hm eq_refl). rewrite Forall_forall in Hm. by rewrite Hm in Hym.
    + done.
    + done.
  - cbn [mbind cres_bind mret cres_ret].
    rewrite (conf_addr_entry _ a n0 e); [|by constructor|exact E1].
    eexists. split; [done|]. eapply Hfin.
    + cbn. rewrite !insert_insert_eq. done.
    + done.
    + done.
    + unfold ln_block, ln_mine. cbn. by rewrite Emine.
    + intros y [Hy|Hy%list_elem_of_singleton]%elem_of_app Hym.
      * by apply (ci_mine _ _ _ _ Hi).
      * subst y. unfold ln_mine in Hym. cbn in Hym. by rewrite Emine in Hym.
    + done.
    + done.
Qed.

Lemma entry_line_fgets e f : conf_entry_ok e ->
  fgets maxline (entry_line e ++ f) = Some (entry_line e, f).
Proof.
  intros [([Hne Hpl] & Hn & Hl) (Hip & Hin & Hil) Hp]. unfold entry_line.
  set (l := e_name e ++ 32 :: e_ip e ++ 58 :: dec (e_port e)).
  replace (e_name e ++ 32 :: (e_ip e ++ 58 :: dec (e_port e)) ++ [LF]) with (l ++ [LF])
    by (unfold l; by rewrite <- app_assoc).
  rewrite <- app_assoc. cbn [app]. apply fgets_line.
  - assert (forall w, Forall (λ c, plain_char c = true) w -> Forall (λ c, c <> LF) w) as Hw.
    { intros w Hw. eapply Forall_impl; [exact Hw|]. intros c Hc ->. done. }
    unfold l. apply Forall_app. split; [by apply Hw|]. constructor; [done|]. apply Forall_app. split.
    + apply Hw. eapply Forall_impl; [exact Hip|]. by intros c [? _].
    + constructor; [done|]. eapply Forall_impl; [apply dec_digits; lia|].
      unfold is_digit, LF. intros c Hc. lia.
  - unfold l. rewrite length_app. cbn [length]. rewrite length_app. cbn [length].
    pose proof (length_dec_le (e_port e) 4 ltac:(cbn; lia)). unfold PREZ_IP_STR_LEN, maxline in *. lia.
Qed.

Lemma entry_line_length e : (0 < length (entry_line e))%nat.
Proof. unfold entry_line. rewrite length_app. cbn. lia. Qed.

(** At most one line is the server's own. *)
Definition one_self (srv : server) (es : list conf_entry) : Prop :=
  forall e e', e ∈ es -> e' ∈ es -> strcaseeq (e_name e) (server_name srv) = true ->
    strcaseeq (e_name e') (server_name srv) = true -> e = e'.

Lemma conf_loop_entries srv ces c0 es : forall fuel i l c,
  conf_inv srv c0 l c -> Forall conf_entry_ok es -> Forall (λ x, conf_entry_ok (ln_entry x)) l ->
  NoDup (names l ++ (e_name <$> es)) -> one_self srv ((ln_entry <$> l) ++ es) ->
  (length (concat (entry_line <$> es)) < fuel)%nat ->
  exists c' l', conf_loop fuel srv ces i c (concat (entry_line <$> es)) = Ret c'
    /\ conf_inv srv c0 (l ++ l') c' /\ ln_entry <$> l' = es.
Proof.
  induction es as [|e es IH]; intros fuel i l c Hi He Hl Hnd Hm Hf; (destruct fuel as [|fuel]; [cbn in Hf; lia|]).
  { exists c, []. rewrite app_nil_r. done. }
  apply Forall_cons in He as [He Hes]. cbn [fmap list_fmap concat] in *. rewrite length_app in Hf.
  pose proof (entry_line_length e). cbn [conf_loop]. rewrite entry_line_fgets by done.
  assert (e_name e ∉ names l) as Hnew.
  { apply NoDup_app in Hnd as (_ & Hd & _). intros Hk. apply (Hd _ Hk). by left. }
  destruct (conf_line_entry srv c0 l c (ces i) e) as (c1 & -> & Hi1); try done.
  { intros Hme. apply Forall_forall. intros x Hx. destruct (ln_mine srv x) eqn:Ex; [|done]. exfalso.
    apply Hnew, list_elem_of_fmap. exists x. split; [|done]. f_equal. apply Hm; try done.
    - apply elem_of_app. right. by left.
    - apply elem_of_app. left. by apply list_elem_of_fmap_2. }
  cbn [mbind cres_bind].
  destruct (IH fuel (S i) (l ++ [mkLoaded e (ces i) (next_block c)]) c1) as (c2 & l2 & E & Hi2 & El2); try done.
  - apply Forall_app. split; [done|]. by apply Forall_singleton.
  - unfold names in *. rewrite fmap_app, <- app_assoc. exact Hnd.
  - rewrite fmap_app, <- app_assoc. exact Hm.
  - lia.
  - exists c2, (mkLoaded e (ces i) (next_block c) :: l2). rewrite <- app_assoc in Hi2.
    split_and!; [done|done|]. cbn. by rewrite El2.
Qed.

(** What a loaded node looks like. *)
Lemma ln_block_facts srv x : conf_entry_ok (ln_entry x) ->
  cstr (ln_name40 x) = Some (e_name (ln_entry x))
  /\ cn_name (ln_block srv x) = ln_name40 x
  /\ cstr (cn_ip (ln_block srv x)) = Some (e_ip (ln_entry x))
  /\ cn_port (ln_block srv x) + PREZ_CLUSTER_PORT_INCR = e_port (ln_entry x)
  /\ cn_link (ln_block srv x) = None
  /\ (ln_mine srv x = true -> Z.land (cn_flags (ln_block srv x)) PREZ_NODE_MYSELF <> 0).
Proof.
  intros [(_ & Hn & Hl) (_ & Hin & Hil) _]. unfold ln_block.
  assert (memcpy (replicate PREZ_IP_STR_LEN 0) (e_ip (ln_entry x) ++ [0])
          = e_ip (ln_entry x) ++ 0 :: drop (length (e_ip (ln_entry x) ++ [0])) (replicate PREZ_IP_STR_LEN 0)) as Em
    by (unfold memcpy; by rewrite <- app_assoc).
  split_and!; try (by destruct (ln_mine srv x)).
  - by apply name40_cstr.
  - destruct (ln_mine srv x); cbn [cn_ip node_set_addr node_set_myself createClusterNode];
      rewrite Em; by apply cstr_app_nul.
  - unfold PREZ_CLUSTER_PORT_INCR. destruct (ln_mine srv x); cbn; lia.
  - intros ->. cbn. unfold PREZ_NODE_MYSELF. rewrite Z.land_comm, Z.land_lor_distr_r.
    intros E%Z.lor_eq_0_iff. by destruct E.
Qed.

Lemma conf_file_loads srv ces c es :
  nodes c = [] -> Forall conf_entry_ok es -> NoDup (e_name <$> es) -> one_self srv es ->
  (exists e, e ∈ es /\ strcaseeq (e_name e) (server_name srv) = true) ->
  exists c' l, clusterLoadConfig srv ces c (ConfFile (concat (entry_line <$> es))) = Ret (c', PREZ_OK)
    /\ conf_inv srv c l c' /\ ln_entry <$> l = es /\ is_Some (myself c').
Proof.
  intros Hn Hes Hnd Hone (e0 & He0 & Hm0). unfold clusterLoadConfig.
  destruct (conf_loop_entries srv ces c es (S (length (concat (entry_line <$> es)))) 0 [] c)
    as (c' & l & -> & Hi & El); try done.
  { constructor; try done; [by rewrite Hn|by intros x ?%elem_of_nil..]. }
  { lia. }
  cbn [app] in Hi. cbn [mbind cres_bind].
  assert (is_Some (myself c')) as Hs.
  { rewrite <- El in He0. apply list_elem_of_fmap in He0 as (x & -> & Hx).
    by rewrite (ci_mine _ _ _ _ Hi x Hx Hm0). }
  rewrite bool_decide_eq_true_2 by done. cbn [prez_assert mbind cres_bind].
  by exists c', l.
Qed.

(** The configuration file.  From a file with one line [name ip:port] per node (names
    shorter than 40 bytes and pairwise different, addresses shorter than 46, ports from 10000
    to 19999, one name that of the server), [clusterLoadConfig] succeeds, whatever fresh
    memory holds: the table has one node per line, with that name and address, not connected,
    the port from which [clusterCron] gets the port of the line back when it adds 10000, and
    the node with the server's name is the server itself and flagged so. *)
Theorem clusterLoadConfig_correct srv ces c es :
  nodes c = [] -> Forall conf_entry_ok es -> NoDup (e_name <$> es) -> one_self srv es ->
  (exists e, e ∈ es /\ strcaseeq (e_name e) (server_name srv) = true) ->
  exists c', clusterLoadConfig srv ces c (ConfFile (concat (entry_line <$> es))) = Ret (c', PREZ_OK)
    /\ rf c' = rf c /\ log c' = log c /\ length (nodes c') = length es
    /\ forall e, e ∈ es -> exists k a n, (k, a) ∈ nodes c' /\ node_heap c' !! a = Some n
         /\ cstr k = Some (e_name e) /\ cn_name n = k /\ cstr (cn_ip n) = Some (e_ip e)
         /\ cn_port n + PREZ_CLUSTER_PORT_INCR = e_port e /\ cn_link n = None
         /\ (strcaseeq (e_name e) (server_name srv) = true ->
             myself c' = Some a /\ Z.land (cn_flags n) PREZ_NODE_MYSELF <> 0).
Proof.
  intros Hn Hes Hnd Hone Hme.
  destruct (conf_file_loads srv ces c es Hn Hes Hnd Hone Hme) as (c' & l & E & Hi & El & _).
  exists c'. destruct (ci_rest _ _ _ _ Hi) as [Hr Hlg]. split_and!; [done..| |].
  - rewrite (Permutation_length (ci_nodes _ _ _ _ Hi)), length_fmap, <- El. by rewrite length_fmap.
  - intros e He. rewrite <- El in He. apply list_elem_of_fmap in He as (x & -> & Hx).
    assert (conf_entry_ok (ln_entry x)) as Hok.
    { rewrite Forall_forall in Hes. apply Hes. rewrite <- El. by apply list_elem_of_fmap_2. }
    destruct (ln_block_facts srv x Hok) as (F1 & F2 & F3 & F4 & F5 & F6).
    exists (ln_name40 x), (ln_addr x), (ln_block srv x). split_and!; try done.
    + rewrite (ci_nodes _ _ _ _ Hi). apply list_elem_of_fmap. by exists x.
    + by apply (ci_block _ _ _ _ Hi).
    + intros Hm. split; [by apply (ci_mine _ _ _ _ Hi)|by apply F6].
Qed.

(** Only ports from 10000 to 19999 work.  The loader skips the first digit of a port
    and [clusterCron] connects to the stored port plus 10000: for every other port the node
    connects to a port different from the configured one. *)
Theorem conf_addr_port c a n ip p :
  node_heap c !! a = Some n -> Forall (λ c, c <> 58) ip -> nonul ip ->
  (length ip < PREZ_IP_STR_LEN)%nat -> 1 <= p <= 65535 ->
  exists n', conf_addr c a (ip ++ 58 :: dec p) = Ret (set_node c a n')
    /\ (cn_port n' + PREZ_CLUSTER_PORT_INCR = p <-> 10000 <= p <= 19999).
Proof.
  intros En Hip Hin Hil Hp. destruct (conf_addr_any c a n ip p En Hip Hin Hil ltac:(lia)) as (n' & -> & ->).
  eexists. split; [done|]. cbn [cn_port node_set_addr]. unfold PREZ_CLUSTER_PORT_INCR.
  split; [|intros H; rewrite atoi_tail_five by done; lia].
  destruct (atoi_tail p Hp) as (d & k & Hd & Hk & ->). intros E.
  assert (d * 10 ^ Z.of_nat k = 10000) as Ek by lia.
  assert (k = 4%nat /\ d = 1) as [-> ->]; [|lia].
  destruct k as [|[|[|[|[|k]]]]]; cbn in Ek; try lia.
  assert (0 < 10 ^ Z.of_nat k) by (apply Z.pow_pos_nonneg; lia).
  replace (Z.of_nat (S (S (S (S (S k)))))) with (5 + Z.of_nat k) in Ek by lia.
  rewrite Z.pow_add_r in Ek by lia. lia.
Qed.

(** ** A restart *)

(** What the start of a server finds: a configuration of this form, sockets, and the file
    of a log. *)
Record restart_ok (srv : server) (ie : init_env) (es : list conf_entry) (s : logStore) : Prop := {
  ro_conf : ie_conf ie = ConfFile (concat (entry_line <$> es));
  ro_entries : Forall conf_entry_ok es;
  ro_names : NoDup (e_name <$> es);
  ro_one : one_self srv es;
  ro_self : exists e, e ∈ es /\ strcaseeq (e_name e) (server_name srv) = true;
  ro_io : ie_listen ie = true /\ ie_open ie = true /\ ie_fopen ie = true;
  ro_slack b : (40 <= length (ie_slack ie b))%nat;
  ro_log : log_wf s /\ file_wf s;
}.

Lemma clusterInit_state srv ie es s c :
  restart_ok srv ie es s ->
  exists c', clusterInit srv ie (log_file s) c = Ret c'
    /\ rf c' = mkRaft PREZ_FOLLOWER [] vs_empty 0 (ie_now ie) (logCurrentTerm s) 0 0
    /\ views (log c') = views s /\ log_wf (log c') /\ file_wf (log c')
    /\ length (nodes c') = length es /\ is_Some (myself c').
Proof.
  intros [Hc He Hn Ho Hs (Hl & Hop & Hfo) Hk [Hw Hf]]. unfold clusterInit. rewrite Hc.
  destruct (conf_file_loads srv (ie_lines ie) (init_state (ie_now ie) (log_file s) c) es)
    as (c1 & l & -> & Hi & El & [me Hme]); [done..|].
  cbn [mbind cres_bind]. change (PREZ_OK =? PREZ_ERR) with false. cbn [mbind cres_bind mret cres_ret].
  rewrite Hl, Hme. cbn [prez_assert of_ptr mbind cres_bind].
  assert (is_Some (node_heap c1 !! me)) as [n En].
  { destruct Hs as (e & Hx & Hm). rewrite <- El in Hx. apply list_elem_of_fmap in Hx as (x & -> & Hx).
    pose proof (ci_mine _ _ _ _ Hi x Hx Hm) as E. rewrite Hme in E. injection E as ->.
    by rewrite (ci_block _ _ _ _ Hi x Hx). }
  rewrite En. cbn [of_ptr mbind cres_bind log set_node]. destruct (ci_rest _ _ _ _ Hi) as [Er Eg].
  rewrite Eg, Hop, Hfo. cbn [log init_state].
  destruct (loadLogFile_log (ie_uninit ie) (ie_slack ie) s Hk Hw Hf) as (s' & -> & Ev & Hw' & Hf' & _).
  cbn [mbind cres_bind]. eexists. split; [done|]. cbn. rewrite Er. split_and!; try done.
  - unfold init_state, r_current_term. cbn. by rewrite !logCurrentTerm_last, Ev.
  - by rewrite (Permutation_length (ci_nodes _ _ _ _ Hi)), length_fmap, <- El, length_fmap.
Qed.


(** A restart forgets the vote.  Neither the vote nor the term is written to disk: a node
    that has voted for [x] in a term later than its last entry refuses [cand] in that term,
    but after a restart it grants [cand] the vote of the same term. *)
Theorem restart_forgets_vote srv ie es s c r0 x cand v now :
  restart_ok srv ie es s -> name_ok x -> name_ok cand -> cand <> x ->
  voted_for r0 = vs_sds x -> current_term r0 = rv_term v -> logCurrentTerm s < rv_term v ->
  logCurrentIndex s <= last_log_index v -> logCurrentTerm s <= last_log_term v ->
  (decide_vote r0 s now v cand).2 = DENY_VOTE
  /\ exists c', clusterInit srv ie (log_file s) c = Ret c'
       /\ (decide_vote (rf c') (log c') now v cand).2 = GRANT_VOTE.
Proof.
  intros Hr (Hx0 & _ & Hx) (_ & _ & Hcl) Hne Hv Ht Hlt Hli Hll. split.
  - unfold decide_vote. rewrite Ht, !Z.ltb_irrefl, Hv. cbn [negb andb].
    rewrite vs_len_sds by done.
    assert (0 < Z.of_nat (length x)) by (destruct x; cbn; [done|lia]).
    rewrite (proj2 (Z.ltb_lt 0 _)) by done. cbn [andb].
    rewrite (proj2 (Z.eqb_neq _ 0)); [done|]. intros E%vs_sdscmp_sds; [by subst|done..].
  - destruct (clusterInit_state srv ie es s c Hr) as (c' & E & Er & Ev & [Hc' _ _] & _).
    exists c'. split; [done|]. destruct Hr as [_ _ _ _ _ _ _ [[Hcs _ _] _]].
    unfold decide_vote. rewrite Er. cbn [current_term].
    rewrite (proj2 (Z.ltb_ge (rv_term v) _)), (proj2 (Z.ltb_lt (logCurrentTerm s) _)) by lia.
    cbn [negb andb]. rewrite !logCurrentIndex_wf in * by done.
    assert (logLength (log c') = logLength s) as ->.
    { rewrite <- !length_views. by rewrite Ev. }
    rewrite (logCurrentTerm_last (log c')), Ev, <- logCurrentTerm_last.
    rewrite !(proj2 (Z.ltb_ge _ _)) by lia. done.
Qed.
End Nodes.

(** ** Examples *)

#[global] Instance append_dict : NodesDict.
Proof.
  refine {| dict_insert d k a := d ++ [(k, a)]; dict_remove d k := filter (λ e, e.1 <> k) d |}.
  - intros d k a. by rewrite Permutation_app_comm.
  - done.
Defined.

Definition ex_entries : list conf_entry :=
  [mkConf (lit "b") (lit "127.0.0.1") 10000; mkConf (lit "a") (lit "127.0.0.1") 10001].

Definition ex_conf_env : conf_env := mkConfEnv (mkNode [] 7 0 0 None 9 9 [] 0 None) (replicate 40 170) 5.

Definition ex_init : init_env :=
  mkInitEnv 100 (ConfFile (concat (entry_line <$> ex_entries))) (λ _, ex_conf_env)
    (replicate 40 97) true true true ex_uninit ex_slack.

Lemma ex_entries_ok : Forall conf_entry_ok ex_entries.
Proof.
  repeat constructor; try lia; try done; cbn; repeat constructor; done.
Qed.

Lemma ex_one_self : one_self ex_srv ex_entries.
Proof.
  intros e e' He He' H H'. unfold ex_entries in *. set_unfold.
  destruct He as [->|[->|[]]], He' as [->|[->|[]]]; done.
Qed.

Lemma ex_self : exists e, e ∈ ex_entries /\ strcaseeq (e_name e) (server_name ex_srv) = true.
Proof. eexists. split; [right; left|done]. Qed.

Lemma ex_names_nodup : NoDup (e_name <$> ex_entries).
Proof. apply (bool_decide_unpack _). by vm_compute. Qed.

Lemma clusterLoadConfig_correct_witness :
  exists c', clusterLoadConfig ex_srv (λ _, ex_conf_env) (init_state 0 [] ex_c)
      (ConfFile (concat (entry_line <$> ex_entries))) = Ret (c', PREZ_OK)
    /\ length (nodes c') = length ex_entries.
Proof.
  destruct (clusterLoadConfig_correct ex_srv (λ _, ex_conf_env) (init_state 0 [] ex_c) ex_entries)
    as (c' & E & _ & _ & Hl & _).
  - reflexivity.
  - apply ex_entries_ok.
  - apply ex_names_nodup.
  - apply ex_one_self.
  - apply ex_self.
  - exists c'. split; [exact E|exact Hl].
Defined.

Lemma conf_addr_port_witness :
  exists n', conf_addr ex_c 2%positive (lit "10.0.0.7" ++ 58 :: dec 9001) = Ret (set_node ex_c 2%positive n')
    /\ (cn_port n' + PREZ_CLUSTER_PORT_INCR = 9001 <-> 10000 <= 9001 <= 19999).
Proof.
  apply (conf_addr_port ex_c 2%positive (ex_node (lit "b") (Some 1%positive)) (lit "10.0.0.7") 9001).
  - reflexivity.
  - by repeat constructor.
  - by repeat constructor.
  - vm_compute. lia.
  - lia.
Defined.

Lemma ex_restart : restart_ok ex_srv ex_init ex_entries ex_log.
Proof.
  constructor; try done.
  - apply ex_entries_ok.
  - apply ex_names_nodup.
  - apply ex_one_self.
  - apply ex_self.
  - split; [apply ex_log_wf|apply ex_log_file_wf].
Qed.


Lemma restart_forgets_vote_witness :
  let r0 := r_voted_for (r_current_term ex_raft 9) (vs_sds (lit "b")) in
  let v := mkRV 9 (memcpy (replicate 40 0) (lit "c")) 5 8 in
  (decide_vote r0 ex_log 0 v (lit "c")).2 = DENY_VOTE
  /\ exists c', clusterInit ex_srv ex_init (log_file ex_log) ex_c = Ret c'
       /\ (decide_vote (rf c') (log c') 0 v (lit "c")).2 = GRANT_VOTE.
Proof.
  apply (restart_forgets_vote ex_srv ex_init ex_entries ex_log ex_c
    (r_voted_for (r_current_term ex_raft 9) (vs_sds (lit "b"))) (lit "b") (lit "c")
    (mkRV 9 (memcpy (replicate 40 0) (lit "c")) 5 8) 0 ex_restart).
  - by apply name_ok_b.
  - by apply name_ok_b.
  - discriminate.
  - reflexivity.
  - reflexivity.
  - vm_compute. reflexivity.
  - vm_compute. discriminate.
  - vm_compute. discriminate.
Defined.
