(* ===== verification/Config.v ===== *)
(** * config.c: the configuration

    The configuration file ([loadServerConfig], [loadServerConfigFromString]) and the CONFIG
    command of src/src/config.c, with the helpers they use in src/src/util.c ([memtoll],
    [pathIsBaseName]), src/src/object.c ([getLongLongFromObject]), src/src/networking.c
    (client classes) and src/src/prez.c ([adjustOpenFilesLimit], [resetServerStats]).  The
    file system and the limits of the operating system are parameters.  Directives between
    [#if 0] and [#endif] are not compiled. *)

From Stdlib Require Import ZArith Lia.
From stdpp Require Import base tactics functions numbers list gmap strings.
From S2P Require Import Prelude Util Libc Object DictTypes Glob Client Request Deferred Keyspace.
From S2P Require SdsArgs SdsOps Cluster.

Local Open Scope Z_scope.

(** ** The fields of [struct prezServer] *)

(** The numbers; names as in the structure. *)
Inductive num_field :=
  | f_maxidletime | f_tcpkeepalive | f_port | f_tcp_backlog | f_unixsocketperm | f_verbosity
  | f_syslog_enabled | f_syslog_facility | f_maxclients | f_maxmemory | f_maxmemory_policy
  | f_maxmemory_samples | f_daemonize | f_hz | f_cport
  | f_hard_limit_bytes | f_soft_limit_bytes | f_soft_limit_seconds.

(** The strings; [None] is NULL. *)
Inductive str_field := f_name | f_unixsocket | f_logfile | f_syslog_ident | f_cluster_configfile | f_pidfile.

#[global] Instance num_field_eq_dec : EqDecision num_field.
Proof. solve_decision. Defined.
#[global] Instance str_field_eq_dec : EqDecision str_field.
Proof. solve_decision. Defined.

Record serverConfig := mkConfig {
  nums : num_field -> Z;
  strs : str_field -> option bytes;
  bindaddr : list bytes;
}.

(** The state of a node: cluster, data set, configuration, counters. *)
Record node_st := mkSt {
  ns_cluster : Cluster.cluster;
  ns_db : keyspace;
  ns_conf : serverConfig;
  stat_numcommands : Z;
  stat_numconnections : Z;
  stat_rejected_conn : Z;
}.

#[global] Instance node_has_keyspace : HasKeyspace node_st := {|
  w_db := ns_db;
  w_set_db s db := mkSt (ns_cluster s) db (ns_conf s) (stat_numcommands s) (stat_numconnections s) (stat_rejected_conn s);
  w_db_set _ _ := eq_refl;
|}.

Definition st_cluster (s : node_st) (c : Cluster.cluster) : node_st :=
  mkSt c (ns_db s) (ns_conf s) (stat_numcommands s) (stat_numconnections s) (stat_rejected_conn s).
Definition st_conf (s : node_st) (c : serverConfig) : node_st :=
  mkSt (ns_cluster s) (ns_db s) c (stat_numcommands s) (stat_numconnections s) (stat_rejected_conn s).

(** [server.f] and [server.f = v]. *)
Definition num (s : node_st) (f : num_field) : Z := nums (ns_conf s) f.
Definition str (s : node_st) (f : str_field) : option bytes := strs (ns_conf s) f.
Definition set_num (s : node_st) (f : num_field) (v : Z) : node_st :=
  st_conf s (mkConfig (<[f := v]> (nums (ns_conf s))) (strs (ns_conf s)) (bindaddr (ns_conf s))).
Definition set_str (s : node_st) (f : str_field) (v : bytes) : node_st :=
  st_conf s (mkConfig (nums (ns_conf s)) (<[f := Some v]> (strs (ns_conf s))) (bindaddr (ns_conf s))).
Definition set_bindaddr (s : node_st) (l : list bytes) : node_st :=
  st_conf s (mkConfig (nums (ns_conf s)) (strs (ns_conf s)) l).

(** [server.cluster->election_timeout] and [heartbeat_interval]. *)
Definition set_election_timeout (s : node_st) (v : Z) : node_st :=
  let c := ns_cluster s in
  st_cluster s (Cluster.mkCluster (Cluster.rf c) (Cluster.log c) (Cluster.myself c) (Cluster.nodes c)
    (Cluster.node_heap c) (Cluster.link_heap c) (Cluster.next_block c) (Cluster.proc_clients c) v
    (Cluster.heartbeat_interval c) (Cluster.stats_bus_messages_sent c) (Cluster.stats_bus_messages_received c)).
Definition set_heartbeat_interval (s : node_st) (v : Z) : node_st :=
  let c := ns_cluster s in
  st_cluster s (Cluster.mkCluster (Cluster.rf c) (Cluster.log c) (Cluster.myself c) (Cluster.nodes c)
    (Cluster.node_heap c) (Cluster.link_heap c) (Cluster.next_block c) (Cluster.proc_clients c)
    (Cluster.election_timeout c) v (Cluster.stats_bus_messages_sent c) (Cluster.stats_bus_messages_received c)).

(** ** Helpers *)

(** The C string in an sds string. *)
Definition text (s : bytes) : bytes := default [] (cstr (s ++ [0])).

(** [!strcasecmp(s, name)] *)
Definition ieq (s : bytes) (name : string) : bool := strcasecmp0 s (lit name).

Definition yesnotoi (s : bytes) : Z := if ieq s "yes" then 1 else if ieq s "no" then 0 else -1.

Definition PREZ_CLIENT_TYPE_NORMAL : Z := 0.

Definition getClientTypeByName (name : bytes) : Z := if ieq name "normal" then PREZ_CLIENT_TYPE_NORMAL else -1.

Definition getClientTypeName (class : Z) : option bytes :=
  if class =? PREZ_CLIENT_TYPE_NORMAL then Some (lit "normal") else None.

Definition pathIsBaseName (path : bytes) : bool :=
  match strchr path 47, strchr path 92 with None, None => true | _, _ => false end.

(** The bytes behind an optional minus sign and the digits. *)
Fixpoint skip_digits (p : bytes) : bytes :=
  match p with
  | c :: p' => if is_digit c then skip_digits p' else p
  | [] => []
  end.

Definition memory_unit (u : bytes) : option Z :=
  if bool_decide (u = []) || ieq u "b" then Some 1
  else if ieq u "k" then Some 1000
  else if ieq u "kb" then Some 1024
  else if ieq u "m" then Some (1000 * 1000)
  else if ieq u "mb" then Some (1024 * 1024)
  else if ieq u "g" then Some (1000 * 1000 * 1000)
  else if ieq u "gb" then Some (1024 * 1024 * 1024)
  else None.

(** The value and [*err]; the product is computed in [long long]. *)
Definition memtoll (p : bytes) : cres (Z * bool) :=
  let u := skip_digits (match p with c :: p' => if c =? 45 then p' else p | [] => [] end) in
  let '(mul, err) := match memory_unit u with Some m => (m, false) | None => (1, true) end in
  let digits := (length p - length u)%nat in
  if (128 <=? digits)%nat then mret (LLONG_MAX, true) else
  let val := (strtoll_end 10 (take digits p)).1.1 in
  _ ← require ((LLONG_MIN <=? val * mul) && (val * mul <=? LLONG_MAX));
  mret (val * mul, err).

(** [None] is PREZ_ERR. *)
Definition getLongLongFromObject (o : robj) : option Z :=
  match o with
  | OBJ_INT v => Some v
  | _ =>
      let s := text (obj_sds o) in
      let '(value, eptr, erange) := strtoll_end 10 s in
      if (match s with c :: _ => isspace c | [] => false end) || negb (bool_decide (eptr = [])) || (erange : bool)
      then None else Some value
  end.

(** ** The configuration file *)

Definition PREZ_BINDADDR_MAX : nat := 16.
Definition PREZ_MIN_HZ : Z := 1.
Definition PREZ_MAX_HZ : Z := 500.
Definition PREZ_DEBUG : Z := 0.
Definition PREZ_VERBOSE : Z := 1.
Definition PREZ_NOTICE : Z := 2.
Definition PREZ_WARNING : Z := 3.
Definition PREZ_CONFIGLINE_MAX : nat := 1024.

(** The codes of <syslog.h>. *)
Definition validSyslogFacilities : list (string * Z) :=
  [("user", 8); ("local0", 128); ("local1", 136); ("local2", 144); ("local3", 152); ("local4", 160);
   ("local5", 168); ("local6", 176); ("local7", 184)]%string.

Definition maxmemory_policies : list (string * Z) :=
  [("volatile-lru", 0); ("volatile-random", 2); ("volatile-ttl", 1); ("allkeys-lru", 3);
   ("allkeys-random", 4); ("noeviction", 5)]%string.

Definition loglevels : list (string * Z) :=
  [("debug", PREZ_DEBUG); ("verbose", PREZ_VERBOSE); ("notice", PREZ_NOTICE); ("warning", PREZ_WARNING)]%string.

(** A chain of comparisons without regard to case. *)
Definition choose (l : list (string * Z)) (w : bytes) : option Z :=
  snd <$> (snd <$> list_find (λ e, ieq w e.1 = true) l).

(** [chdir], [fopen(name, "a")], and the files [fopen(name, "r")] opens. *)
Record files := mkFiles {
  can_chdir : bytes -> bool;
  can_append : bytes -> bool;
  file_bytes : bytes -> option bytes;
}.

(** [err = ...; goto loaderr] ends the process. *)
Definition checked (bad : bool) (s : node_st) : cres node_st := if bad then Exit else mret s.

(** [server.f = yesnotoi(w)], -1 is an error. *)
Definition set_yesno (s : node_st) (f : num_field) (w : bytes) : cres node_st :=
  checked (yesnotoi w =? -1) (set_num s f (yesnotoi w)).

Definition set_choice (s : node_st) (f : num_field) (l : list (string * Z)) (w : bytes) : cres node_st :=
  match choose l w with Some v => mret (set_num s f v) | None => Exit end.

Definition clamp_hz (v : Z) : Z :=
  let v := if v <? PREZ_MIN_HZ then PREZ_MIN_HZ else v in
  if PREZ_MAX_HZ <? v then PREZ_MAX_HZ else v.

Section Load.
Context (fs : files).
(** [loadServerConfig(filename, NULL)] for an included file. *)
Context (include : bytes -> node_st -> cres node_st).

(** The words [argv] of a line. *)
Definition load_directive (s : node_st) (argv : list bytes) : cres node_st :=
  let argc := length argv in
  let arg i := default [] (argv !! i) in
  let a0 := arg 0%nat in
  let a1 := text (arg 1%nat) in
  let d name n := ieq a0 name && (argc =? n)%nat in
  if d "timeout" 2%nat then checked (atoi a1 <? 0) (set_num s f_maxidletime (atoi a1))
  else if d "name" 2%nat then mret (set_str s f_name a1)
  else if d "tcp-keepalive" 2%nat then checked (atoi a1 <? 0) (set_num s f_tcpkeepalive (atoi a1))
  else if d "port" 2%nat then checked ((atoi a1 <? 0) || (65535 <? atoi a1)) (set_num s f_port (atoi a1))
  else if d "tcp-backlog" 2%nat then checked (atoi a1 <? 0) (set_num s f_tcp_backlog (atoi a1))
  else if ieq a0 "bind" && (2 <=? argc)%nat then
    checked (PREZ_BINDADDR_MAX <? argc - 1)%nat (set_bindaddr s (text <$> drop 1 argv))
  else if d "unixsocket" 2%nat then mret (set_str s f_unixsocket a1)
  else if d "unixsocketperm" 2%nat then
    let '(v, _, erange) := strtoll_end 8 a1 in
    checked ((erange : bool) || (511 <? wrap_u32 v)) (set_num s f_unixsocketperm (wrap_u32 v))
  else if d "dir" 2%nat then checked (negb (can_chdir fs a1)) s
  else if d "loglevel" 2%nat then set_choice s f_verbosity loglevels a1
  else if d "logfile" 2%nat then
    checked (negb (bool_decide (a1 = [])) && negb (can_append fs a1)) (set_str s f_logfile a1)
  else if d "syslog-enabled" 2%nat then set_yesno s f_syslog_enabled a1
  else if d "syslog-ident" 2%nat then mret (set_str s f_syslog_ident a1)
  else if d "syslog-facility" 2%nat then set_choice s f_syslog_facility validSyslogFacilities a1
  else if d "include" 2%nat then include a1 s
  else if d "maxclients" 2%nat then checked (atoi a1 <? 1) (set_num s f_maxclients (atoi a1))
  else if d "maxmemory" 2%nat then '(v, _) ← memtoll a1; mret (set_num s f_maxmemory (wrap_u64 v))
  else if d "maxmemory-policy" 2%nat then set_choice s f_maxmemory_policy maxmemory_policies a1
  else if d "maxmemory-samples" 2%nat then checked (atoi a1 <=? 0) (set_num s f_maxmemory_samples (atoi a1))
  else if d "daemonize" 2%nat then set_yesno s f_daemonize a1
  else if d "hz" 2%nat then mret (set_num s f_hz (clamp_hz (atoi a1)))
  else if d "pidfile" 2%nat then mret (set_str s f_pidfile a1)
  else if d "cluster-port" 2%nat then
    checked ((atoi a1 <? 0) || (65535 <? num s f_port)) (set_num s f_cport (atoi a1))
  else if d "cluster-config-file" 2%nat then mret (set_str s f_cluster_configfile a1)
  else if d "cluster-election-timeout" 2%nat then checked (strtol a1 <=? 0) (set_election_timeout s (strtol a1))
  else if d "cluster-heartbeat-interval" 2%nat then checked (strtol a1 <=? 0) (set_heartbeat_interval s (strtol a1))
  else if d "client-output-buffer-limit" 5%nat then
    if getClientTypeByName a1 =? -1 then Exit else
    '(hard, _) ← memtoll (text (arg 2%nat));
    '(soft, _) ← memtoll (text (arg 3%nat));
    let seconds := atoi (text (arg 4%nat)) in
    checked (seconds <? 0)
      (set_num (set_num (set_num s f_hard_limit_bytes (wrap_u64 hard)) f_soft_limit_bytes (wrap_u64 soft))
         f_soft_limit_seconds seconds)
  else Exit.

(** The characters [sdstrim] removes. *)
Definition line_blanks : bytes := [32; 9; 13; 10].

Definition load_line (s : node_st) (line : bytes) : cres node_st :=
  let line := SdsOps.trimmed line_blanks line in
  if (match line with [] => true | c :: _ => (c =? 35) || (c =? 0) end) then mret s else
  match SdsArgs.sdssplitargs line with
  | None => Exit
  | Some [] => mret s
  | Some (w :: argv) => load_directive s ((SdsOps.tolower <$> w) :: argv)
  end.

Fixpoint load_lines (s : node_st) (lines : list bytes) : cres node_st :=
  match lines with
  | [] => mret s
  | line :: lines => s ← load_line s line; load_lines s lines
  end.

(** The text ends at its first NUL. *)
Definition loadServerConfigFromString (s : node_st) (config : bytes) : cres node_st :=
  lines ← of_ptr (SdsOps.sdssplitlen (text config) [10]);
  load_lines s lines.
End Load.

(** [sdscat] of what [fgets] returns, up to a NUL. *)
Fixpoint read_config (n : nat) (f : bytes) : bytes :=
  match n with
  | O => []
  | S n =>
      match fgets (PREZ_CONFIGLINE_MAX + 1) f with
      | None => []
      | Some (l, f) => text l ++ read_config n f
      end
  end.

(** [n]: the depth of included files the stack holds.  [filename] [None] is NULL; ["-"] is
    the standard input, a file of that name here. *)
Fixpoint loadServerConfig (fs : files) (n : nat) (filename options : option bytes) (s : node_st) : cres node_st :=
  match n with
  | O => Undef
  | S n =>
      config ← match filename with
               | None => mret []
               | Some f => match file_bytes fs f with
                           | None => Exit
                           | Some b => mret (read_config (length b) b)
                           end
               end;
      let config := match options with None => config | Some o => config ++ [10] ++ o end in
      loadServerConfigFromString fs (λ f, loadServerConfig fs n (Some f) None) s config
  end.

(** ** The start of the server *)

(** The values before any file is read; the fields that are not assigned are 0 or NULL. *)
Definition initServerConfig : serverConfig := mkConfig
  (λ f, match f with
        | f_hz => 100
        | f_port => 7981
        | f_tcp_backlog => 511
        | f_unixsocketperm => 0
        | f_verbosity => PREZ_DEBUG
        | f_maxidletime => 0
        | f_tcpkeepalive => 0
        | f_syslog_enabled => 0
        | f_syslog_facility => 128
        | f_daemonize => 0
        | f_maxclients => 10000
        | f_cport => 17981
        | f_hard_limit_bytes | f_soft_limit_bytes | f_soft_limit_seconds => 0
        | f_maxmemory | f_maxmemory_policy | f_maxmemory_samples => 0
        end)
  (λ f, match f with
        | f_name => Some (lit "prezserver")
        | f_unixsocket => None
        | f_logfile => Some []
        | f_syslog_ident => Some (lit "prez")
        | f_pidfile => Some (lit "/var/run/prez.pid")
        | f_cluster_configfile => None
        end) [].

(** [argv[j][0] == '-' && argv[j][1] == '-'] *)
Definition is_option (a : bytes) : bool := (char0 a =? 45) && (char0 (drop 1 a) =? 45).

(** The loop of [main] over the words of the command line. *)
Fixpoint cmdline_options (options : bytes) (argv : list bytes) : bytes :=
  match argv with
  | [] => options
  | a :: argv =>
      cmdline_options
        (if is_option a then (if bool_decide (options = []) then [] else options ++ [10]) ++ drop 2 a ++ [32]
         else SdsArgs.sdscatrepr options a ++ [32]) argv
  end.

(** [main] up to [loadServerConfig]; [argv] without the name of the program.  Asking for the
    version or for help ends the process. *)
Definition main_config (fs : files) (n : nat) (argv : list bytes) (s : node_st) : cres node_st :=
  match argv with
  | [] => mret s
  | a :: rest =>
      if existsb (λ w, bool_decide (a = lit w)) ["-v"; "--version"; "--help"; "-h"]%string then Exit
      else
        let '(configfile, argv) := if is_option a then (None, argv) else (Some a, rest) in
        loadServerConfig fs n configfile (Some (cmdline_options [] argv)) s
  end.

(** ** CONFIG SET *)

Definition PREZ_MIN_RESERVED_FDS : Z := 32.
Definition PREZ_EVENTLOOP_FDSET_INCR : Z := PREZ_MIN_RESERVED_FDS + 96.

(** What the operating system allows: the limit of open files, whether it can be raised, the
    size of the event loop and whether it can be changed. *)
Record os_limits := mkLimits {
  rlim_cur : option Z;
  setrlimit_ok : Z -> bool;
  ae_setsize : Z;
  ae_resize_ok : Z -> bool;
}.

(** [while(f > oldlimit)]: the limit is lowered by 16 until it can be set. *)
Fixpoint lower_limit (fuel : nat) (ok : Z -> bool) (oldlimit f : Z) : Z :=
  match fuel with
  | O => f
  | S fuel =>
      if oldlimit <? f then
        if ok f then f else if f <? 16 then f else lower_limit fuel ok oldlimit (f - 16)
      else f
  end.

(** The new [server.maxclients]; the sum in [int] must not overflow. *)
Definition adjustOpenFilesLimit (os : os_limits) (maxclients : Z) : cres Z :=
  _ ← require (maxclients + PREZ_MIN_RESERVED_FDS <? 2 ^ 31);
  let maxfiles := wrap_u64 (maxclients + PREZ_MIN_RESERVED_FDS) in
  match rlim_cur os with
  | None => mret (1024 - PREZ_MIN_RESERVED_FDS)
  | Some oldlimit =>
      if oldlimit <? maxfiles then
        let f := lower_limit (S (Z.to_nat (maxfiles / 16))) (setrlimit_ok os) oldlimit maxfiles in
        let f := if f <? oldlimit then oldlimit else f in
        if negb (f =? maxfiles) then
          let n := wrap_s32 (f - PREZ_MIN_RESERVED_FDS) in
          if n <? 1 then Exit else mret n
        else mret maxclients
      else mret maxclients
  end.

(** How the chain of CONFIG SET ends: with OK, at [badfmt], or with an error of its own.  The
    texts that are sent with [addReplyError] hold no newline, so that [addReplyErrorFormat]
    sends the same. *)
Inductive set_result := SetOk (s : node_st) | SetBadFormat | SetError (msg : bytes).

(** A number, or [badfmt]. *)
Definition with_number (o : robj) (ok : Z -> bool) (f : Z -> cres set_result) : cres set_result :=
  match getLongLongFromObject o with
  | Some ll => if ok ll then f ll else mret SetBadFormat
  | None => mret SetBadFormat
  end.

Definition set_maxclients (os : os_limits) (s : node_st) (ll : Z) : cres set_result :=
  let orig_value := num s f_maxclients in
  if orig_value <? ll then
    n ← adjustOpenFilesLimit os (wrap_s32 ll);
    if negb (n =? ll) then
      mret (SetError (lit "The operating system is not able to handle the specified number of clients, try with " ++ ll_repr n))
    else if (wrap_u32 (ae_setsize os) <? wrap_u32 (n + PREZ_EVENTLOOP_FDSET_INCR))
            && negb (ae_resize_ok os (n + PREZ_EVENTLOOP_FDSET_INCR)) then
      mret (SetError (lit "The event loop API used by Prez is not able to handle the specified number of clients"))
    else mret (SetOk (set_num s f_maxclients n))
  else mret (SetOk (set_num s f_maxclients (wrap_s32 ll))).

(** The checks of the words of client-output-buffer-limit; [j] is the index. *)
Fixpoint limits_ok (j : nat) (v : list bytes) : bool :=
  match v with
  | [] => true
  | w :: v =>
      (if (j mod 4 =? 0)%nat then negb (getClientTypeByName w =? -1)
       else let '(val, eptr, _) := strtoll_end 10 (text w) in bool_decide (eptr = []) && (0 <=? val))
      && limits_ok (S j) v
  end.

Fixpoint set_limits (s : node_st) (v : list bytes) : node_st :=
  match v with
  | _ :: hard :: soft :: seconds :: v =>
      let n w := (strtoll_end 10 (text w)).1.1 in
      set_limits (set_num (set_num (set_num s f_hard_limit_bytes (wrap_u64 (n hard)))
                    f_soft_limit_bytes (wrap_u64 (n soft))) f_soft_limit_seconds (wrap_s32 (n seconds))) v
  | _ => s
  end.

Definition config_set (os : os_limits) (s : node_st) (name : bytes) (o : robj) : cres set_result :=
  let p := ieq name in
  let value := obj_sds o in
  if p "dbfilename" then
    if pathIsBaseName (text value) then mret (SetOk s) else mret (SetError (lit "dbfilename can't be a path, just a filename"))
  else if p "maxclients" then with_number o (λ ll, 1 <=? ll) (set_maxclients os s)
  else if p "hz" then
    with_number o (λ ll, 0 <=? ll) (λ ll, mret (SetOk (set_num s f_hz (clamp_hz (wrap_s32 ll)))))
  else if p "timeout" then
    with_number o (λ ll, (0 <=? ll) && (ll <=? LLONG_MAX)) (λ ll, mret (SetOk (set_num s f_maxidletime (wrap_s32 ll))))
  else if p "tcp-keepalive" then
    with_number o (λ ll, (0 <=? ll) && (ll <=? 2 ^ 31 - 1)) (λ ll, mret (SetOk (set_num s f_tcpkeepalive ll)))
  else if p "loglevel" then
    match choose loglevels value with
    | Some v => mret (SetOk (set_num s f_verbosity v))
    | None => mret SetBadFormat
    end
  else if p "client-output-buffer-limit" then
    v ← of_ptr (SdsOps.sdssplitlen value [32]);
    if negb (length v mod 4 =? 0)%nat || negb (limits_ok 0 v) then mret SetBadFormat
    else mret (SetOk (set_limits s v))
  else if p "cluster-heartbeat-interval" then
    with_number o (λ ll, 0 <? ll) (λ ll, mret (SetOk (set_heartbeat_interval s ll)))
  else if p "cluster-election-timeout" then
    with_number o (λ ll, 0 <? ll) (λ ll, mret (SetOk (set_election_timeout s ll)))
  else mret (SetError (lit "Unsupported CONFIG parameter: " ++ text name)).

Definition configSetCommand (oe : oenv) (os : os_limits) (s : node_st) (c : prezClient) : cres (node_st * prezClient) :=
  name ← of_ptr (argv (inp c) !! 2%nat);
  o ← of_ptr (argv (inp c) !! 3%nat);
  _ ← prez_assert (sdsEncodedObject name);
  _ ← prez_assert (sdsEncodedObject o);
  r ← config_set os s (obj_sds name) o;
  match r with
  | SetOk s => c ← addReply oe c shared_ok; mret (s, c)
  | SetBadFormat =>
      c ← addReplyErrorFormat oe c (lit "Invalid argument '" ++ text (obj_sds o) ++ lit "' for CONFIG SET '"
                                      ++ text (obj_sds name) ++ lit "'");
      mret (s, c)
  | SetError msg => c ← addReplyErrorFormat oe c msg; mret (s, c)
  end.

(** ** CONFIG GET *)

(** [%o] *)
Fixpoint octal (fuel : nat) (v : Z) : bytes :=
  match fuel with
  | O => []
  | S fuel => if v <? 8 then [48 + v] else octal fuel (v / 8) ++ [48 + v mod 8]
  end.

Definition loglevel_name (v : Z) : bytes :=
  if v =? PREZ_WARNING then lit "warning"
  else if v =? PREZ_VERBOSE then lit "verbose"
  else if v =? PREZ_NOTICE then lit "notice"
  else if v =? PREZ_DEBUG then lit "debug" else lit "unknown".

(** ["%s %llu %llu %ld"] for the one class of clients. *)
Definition limits_text (s : node_st) : cres bytes :=
  name ← of_ptr (getClientTypeName PREZ_CLIENT_TYPE_NORMAL);
  mret (name ++ [32] ++ dec (num s f_hard_limit_bytes) ++ [32] ++ dec (num s f_soft_limit_bytes) ++ [32]
          ++ ll_repr (num s f_soft_limit_seconds)).

(** The parameters in the order of the code, with the text of their values. *)
Definition config_fields (s : node_st) : cres (list (bytes * bytes)) :=
  limits ← limits_text s;
  let string_field f := default [] (str s f) in
  let number v := ll2text 128 v in
  mret [(lit "unixsocket", string_field f_unixsocket);
        (lit "logfile", string_field f_logfile);
        (lit "pidfile", string_field f_pidfile);
        (lit "timeout", number (num s f_maxidletime));
        (lit "tcp-keepalive", number (num s f_tcpkeepalive));
        (lit "port", number (num s f_port));
        (lit "tcp-backlog", number (num s f_tcp_backlog));
        (lit "maxclients", number (num s f_maxclients));
        (lit "hz", number (num s f_hz));
        (lit "cluster-election-timeout", number (Cluster.election_timeout (ns_cluster s)));
        (lit "cluster-heartbeat-interval", number (Cluster.heartbeat_interval (ns_cluster s)));
        (lit "loglevel", loglevel_name (num s f_verbosity));
        (lit "client-output-buffer-limit", limits);
        (lit "unixsocketperm", octal 11 (num s f_unixsocketperm))].

Fixpoint get_loop (oe : oenv) (pattern : bytes) (fields : list (bytes * bytes)) (c : prezClient) (matches : Z)
    : cres (prezClient * Z) :=
  match fields with
  | [] => mret (c, matches)
  | (name, value) :: fields =>
      m ← stringmatch pattern name false;
      if (m : bool) then
        c ← addReplyBulkCString oe c (Some name);
        c ← addReplyBulkCString oe c (Some value);
        get_loop oe pattern fields c (matches + 1)
      else get_loop oe pattern fields c matches
  end.

Definition configGetCommand (oe : oenv) (s : node_st) (c : prezClient) : cres prezClient :=
  o ← of_ptr (argv (inp c) !! 2%nat);
  let '(c, replylen) := addDeferredMultiBulkLength oe c in
  _ ← prez_assert (sdsEncodedObject o);
  fields ← config_fields s;
  '(c, matches) ← get_loop oe (obj_sds o) fields c 0;
  setDeferredMultiBulkLength oe c replylen (matches * 2).

(** ** CONFIG *)

Definition resetServerStats (s : node_st) : node_st :=
  mkSt (ns_cluster s) (mkKeyspace (db_dict (ns_db s)) 0 0) (ns_conf s) 0 0 0.

Definition configCommand (os : os_limits) (oe : oenv) (s : node_st) (c : option prezClient) (argv0 : list robj)
    : cres (node_st * option prezClient) :=
  c ← of_ptr c;
  a1 ← of_ptr (argv (inp c) !! 1%nat);
  let sub := ieq (obj_sds a1) in
  let argc := length (argv (inp c)) in
  let badarity :=
    c ← addReplyErrorFormat oe c (lit "Wrong number of arguments for CONFIG " ++ text (obj_sds a1));
    mret (s, Some c) in
  if sub "set" then
    if negb (argc =? 4)%nat then badarity else
    '(s, c) ← configSetCommand oe os s c; mret (s, Some c)
  else if sub "get" then
    if negb (argc =? 3)%nat then badarity else
    c ← configGetCommand oe s c; mret (s, Some c)
  else if sub "resetstat" then
    if negb (argc =? 2)%nat then badarity else
    c ← addReply oe c shared_ok; mret (resetServerStats s, Some c)
  else
    c ← addReplyError oe c (lit "CONFIG subcommand must be one of GET, SET, RESETSTAT, REWRITE");
    mret (s, Some c).
