(* ===== verification/ConfigFacts.v ===== *)
(** * Facts about the configuration

    What a configuration file or CONFIG SET can make of the configuration, and what CONFIG GET
    reports. *)

From Stdlib Require Import ZArith Lia.
From stdpp Require Import base tactics functions numbers list gmap strings.
From S2P Require Import Prelude Util Libc Object DictTypes Glob Client Request Deferred Keyspace Config.
From S2P Require SdsArgs SdsOps Cluster ClusterVote ClusterConf.

Local Open Scope Z_scope.

(** ** The values stay in their ranges *)

(** The ranges the rest of the server relies on: numbers of sockets, timers that divide, flags. *)
Record conf_ok (s : node_st) : Prop := {
  ck_port : 0 <= num s f_port <= 65535;
  ck_tcp_backlog : 0 <= num s f_tcp_backlog < 2 ^ 31;
  ck_tcpkeepalive : 0 <= num s f_tcpkeepalive < 2 ^ 31;
  ck_perm : 0 <= num s f_unixsocketperm <= 511;
  ck_verbosity : PREZ_DEBUG <= num s f_verbosity <= PREZ_WARNING;
  ck_syslog_enabled : 0 <= num s f_syslog_enabled <= 1;
  ck_daemonize : 0 <= num s f_daemonize <= 1;
  ck_maxclients : 1 <= num s f_maxclients < 2 ^ 31;
  ck_samples : 0 <= num s f_maxmemory_samples < 2 ^ 31;
  ck_policy : 0 <= num s f_maxmemory_policy <= 5;
  ck_hz : PREZ_MIN_HZ <= num s f_hz <= PREZ_MAX_HZ;
  ck_election : 0 < Cluster.election_timeout (ns_cluster s) <= LLONG_MAX;
  ck_heartbeat : 0 < Cluster.heartbeat_interval (ns_cluster s) <= LLONG_MAX;
  ck_bind : (length (bindaddr (ns_conf s)) <= PREZ_BINDADDR_MAX)%nat;
}.

(** The range of a field, as far as [conf_ok] restricts it. *)
Definition field_ok (f : num_field) (v : Z) : Prop :=
  match f with
  | f_port => 0 <= v <= 65535
  | f_tcp_backlog | f_tcpkeepalive | f_maxmemory_samples => 0 <= v < 2 ^ 31
  | f_unixsocketperm => 0 <= v <= 511
  | f_verbosity => PREZ_DEBUG <= v <= PREZ_WARNING
  | f_syslog_enabled | f_daemonize => 0 <= v <= 1
  | f_maxclients => 1 <= v < 2 ^ 31
  | f_maxmemory_policy => 0 <= v <= 5
  | f_hz => PREZ_MIN_HZ <= v <= PREZ_MAX_HZ
  | _ => True
  end.

Lemma num_set s f v g : num (set_num s f v) g = if decide (f = g) then v else num s g.
Proof. unfold num, set_num. cbn. case_decide as E; [subst; by rewrite fn_lookup_insert|by rewrite fn_lookup_insert_ne]. Qed.

Lemma set_num_ok s f v : conf_ok s -> field_ok f v -> conf_ok (set_num s f v).
Proof.
  intros [] Hf. destruct f; constructor; rewrite ?num_set; try done; case_decide; try done; by simplify_eq/=.
Qed.

Lemma set_str_ok s f v : conf_ok s -> conf_ok (set_str s f v).
Proof. intros []. by constructor. Qed.

Lemma atoi_range s : - 2 ^ 31 <= atoi s < 2 ^ 31.
Proof.
  unfold atoi, wrap_s. pose proof (Z.mod_pos_bound (strtol s + 2 ^ (32 - 1)) (2 ^ 32)). lia.
Qed.

Lemma strtol_range s : strtol s <= LLONG_MAX.
Proof.
  unfold strtol. destruct (skip_spaces s) as [|c s']; [rng|].
  assert (forall t acc, 0 <= acc -> 0 <= strtol_digits acc t) as H.
  { induction t as [|x t IH]; intros acc Ha; cbn; [done|]. destruct (is_digit x) eqn:E; [|done].
    unfold is_digit in E. apply IH. lia. }
  specialize (H s' 0 ltac:(lia)). destruct (c =? 45); [rng|]. destruct (c =? 43); rng.
Qed.

Lemma checked_ret b s s' : checked b s = Ret s' -> b = false /\ s' = s.
Proof. unfold checked. destruct b; [done|]. by intros [= <-]. Qed.

Lemma clamp_hz_range v : PREZ_MIN_HZ <= clamp_hz v <= PREZ_MAX_HZ.
Proof.
  unfold clamp_hz, PREZ_MIN_HZ, PREZ_MAX_HZ. destruct (Z.ltb_spec v 1);
    match goal with |- context [if ?b then _ else _] => destruct b eqn:? end; lia.
Qed.

Lemma choose_in l w v : choose l w = Some v -> exists n, (n, v) ∈ l.
Proof.
  unfold choose. destruct (list_find _ l) as [[i [n v0]]|] eqn:E; [|done]. intros [= <-].
  apply list_find_Some in E as (E & _ & _). exists n. by apply list_elem_of_lookup_2 in E.
Qed.

Lemma set_choice_ok s f l w s' : conf_ok s -> (forall n v, (n, v) ∈ l -> field_ok f v) ->
  set_choice s f l w = Ret s' -> conf_ok s'.
Proof.
  intros Hs Hl. unfold set_choice. destruct (choose l w) as [v|] eqn:E; [|done]. intros [= <-].
  apply choose_in in E as [n Hn]. by apply set_num_ok; [|eapply Hl].
Qed.

Lemma set_yesno_ok s f w s' : conf_ok s -> (forall v, 0 <= v <= 1 -> field_ok f v) -> set_yesno s f w = Ret s' -> conf_ok s'.
Proof.
  intros Hs Hf. unfold set_yesno. intros [E ->]%checked_ret. apply set_num_ok; [done|]. apply Hf.
  unfold yesnotoi in *. repeat case_match; lia.
Qed.

(** One branch of the chain of directives that sets a checked number. *)
Ltac directive_num :=
  match goal with
  | H : checked ?b (set_num ?s ?f (atoi ?a)) = Ret _ |- _ =>
      let E := fresh in apply checked_ret in H as [E ->]; apply set_num_ok; [done|]; cbn [field_ok];
      pose proof (atoi_range a); lia
  | H : mret (set_str _ _ _) = Ret _ |- _ => injection H as <-; by apply set_str_ok
  | H : checked _ (set_str _ _ _) = Ret _ |- _ => apply checked_ret in H as [_ ->]; by apply set_str_ok
  | H : set_yesno _ _ _ = Ret _ |- _ => eapply set_yesno_ok; [done| |exact H]; cbn [field_ok]; lia
  end.

Section Load.
Context (fs : files) (include : bytes -> node_st -> cres node_st).
Context (include_ok : forall f s s', conf_ok s -> include f s = Ret s' -> conf_ok s').

Lemma load_directive_ok s argv s' : conf_ok s -> load_directive fs include s argv = Ret s' -> conf_ok s'.
Proof.
  intros Hs H. unfold load_directive in H.
  repeat match type of H with
         | (if ?b then _ else _) = Ret _ => destruct b; [try directive_num|]
         end.
  - apply checked_ret in H as [E ->]. destruct Hs. constructor; try done. cbn. rewrite length_fmap.
    apply Nat.ltb_ge in E. rewrite length_drop. lia.
  - destruct (strtoll_end 8 _) as [[v r] e]. apply checked_ret in H as [E ->]. apply set_num_ok; [done|]. cbn [field_ok].
    pose proof (Z.mod_pos_bound v (2 ^ 32)). unfold wrap_u in *. lia.
  - by apply checked_ret in H as [_ ->].
  - eapply set_choice_ok; [done| |exact H]. cbn [field_ok]. unfold loglevels, PREZ_DEBUG, PREZ_VERBOSE, PREZ_NOTICE, PREZ_WARNING.
    intros n v Hin. set_solver by lia.
  - eapply set_choice_ok; [done| |exact H]. done.
  - by eapply include_ok.
  - destruct (memtoll _) as [[v e]| |]; [|done..]. injection H as <-. by apply set_num_ok.
  - eapply set_choice_ok; [done| |exact H]. cbn [field_ok]. unfold maxmemory_policies. intros n v Hin. set_solver by lia.
  - injection H as <-. apply set_num_ok; [done|]. apply clamp_hz_range.
  - apply checked_ret in H as [E ->]. pose proof (strtol_range (text (default [] (argv !! 1%nat)))).
    destruct Hs. constructor; try done. cbn [ns_cluster set_election_timeout st_cluster Cluster.election_timeout]. lia.
  - apply checked_ret in H as [E ->]. pose proof (strtol_range (text (default [] (argv !! 1%nat)))).
    destruct Hs. constructor; try done. cbn [ns_cluster set_heartbeat_interval st_cluster Cluster.heartbeat_interval]. lia.
  - done.
  - destruct (memtoll (text (default [] (argv !! 2%nat)))) as [[hard e1]| |]; [|done..]. cbn [mbind cres_bind] in H.
    destruct (memtoll (text (default [] (argv !! 3%nat)))) as [[soft e2]| |]; [|done..]. cbn [mbind cres_bind] in H.
    apply checked_ret in H as [E ->]. by repeat apply set_num_ok.
  - done.
Qed.

Lemma load_line_ok s line s' : conf_ok s -> load_line fs include s line = Ret s' -> conf_ok s'.
Proof.
  intros Hs. unfold load_line. destruct (match _ with [] => _ | _ => _ end); [by intros [= <-]|].
  destruct (SdsArgs.sdssplitargs _) as [[|w argv]|]; [by intros [= <-]| |done]. by apply load_directive_ok.
Qed.

Lemma load_string_ok s config s' : conf_ok s -> loadServerConfigFromString fs include s config = Ret s' -> conf_ok s'.
Proof.
  unfold loadServerConfigFromString. destruct (of_ptr _) as [lines| |]; [|done..]. cbn [mbind cres_bind].
  revert s. induction lines as [|l lines IH]; intros s Hs; cbn [load_lines]; [by intros [= <-]|].
  destruct (load_line fs include s l) as [s1| |] eqn:E; [|done..]. cbn [mbind cres_bind]. apply IH. by eapply load_line_ok.
Qed.
End Load.

Lemma loadServerConfig_ok fs n : forall filename options s s', conf_ok s ->
  loadServerConfig fs n filename options s = Ret s' -> conf_ok s'.
Proof.
  induction n as [|n IH]; intros filename options s s' Hs; [done|]. cbn [loadServerConfig].
  destruct (match filename with None => _ | Some _ => _ end) as [config| |]; [|done..]. cbn [mbind cres_bind].
  apply load_string_ok; [|done]. intros f s1 s1' H1. by apply IH.
Qed.

(** ** CONFIG SET *)

Lemma getLongLong_range o v : obj_ok o -> getLongLongFromObject o = Some v -> in_s64 v.
Proof.
  intros Ho. unfold getLongLongFromObject. destruct o as [s|s|x]; [| |by intros [= <-]].
  all: destruct (strtoll_end 10 _) as [[v0 r] e] eqn:E; destruct (_ || _); [done|]; intros [= <-];
    by eapply strtoll_end_range.
Qed.

Lemma wrap_s32_range x : - 2 ^ 31 <= wrap_s32 x < 2 ^ 31.
Proof. unfold wrap_s. pose proof (Z.mod_pos_bound (x + 2 ^ (32 - 1)) (2 ^ 32)). lia. Qed.

Lemma set_limits_ok v : forall s, conf_ok s -> conf_ok (set_limits s v).
Proof.
  induction v as [v IH] using length_ind. intros s Hs. destruct v as [|? [|h [|so [|se v]]]]; try done.
  cbn [set_limits]. apply IH; [cbn; lia|]. by repeat apply set_num_ok.
Qed.

Lemma adjust_range os m n : adjustOpenFilesLimit os m = Ret n -> m < 2 ^ 31 -> n < 2 ^ 31.
Proof.
  unfold adjustOpenFilesLimit. destruct (require _); [|done..]. cbn [mbind cres_bind].
  destruct (rlim_cur os) as [old|]; [|by intros [= <-]]. destruct (_ <? _); [|intros [= <-]; lia].
  destruct (negb _); [|intros [= <-]; lia]. destruct (_ <? 1); [done|]. intros [= <-] _. apply wrap_s32_range.
Qed.

Lemma set_maxclients_ok os s ll s' : conf_ok s -> 1 <= ll <= LLONG_MAX -> set_maxclients os s ll = Ret (SetOk s') -> conf_ok s'.
Proof.
  intros Hs Hll. pose proof (ck_maxclients _ Hs). unfold set_maxclients.
  destruct (Z.ltb_spec (num s f_maxclients) ll).
  - destruct (adjustOpenFilesLimit os (wrap_s32 ll)) as [n| |] eqn:E; [|done..]. cbn [mbind cres_bind].
    destruct (Z.eqb_spec n ll) as [->|]; [|done]. cbn [negb]. destruct (_ && _); [done|]. intros [= <-].
    apply set_num_ok; [done|]. cbn [field_ok]. apply adjust_range in E; [lia|]. apply wrap_s32_range.
  - intros [= <-]. apply set_num_ok; [done|]. cbn [field_ok]. rewrite wrap_s32_id by rng. lia.
Qed.

Lemma config_set_ok os s name o s' : obj_ok o -> conf_ok s -> config_set os s name o = Ret (SetOk s') -> conf_ok s'.
Proof.
  intros Ho Hs H. unfold config_set in H.
  assert (forall ok f, with_number o ok f = Ret (SetOk s') -> exists ll, in_s64 ll /\ ok ll = true /\ f ll = Ret (SetOk s')) as Hnum.
  { unfold with_number. intros ok f. destruct (getLongLongFromObject o) as [ll|] eqn:E; [|done].
    apply getLongLong_range in E; [|done]. destruct (ok ll) eqn:Eo; [|done]. by exists ll. }
  repeat match type of H with (if ?b then _ else _) = Ret _ => destruct b; [try done|] end.
  - by injection H as <-.
  - done.
  - apply Hnum in H as (ll & Hll & Hok & H). eapply set_maxclients_ok; [done| |exact H]. rng.
  - apply Hnum in H as (ll & Hll & Hok & [= <-]). apply set_num_ok; [done|]. apply clamp_hz_range.
  - apply Hnum in H as (ll & Hll & Hok & [= <-]). by apply set_num_ok.
  - apply Hnum in H as (ll & Hll & Hok & [= <-]). apply set_num_ok; [done|]. cbn [field_ok]. lia.
  - destruct (choose loglevels (obj_sds o)) as [v|] eqn:E; [|done]. injection H as <-.
    apply choose_in in E as [n Hin]. apply set_num_ok; [done|]. cbn [field_ok].
    unfold loglevels, PREZ_DEBUG, PREZ_VERBOSE, PREZ_NOTICE, PREZ_WARNING in *. set_solver by lia.
  - destruct (of_ptr _) as [v| |]; [|done..]. cbn [mbind cres_bind] in H. destruct (_ || _); [done|].
    injection H as <-. by apply set_limits_ok.
  - apply Hnum in H as (ll & Hll & Hok & [= <-]). destruct Hs. constructor; try done.
    cbn [ns_cluster set_heartbeat_interval st_cluster Cluster.heartbeat_interval]. rng.
  - apply Hnum in H as (ll & Hll & Hok & [= <-]). destruct Hs. constructor; try done.
    cbn [ns_cluster set_election_timeout st_cluster Cluster.election_timeout]. rng.
  - done.
Qed.

(** Only CONFIG SET changes the configuration. *)
Lemma configCommand_ok os oe s c av s' c' : Forall obj_ok (argv (inp c)) -> conf_ok s ->
  configCommand os oe s (Some c) av = Ret (s', c') -> conf_ok s'.
Proof.
  intros Ha Hs. unfold configCommand. cbn [of_ptr mbind cres_bind].
  destruct (of_ptr (argv (inp c) !! 1%nat)) as [a1| |]; [|done..]. cbn [mbind cres_bind].
  assert (forall (m : cres prezClient) s1, conf_ok s1 -> (c ← m; mret (s1, Some c)) = Ret (s', c') -> conf_ok s') as Hkeep.
  { intros [c1| |] s1 H1 H; [|done..]. by injection H as <- _. }
  destruct (ieq _ "set"); [|destruct (ieq _ "get"); [|destruct (ieq _ "resetstat"); [|by apply Hkeep]]].
  all: destruct (negb _); [by apply Hkeep|].
  - destruct (configSetCommand oe os s c) as [[s1 c1]| |] eqn:E; [|done..]. cbn [mbind cres_bind]. intros [= <- _].
    revert E. unfold configSetCommand. destruct (argv (inp c) !! 2%nat) as [name|]; [|done].
    destruct (argv (inp c) !! 3%nat) as [o|] eqn:Eo; [|done]. cbn [of_ptr mbind cres_bind].
    destruct (sdsEncodedObject name), (sdsEncodedObject o); [|done..]. cbn [prez_assert mbind cres_bind].
    destruct (config_set os s (obj_sds name) o) as [r| |] eqn:Er; [|done..]. cbn [mbind cres_bind].
    assert (obj_ok o) as Ho by (eapply Forall_lookup_1; [exact Ha|exact Eo]). destruct r as [s2| |msg].
    + apply config_set_ok in Er; [|done..]. destruct (addReply _ _ _); [|done..]. by intros [= <- _].
    + destruct (addReplyErrorFormat _ _ _); [|done..]. by intros [= <- _].
    + destruct (addReplyErrorFormat _ _ _); [|done..]. by intros [= <- _].
  - by apply Hkeep.
  - destruct (addReply _ _ _); [|done..]. cbn [mbind cres_bind]. intros [= <- _]. destruct Hs. by constructor.
Qed.

(** A client's CONFIG command. *)
Definition config_step (os : os_limits) (s s' : node_st) : Prop :=
  exists oe c av c', Forall obj_ok (argv (inp c)) /\ configCommand os oe s (Some c) av = Ret (s', c').

Lemma init_ok s c : ns_conf s = initServerConfig -> ns_cluster s = ClusterConf.initClusterConfig c -> conf_ok s.
Proof.
  intros E1 E2. assert (forall f, num s f = nums initServerConfig f) as En by (intros f; unfold num; by rewrite E1).
  constructor; rewrite ?En, ?E1, ?E2; cbn; unfold PREZ_DEBUG, PREZ_WARNING, PREZ_MIN_HZ, PREZ_MAX_HZ, PREZ_BINDADDR_MAX,
    Cluster.PREZ_CLUSTER_ELECTION_TIMEOUT, Cluster.PREZ_CLUSTER_HEARTBEAT_INTERVAL; rng.
Qed.

Lemma main_config_ok fs n argv s s' : conf_ok s -> main_config fs n argv s = Ret s' -> conf_ok s'.
Proof.
  intros Hs. destruct argv as [|a rest]; cbn [main_config]; [by intros [= <-]|]. destruct (existsb _ _); [done|].
  destruct (is_option a); by apply loadServerConfig_ok.
Qed.


(** ** CONFIG SET and CONFIG GET *)

(** The parameters that hold a number, with the values CONFIG SET takes as they are. *)
Definition settable : list (string * (Z * Z)) :=
  [("timeout", (0, 2 ^ 31 - 1)); ("tcp-keepalive", (0, 2 ^ 31 - 1)); ("hz", (PREZ_MIN_HZ, PREZ_MAX_HZ));
   ("cluster-heartbeat-interval", (1, LLONG_MAX)); ("cluster-election-timeout", (1, LLONG_MAX))]%string.

Lemma ll_repr_head v c l : ll_repr v = c :: l -> isspace c = false.
Proof.
  rewrite ll_repr_abs. pose proof (dec_digits (Z.abs v) ltac:(lia)) as Hd. destruct (v <? 0); [by intros [= <- _]|].
  cbn [app]. intros E. rewrite E in Hd. apply Forall_cons in Hd as [Hc _]. by apply digit_not_special.
Qed.

Lemma getLongLong_repr o v : sdsEncodedObject o = true -> obj_sds o = ll_repr v -> in_s64 v ->
  getLongLongFromObject o = Some v.
Proof.
  intros He Eo Hv. assert (text (ll_repr v) = ll_repr v) as Et.
  { unfold text. by rewrite cstr_app_nul by apply ll_repr_nonul. }
  unfold getLongLongFromObject. destruct o as [s|s|x]; [| |done]; cbn [obj_sds] in *; subst s.
  all: rewrite Et, strtoll_end_repr by done; destruct (ll_repr v) as [|c l] eqn:E; [by apply ll_repr_not_nil in E|].
  all: assert (isspace c = false) as -> by (by eapply ll_repr_head).
  all: by rewrite bool_decide_eq_true_2.
Qed.

(** The C string without regard to case: what [strcasecmp] compares. *)
Fixpoint folded (s : bytes) : bytes :=
  match s with
  | [] => []
  | c :: s => if c =? 0 then [] else SdsOps.tolower c :: folded s
  end.

Lemma tolower_zero y : SdsOps.tolower y = 0 <-> y = 0.
Proof. unfold SdsOps.tolower. destruct (_ && _) eqn:E; lia. Qed.

Lemma strcasecmp0_folded a : forall b, strcasecmp0 a b = true <-> folded a = folded b.
Proof.
  induction a as [|x a IH]; intros [|y b]; cbn [strcasecmp0 folded]; [done|by destruct (y =? 0)|by destruct (x =? 0)|].
  pose proof (tolower_zero x) as Hx. pose proof (tolower_zero y) as Hy.
  destruct (Z.eqb_spec (SdsOps.tolower x) (SdsOps.tolower y)) as [E|E].
  - destruct (Z.eqb_spec x 0), (Z.eqb_spec y 0); [done|lia|lia|]. rewrite IH. split; [by intros ->; rewrite E|by intros [= _ ->]].
  - split; [done|]. destruct (Z.eqb_spec x 0), (Z.eqb_spec y 0); [congruence|done|done|]. intros [= ? _]. done.
Qed.

Lemma ieq_same name n m : ieq name n = true -> ieq name m = ieq (lit n) m.
Proof. unfold ieq. intros E%strcasecmp0_folded. apply eq_true_iff_eq. by rewrite !strcasecmp0_folded, E. Qed.

(** A parameter with its new value. *)
Definition with_value (n : string) (v : bytes) (e : bytes * bytes) : bytes * bytes :=
  if decide (e.1 = lit n) then (e.1, v) else e.

(** Decides the comparisons of a chain with a known name. *)
Ltac eval_ifs := repeat match goal with |- context [if ieq (lit ?a) ?b then _ else _] =>
  let v := eval vm_compute in (ieq (lit a) b) in change (ieq (lit a) b) with v; cbv iota end.

(** One entry of the list of CONFIG GET. *)
Lemma with_value_other n v a w : bool_decide (a = lit n) = false -> with_value n v (a, w) = (a, w).
Proof. intros H%bool_decide_eq_false. unfold with_value. by rewrite decide_False. Qed.

Lemma with_value_same n v w : with_value n v (lit n, w) = (lit n, v).
Proof. unfold with_value. by rewrite decide_True. Qed.

Ltac one_value Ht := rewrite <- Ht; cbn [fmap list_fmap];
  rewrite with_value_same, !with_value_other by reflexivity; reflexivity.

(** CONFIG GET shows what CONFIG SET wrote.  For the parameters that hold a number, with
    their names in any case and every value of their range, CONFIG SET succeeds, and the list
    CONFIG GET chooses from afterwards is the one before with that value, in decimal, in place
    of the old one. *)
Theorem config_set_get (os : os_limits) (s : node_st) (name : bytes) (n : string) (lo hi : Z) (o : robj) (v : Z) :
  (n, (lo, hi)) ∈ settable -> ieq name n = true -> lo <= v <= hi ->
  sdsEncodedObject o = true -> obj_sds o = ll_repr v ->
  exists s' l, config_set os s name o = Ret (SetOk s') /\ config_fields s = Ret l
    /\ config_fields s' = Ret (with_value n (ll_repr v) <$> l).
Proof.
  intros Hn Hi Hv He Eo. pose proof (λ m, ieq_same name n m Hi) as Hm.
  assert (in_s64 v) as H64. { unfold settable, PREZ_MIN_HZ, PREZ_MAX_HZ in Hn. set_solver by rng. }
  pose proof (getLongLong_repr o v He Eo H64) as Hg. pose proof (ll2text_repr 128 v H64 ltac:(lia)) as Ht.
  unfold config_set, with_number. rewrite Hg. rewrite !Hm. clear Hm Hi Hg Eo.
  unfold settable in Hn. repeat (apply elem_of_cons in Hn as [[= -> -> ->]|Hn]); [..|by apply elem_of_nil in Hn].
  all: eval_ifs; eexists _, _; (split; [|split; [reflexivity|]]).
  - rewrite (proj2 (andb_true_iff (0 <=? v) _)) by rng. rewrite wrap_s32_id by rng. reflexivity.
  - one_value Ht.
  - rewrite (proj2 (andb_true_iff (0 <=? v) _)) by rng. reflexivity.
  - one_value Ht.
  - unfold PREZ_MIN_HZ, PREZ_MAX_HZ in Hv. rewrite (proj2 (Z.leb_le 0 v)), wrap_s32_id by rng.
    unfold clamp_hz, PREZ_MIN_HZ, PREZ_MAX_HZ. rewrite (proj2 (Z.ltb_ge v 1)), (proj2 (Z.ltb_ge 500 v)) by lia. reflexivity.
  - one_value Ht.
  - rewrite (proj2 (Z.ltb_lt 0 v)) by lia. reflexivity.
  - one_value Ht.
  - rewrite (proj2 (Z.ltb_lt 0 v)) by lia. reflexivity.
  - one_value Ht.
Qed.

(** ** The reply of CONFIG GET *)

(** The bulk replies for a list of parameters. *)
Definition fields_text (l : list (bytes * bytes)) : bytes := l ≫= λ e, bulk e.1 ++ bulk e.2.

Definition field_fits (e : bytes * bytes) : Prop :=
  nonul e.1 /\ e.1 <> [] /\ Z.of_nat (length e.1) < 2 ^ 63 /\ Z.of_nat (length e.2) < 2 ^ 63.

(** The loop without its counter. *)
Definition put_fields (oe : oenv) (l : list (bytes * bytes)) (c : prezClient) : cres prezClient :=
  foldr (λ e k c, c ← addReplyBulkCBuffer oe c e.1; c ← addReplyBulkCBuffer oe c e.2; k c) mret l c.

Lemma put_fields_gap oe l : gap_safe (put_fields oe l).
Proof.
  induction l as [|e l IH]; [exact gap_safe_ret|].
  apply (gap_safe_bind _ _ (cbuffer_gap oe e.1)). apply (gap_safe_bind _ _ (cbuffer_gap oe e.2) IH).
Qed.

Lemma put_fields_spec oe l : oenv_ok oe -> Forall field_fits l -> forall c,
  ready (6 * Z.of_nat (length l)) (Z.of_nat (length (fields_text l))) c ->
  exists c', put_fields oe l c = Ret c' /\ queued (6 * Z.of_nat (length l)) (fields_text l) c c'.
Proof.
  intros E. induction 1 as [|e l (_ & _ & H1 & H2) Hl IH]; intros c R.
  - exists c. split; [done|]. destruct R as (? & ? & ? & ?). constructor; try done; cbn; rewrite ?app_nil_r; try done. lia.
  - change (fields_text (e :: l)) with ((bulk e.1 ++ bulk e.2) ++ fields_text l) in *. rewrite <- app_assoc in *.
    replace (6 * Z.of_nat (length (e :: l))) with (3 + (3 + 6 * Z.of_nat (length l))) in * by (cbn [length]; lia).
    apply (queue_bind 3 (3 + 6 * Z.of_nat (length l))); [done|by apply cbuffer_spec| |lia].
    intros c1 R1. apply (queue_bind 3 (6 * Z.of_nat (length l))); [done|by apply cbuffer_spec| |lia].
    intros c2 R2. by apply IH.
Qed.

Lemma get_loop_spec oe pattern ts fields : nonul pattern -> tokens pattern = Some ts -> Forall field_fits fields ->
  exists l, sublist l fields /\ (forall e, e ∈ l <-> e ∈ fields /\ matches false ts e.1)
    /\ forall c n, get_loop oe pattern fields c n = (c ← put_fields oe l c; mret (c, n + Z.of_nat (length l))).
Proof.
  intros Hp Ht. induction 1 as [|[name value] fields (Hn & Hne & _) _ (l & Hsub & Hin & Hl)].
  - exists []. split_and!; [done|set_solver|]. intros c n. cbn. by rewrite Z.add_0_r.
  - cbn [fst] in *. destruct (stringmatch_spec false pattern name ts Hp Hn Hne Ht) as (b & Eb & Hb). destruct b.
    + exists ((name, value) :: l). split_and!; [by constructor|set_solver|]. intros c n. cbn [get_loop]. rewrite Eb.
      cbn [mbind cres_bind addReplyBulkCString put_fields foldr fst snd].
      destruct (addReplyBulkCBuffer oe c name) as [c1| |]; [|done..]. cbn [mbind cres_bind].
      destruct (addReplyBulkCBuffer oe c1 value) as [c2| |]; [|done..]. cbn [mbind cres_bind].
      rewrite Hl. change (foldr _ mret l c2) with (put_fields oe l c2).
      destruct (put_fields oe l c2) as [c3| |]; [|done..]. cbn [mbind cres_bind mret cres_ret length].
      do 2 f_equal. lia.
    + exists l. split_and!; [by constructor| |].
      * intros e. rewrite Hin, elem_of_cons. split; [naive_solver|]. intros [[->|?] Hm]; [|done]. by apply Hb in Hm.
      * intros c n. cbn [get_loop]. rewrite Eb. apply Hl.
Qed.

Lemma fields_text_sublist l l' : sublist l l' -> (length (fields_text l) <= length (fields_text l'))%nat.
Proof.
  unfold fields_text. induction 1 as [|e l l' _ IH|e l l' _ IH]; [done|cbn in *; rewrite !length_app in *; lia..].
Qed.

(** The list of CONFIG GET: its names, and its length. *)
Lemma config_fields_names s fields : config_fields s = Ret fields ->
  length fields = 14%nat /\ Forall (λ e, nonul e.1 /\ e.1 <> [] /\ Z.of_nat (length e.1) < 2 ^ 63) fields.
Proof.
  unfold config_fields. cbn [limits_text getClientTypeName mbind cres_bind of_ptr mret cres_ret]. intros [= <-]. split; [done|].
  repeat (apply Forall_cons; split; [cbn [fst]; split_and!; [by repeat constructor|done|done]|]). by apply Forall_nil.
Qed.

Lemma length_count_text n : 0 <= n < 100 -> (length (count_text n) <= 5)%nat.
Proof.
  intros Hn. unfold count_text. cbn [length]. rewrite length_app. change (length CRLF) with 2%nat.
  assert (length (ll_repr n) <= 2)%nat; [|lia]. unfold ll_repr. rewrite (proj2 (Z.ltb_ge n 0)) by lia.
  destruct (decide (n < 10)); [rewrite dec_small by lia; cbn; lia|].
  rewrite dec_step by lia. rewrite length_app, dec_small; [cbn; lia|]. pose proof (Z.div_lt_upper_bound n 10 10). pose proof (Z.div_pos n 10). lia.
Qed.

(** The reply of CONFIG GET.  The array the client gets holds the name and the value of
    exactly the parameters whose names the pattern matches, in the order of the table, and the
    number at its front, which is sent before the number is known, counts both. *)
Theorem config_get_reply (oe : oenv) (s : node_st) (c : prezClient) (o : robj) (ts : list token) (fields : list (bytes * bytes)) :
  oenv_ok oe -> argv (inp c) !! 2%nat = Some o -> sdsEncodedObject o = true -> nonul (obj_sds o) ->
  tokens (obj_sds o) = Some ts -> config_fields s = Ret fields ->
  Forall (λ e, Z.of_nat (length e.2) < 2 ^ 63) fields -> ready 86 (5 + Z.of_nat (length (fields_text fields))) c ->
  exists l c', sublist l fields /\ (forall e, e ∈ l <-> e ∈ fields /\ matches false ts e.1)
    /\ configGetCommand oe s c = Ret c'
    /\ queued 86 (count_text (2 * Z.of_nat (length l)) ++ fields_text l) c c'.
Proof.
  intros E Ho He Hp Ht Ef Hv R. destruct (config_fields_names s fields Ef) as [Hlen Hn].
  assert (Forall field_fits fields) as Hf.
  { apply Forall_forall. intros e He'. rewrite Forall_forall in Hn, Hv. destruct (Hn e He') as (? & ? & ?). by split_and!; [..|apply Hv]. }
  destruct (get_loop_spec oe (obj_sds o) ts fields Hp Ht Hf) as (l & Hsub & Hin & Hl).
  pose proof (fields_text_sublist l fields Hsub) as Htext. pose proof (sublist_length _ _ Hsub) as Hll.
  pose proof (length_count_text (2 * Z.of_nat (length l)) ltac:(lia)) as Hc.
  exists l. destruct (deferred_spec oe (put_fields oe l) (6 * Z.of_nat (length l)) (fields_text l) (2 * Z.of_nat (length l)) c)
    as (c' & Ec & Q); [done|apply put_fields_gap|lia| | |].
  - apply put_fields_spec; [done|]. apply Forall_forall. intros e He'. rewrite Forall_forall in Hf. apply Hf. by apply Hin.
  - eapply ready_le; [exact R|lia|]. rewrite length_app. lia.
  - exists c'. split_and!; [done|done| |eapply queued_weaken; [exact Q|lia]].
    rewrite <- Ec. unfold configGetCommand. rewrite Ho. cbn [of_ptr mbind cres_bind].
    destruct (addDeferredMultiBulkLength oe c) as [c1 node]. rewrite He. cbn [prez_assert mbind cres_bind]. rewrite Ef. cbn [mbind cres_bind].
    rewrite Hl. destruct (put_fields oe l c1) as [c2| |]; [|done..]. cbn [mbind cres_bind mret cres_ret]. f_equal. lia.
Qed.


(** ** Examples *)

(** A system that allows every limit, with no file but [prez.conf]. *)
Definition ex_os : os_limits := mkLimits (Some 65536) (λ _, true) 65536 (λ _, true).

Definition ex_file : bytes := lit "# example" ++ [10] ++ lit "hz 900" ++ [10] ++ lit "Port  7000" ++ [13; 10].

Definition ex_fs : files := mkFiles (λ _, true) (λ _, true) (λ f, if bool_decide (f = lit "prez.conf") then Some ex_file else None).

(** The state before the file is read. *)
Definition ex_start : node_st :=
  mkSt (ClusterConf.initClusterConfig (ClusterVote.ex_cluster ClusterVote.ex_raft Log.ex_log)) (mkKeyspace Dict.dictCreate 0 0)
    initServerConfig 0 0 0.

(** A client that sent the words. *)
Definition ex_asks (words : list bytes) : prezClient :=
  set_inp ex_client (mkInput [] 0 0 (-1) (createStringObject <$> words) (Some cmd_config)).

Definition ex_loaded : node_st :=
  match main_config ex_fs 1 [lit "prez.conf"; lit "--timeout"; lit "60"] ex_start with Ret s => s | _ => ex_start end.

Lemma ex_loaded_result : main_config ex_fs 1 [lit "prez.conf"; lit "--timeout"; lit "60"] ex_start = Ret ex_loaded.
Proof.
  assert (match main_config ex_fs 1 [lit "prez.conf"; lit "--timeout"; lit "60"] ex_start with Ret _ => true | _ => false end = true)
    as H by (vm_compute; reflexivity).
  unfold ex_loaded. by destruct (main_config _ _ _ _).
Qed.

Example ex_loaded_values : num ex_loaded f_hz = 500 /\ num ex_loaded f_port = 7000 /\ num ex_loaded f_maxidletime = 60.
Proof. vm_compute. done. Qed.

(** CONFIG SET hz 50 *)
Definition ex_result : cres (node_st * option prezClient) :=
  configCommand ex_os ex_oenv ex_loaded (Some (ex_asks [lit "config"; lit "set"; lit "hz"; lit "50"])) [].

Definition ex_set : node_st := match ex_result with Ret (s, _) => s | _ => ex_start end.

Lemma ex_set_result : exists c', ex_result = Ret (ex_set, c').
Proof.
  assert (match ex_result with Ret _ => true | _ => false end = true) as H by (vm_compute; reflexivity).
  unfold ex_set. destruct ex_result as [[s c']| |]; [by exists c'|done..].
Qed.


Lemma config_set_get_witness :
  exists s' l, config_set ex_os ex_start (lit "Cluster-Election-Timeout") (createStringObject (lit "300")) = Ret (SetOk s')
    /\ config_fields ex_start = Ret l
    /\ config_fields s' = Ret (with_value "cluster-election-timeout" (lit "300") <$> l).
Proof.
  apply (config_set_get ex_os ex_start (lit "Cluster-Election-Timeout") "cluster-election-timeout" 1 LLONG_MAX
    (createStringObject (lit "300")) 300).
  - unfold settable. set_solver.
  - vm_compute. reflexivity.
  - rng.
  - reflexivity.
  - reflexivity.
Defined.

Lemma config_get_reply_witness :
  exists c', configGetCommand ex_oenv ex_start (ex_asks [lit "config"; lit "get"; lit "t?m*"]) = Ret c'
    /\ stream (out c') = lit "*2" ++ CRLF ++ lit "$7" ++ CRLF ++ lit "timeout" ++ CRLF ++ lit "$1" ++ CRLF ++ lit "0" ++ CRLF.
Proof.
  destruct (config_get_reply ex_oenv ex_start (ex_asks [lit "config"; lit "get"; lit "t?m*"]) (createStringObject (lit "t?m*"))
    [TChar 116; TAny; TChar 109; TStar] (match config_fields ex_start with Ret l => l | _ => [] end))
    as (l & c' & _ & _ & E & _).
  - apply ex_oenv_ok.
  - reflexivity.
  - reflexivity.
  - by repeat constructor.
  - vm_compute. reflexivity.
  - reflexivity.
  - repeat constructor.
  - split_and!; [done|done|apply new_output_ok|vm_compute; reflexivity].
  - exists c'. split; [exact E|]. revert E. vm_compute. intros [= <-]. reflexivity.
Defined.
