(* ===== verification/ObjectOps.v ===== *)
(** * object.c: comparing, encoding and reading string objects

    The functions of src/src/object.c that look into string objects: comparison, equality and
    length across the three encodings, [tryObjectEncoding] on the heap of [Refs], and the
    accessors that read integers and report errors to a client. *)

From Stdlib Require Import ZArith Lia.
From stdpp Require Import base tactics numbers list gmap gmultiset strings.
From S2P Require Import Prelude Util Object Client Refs RefsFacts Config.
From S2P Require Sds ConfigFacts.

Local Open Scope Z_scope.

Definition PREZ_COMPARE_BINARY : Z := 1.
Definition PREZ_COMPARE_COLL : Z := 2.

(** The characters of an object: an integer is printed into a buffer of 128 bytes. *)
Definition astr (v : robj) : bytes := match v with OBJ_INT n => ll2text 128 n | _ => obj_sds v end.

(** [strcoll] depends on the locale. *)
Definition compareStringObjectsWithFlags (strcoll : bytes -> bytes -> Z) (h : heap) (a b : positive) (flags : Z) : cres Z :=
  va ← object h a; vb ← object h b;
  if bool_decide (a = b) then mret 0 else
  let alen := Z.of_nat (length (astr va)) in
  let blen := Z.of_nat (length (astr vb)) in
  if negb (Z.land flags PREZ_COMPARE_COLL =? 0) then mret (strcoll (astr va) (astr vb)) else
  let minlen := if alen <? blen then alen else blen in
  let cmp := Sds.memcmp (astr va) (astr vb) (Z.to_nat minlen) in
  mret (if cmp =? 0 then wrap_s32 (wrap_u64 (alen - blen)) else cmp).

Definition compareStringObjects (h : heap) (a b : positive) : cres Z :=
  compareStringObjectsWithFlags (λ _ _, 0) h a b PREZ_COMPARE_BINARY.

Definition collateStringObjects (strcoll : bytes -> bytes -> Z) (h : heap) (a b : positive) : cres Z :=
  compareStringObjectsWithFlags strcoll h a b PREZ_COMPARE_COLL.

Definition equalStringObjects (h : heap) (a b : positive) : cres bool :=
  va ← object h a; vb ← object h b;
  match va, vb with
  | OBJ_INT m, OBJ_INT n => mret (m =? n)
  | _, _ => r ← compareStringObjects h a b; mret (r =? 0)
  end.

Definition stringObjectLen (v : robj) : Z :=
  match v with OBJ_INT n => (ll2string (replicate 32 0) 32 n).1 | _ => Z.of_nat (length (obj_sds v)) end.

Definition isObjectRepresentableAsLongLong (v : robj) : option Z :=
  match v with OBJ_INT n => Some n | _ => string2ll (obj_sds v) end.

(** A short string that nobody else holds is embedded.  Giving back the free space of a long one
    does not change its value. *)
Definition tryObjectEncoding (h : heap) (a : positive) : cres (positive * heap) :=
  o ← of_ptr (h !! a);
  if negb (sdsEncodedObject (value o)) then mret (a, h) else
  if 1 <? refcount o then mret (a, h) else
  let s := obj_sds (value o) in
  if Z.of_nat (length s) <=? PREZ_ENCODING_EMBSTR_SIZE_LIMIT then
    match value o with
    | OBJ_EMBSTR _ => mret (a, h)
    | _ =>
        let '(emb, h) := createObject h (createEmbeddedStringObject s) in
        h ← decrRefCount h a;
        mret (emb, h)
    end
  else mret (a, h).

(** [getDecodedObject]: the object itself, with one more pointer, or a new one. *)
Definition h_getDecodedObject (h : heap) (a : positive) : cres (positive * heap) :=
  v ← object h a;
  match v with
  | OBJ_INT n => mret (createObject h (createStringObject (ll2text 32 n)))
  | _ => h ← incrRefCount h a; mret (a, h)
  end.

Definition getLongLongFromObjectOrReply (oe : oenv) (c : prezClient) (o : robj) (msg : option bytes) : cres (prezClient * option Z) :=
  match getLongLongFromObject o with
  | None =>
      c ← addReplyError oe c (match msg with Some m => m | None => lit "value is not an integer or out of range" end);
      mret (c, None)
  | Some v => mret (c, Some v)
  end.

(** The range of [long] is that of [long long]. *)
Definition getLongFromObjectOrReply (oe : oenv) (c : prezClient) (o : robj) (msg : option bytes) : cres (prezClient * option Z) :=
  '(c, r) ← getLongLongFromObjectOrReply oe c o msg;
  match r with
  | None => mret (c, None)
  | Some v =>
      if (v <? LLONG_MIN) || (LLONG_MAX <? v) then
        c ← addReplyError oe c (match msg with Some m => m | None => lit "value is out of range" end);
        mret (c, None)
      else mret (c, Some v)
  end.

(** ** The order of texts *)

Fixpoint text_compare (s t : bytes) : comparison :=
  match s, t with
  | [], [] => Eq
  | [], _ => Lt
  | _, [] => Gt
  | x :: s, y :: t => match x ?= y with Eq => text_compare s t | c => c end
  end.

Lemma text_compare_eq s : forall t, text_compare s t = Eq <-> s = t.
Proof.
  induction s as [|x s IH]; intros [|y t]; cbn; try done. destruct (Z.compare_spec x y) as [->|?|?].
  - rewrite IH. naive_solver.
  - split; [done|]. intros [= -> _]. lia.
  - split; [done|]. intros [= -> _]. lia.
Qed.

(** [memcmp] over the shorter length, and then the lengths. *)
Lemma memcmp_text s : forall t n, n = Nat.min (length s) (length t) ->
  ((if Sds.memcmp s t n =? 0 then Z.of_nat (length s) - Z.of_nat (length t) else Sds.memcmp s t n) ?= 0) = text_compare s t.
Proof.
  induction s as [|x s IH]; intros [|y t] n ->; cbn [length Nat.min Sds.memcmp text_compare]; try done.
  specialize (IH t _ eq_refl). destruct (Z.compare_spec x y) as [->|?|?].
  - rewrite Z.eqb_refl, <- IH. destruct (_ =? 0); [f_equal; lia|done].
  - rewrite (proj2 (Z.eqb_neq x y)), (proj2 (Z.eqb_neq (x - y) 0)) by lia. apply Z.compare_lt_iff. lia.
  - rewrite (proj2 (Z.eqb_neq x y)), (proj2 (Z.eqb_neq (x - y) 0)) by lia. apply Z.compare_gt_iff. lia.
Qed.

(** ** What the functions do *)

Lemma astr_text v : obj_ok v -> astr v = reply_text v.
Proof. destruct v as [s|s|n]; [done..|]. intros Hn. apply ll2text_repr; [done|lia]. Qed.

Lemma stringObjectLen_text v : obj_ok v -> stringObjectLen v = Z.of_nat (length (reply_text v)).
Proof.
  destruct v as [s|s|n]; [done..|]. intros Hn. cbn [stringObjectLen reply_text]. pose proof (length_ll_repr_max n Hn).
  by rewrite ll2string_fits by (rewrite ?length_replicate; done || lia).
Qed.

Lemma compare_text h a b va vb : val h a = Some va -> val h b = Some vb -> obj_ok va -> obj_ok vb ->
  Z.of_nat (length (reply_text va)) < 2 ^ 31 -> Z.of_nat (length (reply_text vb)) < 2 ^ 31 ->
  exists r, compareStringObjects h a b = Ret r /\ (r ?= 0) = text_compare (reply_text va) (reply_text vb).
Proof.
  intros Ha Hb Oa Ob La Lb. unfold compareStringObjects, compareStringObjectsWithFlags. rewrite (object_val _ _ _ Ha), (object_val _ _ _ Hb).
  cbn [mbind cres_bind]. rewrite !astr_text by done. case_bool_decide as E.
  { exists 0. split; [done|]. subst b. rewrite Ha in Hb. injection Hb as <-. symmetry. by apply text_compare_eq. }
  change (negb (Z.land PREZ_COMPARE_BINARY PREZ_COMPARE_COLL =? 0)) with false. cbn match. eexists. split; [done|].
  rewrite <- (memcmp_text (reply_text va) (reply_text vb) _ eq_refl).
  replace (Z.to_nat (if _ <? _ then _ else _)) with (Nat.min (length (reply_text va)) (length (reply_text vb)))
    by (destruct (Z.ltb_spec (Z.of_nat (length (reply_text va))) (Z.of_nat (length (reply_text vb)))); lia).
  destruct (_ =? 0); [|done]. f_equal. unfold wrap_s, wrap_u.
  rewrite <- (Z.add_mod_idemp_l (_ mod _)) by lia. rewrite <- Znumtheory.Zmod_div_mod by (lia || by exists (2 ^ 32)). rewrite Z.add_mod_idemp_l by lia. rewrite Z.mod_small; lia.
Qed.

(** String objects behave as their texts.  Whatever encodings two objects have, and also
    when both are the same object, [compareStringObjects] orders them as the bytes of their
    texts, [equalStringObjects] says whether the texts are equal, [stringObjectLen] is the
    length of the text, and [isObjectRepresentableAsLongLong] finds the integer whose text it
    is.  Lengths fit an int, as those of sds strings do. *)
Theorem objects_compare_as_texts h a b va vb : val h a = Some va -> val h b = Some vb -> obj_ok va -> obj_ok vb ->
  Z.of_nat (length (reply_text va)) < 2 ^ 31 -> Z.of_nat (length (reply_text vb)) < 2 ^ 31 ->
  (exists r, compareStringObjects h a b = Ret r /\ (r ?= 0) = text_compare (reply_text va) (reply_text vb))
  /\ equalStringObjects h a b = Ret (bool_decide (reply_text va = reply_text vb))
  /\ stringObjectLen va = Z.of_nat (length (reply_text va))
  /\ (forall n, isObjectRepresentableAsLongLong va = Some n <-> in_s64 n /\ reply_text va = ll_repr n).
Proof.
  intros Ha Hb Oa Ob La Lb. destruct (compare_text h a b va vb Ha Hb Oa Ob La Lb) as (r & Er & Hr). split_and!; [by exists r| |by apply stringObjectLen_text|].
  - assert (forall m n, in_s64 m -> in_s64 n -> (m =? n) = bool_decide (ll_repr m = ll_repr n)) as Hi.
    { intros m n Hm Hn. destruct (Z.eqb_spec m n) as [->|Hne]; [by rewrite bool_decide_true|]. rewrite bool_decide_false; [done|]. intros E. by apply Hne, ll_repr_inj. }
    assert ((r ← compareStringObjects h a b; mret (r =? 0)) = Ret (bool_decide (reply_text va = reply_text vb))) as Hc.
    { rewrite Er. cbn [mbind cres_bind]. f_equal.
      pose proof (text_compare_eq (reply_text va) (reply_text vb)) as He. rewrite <- Hr, Z.compare_eq_iff in He.
      destruct (Z.eqb_spec r 0); [rewrite bool_decide_true|rewrite bool_decide_false]; naive_solver. }
    unfold equalStringObjects. rewrite (object_val _ _ _ Ha), (object_val _ _ _ Hb). cbn [mbind cres_bind].
    destruct va, vb; try done. cbn [mret cres_ret]. f_equal. by apply Hi.
  - intros n. destruct va as [s|s|m]; cbn [isObjectRepresentableAsLongLong obj_sds reply_text]; [apply string2ll_iff..|]. cbn in Oa. split.
    + by intros [= <-].
    + intros [Hn E]. f_equal. by apply ll_repr_inj.
Qed.

(** Encoding an object keeps its text.  [tryObjectEncoding], given an object the caller
    holds, returns one the caller holds instead: counts stay exact, everything others hold is
    unchanged, the text is the same, and a short string nobody else holds is embedded. *)
Theorem tryObjectEncoding_keeps_text h R a v : counted h ({[+ a +]} ⊎ R) -> val h a = Some v ->
  exists a' h' v', tryObjectEncoding h a = Ret (a', h') /\ counted h' ({[+ a' +]} ⊎ R) /\ keeps h h' R
    /\ val h' a' = Some v' /\ reply_text v' = reply_text v
    /\ (a ∉ R -> sdsEncodedObject v = true -> Z.of_nat (length (obj_sds v)) <= PREZ_ENCODING_EMBSTR_SIZE_LIMIT -> v' = OBJ_EMBSTR (obj_sds v)).
Proof.
  intros C Hv. destruct (counted_held h _ a C ltac:(multiset_solver)) as (o & E & Ec). unfold val in Hv. rewrite E in Hv. injection Hv as <-.
  assert (val h a = Some (value o)) as Hv by (unfold val; by rewrite E). unfold tryObjectEncoding. rewrite E. cbn [of_ptr mbind cres_bind].
  assert ((a ∉ R -> sdsEncodedObject (value o) = true -> Z.of_nat (length (obj_sds (value o))) <= PREZ_ENCODING_EMBSTR_SIZE_LIMIT -> value o = OBJ_EMBSTR (obj_sds (value o))) ->
    exists a' h' v', mret (a, h) = Ret (a', h') /\ counted h' ({[+ a' +]} ⊎ R) /\ keeps h h' R /\ val h' a' = Some v' /\ reply_text v' = reply_text (value o)
    /\ (a ∉ R -> sdsEncodedObject (value o) = true -> Z.of_nat (length (obj_sds (value o))) <= PREZ_ENCODING_EMBSTR_SIZE_LIMIT -> v' = OBJ_EMBSTR (obj_sds (value o)))) as Hsame.
  { intros H. exists a, h, (value o). by split_and!. }
  destruct (sdsEncodedObject (value o)) eqn:Es; cbn [negb]; [|by apply Hsame].
  assert (multiplicity a ({[+ a +]} ⊎ R) = S (multiplicity a R)) as Hm by (by rewrite multiplicity_disj_union, multiplicity_singleton, decide_True).
  destruct (Z.ltb_spec 1 (refcount o)) as [H1|H1]; [apply Hsame; intros Hn; apply not_elem_of_multiplicity in Hn; lia|].
  destruct (Z.leb_spec (Z.of_nat (length (obj_sds (value o)))) PREZ_ENCODING_EMBSTR_SIZE_LIMIT); [|apply Hsame; lia].
  destruct (value o) as [s|s|n] eqn:Eo; [|by apply Hsame|done]. cbn [obj_sds].
  destruct (createObject h (createEmbeddedStringObject s)) as [e h1] eqn:E1. destruct (create_counted h _ _ e h1 C E1) as (C1 & V1 & N1 & K1).
  replace ({[+ e +]} ⊎ ({[+ a +]} ⊎ R)) with ({[+ a +]} ⊎ ({[+ e +]} ⊎ R)) in C1 by multiset_solver.
  destruct (decr_counted h1 _ a C1) as (h2 & -> & C2 & K2). cbn [mbind cres_bind]. exists e, h2, (OBJ_EMBSTR s). split_and!; try done.
  - intros b Hb. rewrite K2 by multiset_solver. unfold val. rewrite K1; [done|]. intros ->. multiset_solver.
  - rewrite K2 by multiset_solver. done.
Qed.

(** The second test of [getLongFromObjectOrReply] never fails: [long] is as wide as [long long]. *)
Lemma getLong_is_getLongLong oe c o msg : obj_ok o -> getLongFromObjectOrReply oe c o msg = getLongLongFromObjectOrReply oe c o msg.
Proof.
  intros Ho. unfold getLongFromObjectOrReply, getLongLongFromObjectOrReply. destruct (getLongLongFromObject o) as [v|] eqn:E.
  - cbn [mbind cres_bind mret cres_ret]. apply ConfigFacts.getLongLong_range in E; [|done].
    rewrite (proj2 (Z.ltb_ge v LLONG_MIN)), (proj2 (Z.ltb_ge LLONG_MAX v)) by rng. done.
  - destruct (addReplyError oe c _); done.
Qed.

(** The object [getDecodedObject] returns is one more pointer of the caller. *)
Lemma h_getDecodedObject_spec h R a v : counted h R -> a ∈ R -> val h a = Some v -> few (base.size R) ->
  exists a' h', h_getDecodedObject h a = Ret (a', h') /\ counted h' ({[+ a' +]} ⊎ R) /\ keeps h h' R /\ val h' a' = Some (getDecodedObject v).
Proof.
  intros C Ha Hv Hf. unfold h_getDecodedObject. rewrite (object_val _ _ _ Hv). cbn [mbind cres_bind].
  destruct (incr_counted h R a C Ha Hf) as (h1 & E1 & C1 & V1). destruct v as [s|s|n].
  1, 2: rewrite E1; cbn [mbind cres_bind]; exists a, h1; split_and!; [done|done|by intros b _|by rewrite V1].
  destruct (createObject h _) as [e h2] eqn:E2. destruct (create_counted h R _ e h2 C E2) as (C2 & V2 & N2 & K2). exists e, h2. split_and!; try done.
  intros b Hb. unfold val. rewrite K2; [done|]. by intros ->.
Qed.

(** ** Instances *)

Definition two_objects : heap := <[2%positive := mkHObj 1 (OBJ_RAW (lit "42"))]> {[1%positive := mkHObj 2 (OBJ_INT 42)]}.

Lemma objects_compare_as_texts_witness : equalStringObjects two_objects 1 2 = Ret true /\ stringObjectLen (OBJ_INT 42) = 2.
Proof.
  destruct (objects_compare_as_texts two_objects 1 2 (OBJ_INT 42) (OBJ_RAW (lit "42"))) as (_ & H & Hl & _); [done|done|cbn; rng|done|vm_compute; reflexivity..|].
  split; [rewrite H; by vm_compute|rewrite Hl; by vm_compute].
Defined.

Lemma tryObjectEncoding_keeps_text_witness : exists a' h' v', tryObjectEncoding two_objects 2 = Ret (a', h') /\ val h' a' = Some v' /\ v' = OBJ_EMBSTR (lit "42").
Proof.
  destruct (tryObjectEncoding_keeps_text two_objects ({[+ 1 +]} ⊎ {[+ 1 +]})%positive 2 (OBJ_RAW (lit "42"))) as (a' & h' & v' & E & _ & _ & V & _ & H).
  - intros b. unfold two_objects. destruct (decide (b = 2%positive)) as [->|]; [by vm_compute|]. rewrite lookup_insert_ne by done.
    destruct (decide (b = 1%positive)) as [->|]; [by vm_compute|]. rewrite lookup_singleton_ne by done.
    rewrite !multiplicity_disj_union, !multiplicity_singleton_ne by done. done.
  - done.
  - exists a', h', v'. split_and!; [done|done|]. apply H; [multiset_solver|done|by vm_compute].
Defined.
