(* ===== verification/CommandLine.v ===== *)
(** * The command line

    [main] of src/src/prez.c appends the options of the command line to the configuration file,
    as text that src/src/config.c splits into lines and words again.  The words arrive
    unchanged, whatever bytes they hold. *)

From Stdlib Require Import ZArith Lia.
From stdpp Require Import base tactics functions numbers list gmap strings.
From S2P Require Import Prelude Util Libc Object DictTypes Glob Client Request Keyspace Config.
From S2P Require Import SdsArgs ConfigFacts.
From S2P Require SdsOps Cluster ClusterConf.

Local Open Scope Z_scope.

Notation join_lines := (SdsOps.join_with [10]).
Notation line_ok := (SdsOps.sep_free [10]).

(** ** Lines *)

Lemma line_ok_spec t : line_ok t <-> Forall (λ c, c <> 10) t.
Proof.
  split.
  - intros H. apply Forall_lookup. intros k x Hx ->. apply (H k). cbn [length]. by rewrite (drop_S _ _ _ Hx).
  - intros H k E. rewrite Forall_lookup in H. destruct (t !! k) as [x|] eqn:Ek.
    + rewrite (drop_S _ _ _ Ek) in E. cbn in E. injection E as ->. by apply (H k 10).
    + rewrite drop_ge in E by (by apply lookup_ge_None_1). done.
Qed.

Lemma join_lines_app l1 l2 : l1 <> [] -> l2 <> [] -> join_lines (l1 ++ l2) = join_lines l1 ++ [10] ++ join_lines l2.
Proof.
  intros H1 H2. induction l1 as [|x l1 IH]; [done|]. destruct l1 as [|y l1]; cbn [app SdsOps.join_with] in *; [by destruct l2|].
  rewrite IH by done. by rewrite <- !app_assoc.
Qed.

(** Text is cut into lines in one way. *)
Lemma cut_unique (x y r1 r2 : bytes) : line_ok x -> line_ok y -> x ++ 10 :: r1 = y ++ 10 :: r2 -> x = y /\ r1 = r2.
Proof.
  rewrite !line_ok_spec. revert y. induction x as [|a x IH]; intros [|b y] Hx Hy E; cbn in E.
  - by injection E.
  - injection E as <- _. by inversion Hy.
  - injection E as -> _. by inversion Hx.
  - injection E as <- E. apply IH in E as [-> ->]; [done|by inversion Hx|by inversion Hy].
Qed.

Lemma join_lines_inj l1 : forall l2, l1 <> [] -> l2 <> [] -> Forall line_ok l1 -> Forall line_ok l2 ->
  join_lines l1 = join_lines l2 -> l1 = l2.
Proof.
  assert (forall x y r, line_ok x -> x <> y ++ 10 :: r) as Hno.
  { intros x y r Hx%line_ok_spec ->. apply Forall_app in Hx as [_ Hx]. by inversion Hx. }
  induction l1 as [|x l1 IH]; intros [|y l2] H1 H2 F1 F2 E; [done..|].
  apply Forall_cons in F1 as [Hx F1]. apply Forall_cons in F2 as [Hy F2].
  destruct l1 as [|x' l1], l2 as [|y' l2]; cbn [SdsOps.join_with] in E.
  - by rewrite E.
  - by apply Hno in E.
  - symmetry in E. by apply Hno in E.
  - apply cut_unique in E as [-> E]; [|done..]. f_equal. by apply IH.
Qed.

(** What [sdssplitlen] makes of lines. *)
Lemma split_lines l : l <> [] -> Forall line_ok l -> join_lines l <> [] -> SdsOps.sdssplitlen (join_lines l) [10] = Some l.
Proof.
  intros Hl Hf Hs. unfold SdsOps.sdssplitlen. rewrite !bool_decide_eq_false_2 by done. f_equal.
  destruct (SdsOps.split_loop_spec [10] (join_lines l) ltac:(done) (length (join_lines l)) 0 0 []) as [Ht Ej];
    [lia..|intros; lia|constructor|cbn; by rewrite drop_0|].
  apply join_lines_inj; [|done..]. intros E. rewrite E in Ej. by cbn in Ej.
Qed.

(** ** One option *)

(** An option and its words, and the line [main] writes for it. *)
Definition opt_line (o : bytes * list bytes) : bytes := o.1 ++ [32] ++ concat ((λ w, sdscatrepr [] w ++ [32]) <$> o.2).

(** An option with a name that has no blanks, quotes or NULs and does not start a comment,
    and with words of any bytes that do not look like options. *)
Record opt_ok (o : bytes * list bytes) : Prop := {
  oo_name : plain_word o.1;
  oo_nonul : nonul o.1;
  oo_comment : head o.1 <> Some 35;
  oo_words : Forall (Forall byte_ok) o.2;
  oo_args : Forall (λ w, is_option w = false) o.2;
}.

Lemma repr_byte_range c : byte_ok c -> Forall (λ x, 32 <= x) (repr_byte c).
Proof.
  unfold repr_byte, byte_ok. intros Hc. destruct ((c =? 92) || (c =? 34)) eqn:E; [repeat constructor; lia|].
  assert (forall d, 0 <= d -> 32 <= hex_char d) as Hh by (intros d; unfold hex_char; destruct (d <? 10); lia).
  pose proof (Z.div_pos c 16). pose proof (Z.mod_pos_bound c 16).
  repeat (destruct (c =? _); [by repeat constructor|]). destruct (isprint c) eqn:Ep.
  - repeat constructor. unfold isprint in Ep. lia.
  - repeat constructor; [lia|lia|apply Hh; lia|apply Hh; lia].
Qed.

Lemma repr_range w : Forall byte_ok w -> Forall (λ x, 32 <= x) (sdscatrepr [] w).
Proof.
  intros Hw. unfold sdscatrepr. cbn [app]. apply Forall_cons. split; [lia|]. apply Forall_app. split; [|by repeat constructor].
  induction Hw as [|c w Hc _ IH]; [constructor|]. cbn [repr_bytes]. apply Forall_app. split; [by apply repr_byte_range|done].
Qed.

(** The bytes of such a line: no newline, no NUL. *)
Lemma opt_line_bytes o : opt_ok o -> Forall (λ x, x <> 10 /\ x <> 0) (opt_line o).
Proof.
  intros [[_ Hp] Hn _ Hw _]. unfold opt_line. apply Forall_app. split; [|apply Forall_app; split; [by repeat constructor|]].
  - apply Forall_forall. intros x Hx. unfold nonul in Hn. rewrite Forall_forall in Hp, Hn. split; [|by apply Hn].
    intros ->. by specialize (Hp 10 Hx).
  - apply Forall_concat, Forall_fmap. eapply Forall_impl; [exact Hw|]. intros w Hb. cbn beta. apply Forall_app.
    split; [|by repeat constructor]. eapply Forall_impl; [by apply repr_range|]. cbn. lia.
Qed.

(** The line without its last blank. *)
Definition opt_body (o : bytes * list bytes) : bytes :=
  match o.2 with [] => o.1 | _ => o.1 ++ 32 :: join_words (sdscatrepr []) o.2 end.

Lemma opt_line_body o : opt_line o = opt_body o ++ [32].
Proof.
  unfold opt_line, opt_body. destruct o as [name ws]. cbn [fst snd]. destruct ws as [|w ws]; [done|].
  rewrite <- app_assoc. f_equal. cbn [app]. f_equal. revert w. induction ws as [|w' ws IH]; intros w.
  - cbn -[sdscatrepr]. by rewrite app_nil_r.
  - change (join_words (sdscatrepr []) (w :: w' :: ws)) with (sdscatrepr [] w ++ 32 :: join_words (sdscatrepr []) (w' :: ws)).
    rewrite fmap_cons, concat_cons, (IH w'). rewrite <- !app_assoc. done.
Qed.

(** The words of the line. *)
Lemma opt_split o : opt_ok o -> sdssplitargs (opt_body o) = Some (o.1 :: o.2).
Proof.
  intros [Hp _ _ Hw _]. destruct o as [name ws]. cbn [fst snd] in *. unfold opt_body. cbn [fst snd].
  destruct (readable_plain name Hp) as (Hs & Ht & Hr). assert (Forall (readable (sdscatrepr [])) ws) as Hrd
    by (eapply Forall_impl; [exact Hw|apply readable_repr]).
  destruct ws as [|w ws].
  { pose proof (sdssplitargs_words id [] [name] ltac:(by left)) as E. cbn [join_words id] in E. rewrite app_nil_r in E.
    apply E. by repeat constructor; apply readable_plain. }
  set (rest := join_words (sdscatrepr []) (w :: ws)). assert (length (w :: ws) <= length rest)%nat as Hlen.
  { apply length_join_words. eapply Forall_impl; [exact Hrd|]. by intros ? [? _]. }
  destruct (Hr 32 rest ltac:(by left)) as (r' & Et & Hr'). unfold sdssplitargs.
  rewrite length_app. cbn [length]. rewrite Nat.add_succ_r.
  rewrite (sds_split_step _ [] (name ++ 32 :: rest) name r' (starts_word_glued id name _ Hs) Et). cbn [app].
  assert (sds_split (length name + length rest) [name] rest = Some (name :: w :: ws)) as E.
  { pose proof (sds_split_words (sdscatrepr []) [] (w :: ws) ltac:(by left) (length name + length rest) [name] Hrd) as E.
    rewrite app_nil_r in E. apply E. lia. }
  destruct Hr' as [-> | ->]; [done|]. by rewrite sds_split_blank by auto.
Qed.

Lemma trimmed_body c q q' d : SdsOps.in_cset line_blanks c = false -> SdsOps.in_cset line_blanks d = false ->
  c :: q = q' ++ [d] -> SdsOps.trimmed line_blanks ((c :: q) ++ [32]) = c :: q.
Proof.
  intros Hc Hd E. unfold SdsOps.trimmed. cbn [app SdsOps.drop_set]. rewrite Hc.
  change (c :: q ++ [32]) with ((c :: q) ++ [32]). rewrite reverse_snoc, E, reverse_snoc. cbn [SdsOps.drop_set].
  change (SdsOps.in_cset line_blanks 32) with true. cbn match. rewrite Hd.
  by rewrite reverse_cons, reverse_involutive.
Qed.

Lemma plain_not_blank c : plain_char c = true -> c <> 0 -> SdsOps.in_cset line_blanks c = false.
Proof.
  unfold plain_char, isspace, SdsOps.in_cset, line_blanks. cbn [existsb].
  intros. destruct (_ || _) eqn:E in |- *; [exfalso; lia|done].
Qed.

(** The body starts with the first character of the name, and ends with one that is not blank. *)
Lemma opt_body_ends o : opt_ok o -> exists c q q' d, opt_body o = c :: q /\ opt_body o = q' ++ [d] /\ head o.1 = Some c
  /\ SdsOps.in_cset line_blanks c = false /\ SdsOps.in_cset line_blanks d = false.
Proof.
  intros [[Hne Hp] Hn _ _ _]. destruct o as [name ws]. cbn [fst snd] in *. unfold opt_body. cbn [fst snd].
  unfold nonul in Hn. rewrite Forall_forall in Hp, Hn.
  destruct name as [|c name]; [done|]. assert (SdsOps.in_cset line_blanks c = false) as Hc by (apply plain_not_blank; [apply Hp|apply Hn]; set_solver).
  destruct ws as [|w ws].
  - destruct (exists_last (l := c :: name) ltac:(done)) as (q' & d & E). exists c, name, q', d. split_and!; try done.
    apply plain_not_blank; [apply Hp|apply Hn]; rewrite E; set_solver.
  - assert (forall l w, exists q, join_words (sdscatrepr []) (w :: l) = q ++ [34]) as Hend.
    { induction l as [|w1 l IH]; intros w0; [by exists (34 :: repr_bytes w0)|]. destruct (IH w1) as (q & E).
      exists (sdscatrepr [] w0 ++ 32 :: q). cbn [join_words] in *. rewrite E. by rewrite <- app_assoc. }
    destruct (Hend ws w) as (q & E). eexists c, _, ((c :: name) ++ 32 :: q), 34. split_and!; [done| |done|done|done].
    rewrite E. by rewrite <- app_assoc.
Qed.

Section Options.
Context (fs : files) (include : bytes -> node_st -> cres node_st).

(** The directive an option stands for. *)
Definition load_option (s : node_st) (o : bytes * list bytes) : cres node_st :=
  load_directive fs include s ((SdsOps.tolower <$> o.1) :: o.2).

Fixpoint load_options (s : node_st) (opts : list (bytes * list bytes)) : cres node_st :=
  match opts with
  | [] => mret s
  | o :: opts => s ← load_option s o; load_options s opts
  end.

Lemma load_opt_line s o : opt_ok o -> load_line fs include s (opt_line o) = load_option s o.
Proof.
  intros Ho. unfold load_line. rewrite opt_line_body. destruct (opt_body_ends o Ho) as (c & q & q' & d & E1 & E2 & Eh & Hc & Hd).
  assert (SdsOps.trimmed line_blanks (opt_body o ++ [32]) = opt_body o) as ->.
  { rewrite E1. eapply trimmed_body; [done|exact Hd|]. by rewrite <- E1. }
  rewrite (opt_split o Ho), E1.
  assert ((c =? 35) || (c =? 0) = false) as ->; [|done].
  apply orb_false_iff. rewrite !Z.eqb_neq. split; intros ->; [by apply (oo_comment _ Ho)|done].
Qed.

Lemma load_opt_lines opts : Forall opt_ok opts -> forall s, load_lines fs include s (opt_line <$> opts) = load_options s opts.
Proof.
  induction 1 as [|o opts Ho _ IH]; intros s; [done|]. cbn [fmap list_fmap load_lines load_options].
  rewrite load_opt_line by done. destruct (load_option s o) as [s'| |]; [|done..]. apply IH.
Qed.

Lemma load_lines_app l1 l2 : forall s, load_lines fs include s (l1 ++ l2) = (s ← load_lines fs include s l1; load_lines fs include s l2).
Proof.
  induction l1 as [|x l1 IH]; intros s; [done|]. cbn [app load_lines].
  destruct (load_line fs include s x) as [s'| |]; [|done..]. apply IH.
Qed.

Lemma text_id t : nonul t -> text t = t.
Proof. intros H. unfold text. by rewrite cstr_app_nul by done. Qed.

(** Options behind the text of a file. *)
Lemma load_string_options s config opts : nonul config -> Forall opt_ok opts -> opts <> [] ->
  loadServerConfigFromString fs include s (config ++ [10] ++ join_lines (opt_line <$> opts))
  = (s ← loadServerConfigFromString fs include s config; load_options s opts).
Proof.
  intros Hn Ho Hne. set (lines := opt_line <$> opts). assert (lines <> []) as Hl by (by destruct opts).
  assert (Forall (Forall (λ x, x <> 10 /\ x <> 0)) lines) as Hb by (apply Forall_fmap; eapply Forall_impl; [exact Ho|apply opt_line_bytes]).
  assert (Forall line_ok lines) as Hok.
  { eapply Forall_impl; [exact Hb|]. intros x Hx. apply line_ok_spec. eapply Forall_impl; [exact Hx|]. by intros ? []. }
  assert (nonul (join_lines lines)) as Hj.
  { clear -Hb. induction Hb as [|x l Hx _ IH]; [constructor|]. assert (nonul x) as H0 by (eapply Forall_impl; [exact Hx|]; by intros ? []).
    destruct l as [|y l]; [done|]. cbn [SdsOps.join_with]. apply Forall_app. split; [done|]. apply Forall_app. split; [by repeat constructor|done]. }
  unfold loadServerConfigFromString. rewrite !text_id; [|done|].
  2:{ apply Forall_app. split; [done|]. apply Forall_app. split; [by repeat constructor|done]. }
  assert (exists pre, pre <> [] /\ Forall line_ok pre /\ join_lines pre = config
    /\ load_lines fs include s pre = (lines ← of_ptr (SdsOps.sdssplitlen config [10]); load_lines fs include s lines))
    as (pre & Hp & Hpo & Ej & Ep).
  { destruct (decide (config = [])) as [->|Hc]; [by exists [[]]; split_and!; [|repeat constructor; intros []|..]|].
    unfold SdsOps.sdssplitlen. rewrite !bool_decide_eq_false_2 by done. eexists.
    destruct (SdsOps.split_loop_spec [10] config ltac:(done) (length config) 0 0 []) as [Ht Ec];
      [lia..|intros; lia|constructor|cbn; by rewrite drop_0|].
    split_and!; [|exact Ht|exact Ec|done]. intros E. rewrite E in Ec. by subst config. }
  rewrite <- Ej at 1. rewrite <- (join_lines_app pre lines) by done.
  rewrite split_lines; [|by destruct pre|by apply Forall_app|rewrite join_lines_app by done; by destruct (join_lines pre)].
  cbn [of_ptr mbind cres_bind]. rewrite load_lines_app, Ep.
  destruct (of_ptr _) as [l| |]; [|done..]. cbn [mbind cres_bind]. destruct (load_lines fs include s l) as [s'| |]; [|done..].
  by apply load_opt_lines.
Qed.
End Options.

(** ** The whole command line *)

(** The words of an option, as they stand on the command line. *)
Definition opt_words (o : bytes * list bytes) : list bytes := (45 :: 45 :: o.1) :: o.2.

Lemma cmdline_args ws rest : Forall (λ w, is_option w = false) ws -> forall options,
  cmdline_options options (ws ++ rest)
  = cmdline_options (options ++ concat ((λ w, sdscatrepr [] w ++ [32]) <$> ws)) rest.
Proof.
  induction 1 as [|w ws Hw _ IH]; intros options; [cbn; by rewrite app_nil_r|]. cbn [app cmdline_options]. rewrite Hw, IH.
  f_equal. cbn [fmap list_fmap concat]. unfold sdscatrepr. cbn [app]. by rewrite <- !app_assoc.
Qed.

Lemma cmdline_opts opts : Forall opt_ok opts -> opts <> [] -> forall options,
  cmdline_options options (opts ≫= opt_words)
  = (if bool_decide (options = []) then [] else options ++ [10]) ++ join_lines (opt_line <$> opts).
Proof.
  induction 1 as [|o opts Ho Hopts IH]; intros Hne options; [done|]. rewrite bind_cons. unfold opt_words at 1. cbn [app cmdline_options].
  assert (is_option (45 :: 45 :: o.1) = true) as -> by done. rewrite cmdline_args by apply Ho. rewrite !skipn_cons, drop_0.
  rewrite <- !app_assoc. change (o.1 ++ [32] ++ concat ((λ w, sdscatrepr [] w ++ [32]) <$> o.2)) with (opt_line o).
  set (pre := if bool_decide (options = []) then [] else options ++ [10]). destruct opts as [|o' opts]; [done|].
  rewrite IH by done. rewrite bool_decide_eq_false_2.
  2:{ intros E. apply app_eq_nil in E as [_ E]. rewrite opt_line_body in E. by apply app_eq_nil in E as [_ E]. }
  rewrite !fmap_cons. change (join_lines (opt_line o :: opt_line o' :: (opt_line <$> opts)))
    with (opt_line o ++ [10] ++ join_lines (opt_line o' :: (opt_line <$> opts))). by rewrite <- !app_assoc.
Qed.

Lemma text_nonul t : nonul (text t).
Proof. unfold text. destruct (cstr (t ++ [0])) as [x|] eqn:E; [|constructor]. by apply cstr_Some in E as (? & _ & ?). Qed.

Lemma read_config_nonul n : forall f, nonul (read_config n f).
Proof.
  induction n as [|n IH]; intros f; cbn [read_config]; [constructor|]. destruct (fgets _ f) as [[l f']|]; [|constructor].
  apply Forall_app. split; [apply text_nonul|apply IH].
Qed.

(** A first word that does not ask for the version or for help. *)
Definition first_ok (configfile : option bytes) (opts : list (bytes * list bytes)) : Prop :=
  match configfile with
  | Some f => is_option f = false /\ f ∉ [lit "-v"; lit "-h"]
  | None => forall o, head opts = Some o -> o.1 ∉ [lit "version"; lit "help"]
  end.

(** [C27] The options of the command line are the last directives.  Starting the server with
    a configuration file or without one, and with any options, does what loading the file and
    then running one directive per option does, with exactly the words of the command line:
    quoting them into the text and splitting it again loses nothing, whatever bytes they hold,
    so options override the file. *)
Theorem command_line_applied (fs : files) (n : nat) (configfile : option bytes) (opts : list (bytes * list bytes)) (s : node_st) :
  Forall opt_ok opts -> opts <> [] -> first_ok configfile opts ->
  main_config fs (S n) (option_list configfile ++ (opts ≫= opt_words)) s
  = (s ← loadServerConfig fs (S n) configfile None s;
     load_options fs (λ f, loadServerConfig fs n (Some f) None) s opts).
Proof.
  intros Ho Hne Hf. assert (forall c, loadServerConfig fs (S n) c (Some (cmdline_options [] (opts ≫= opt_words))) s
    = (s ← loadServerConfig fs (S n) c None s; load_options fs (λ f, loadServerConfig fs n (Some f) None) s opts)) as H.
  { intros c. rewrite cmdline_opts by done. rewrite bool_decide_eq_true_2 by done. cbn [app loadServerConfig].
    destruct c as [f|]; cbn [mbind cres_bind mret cres_ret].
    - destruct (file_bytes fs f) as [b|]; [|done]. cbn [mbind cres_bind mret cres_ret].
      apply load_string_options; [apply read_config_nonul|done..].
    - apply (load_string_options _ _ s []); [constructor|done..]. }
  destruct configfile as [f|].
  - change (option_list (Some f)) with [f]. destruct Hf as [Hf Hv]. cbn [app main_config].
    assert (existsb (λ w, bool_decide (f = lit w)) ["-v"; "--version"; "--help"; "-h"]%string = false) as ->.
    { cbn [existsb]. rewrite !bool_decide_eq_false_2; [done|set_solver|by intros ->|by intros ->|set_solver]. }
    rewrite Hf. apply H.
  - change (option_list None) with (@nil bytes). destruct opts as [|o opts]; [done|]. specialize (Hf o eq_refl). rewrite bind_cons in *.
    change (opt_words o) with ((45 :: 45 :: o.1) :: o.2) in *. cbn [app main_config] in *.
    assert (existsb (λ w, bool_decide (45 :: 45 :: o.1 = lit w)) ["-v"; "--version"; "--help"; "-h"]%string = false) as ->.
    { cbn [existsb]. rewrite !bool_decide_eq_false_2; [done|done| | |done].
      all: intros [= E]; apply Hf; rewrite E; set_solver. }
    assert (is_option (45 :: 45 :: o.1) = true) as -> by done. exact (H None).
Qed.

Lemma opt_ok_b o : (negb (bool_decide (o.1 = [])) && forallb plain_char o.1 && forallb (λ c, negb (c =? 0)) o.1
    && negb (bool_decide (head o.1 = Some 35)) && forallb (forallb (λ c, (0 <=? c) && (c <? 256))) o.2
    && forallb (λ w, negb (is_option w)) o.2) = true -> opt_ok o.
Proof.
  rewrite !andb_true_iff, !negb_true_iff, !bool_decide_eq_false. intros [[[[[H1 H2] H3] H4] H5] H6].
  constructor; [split; [done|]| |done| |].
  - by apply Forall_forall; intros x Hx; apply (proj1 (forallb_forall _ _) H2), list_elem_of_In.
  - apply Forall_forall. intros x Hx ->. pose proof (proj1 (forallb_forall _ _) H3 0 (proj1 (list_elem_of_In _ _) Hx)). done.
  - apply Forall_forall. intros w Hw. apply Forall_forall. intros x Hx.
    pose proof (proj1 (forallb_forall _ _) H5 w (proj1 (list_elem_of_In _ _) Hw)) as E.
    pose proof (proj1 (forallb_forall _ _) E x (proj1 (list_elem_of_In _ _) Hx)) as Ex. cbn beta in Ex. unfold byte_ok. lia.
  - apply Forall_forall. intros w Hw. apply negb_true_iff, (proj1 (forallb_forall _ _) H6 w), list_elem_of_In, Hw.
Qed.

Lemma command_line_applied_witness :
  exists s, main_config ex_fs 1 [lit "prez.conf"; lit "--TimeOut"; lit "60"; lit "--name"; lit "it's" ++ [10]] ex_start = Ret s
    /\ num s f_port = 7000 /\ num s f_maxidletime = 60 /\ Config.str s f_name = Some (lit "it's" ++ [10]).
Proof.
  assert (main_config ex_fs 1 [lit "prez.conf"; lit "--TimeOut"; lit "60"; lit "--name"; lit "it's" ++ [10]] ex_start
    = (s ← loadServerConfig ex_fs 1 (Some (lit "prez.conf")) None ex_start;
       load_options ex_fs (λ f, loadServerConfig ex_fs 0 (Some f) None) s
         [(lit "TimeOut", [lit "60"]); (lit "name", [lit "it's" ++ [10]])])) as ->.
  { apply (command_line_applied ex_fs 0 (Some (lit "prez.conf")) [(lit "TimeOut", [lit "60"]); (lit "name", [lit "it's" ++ [10]])]).
    - repeat (apply Forall_cons; split; [apply opt_ok_b; vm_compute; reflexivity|]). apply Forall_nil. exact I.
    - discriminate.
    - split; [reflexivity|]. set_solver. }
  set (r := _ ≫= _).
  assert (match r with Ret s => (num s f_port =? 7000) && (num s f_maxidletime =? 60)
            && bool_decide (Config.str s f_name = Some (lit "it's" ++ [10])) | _ => false end = true) as H by (vm_compute; reflexivity).
  destruct r as [s| |]; [|discriminate..]. exists s. rewrite !andb_true_iff, !Z.eqb_eq, bool_decide_eq_true in H.
  destruct H as [[? ?] ?]. split_and!; [reflexivity|assumption..].
Defined.
