(* ===== verification/Server.v ===== *)
(** * prez.c: running the commands of clients

    [processCommand] of src/src/prez.c puts the parts together: requests that were parsed
    (Request.v) are looked up in the command table, run on the data set (Keyspace.v), sent
    elsewhere by a node that is not the leader, or appended to the log by the leader
    (Cluster.v); committed entries are applied for the waiting client or, on the other nodes,
    from the words in the log. *)

From Stdlib Require Import ZArith Lia.
From stdpp Require Import base tactics numbers list gmap strings.
From S2P Require Import Prelude Util Object Dict DictTypes Client Request Keyspace Config ConfigFacts.
From S2P Require SdsArgs Log Cluster ClusterVote ClusterCommand.

Local Open Scope Z_scope.

Section Server.
Context (os : os_limits).
Context (junk : nat -> bytes).

(** [(arity > 0 && arity != argc) || (argc < -arity)] *)
Definition bad_arity (k : prezCommand) (argc : Z) : bool :=
  ((0 <? cmd_arity k) && negb (cmd_arity k =? argc)) || (argc <? - cmd_arity k).

(** [me] is the address of the client. *)
Definition processCommand (oe : oenv) (ev : Cluster.env) (me : Cluster.addr_t) (s : node_st) (c : prezClient)
    : cres (node_st * prezClient * Z) :=
  a0 ← of_ptr (argv (inp c) !! 0%nat);
  k ← lookupCommand (obj_sds a0);
  let c := set_inp c (in_cmd (inp c) k) in
  match k with
  | None =>
      name ← of_ptr (cstr (obj_sds a0 ++ [0]));
      c ← addReplyErrorFormat oe c (lit "unknown command '" ++ name ++ lit "'");
      mret (s, c, PREZ_OK)
  | Some k =>
      if bad_arity k (Z.of_nat (length (argv (inp c)))) then
        c ← addReplyErrorFormat oe c (lit "wrong number of arguments for '" ++ cmd_name k ++ lit "' command");
        mret (s, c, PREZ_OK)
      else if negb (Z.land (cmd_flags k) PREZ_CMD_WRITE =? 0) then
        let rf := Cluster.rf (ns_cluster s) in
        if Cluster.state rf =? Cluster.PREZ_CANDIDATE then
          c ← addReplySds oe c (lit "-CLUSTERDOWN Leader not elected.Command not accepted" ++ CRLF);
          mret (s, c, PREZ_OK)
        else if Cluster.state rf =? Cluster.PREZ_FOLLOWER then
          leader ← of_ptr (cstr (Cluster.leader rf ++ [0]));
          c ← addReplySds oe c (lit "-ASK " ++ leader ++ CRLF);
          mret (s, c, PREZ_OK)
        else
          cl ← Cluster.clusterProcessCommand junk ev (ns_cluster s) me (cmd_name k) (obj_sds <$> argv (inp c));
          mret (st_cluster s cl, c, PREZ_ERR)
      else
        '(s, c) ← call (configCommand os) oe s c;
        mret (s, c, PREZ_OK)
  end.

(** ** What a node answers at once *)

(** The part of the state an answer depends on. *)
Record view := mkView { v_map : gmap bytes robj; v_role : Z; v_leader : bytes }.

Definition error_text (s : bytes) : bytes := lit "-ERR " ++ no_newlines s ++ CRLF.

(** The answer to a request, in the protocol; [None] for a SET on the leader, which is
    answered when it is committed, for CONFIG, and for names that are not C strings. *)
Definition answer (v : view) (args : list bytes) : option (view * bytes) :=
  match args with
  | [] => None
  | name :: rest =>
      if decide (Forall (λ x, 0 < x) name) then
        match command_of name with
        | None => Some (v, error_text (lit "unknown command '" ++ name ++ lit "'"))
        | Some k =>
            if bad_arity k (Z.of_nat (length args)) then
              Some (v, error_text (lit "wrong number of arguments for '" ++ cmd_name k ++ lit "' command"))
            else
              match cmd_proc k, rest with
              | getCommand_proc, [key] => Some (v, get_text (v_map v) key)
              | setCommand_proc, _ =>
                  if v_role v =? Cluster.PREZ_CANDIDATE
                  then Some (v, lit "-CLUSTERDOWN Leader not elected.Command not accepted" ++ CRLF)
                  else if v_role v =? Cluster.PREZ_FOLLOWER then Some (v, lit "-ASK " ++ v_leader v ++ CRLF)
                  else None
              | _, _ => None
              end
        end
      else None
  end.

Record shows (s : node_st) (v : view) : Prop := {
  sh_map : db_rep (ns_db s) (v_map v);
  sh_values : values_ok (v_map v);
  sh_role : Cluster.state (Cluster.rf (ns_cluster s)) = v_role v;
  sh_leader : Cluster.leader (Cluster.rf (ns_cluster s)) = v_leader v;
  sh_nonul : nonul (v_leader v);
}.

Lemma with_cmd_ready n k c i : inp c = i -> ready n k c -> forall x, ready n k (set_inp c (in_cmd i x)).
Proof. intros <- R x. exact R. Qed.

Lemma with_cmd_replied t c c' x : replied t (set_inp c (in_cmd (inp c) x)) c' -> replied t c c'.
Proof. intros [? ? ? ? ? ? ? ?]. by constructor. Qed.

Lemma pos_nonul name : Forall (λ x, 0 < x) name -> nonul name /\ Forall (λ x, 0 <= x) name.
Proof. intros H. split; (eapply Forall_impl; [exact H|]); cbn; lia. Qed.

Context (oe : oenv) (ev : Cluster.env) (me : Cluster.addr_t) (Hoe : oenv_ok oe).

#[local] Instance processCommand_executor : Executor (processCommand oe ev me) shows answer.
Proof.
  constructor. intros s v c args v' t [Hm Hv Hrole Hlead Hnul] Ea Hne Hans R. unfold processCommand.
  destruct (argv (inp c)) as [|a0 rest] eqn:Eargv; [by rewrite <- Ea in Hne|]. subst args. cbn [fmap list_fmap] in Hans.
  cbn [lookup list_lookup of_ptr mbind cres_bind]. unfold answer in Hans.
  destruct (decide _) as [Hpos|]; [|done]. destruct (pos_nonul _ Hpos) as [Hn Hp].
  rewrite (lookupCommand_spec (obj_sds a0) Hn Hp). cbn [mbind cres_bind].
  set (c1 := set_inp c (in_cmd (inp c) (command_of (obj_sds a0)))).
  assert (ready 3 (Z.of_nat (length t)) c1) as R1 by exact R.
  assert (forall c', replied t c1 c' -> replied t c c') as Hrep by (intros c'; apply with_cmd_replied).
  assert (forall r, rop_ok r -> rop_text r = t -> exists c', run_rop oe c1 r = Ret c' /\ replied t c c') as Hrop.
  { intros r Hr <-. destruct (rop_spec oe c1 r Hoe Hr R1) as (c' & E & Q). exists c'. split; [done|].
    apply Hrep. by eapply queued_replied. }
  destruct (command_of (obj_sds a0)) as [k|] eqn:Ek.
  2:{ injection Hans as <- <-. rewrite cstr_app_nul by done. cbn [of_ptr mbind cres_bind].
      destruct (Hrop (TErrorFormat (lit "unknown command '" ++ obj_sds a0 ++ lit "'"))) as (c' & E & Q); [done|done|].
      cbn [run_rop] in E. rewrite E. cbn [mbind cres_bind]. exists s, c'. split_and!; [done|by constructor|done]. }
  replace (length (argv (inp c1))) with (length (obj_sds a0 :: (obj_sds <$> rest)))
    by (unfold c1; cbn; rewrite Eargv; cbn; by rewrite length_fmap).
  destruct (bad_arity k _).
  { injection Hans as <- <-.
    destruct (Hrop (TErrorFormat (lit "wrong number of arguments for '" ++ cmd_name k ++ lit "' command"))) as (c' & E & Q); [done|done|].
    cbn [run_rop] in E. rewrite E. cbn [mbind cres_bind]. exists s, c'. split_and!; [done|by constructor|done]. }
  assert (k = cmd_get \/ k = cmd_set \/ k = cmd_config) as Hk.
  { unfold command_of in Ek. repeat case_bool_decide; simplify_eq; auto. }
  destruct Hk as [->|[->| ->]]; cbn [cmd_proc cmd_get cmd_set cmd_config] in Hans; [| |done].
  - change (negb (Z.land (cmd_flags cmd_get) PREZ_CMD_WRITE =? 0)) with false. cbn match.
    destruct rest as [|k0 [|? ?]]; [done| |done]. cbn [fmap list_fmap] in Hans. injection Hans as <- <-.
    destruct (call_get (configCommand os) oe s (v_map v) c1 a0 k0 Hoe) as (db' & c' & E & Hm' & Q); try done.
    rewrite E. cbn [mbind cres_bind]. eexists _, _. split; [done|]. split; [by constructor|].
    apply Hrep in Q. destruct Q. by constructor.
  - change (negb (Z.land (cmd_flags cmd_set) PREZ_CMD_WRITE =? 0)) with true. cbn match. rewrite Hrole.
    destruct (v_role v =? Cluster.PREZ_CANDIDATE).
    { injection Hans as <- <-. destruct (Hrop (TSds (lit "-CLUSTERDOWN Leader not elected.Command not accepted" ++ CRLF))) as (c' & E & Q); [done|done|].
      cbn [run_rop] in E. rewrite E. cbn [mbind cres_bind]. exists s, c'. split_and!; [done|by constructor|done]. }
    destruct (v_role v =? Cluster.PREZ_FOLLOWER); [|done]. injection Hans as <- <-.
    rewrite Hlead, cstr_app_nul by done. cbn [of_ptr mbind cres_bind].
    destruct (Hrop (TSds (lit "-ASK " ++ v_leader v ++ CRLF))) as (c' & E & Q); [done|done|].
    cbn [run_rop] in E. rewrite E. cbn [mbind cres_bind]. exists s, c'. split_and!; [done|by constructor|done].
Qed.

(** A client between two requests, with nothing queued. *)
Record idle (c : prezClient) : Prop := {
  id_fd : 0 < fd c;
  id_blocked : has_flag c PREZ_BLOCKED = false;
  id_closing : has_flag c PREZ_CLOSE_AFTER_REPLY = false;
  id_inp : exists k, inp c = mkInput [] 0 0 (-1) [] k;
  id_out : out c = new_output;
}.

(** [C6] Requests are answered completely, in order and exactly once.  A client sends any
    number of requests in the multibulk protocol, whose answers a node gives at once (GET,
    unknown commands, wrong numbers of arguments, SET on a node that is not the leader);
    however the network cuts the bytes into segments, the server reads them to the end
    without failing, queues exactly the answers, one after the other, leaves nothing in the
    query buffer, and its data set is unchanged. *)
Theorem requests_answered (s : node_st) (v v' : view) (c : prezClient) (segs : list bytes)
    (reqs : list (list bytes)) (ts : list bytes) :
  shows s v -> idle c -> Forall req_ok reqs -> Forall (λ x, x <> []) segs ->
  concat segs = concat (enc_request <$> reqs) -> answers answer v reqs = Some (v', ts) ->
  3 * Z.of_nat (length reqs) * 2 ^ 20 + 4 * Z.of_nat (length (concat ts)) < 2 ^ 63 ->
  exists s' c', read_all oe (processCommand oe ev me) (length (concat segs)) s c segs = Ret (s', Some c')
    /\ shows s' v' /\ pending (out c') = concat ts /\ querybuf (inp c') = [].
Proof.
  intros Hs [Hfd Hb Hc (k & Ei) Eo] Hreqs Hsegs Hcat Hans Hroom.
  destruct (read_all_spec oe (processCommand oe ev me) shows answer (length (concat segs)) s v c segs reqs v' ts)
    as (s' & c' & E & Hs' & Hq & Hst & Hse & _); try done.
  - left. unfold at_start, qlen. rewrite Ei. cbn. rewrite Hcat. by split_and!.
  - unfold calm. rewrite Ei. cbn. split; [lia|done].
  - intros ->. destruct reqs; [done|]. cbn in Hcat. done.
  - split; [done|]. split_and!; try done; rewrite Eo; [apply new_output_ok|]. cbn [new_output reply sumZ foldr]. lia.
  - exists s', c'. split_and!; try done. unfold pending. rewrite Hst, Hse, Eo. done.
Qed.

(** The answers never change the view. *)
Lemma answer_view v args v' t : answer v args = Some (v', t) -> v' = v.
Proof. unfold answer. repeat case_match; naive_solver. Qed.

(** ** A write that is not committed yet *)

(** The request was run by the leader: the client keeps its arguments and is not reset. *)
Lemma leader_write s c args cl :
  obj_sds <$> argv (inp c) = args ->
  (exists name rest, args = name :: rest /\ Forall (λ x, 0 < x) name /\ command_of name = Some cmd_set) ->
  (3 <= length args)%nat ->
  Cluster.state (Cluster.rf (ns_cluster s)) = Cluster.PREZ_LEADER ->
  Cluster.clusterProcessCommand junk ev (ns_cluster s) me (lit "set") args = Ret cl ->
  processCommand oe ev me s c
  = Ret (st_cluster s cl, set_inp c (in_cmd (inp c) (Some cmd_set)), PREZ_ERR).
Proof.
  intros Ea (name & rest & -> & Hpos & Ek) Hlen Hst Hcl. unfold processCommand.
  destruct (argv (inp c)) as [|a0 l] eqn:Eargv; [done|]. cbn [fmap list_fmap] in Ea. injection Ea as Ea0 Erest.
  cbn [lookup list_lookup of_ptr mbind cres_bind]. destruct (pos_nonul _ Hpos) as [Hn Hp].
  rewrite Ea0, (lookupCommand_spec name Hn Hp), Ek. cbn [mbind cres_bind inp set_inp in_cmd argv]. rewrite Eargv.
  assert (bad_arity cmd_set (Z.of_nat (length (a0 :: l))) = false) as ->.
  { rewrite <- Erest in Hlen. cbn in Hlen |- *. rewrite length_fmap in Hlen. unfold bad_arity. cbn [cmd_set cmd_arity].
    change (0 <? -3) with false. cbn [andb orb]. apply Z.ltb_ge. lia. }
  change (negb (Z.land (cmd_flags cmd_set) PREZ_CMD_WRITE =? 0)) with true. cbn match. rewrite Hst.
  change (Cluster.PREZ_LEADER =? Cluster.PREZ_CANDIDATE) with false.
  change (Cluster.PREZ_LEADER =? Cluster.PREZ_FOLLOWER) with false. cbn match.
  cbn [cmd_name cmd_set fmap list_fmap]. rewrite Ea0, Erest, Hcl. done.
Qed.

(** [C38] A client that does not wait for the answer to a write ends the leader.  After a SET
    was taken the client keeps its arguments until the entry is committed; as soon as the
    query buffer holds one more byte, the parser of the multibulk protocol finds them and an
    assertion ends the process. *)
Theorem pipelined_write_ends_leader (s : node_st) (c : prezClient) (args : list bytes) (more : bytes) (cl : Cluster.cluster) :
  idle c -> req_ok args -> (3 <= length args)%nat ->
  (exists name rest, args = name :: rest /\ Forall (λ x, 0 < x) name /\ command_of name = Some cmd_set) ->
  Cluster.state (Cluster.rf (ns_cluster s)) = Cluster.PREZ_LEADER ->
  Cluster.clusterProcessCommand junk ev (ns_cluster s) me (lit "set") args = Ret cl ->
  more <> [] -> Z.of_nat (length (enc_request args ++ more)) <= PREZ_INLINE_MAX_SIZE ->
  processInputBuffer oe (processCommand oe ev me) s (append_query c (enc_request args ++ more)) = Exit.
Proof.
  intros [_ Hb Hc (k & Ei) _] Hreq Hlen Hname Hst Hcl Hmore Hsize. unfold processInputBuffer.
  set (c0 := append_query c (enc_request args ++ more)).
  assert (querybuf (inp c0) = enc_request args ++ more) as Eq by (unfold c0, append_query; rewrite Ei; done).
  rewrite Eq. assert (exists n, length (enc_request args ++ more) = S n) as (n & ->) by (eexists; done).
  cbn [input_loop]. rewrite (bool_decide_false (querybuf (inp c0) = [])) by (by rewrite Eq).
  change (has_flag c0 PREZ_BLOCKED) with (has_flag c PREZ_BLOCKED).
  change (has_flag c0 PREZ_CLOSE_AFTER_REPLY) with (has_flag c PREZ_CLOSE_AFTER_REPLY). rewrite Hb, Hc. cbn [orb].
  assert (reqtype (inp c0) = 0) as -> by (unfold c0, append_query; rewrite Ei; done). cbn [Z.eqb].
  rewrite (bool_decide_true (head (querybuf (inp c0)) = Some 42)) by (by rewrite Eq).
  set (c1 := set_inp c0 (in_reqtype (inp c0) PREZ_REQ_MULTIBULK)).
  assert (fresh [] more c1 args) as Hfresh.
  { constructor; unfold c1, c0, append_query, qlen; rewrite Ei; cbn; try done. by rewrite app_nil_r. }
  destruct (processMultibulk_spec oe [] more c1 args (or_introl Hfresh) Hreq) as (c2 & r & E & Hs2 & [(_ & _ & _ & Hlt)|(-> & Hp)]);
    [cbn in Hlt; lia|].
  change (reqtype (inp c1) =? PREZ_REQ_INLINE) with false. change (reqtype (inp c1) =? PREZ_REQ_MULTIBULK) with true.
  cbn match. rewrite E. cbn [mbind cres_bind]. change (negb (PREZ_OK =? PREZ_OK)) with false. cbn match.
  pose proof (pa_argv _ _ _ _ Hp) as Ea. assert (argv (inp c2) <> []) as Hne.
  { intros E0. rewrite E0 in Ea. rewrite <- Ea in Hlen. cbn in Hlen. lia. }
  rewrite (bool_decide_false (argv (inp c2) = [])) by done.
  rewrite (leader_write s c2 args cl Ea Hname Hlen Hst Hcl). cbn [mbind cres_bind].
  change (PREZ_ERR =? PREZ_OK) with false. cbn match. set (c3 := set_inp c2 _).
  assert (querybuf (inp c3) = more) as Eq3 by (pose proof (pa_data _ _ _ _ Hp) as Hd; by rewrite app_nil_r in Hd).
  assert (reqtype (inp c3) = PREZ_REQ_MULTIBULK) as Et by (by apply (sc_type _ _ Hs2)).
  assert (flags c3 = flags c) as Ef by (by apply (sc_flags _ _ Hs2)).
  cbn [input_loop]. rewrite Eq3, (bool_decide_false (more = [])) by done.
  unfold has_flag in *. rewrite Ef, Hb, Hc. cbn [orb]. rewrite Et.
  change (PREZ_REQ_MULTIBULK =? 0) with false. cbn match. rewrite Et.
  change (PREZ_REQ_MULTIBULK =? PREZ_REQ_INLINE) with false. change (PREZ_REQ_MULTIBULK =? PREZ_REQ_MULTIBULK) with true.
  cbn match. unfold processMultibulkBuffer, mb_header.
  change (multibulklen (inp c3)) with (multibulklen (inp c2)). rewrite (pa_len _ _ _ _ Hp). cbn [Z.eqb negb].
  change (argv (inp c3)) with (argv (inp c2)). rewrite (bool_decide_false (argv (inp c2) = [])) by done. done.
Qed.
End Server.

(** ** Examples *)

(** A node of a cluster of three that knows [b] as its leader, with an empty data set. *)
Definition ex_st (role : Z) : node_st :=
  mkSt (ClusterVote.ex_cluster (Cluster.mkRaft role (lit "b") Cluster.vs_empty 0 0 2 0 0) Log.ex_log)
    (mkKeyspace dictCreate 0 0) initServerConfig 0 0 0.

Definition ex_view (role : Z) : view := mkView ∅ role (lit "b").

Lemma ex_shows role : shows (ex_st role) (ex_view role).
Proof. constructor; [apply create_rep|apply map_Forall_empty|done|done|]. by repeat constructor. Qed.

Lemma ex_idle : idle ex_client.
Proof. constructor; [done|done|done|by exists None|done]. Qed.

(** Four requests, cut into three segments. *)
Definition ex_reqs : list (list bytes) :=
  [[lit "get"; lit "k"]; [lit "SET"; lit "k"; lit "v"]; [lit "del"; lit "k"]; [lit "get"]].

Definition ex_segs : list bytes :=
  let b := concat (enc_request <$> ex_reqs) in [take 5 b; take 40 (drop 5 b); drop 45 b].

Definition ex_answers : list bytes :=
  [lit "$-1" ++ CRLF; lit "-ASK b" ++ CRLF; lit "-ERR unknown command 'del'" ++ CRLF;
   lit "-ERR wrong number of arguments for 'get' command" ++ CRLF].

Lemma req_ok_b args : negb (bool_decide (args = [])) && (Z.of_nat (length args) <=? 1024 * 1024)
    && forallb (λ a, Z.of_nat (length a) <=? 512 * 1024 * 1024) args = true -> req_ok args.
Proof.
  rewrite !andb_true_iff, negb_true_iff, bool_decide_eq_false, Z.leb_le, forallb_forall.
  intros [[Hne Hl] Hall]. split_and!; try done. apply Forall_forall. intros a Ha.
  apply Z.leb_le, Hall. by apply list_elem_of_In.
Qed.

Lemma requests_answered_witness :
  exists s' c', read_all ex_oenv (processCommand ex_os ClusterCommand.ex_junk ex_oenv ClusterVote.ex_env 1%positive)
      (length (concat ex_segs)) (ex_st Cluster.PREZ_FOLLOWER) ex_client ex_segs = Ret (s', Some c')
    /\ shows s' (ex_view Cluster.PREZ_FOLLOWER) /\ pending (out c') = concat ex_answers /\ querybuf (inp c') = [].
Proof.
  apply (requests_answered ex_os ClusterCommand.ex_junk ex_oenv ClusterVote.ex_env 1%positive ex_oenv_ok
           (ex_st Cluster.PREZ_FOLLOWER) (ex_view Cluster.PREZ_FOLLOWER) (ex_view Cluster.PREZ_FOLLOWER)
           ex_client ex_segs ex_reqs ex_answers).
  - apply ex_shows.
  - apply ex_idle.
  - repeat (apply Forall_cons; split; [by apply req_ok_b|]). constructor.
  - repeat constructor; by vm_compute.
  - by vm_compute.
  - by vm_compute.
  - by vm_compute.
Defined.

Lemma pipelined_write_ends_leader_witness :
  processInputBuffer ex_oenv (processCommand ex_os ClusterCommand.ex_junk ex_oenv ClusterVote.ex_env 1%positive)
    (ex_st Cluster.PREZ_LEADER) (append_query ex_client (enc_request [lit "set"; lit "k"; lit "v"] ++ lit "*")) = Exit.
Proof.
  eapply (pipelined_write_ends_leader ex_os ClusterCommand.ex_junk ex_oenv ClusterVote.ex_env 1%positive
           (ex_st Cluster.PREZ_LEADER) ex_client [lit "set"; lit "k"; lit "v"] (lit "*")).
  - apply ex_idle.
  - apply req_ok_b. reflexivity.
  - cbn. lia.
  - exists (lit "set"), [lit "k"; lit "v"]. by repeat constructor.
  - reflexivity.
  - vm_compute. reflexivity.
  - discriminate.
  - by vm_compute.
Defined.
