(* ===== verification/StateMachine.v ===== *)
(** * The replicated state machine

    The command layer of Keyspace.v as the instance the log asks for ([Commands] of
    Cluster.v), and what applying committed entries does to the data sets of the nodes: the
    leader runs the arguments its waiting clients still hold, the other nodes split the text
    of the entry again ([logApply] of src/src/log.c, the loop in [clusterCron]). *)

From Stdlib Require Import ZArith Lia.
From stdpp Require Import base tactics numbers list gmap strings.
From S2P Require Import Prelude Util Object Dict DictTypes Client Request Keyspace.
From S2P Require Import SdsArgs Log Cluster ClusterVote ClusterCommand.

Local Open Scope Z_scope.

(** The data set and the clients of a node, by address. *)
Record data := mkData { d_db : keyspace; d_clients : gmap addr_t prezClient }.

(** Only the data set matters here: writes are the commands of the log, and CONFIG is none. *)
#[global] Instance keyspace_has_keyspace : HasKeyspace keyspace := {|
  w_db db := db;
  w_set_db _ db := db;
  w_db_set _ _ := eq_refl;
|}.

Section Instance.
Context (configCommand : oenv -> keyspace -> option prezClient -> list robj -> cres (keyspace * option prezClient)).
Context (oe : oenv).

(** [call(c)] for the client the entry's index leads to. *)
Definition call_client (a : addr_t) (d : data) : cres data :=
  c ← of_ptr (d_clients d !! a);
  '(db, c) ← Keyspace.call configCommand oe (d_db d) c;
  mret (mkData db (<[a := c]> (d_clients d))).

(** [cmd->proc(NULL,oargv,argc)], the words as raw string objects. *)
Definition proc_null (k : prezCommand) (argv : list bytes) (d : data) : cres data :=
  '(db, _) ← run_proc configCommand oe (cmd_proc k) (d_db d) None (OBJ_RAW <$> argv);
  mret (mkData db (d_clients d)).

#[global] Instance server_commands_of : Commands data := {
  command_t := prezCommand;
  Cluster.lookupCommand := DictTypes.lookupCommand;
  arity := cmd_arity;
  proc := proc_null;
  Cluster.call := call_client;
}.

(** ** The data set as text *)

(** The encodings of the values are forgotten: the leader keeps the objects of the request,
    the others create new ones from the words. *)
Definition holds (db : keyspace) (t : gmap bytes bytes) : Prop :=
  exists m, db_rep db m /\ obj_sds <$> m = t.

(** What an entry means. *)
Definition apply_text (t : gmap bytes bytes) (a : aentry) : gmap bytes bytes :=
  match sdssplitargs (a_cmd a) with
  | Some (_ :: k :: v :: _) => <[k := v]> t
  | _ => t
  end.

(** The words of a write, as [clusterProcessCommand_correct] stores them. *)
Record write_words (argv : list bytes) : Prop := {
  ww_words : Forall cmd_word argv;
  ww_count : (3 <= length argv)%nat;
  ww_set : exists name, argv !! 0%nat = Some name /\ Forall (λ x, 0 < x) name
             /\ command_of name = Some cmd_set;
}.

Definition stores (a : aentry) (argv : list bytes) : Prop := a_cmd a = join_words id argv ++ [10].

Definition is_write (a : aentry) : Prop := exists argv, write_words argv /\ stores a argv.

Lemma stores_split a argv : write_words argv -> stores a argv -> sdssplitargs (a_cmd a) = Some argv.
Proof.
  intros [Hw _ _] ->. apply sdssplitargs_words; [by right|]. eapply Forall_impl; [exact Hw|].
  intros w [_ ?]. by apply readable_plain.
Qed.

Lemma write_shape argv : write_words argv ->
  exists s k v rest, argv = s :: k :: v :: rest /\ Forall (λ x, 0 < x) s /\ command_of s = Some cmd_set.
Proof.
  intros [_ Hc (name & E & Hp & Hs)]. destruct argv as [|s [|k [|v rest]]]; cbn in Hc; try lia.
  cbn in E. injection E as ->. by exists name, k, v, rest.
Qed.

Lemma holds_insert (db : keyspace) (m : gmap bytes robj) (t : gmap bytes bytes) (k v : robj) : db_rep db (<[obj_sds k := v]> m) -> obj_sds <$> m = t ->
  holds db (<[obj_sds k := obj_sds v]> t).
Proof. intros R <-. eexists. split; [exact R|]. by rewrite fmap_insert. Qed.

Lemma size_fits (m : gmap bytes robj) (t : gmap bytes bytes) : obj_sds <$> m = t -> (base.size t <= Z.to_nat (2 ^ 29))%nat -> fits m.
Proof. intros <- H. unfold fits. by rewrite map_size_fmap in H. Qed.

(** ** One entry *)

(** The words of an entry, run without a client. *)
Lemma apply_words_set argv d t : write_words argv -> holds (d_db d) t -> (base.size t <= Z.to_nat (2 ^ 29))%nat ->
  exists d', apply_words argv d = Ret d' /\ d_clients d' = d_clients d
    /\ forall a, stores a argv -> holds (d_db d') (apply_text t a).
Proof.
  intros Hw (m & Hr & Ht) Hs. destruct (write_shape argv Hw) as (s & k & v & rest & -> & Hp & Hset).
  unfold apply_words. cbn [lookup list_lookup of_ptr mbind cres_bind].
  assert (Forall (λ w, w <> []) (s :: k :: v :: rest)) as Hne.
  { eapply Forall_impl; [apply (ww_words _ Hw)|]. by intros w [_ []]. }
  rewrite bool_decide_false by (by inversion_clear Hne). cbn [negb require mbind cres_bind Cluster.lookupCommand server_commands_of].
  rewrite lookupCommand_spec by (eapply Forall_impl; [exact Hp|]; cbn; lia). cbn [mbind cres_bind]. rewrite Hset.
  cbn [arity cmd_arity cmd_set server_commands_of]. rewrite (proj2 (Z.ltb_ge _ (- -3))) by (cbn [length]; lia).
  change (0 <? -3) with false. cbn [andb orb].
  assert (forallb (λ a, negb (bool_decide (a = []))) (s :: k :: v :: rest) = true) as ->.
  { apply forallb_forall. intros w Hin. rewrite Forall_forall in Hne.
    by rewrite bool_decide_false by (apply Hne; by apply list_elem_of_In). }
  cbn [require mbind cres_bind proc server_commands_of]. unfold proc_null. cbn [fmap list_fmap].
  destruct (apply_set configCommand oe (d_db d) m (OBJ_RAW s) (OBJ_RAW k) (OBJ_RAW v) (OBJ_RAW <$> rest))
    as (db' & E & R'); [exact Hr|by eapply size_fits|].
  change (list_fmap bytes robj OBJ_RAW rest) with (OBJ_RAW <$> rest). cbn [cmd_proc cmd_set]. rewrite E.
  eexists. split; [done|]. split; [done|]. intros a Ha. unfold apply_text. rewrite (stores_split a _ Hw Ha).
  exact (holds_insert db' m t (OBJ_RAW k) (OBJ_RAW v) R' Ht).
Qed.

(** A client whose request is the entry [a]. *)
Record waiting_for (d : data) (a : aentry) (ad : addr_t) (cl : prezClient) : Prop := {
  wf_client : d_clients d !! ad = Some cl;
  wf_cmd : cmd (inp cl) = Some cmd_set;
  wf_words : write_words (obj_sds <$> argv (inp cl));
  wf_stores : stores a (obj_sds <$> argv (inp cl));
  wf_ready : ready 6 24 cl;
}.

(** The client was answered and reset. *)
Definition answered (cl cl' : prezClient) : Prop :=
  out_ok (out cl) /\ exists c1, queued 6 (set_text (length (argv (inp cl)))) cl c1 /\ cl' = resetClient c1.

Lemma call_client_set d t a ad cl : oenv_ok oe -> waiting_for d a ad cl -> holds (d_db d) t ->
  (base.size t <= Z.to_nat (2 ^ 29))%nat ->
  exists d' cl', call_client ad d = Ret d' /\ d_clients d' = <[ad := cl']> (d_clients d) /\ answered cl cl'
    /\ holds (d_db d') (apply_text t a).
Proof.
  intros Hoe [Hcl Hcmd Hw Hst Hrdy] (m & Hr & Ht) Hs. unfold call_client. rewrite Hcl. cbn [of_ptr mbind cres_bind].
  destruct (argv (inp cl)) as [|s [|k [|v rest]]] eqn:Ea; try (pose proof (ww_count _ Hw) as Hc; cbn in Hc; lia).
  destruct (call_set configCommand oe (d_db d) m cl s k v rest) as (db' & c1 & E & R' & Q); try done; [by eapply size_fits|].
  rewrite E. cbn [mbind cres_bind]. eexists _, _. split; [done|]. split_and!; [done| |].
  - split; [apply Hrdy|]. exists c1. by rewrite Ea.
  - unfold apply_text. rewrite (stores_split a _ Hw Hst). exact (holds_insert db' m t k v R' Ht).
Qed.

(** ** The loop *)

Definition entry_at (c : cluster) (i : Z) : option aentry := views (log c) !! Z.to_nat (i - 1).

(** Every index that has a client on the leader has the right one, and no client waits twice. *)
Record clients_ok (c : cluster) (d : data) (lo hi : Z) : Prop := {
  co_wait i ad a : lo < i <= hi -> proc_clients c !! ll_repr i = Some ad -> entry_at c i = Some a ->
    exists cl, waiting_for d a ad cl;
  co_once i j ad : lo < i <= hi -> lo < j <= hi -> proc_clients c !! ll_repr i = Some ad ->
    proc_clients c !! ll_repr j = Some ad -> i = j;
}.

(** What [logApply] does with the entry of index [i]. *)
Record applied (c : cluster) (d : data) (i : Z) (c' : cluster) (d' : data) : Prop := {
  ap_rf : rf c' = rf c;
  ap_log : log c' = log c;
  ap_clients : forall j, j <> i -> in_s64 i -> in_s64 j -> proc_clients c' !! ll_repr j = proc_clients c !! ll_repr j;
  ap_waiting ad cl : state (rf c) = PREZ_LEADER -> proc_clients c !! ll_repr i = Some ad -> d_clients d !! ad = Some cl ->
    proc_clients c' !! ll_repr i = None /\ exists cl', d_clients d' !! ad = Some cl' /\ answered cl cl';
  ap_others ad : (state (rf c) = PREZ_LEADER -> proc_clients c !! ll_repr i <> Some ad) -> d_clients d' !! ad = d_clients d !! ad;
}.

Lemma logApply_spec c d t i a : oenv_ok oe -> log_wf (log c) -> 1 <= i <= logLength (log c) ->
  entry_at c i = Some a -> is_write a -> holds (d_db d) t -> (base.size t <= Z.to_nat (2 ^ 29))%nat ->
  (state (rf c) = PREZ_LEADER -> clients_ok c d (i - 1) i) ->
  exists c' d', logApply c d i = Ret (c', d') /\ applied c d i c' d' /\ holds (d_db d') (apply_text t a).
Proof.
  intros Hoe Hlog Hi Ea (argv & Hw & Hst) Hh Hs Hcl.
  destruct (getLogEntry_wf (log c) i Hlog Hi) as (en & Eg & El & _ & Hok).
  assert (a = view (log_entry en)) as ->.
  { unfold entry_at, views in Ea. rewrite list_lookup_fmap, El in Ea. by injection Ea as <-. }
  destruct (eo_cmd _ Hok) as (_ & line & Eline). unfold logApply. rewrite Eg.
  destruct (if state (rf c) =? PREZ_LEADER then _ else _) as [ad|] eqn:Ead.
  - destruct (Z.eqb_spec (state (rf c)) PREZ_LEADER) as [Hlead|]; [|done].
    destruct (co_wait _ _ _ _ (Hcl Hlead) i ad (view (log_entry en))) as (cl & Hwait); [lia|done..|].
    destruct (call_client_set d t _ ad cl Hoe Hwait Hh Hs) as (d' & cl' & E & Ed & Hans & Hh').
    cbn [Cluster.call server_commands_of]. rewrite E. cbn [mbind cres_bind]. eexists _, _. split; [done|]. split; [|done].
    constructor; cbn; try done.
    + intros j Hj Ii Ij. apply lookup_delete_ne. intros E'. apply Hj. symmetry. by apply ll_repr_inj.
    + intros ad' cl0 _ Ead' Ecl. rewrite Ead in Ead'. injection Ead' as <-. rewrite (wf_client _ _ _ _ Hwait) in Ecl.
      injection Ecl as <-. split; [apply lookup_delete_eq|]. exists cl'. by rewrite Ed, lookup_insert_eq.
    + intros ad' Hne. rewrite Ed, lookup_insert_ne; [done|]. intros <-. by apply (Hne Hlead).
  - rewrite Eline. cbn [of_ptr mbind cres_bind].
    assert (sdssplitargs line = Some argv) as ->.
    { rewrite <- (stores_split _ _ Hw Hst). unfold view. cbn [a_cmd]. by rewrite Eline. }
    destruct (apply_words_set argv d t Hw Hh Hs) as (d' & E & Ed & Hh'). rewrite E. cbn [mbind cres_bind].
    eexists _, _. split; [done|]. split; [|by apply Hh']. constructor; try done.
    + intros ad cl Hlead Ead'. rewrite Hlead in Ead. by rewrite Z.eqb_refl, Ead' in Ead.
    + intros ad _. by rewrite Ed.
Qed.

(** The entries of the indices above [lo], up to [hi]. *)
Definition entries_between (c : cluster) (lo hi : Z) : list aentry :=
  take (Z.to_nat (hi - lo)) (drop (Z.to_nat lo) (views (log c))).

Lemma entries_between_cons c lo hi a : 0 <= lo < hi -> entry_at c (lo + 1) = Some a ->
  entries_between c lo hi = a :: entries_between c (lo + 1) hi.
Proof.
  intros H Ea. unfold entries_between, entry_at in *. replace (Z.to_nat (lo + 1 - 1)) with (Z.to_nat lo) in Ea by lia.
  rewrite (drop_S _ _ _ Ea). replace (Z.to_nat (hi - lo)) with (S (Z.to_nat (hi - (lo + 1)))) by lia.
  replace (Z.to_nat (lo + 1)) with (S (Z.to_nat lo)) by lia. done.
Qed.

Lemma size_apply_text t a : (base.size (apply_text t a) <= S (base.size t))%nat.
Proof. unfold apply_text. repeat case_match; try lia. rewrite map_size_insert. destruct (t !! _); cbn; unfold id; lia. Qed.

(** The clients of the remaining indices are not touched. *)
Lemma clients_later c d i hi c' d' : 0 < i -> hi < 2 ^ 62 -> applied c d i c' d' -> state (rf c) = PREZ_LEADER ->
  clients_ok c d (i - 1) hi -> clients_ok c' d' i hi.
Proof.
  intros Hi Hhi [Hr Hl Hp _ Ho] Hlead [Hw Honce].
  assert (forall j, i < j <= hi -> proc_clients c' !! ll_repr j = proc_clients c !! ll_repr j) as Hp'.
  { intros j Hj. apply Hp; [lia|rng..]. }
  constructor.
  - intros j ad a Hj Ead Ea. rewrite Hp' in Ead by done. unfold entry_at in Ea. rewrite Hl in Ea.
    destruct (Hw j ad a) as (cl & [? ? ? ? ?]); [lia|done..|]. exists cl. constructor; try done.
    rewrite Ho; [done|]. intros _ Ei. enough (i = j) by lia. eapply Honce; [lia|lia|done|done].
  - intros j k ad Hj Hk. rewrite !Hp' by done. apply Honce; lia.
Qed.

Lemma clients_narrow c d lo hi hi' : hi' <= hi -> clients_ok c d lo hi -> clients_ok c d lo hi'.
Proof. intros H [Hw Ho]. constructor; [intros i ad a Hi; apply Hw; lia|intros i j ad Hi Hj; apply Ho; lia]. Qed.

(** What applying the entries above [lo] up to [hi] does, apart from the data set: the log
    stays, every client that waits for one of them is answered once, the others are not
    touched. *)
Record caught_up (c : cluster) (d : data) (lo hi : Z) (c' : cluster) (d' : data) : Prop := {
  cu_log : log c' = log c;
  cu_applied : last_applied (rf c') = hi;
  cu_others ad : (state (rf c) = PREZ_LEADER -> forall i, lo < i <= hi -> proc_clients c !! ll_repr i <> Some ad) ->
    d_clients d' !! ad = d_clients d !! ad;
  cu_answered i ad cl : state (rf c) = PREZ_LEADER -> lo < i <= hi -> proc_clients c !! ll_repr i = Some ad ->
    d_clients d !! ad = Some cl -> exists cl', d_clients d' !! ad = Some cl' /\ answered cl cl';
}.

Definition at_index (c : cluster) (i : Z) : cluster := set_rf c (r_last_applied (rf c) i).

Lemma clients_at_index c d lo hi i : clients_ok c d lo hi -> clients_ok (at_index c i) d lo hi.
Proof. intros [Hw Ho]. by constructor. Qed.

Lemma caught_up_step c d i hi c1 d1 c' d' : 0 < i <= hi -> hi < 2 ^ 62 ->
  (state (rf c) = PREZ_LEADER -> clients_ok c d (i - 1) hi) ->
  applied (at_index c i) d i c1 d1 -> caught_up c1 d1 i hi c' d' -> caught_up c d (i - 1) hi c' d'.
Proof.
  intros Hi Hhi Hcl [Hr Hl Hp Hw Ho] [Ll La Lo Lan]. constructor.
  - by rewrite Ll, Hl.
  - done.
  - intros ad Hne. rewrite Lo.
    + apply Ho. intros Hlead. apply Hne; [done|lia].
    + rewrite Hr. intros Hlead j Hj. rewrite Hp by (lia || rng). apply Hne; [done|lia].
  - intros j ad cl Hlead Hj Ead Ecl. destruct (decide (j = i)) as [->|Hne].
    + destruct (Hw ad cl) as (_ & cl' & Ecl' & Hans); [done..|]. exists cl'. split; [|done].
      rewrite Lo; [done|]. intros _ k Hk Ek. rewrite Hp in Ek by (lia || rng).
      enough (i = k) by lia. eapply (co_once _ _ _ _ (Hcl Hlead)); [lia|lia|exact Ead|exact Ek].
    + destruct (Lan j ad cl) as (cl' & ? & ?); [by rewrite Hr|lia| | |by exists cl'].
      * by rewrite Hp by (lia || rng).
      * rewrite Ho; [done|]. intros _ Ek. enough (i = j) by lia.
        eapply (co_once _ _ _ _ (Hcl Hlead)); [lia|lia|exact Ek|exact Ead].
Qed.

Lemma apply_loop_spec (Hoe : oenv_ok oe) n : forall c d t lo,
  log_wf (log c) -> last_applied (rf c) = lo -> 0 <= lo -> lo + Z.of_nat n <= logLength (log c) ->
  Forall is_write (entries_between c lo (lo + Z.of_nat n)) ->
  holds (d_db d) t -> (base.size t + n <= Z.to_nat (2 ^ 29))%nat ->
  (state (rf c) = PREZ_LEADER -> clients_ok c d lo (lo + Z.of_nat n)) ->
  exists c' d', apply_loop n c d = Ret (c', d') /\ caught_up c d lo (lo + Z.of_nat n) c' d'
    /\ holds (d_db d') (foldl apply_text t (entries_between c lo (lo + Z.of_nat n))).
Proof.
  induction n as [|n IH]; intros c d t lo Hlog Hlo Hpos Hle Hwr Hh Hs Hcl.
  { exists c, d. cbn [apply_loop]. rewrite Z.add_0_r. split_and!; [done| |].
    - constructor; try done. intros; lia.
    - unfold entries_between. by rewrite Z.sub_diag. }
  replace (lo + Z.of_nat (S n)) with (lo + 1 + Z.of_nat n) in * by lia. set (hi := lo + 1 + Z.of_nat n) in *.
  pose proof (lw_small _ Hlog) as Hsm. unfold log_small in Hsm.
  destruct (lookup_lt_is_Some_2 (views (log c)) (Z.to_nat (lo + 1 - 1))) as [a Ea].
  { unfold views. rewrite length_fmap. unfold logLength in Hle. lia. }
  rewrite (entries_between_cons c lo hi a) in Hwr |- * by (done || lia). apply Forall_cons in Hwr as [Hwa Hwr].
  replace lo with (lo + 1 - 1) in Hcl by lia.
  cbn [apply_loop]. rewrite Hlo. change (set_rf c _) with (at_index c (lo + 1)).
  destruct (logApply_spec (at_index c (lo + 1)) d t (lo + 1) a) as (c1 & d1 & E1 & Hap & Hh1); try done; [cbn [at_index log set_rf]; lia|lia| |].
  { intros Hlead. apply (clients_narrow _ _ _ hi); [lia|]. by apply clients_at_index, Hcl. }
  pose proof (ap_log _ _ _ _ _ Hap) as El. pose proof (ap_rf _ _ _ _ _ Hap) as Er. cbn [at_index log set_rf] in El.
  change (last_applied (rf (at_index c (lo + 1)))) with (lo + 1). rewrite E1. cbn [mbind cres_bind].
  destruct (IH c1 d1 (apply_text t a) (lo + 1)) as (c' & d' & E & Hcu & Hh'); rewrite ?El, ?Er; try done; try lia.
  - unfold entries_between in *. by rewrite El.
  - pose proof (size_apply_text t a). lia.
  - intros Hlead. eapply clients_later; [lia|lia|exact Hap|done|]. by apply clients_at_index, Hcl.
  - exists c', d'. split; [done|]. split.
    + replace lo with (lo + 1 - 1) at 1 by lia. by eapply caught_up_step; [lia|lia|exact Hcl|exact Hap|].
    + unfold entries_between in *. by rewrite El in Hh'.
Qed.

(** A node that has applied the entries up to [lo], holds [t], and knows that those up to
    [hi] are committed writes. *)
Record node_at (c : cluster) (d : data) (t : gmap bytes bytes) (lo hi : Z) : Prop := {
  na_log : log_wf (log c);
  na_applied : last_applied (rf c) = lo;
  na_commit : commit_index (rf c) = hi;
  na_range : 0 <= lo <= hi /\ hi <= logLength (log c);
  na_writes : Forall is_write (entries_between c lo hi);
  na_holds : holds (d_db d) t;
  na_room : (base.size t + Z.to_nat (hi - lo) <= Z.to_nat (2 ^ 29))%nat;
  na_clients : state (rf c) = PREZ_LEADER -> clients_ok c d lo hi;
}.

Lemma apply_committed_spec c d t lo hi : oenv_ok oe -> node_at c d t lo hi ->
  exists c' d', apply_committed c d = Ret (c', d') /\ caught_up c d lo hi c' d'
    /\ holds (d_db d') (foldl apply_text t (entries_between c lo hi)).
Proof.
  intros Hoe [Hlog Ela Eci [Hr1 Hr2] Hwr Hh Hroom Hcl]. unfold apply_committed. rewrite Ela, Eci.
  assert (hi = lo + Z.of_nat (Z.to_nat (hi - lo))) as E by lia.
  rewrite E in Hwr, Hcl, Hr2.
  destruct (apply_loop_spec Hoe (Z.to_nat (hi - lo)) c d t lo) as (c' & d' & Ea & Q); try done; try lia.
  rewrite <- E in Q. by exists c', d'.
Qed.
End Instance.

(** [C4] State machine safety.  Two nodes, each a leader whose clients wait or a follower,
    hold the same text and have applied the same entries; their logs agree up to the commit
    index.  Then both apply every committed entry to its end, and hold the same text again:
    that of the entries, in the order of the log.  Entries are the SETs that
    [clusterProcessCommand] stores, with words a follower can read back. *)
Theorem nodes_agree cfg oe c1 d1 c2 d2 t lo hi :
  oenv_ok oe -> node_at c1 d1 t lo hi -> node_at c2 d2 t lo hi ->
  take (Z.to_nat hi) (views (log c1)) = take (Z.to_nat hi) (views (log c2)) ->
  exists c1' e1 c2' e2 t', apply_committed (Commands0 := server_commands_of cfg oe) c1 d1 = Ret (c1', e1)
    /\ apply_committed (Commands0 := server_commands_of cfg oe) c2 d2 = Ret (c2', e2)
    /\ t' = foldl apply_text t (drop (Z.to_nat lo) (take (Z.to_nat hi) (views (log c1))))
    /\ holds (d_db e1) t' /\ holds (d_db e2) t'
    /\ last_applied (rf c1') = hi /\ last_applied (rf c2') = hi.
Proof.
  intros Hoe N1 N2 Hv. destruct (na_range _ _ _ _ _ N1) as [Hr _].
  assert (forall c, entries_between c lo hi = drop (Z.to_nat lo) (take (Z.to_nat hi) (views (log c)))) as He.
  { intros c. unfold entries_between. rewrite skipn_firstn_comm. f_equal. lia. }
  destruct (apply_committed_spec cfg oe c1 d1 t lo hi Hoe N1) as (c1' & e1 & E1 & Q1 & H1).
  destruct (apply_committed_spec cfg oe c2 d2 t lo hi Hoe N2) as (c2' & e2 & E2 & Q2 & H2).
  rewrite He in H1, H2. rewrite <- Hv in H2. eexists c1', e1, c2', e2, _.
  split_and!; [done|done|done|done|done|apply Q1|apply Q2].
Qed.


(** ** Examples *)

Definition ex_write (i t : Z) (c : string) : logEntry :=
  mkEntry i t (memcpy (replicate 40 0) (lit "set")) (memcpy (replicate 40 0) (lit c ++ [10])).

(** Two writes; the client of the second one waits on the leader. *)
Definition ex_writes : logStore :=
  persisted good_io (persisted good_io empty_log (ex_write 1 1 "set a 1")) (ex_write 2 2 "SET b 22").

Definition ex_waiting : prezClient :=
  set_inp ex_client (mkInput [] 0 0 (-1) (createStringObject <$> [lit "SET"; lit "b"; lit "22"]) (Some cmd_set)).

Definition ex_leader : cluster :=
  set_proc_clients (ex_cluster (mkRaft PREZ_LEADER [] vs_empty 0 0 2 2 0) ex_writes) {[ll_repr 2 := 9%positive]}.
Definition ex_leader_data : data := mkData (mkKeyspace dictCreate 0 0) {[9%positive := ex_waiting]}.

Definition ex_other : cluster := ex_cluster (mkRaft PREZ_FOLLOWER [] vs_empty 0 0 2 2 0) ex_writes.
Definition ex_other_data : data := mkData (mkKeyspace dictCreate 0 0) ∅.

Lemma ex_empty_holds : holds (mkKeyspace dictCreate 0 0) ∅.
Proof. exists ∅. split; [apply create_rep|apply fmap_empty]. Qed.

Lemma write_words_b argv : (forallb (forallb (λ c, negb (c =? 0) && negb (c =? 37))) argv
    && forallb (λ w, negb (bool_decide (w = [])) && forallb plain_char w) argv) && (3 <=? length argv)%nat = true ->
  Forall (λ x, 0 < x) (default [] (argv !! 0%nat)) -> command_of (default [] (argv !! 0%nat)) = Some cmd_set ->
  write_words argv.
Proof.
  intros [H1%cmd_words_b H2%Nat.leb_le]%andb_true_iff Hp Hs. constructor; [done|done|].
  destruct argv as [|w argv]; [cbn in H2; lia|]. by exists w.
Qed.

Lemma ex_writes_ok : Forall is_write (views ex_writes).
Proof.
  apply Forall_cons. split; [|apply Forall_cons; split; [|constructor]].
  - exists [lit "set"; lit "a"; lit "1"]. split; [|done]. by apply write_words_b; [..|repeat constructor|].
  - exists [lit "SET"; lit "b"; lit "22"]. split; [|done]. by apply write_words_b; [..|repeat constructor|].
Qed.

Lemma ex_leader_at : node_at ex_leader ex_leader_data ∅ 0 2.
Proof.
  constructor; try done.
  - by apply log_wfb_ok.
  - apply ex_writes_ok.
  - apply ex_empty_holds.
  - rewrite map_size_empty. lia.
  - intros _. constructor; change (proc_clients ex_leader) with ({[ll_repr 2 := 9%positive]} : gmap bytes addr_t).
    + intros i ad a Hi [Ei <-]%lookup_singleton_Some Ea. apply ll_repr_inj in Ei; [|rng..]. subst i.
      exists ex_waiting. injection Ea as <-. constructor; try done.
      * by apply write_words_b; [..|repeat constructor|].
      * split_and!; [done|done|apply new_output_ok|by vm_compute].
    + intros i j ad Hi Hj [Ei _]%lookup_singleton_Some [Ej _]%lookup_singleton_Some.
      apply ll_repr_inj; [rng..|congruence].
Qed.

Lemma ex_other_at : node_at ex_other ex_other_data ∅ 0 2.
Proof.
  constructor; try done.
  - by apply log_wfb_ok.
  - apply ex_writes_ok.
  - apply ex_empty_holds.
  - rewrite map_size_empty. lia.
Qed.

Definition no_config : oenv -> keyspace -> option prezClient -> list robj -> cres (keyspace * option prezClient) :=
  λ _ _ _ _, Undef.

Lemma nodes_agree_witness :
  exists c1' e1 c2' e2, apply_committed (Commands0 := server_commands_of no_config ex_oenv) ex_leader ex_leader_data = Ret (c1', e1)
    /\ apply_committed (Commands0 := server_commands_of no_config ex_oenv) ex_other ex_other_data = Ret (c2', e2)
    /\ holds (d_db e1) {[lit "a" := lit "1"; lit "b" := lit "22"]}
    /\ holds (d_db e2) {[lit "a" := lit "1"; lit "b" := lit "22"]}.
Proof.
  destruct (nodes_agree no_config ex_oenv ex_leader ex_leader_data ex_other ex_other_data ∅ 0 2
    ex_oenv_ok ex_leader_at ex_other_at eq_refl) as (c1' & e1 & c2' & e2 & t' & E1 & E2 & Et & H1 & H2 & _).
  assert (t' = {[lit "a" := lit "1"; lit "b" := lit "22"]}) as -> by (rewrite Et; by vm_compute).
  exists c1', e1, c2', e2. split_and!; [exact E1|exact E2|exact H1|exact H2].
Defined.

