(* ===== verification/EventLoop.v ===== *)
(** * ae.c: the event loop

    Registration of file and time events, the search for the nearest timer, the dispatch of
    what has fired and the main loop, from src/src/ae.c with the epoll layer of
    src/src/ae_epoll.c.  Handlers are an interface: a handler gets the event loop and the rest
    of the process, may register and remove events, and returns both.  The clock and
    [epoll_wait] belong to the rest of the process; the interest set of the epoll instance is
    part of the loop. *)

From Stdlib Require Import ZArith Lia.
From stdpp Require Import base tactics numbers list gmap.
From S2P Require Import Prelude.

Local Open Scope Z_scope.

Definition AE_OK : Z := 0.
Definition AE_ERR : Z := -1.
Definition AE_NONE : Z := 0.
Definition AE_READABLE : Z := 1.
Definition AE_WRITABLE : Z := 2.
Definition AE_FILE_EVENTS : Z := 1.
Definition AE_TIME_EVENTS : Z := 2.
Definition AE_ALL_EVENTS : Z := Z.lor AE_FILE_EVENTS AE_TIME_EVENTS.
Definition AE_DONT_WAIT : Z := 4.
Definition AE_NOMORE : Z := -1.

(** <sys/epoll.h> *)
Definition EPOLLIN : Z := 1.
Definition EPOLLOUT : Z := 4.
Definition EPOLLERR : Z := 8.
Definition EPOLLHUP : Z := 16.

(** Pointers to handlers and to their data are numbers. *)
Record aeFileEvent := mkFE { mask : Z; rfileProc : Z; wfileProc : Z; fe_clientData : Z }.

Record aeTimeEvent := mkTE {
  te_id : Z;
  when_sec : Z;
  when_ms : Z;
  timeProc : Z;
  finalizerProc : option Z;
  te_clientData : Z;
}.

(** [events] is the content of the block the pointer leads to, [block] its address;
    [timeEventHead] is the list of the time events; [interest] is what the kernel keeps for
    [apidata]. *)
Record aeEventLoop := mkLoop {
  maxfd : Z;
  setsize : Z;
  timeEventNextId : Z;
  lastTime : Z;
  block : Z;
  events : list aeFileEvent;
  timeEventHead : list aeTimeEvent;
  stop : bool;
  interest : gmap Z Z;
  beforesleep : option Z;
}.

Definition el_events (el : aeEventLoop) (m : Z) (ev : list aeFileEvent) (k : gmap Z Z) : aeEventLoop :=
  mkLoop m (setsize el) (timeEventNextId el) (lastTime el) (block el) ev (timeEventHead el) (stop el) k (beforesleep el).
Definition el_timers (el : aeEventLoop) (l : list aeTimeEvent) : aeEventLoop :=
  mkLoop (maxfd el) (setsize el) (timeEventNextId el) (lastTime el) (block el) (events el) l (stop el) (interest el) (beforesleep el).
Definition el_last (el : aeEventLoop) (t : Z) : aeEventLoop :=
  mkLoop (maxfd el) (setsize el) (timeEventNextId el) t (block el) (events el) (timeEventHead el) (stop el) (interest el) (beforesleep el).
Definition el_stop (el : aeEventLoop) (b : bool) : aeEventLoop :=
  mkLoop (maxfd el) (setsize el) (timeEventNextId el) (lastTime el) (block el) (events el) (timeEventHead el) b (interest el) (beforesleep el).

(** ** Creating and resizing *)

(** A slot whose mask was set and nothing else; the other fields are never read before they
    are written. *)
Definition empty_slot : aeFileEvent := mkFE AE_NONE 0 0 0.

(** [now] is [time(NULL)], [b] the address of the slots; [ok]: the allocations and
    [epoll_create] succeed. *)
Definition aeCreateEventLoop (ok : bool) (now b size : Z) : option aeEventLoop :=
  if ok then Some (mkLoop (-1) size 0 now b (replicate (Z.to_nat size) empty_slot) [] false ∅ None) else None.

Definition aeGetSetSize (el : aeEventLoop) : Z := setsize el.

(** The slots above [maxfd] are cleared; [b] is where [zrealloc] puts them. *)
Definition aeResizeSetSize (b : Z) (el : aeEventLoop) (size : Z) : aeEventLoop * Z :=
  if size =? setsize el then (el, AE_OK)
  else if size <=? maxfd el then (el, AE_ERR)
  else
    let ev := take (Z.to_nat (maxfd el + 1)) (events el) ++ replicate (Z.to_nat (size - (maxfd el + 1))) empty_slot in
    (mkLoop (maxfd el) size (timeEventNextId el) (lastTime el) b ev (timeEventHead el) (stop el) (interest el) (beforesleep el), AE_OK).

Definition aeStop (el : aeEventLoop) : aeEventLoop := el_stop el true.

Definition aeSetBeforeSleepProc (el : aeEventLoop) (p : option Z) : aeEventLoop :=
  mkLoop (maxfd el) (setsize el) (timeEventNextId el) (lastTime el) (block el) (events el) (timeEventHead el) (stop el) (interest el) p.

(** ** File events *)

Definition has (m bit : Z) : bool := negb (Z.land m bit =? 0).

Definition epoll_bits (m : Z) : Z :=
  Z.lor (if has m AE_READABLE then EPOLLIN else 0) (if has m AE_WRITABLE then EPOLLOUT else 0).

(** [epoll_ctl]: adding a descriptor that is there and changing one that is not fail; it can
    fail for other reasons too ([ok]).  [None]: -1. *)
Definition epoll_add (ok : bool) (k : gmap Z Z) (fd ev : Z) : option (gmap Z Z) :=
  match k !! fd with None => if ok then Some (<[fd := ev]> k) else None | Some _ => None end.
Definition epoll_mod (ok : bool) (k : gmap Z Z) (fd ev : Z) : option (gmap Z Z) :=
  match k !! fd with Some _ => if ok then Some (<[fd := ev]> k) else None | None => None end.

(** [old] is [eventLoop->events[fd].mask]. *)
Definition aeApiAddEvent (ok : bool) (k : gmap Z Z) (fd old m : Z) : option (gmap Z Z) :=
  (if old =? AE_NONE then epoll_add else epoll_mod) ok k fd (epoll_bits (Z.lor m old)).

Definition aeApiDelEvent (k : gmap Z Z) (fd old delmask : Z) : gmap Z Z :=
  let m := Z.land old (Z.lnot delmask) in
  if negb (m =? AE_NONE) then default k (epoll_mod true k fd (epoll_bits m)) else delete fd k.

(** [&eventLoop->events[fd]] of a descriptor below [setsize]. *)
Definition slot (el : aeEventLoop) (fd : Z) : cres aeFileEvent :=
  _ ← require (0 <=? fd); of_ptr (events el !! Z.to_nat fd).

Definition aeCreateFileEvent (ok : bool) (el : aeEventLoop) (fd m proc clientData : Z) : cres (aeEventLoop * Z) :=
  if setsize el <=? fd then mret (el, AE_ERR) else
  fe ← slot el fd;
  match aeApiAddEvent ok (interest el) fd (mask fe) m with
  | None => mret (el, AE_ERR)
  | Some k =>
      let fe := mkFE (Z.lor (mask fe) m) (if has m AE_READABLE then proc else rfileProc fe)
                  (if has m AE_WRITABLE then proc else wfileProc fe) clientData in
      mret (el_events el (if maxfd el <? fd then fd else maxfd el) (<[Z.to_nat fd := fe]> (events el)) k, AE_OK)
  end.

(** [for (j = maxfd-1; j >= 0; j--) if (events[j].mask != AE_NONE) break], with [n] slots left. *)
Fixpoint last_used (n : nat) (ev : list aeFileEvent) : Z :=
  match n with
  | O => -1
  | S n => if negb (mask (nth n ev empty_slot) =? AE_NONE) then Z.of_nat n else last_used n ev
  end.

Definition aeDeleteFileEvent (el : aeEventLoop) (fd m : Z) : cres aeEventLoop :=
  if setsize el <=? fd then mret el else
  fe ← slot el fd;
  if mask fe =? AE_NONE then mret el else
  let new := Z.land (mask fe) (Z.lnot m) in
  let ev := <[Z.to_nat fd := mkFE new (rfileProc fe) (wfileProc fe) (fe_clientData fe)]> (events el) in
  let top := if (fd =? maxfd el) && (new =? AE_NONE) then last_used (Z.to_nat (maxfd el)) ev else maxfd el in
  mret (el_events el top ev (aeApiDelEvent (interest el) fd new m)).

Definition aeGetFileEvents (el : aeEventLoop) (fd : Z) : cres Z :=
  if setsize el <=? fd then mret 0 else fe ← slot el fd; mret (mask fe).

(** ** Time events *)

(** [aeAddMillisecondsToNow]; [now] is what [aeGetTime] returns. *)
Definition aeAddMillisecondsToNow (now : Z * Z) (milliseconds : Z) : Z * Z :=
  let sec := now.1 + Z.quot milliseconds 1000 in
  let ms := now.2 + Z.rem milliseconds 1000 in
  if 1000 <=? ms then (sec + 1, ms - 1000) else (sec, ms).

(** [now] is what [aeGetTime] returns. *)
Definition aeCreateTimeEvent (now : Z * Z) (el : aeEventLoop) (milliseconds proc clientData : Z) (final : option Z)
    : aeEventLoop * Z :=
  let id := timeEventNextId el in
  let '(sec, ms) := aeAddMillisecondsToNow now milliseconds in
  let te := mkTE id sec ms proc final clientData in
  (mkLoop (maxfd el) (setsize el) (id + 1) (lastTime el) (block el) (events el) (te :: timeEventHead el) (stop el) (interest el)
     (beforesleep el), id).

Definition sooner (a b : aeTimeEvent) : bool :=
  (when_sec a <? when_sec b) || ((when_sec a =? when_sec b) && (when_ms a <? when_ms b)).

(** The loop over the list, with the nearest so far. *)
Fixpoint nearest_loop (nearest : option aeTimeEvent) (l : list aeTimeEvent) : option aeTimeEvent :=
  match l with
  | [] => nearest
  | te :: l =>
      nearest_loop (match nearest with None => Some te | Some n => if sooner te n then Some te else nearest end) l
  end.

Definition aeSearchNearestTimer (el : aeEventLoop) : option aeTimeEvent := nearest_loop None (timeEventHead el).

(** [*tvp]; [None] is NULL, and waits forever.  [now] is what [aeGetTime] returns. *)
Definition poll_timeout (flags : Z) (el : aeEventLoop) (now : Z * Z) : option (Z * Z) :=
  match (if has flags AE_TIME_EVENTS && negb (has flags AE_DONT_WAIT) then aeSearchNearestTimer el else None) with
  | Some shortest =>
      let tv_sec := when_sec shortest - now.1 in
      let '(tv_sec, tv_usec) :=
        if when_ms shortest <? now.2 then (tv_sec - 1, ((when_ms shortest + 1000) - now.2) * 1000)
        else (tv_sec, (when_ms shortest - now.2) * 1000) in
      Some (if tv_sec <? 0 then 0 else tv_sec, if tv_usec <? 0 then 0 else tv_usec)
  | None => if has flags AE_DONT_WAIT then Some (0, 0) else None
  end.

(** The timeout of [epoll_wait], an [int] in milliseconds. *)
Definition epoll_timeout (tvp : option (Z * Z)) : Z :=
  match tvp with Some (sec, usec) => wrap_s32 (sec * 1000 + Z.quot usec 1000) | None => -1 end.

Definition fired_mask (ev : Z) : Z :=
  Z.lor (if has ev EPOLLIN then AE_READABLE else 0)
    (if has ev EPOLLOUT || has ev EPOLLERR || has ev EPOLLHUP then AE_WRITABLE else 0).

(** ** Dispatch *)

(** The rest of the process: the clock, the kernel, and the handlers behind the pointers. *)
Class Process (W : Type) := {
  time_now : W -> Z * W;  (** [time(NULL)] *)
  gettimeofday : W -> (Z * Z) * W;  (** seconds and microseconds *)
  epoll_wait : W -> gmap Z Z -> Z -> Z -> list (Z * Z) * W;  (** descriptors and events; an error is none *)
  run_file : Z -> aeEventLoop -> W -> Z -> Z -> Z -> cres (aeEventLoop * W);
  run_time : Z -> aeEventLoop -> W -> Z -> Z -> cres (aeEventLoop * W * Z);
  run_final : Z -> aeEventLoop -> W -> Z -> cres (aeEventLoop * W);
  run_before : Z -> aeEventLoop -> W -> cres (aeEventLoop * W);
}.

Section Dispatch.
Context {W : Type} `{!Process W}.

Definition aeGetTime (w : W) : (Z * Z) * W :=
  let '((sec, usec), w) := gettimeofday w in ((sec, Z.quot usec 1000), w).

(** The event is unlinked before its finalizer runs. *)
Definition aeDeleteTimeEvent (el : aeEventLoop) (w : W) (id : Z) : cres (aeEventLoop * W * Z) :=
  match list_find (λ te, te_id te = id) (timeEventHead el) with
  | None => mret (el, w, AE_ERR)
  | Some (i, te) =>
      let el := el_timers el (delete i (timeEventHead el)) in
      match finalizerProc te with
      | None => mret (el, w, AE_OK)
      | Some p => '(el, w) ← run_final p el w (te_clientData te); mret (el, w, AE_OK)
      end
  end.

(** The walk along the list up to the first event that is due; the clock is read for every
    event that is not newer than [maxId]. *)
Fixpoint next_due (maxId : Z) (l : list aeTimeEvent) (w : W) : option aeTimeEvent * W :=
  match l with
  | [] => (None, w)
  | te :: l =>
      if maxId <? te_id te then next_due maxId l w else
      let '((now_sec, now_ms), w) := aeGetTime w in
      if (when_sec te <? now_sec) || ((now_sec =? when_sec te) && (when_ms te <=? now_ms)) then (Some te, w)
      else next_due maxId l w
  end.

(** [te->when_sec = sec; te->when_ms = ms]: the event must still be in the list, or the block
    is freed. *)
Definition set_when (l : list aeTimeEvent) (id : Z) (when : Z * Z) : cres (list aeTimeEvent) :=
  '(i, te) ← of_ptr (list_find (λ te, te_id te = id) l);
  mret (<[i := mkTE (te_id te) when.1 when.2 (timeProc te) (finalizerProc te) (te_clientData te)]> l).

(** What follows a handler: a new time, or the end of the event. *)
Definition after_handler (id retval : Z) (el : aeEventLoop) (w : W) : cres (aeEventLoop * W) :=
  if negb (retval =? AE_NOMORE) then
    let '(now, w) := aeGetTime w in
    l ← set_when (timeEventHead el) id (aeAddMillisecondsToNow now retval);
    mret (el_timers el l, w)
  else '(el, w, _) ← aeDeleteTimeEvent el w id; mret (el, w).

(** [n] events at most are run. *)
Fixpoint time_loop (n : nat) (maxId : Z) (el : aeEventLoop) (w : W) (processed : Z) : cres (aeEventLoop * W * Z) :=
  let '(o, w) := next_due maxId (timeEventHead el) w in
  match o with
  | None => mret (el, w, processed)
  | Some te =>
      match n with
      | O => Undef
      | S n =>
          let id := te_id te in
          '(el, w, retval) ← run_time (timeProc te) el w id (te_clientData te);
          '(el, w) ← after_handler id retval el w;
          time_loop n maxId el w (processed + 1)
      end
  end.

(** The clock went back: every event is due. *)
Definition check_skew (el : aeEventLoop) (now : Z) : aeEventLoop :=
  if now <? lastTime el then
    el_timers el ((λ te, mkTE (te_id te) 0 (when_ms te) (timeProc te) (finalizerProc te) (te_clientData te)) <$> timeEventHead el)
  else el.

Definition processTimeEvents (n : nat) (el : aeEventLoop) (w : W) : cres (aeEventLoop * W * Z) :=
  let '(now, w) := time_now w in
  let el := el_last (check_skew el now) now in
  time_loop n (timeEventNextId el - 1) el w 0.

(** One element of [fired].  What is registered is read again after the first handler, through
    the same pointer: when the slots were moved it is dangling. *)
Definition fire_file (el : aeEventLoop) (w : W) (fd m : Z) : cres (aeEventLoop * W) :=
  fe ← slot el fd;
  let rfired := has (Z.land (mask fe) m) AE_READABLE in
  let at_call := block el in
  '(el, w) ← (if rfired then run_file (rfileProc fe) el w fd (fe_clientData fe) m else mret (el, w));
  _ ← require (block el =? at_call);
  fe ← slot el fd;
  if has (Z.land (mask fe) m) AE_WRITABLE && (negb rfired || negb (wfileProc fe =? rfileProc fe))
  then run_file (wfileProc fe) el w fd (fe_clientData fe) m
  else mret (el, w).

Fixpoint fire_files (fired : list (Z * Z)) (el : aeEventLoop) (w : W) (processed : Z) : cres (aeEventLoop * W * Z) :=
  match fired with
  | [] => mret (el, w, processed)
  | (fd, m) :: fired =>
      '(el, w) ← fire_file el w fd m;
      fire_files fired el w (processed + 1)
  end.

Definition aeApiPoll (el : aeEventLoop) (w : W) (tvp : option (Z * Z)) : list (Z * Z) * W :=
  let '(l, w) := epoll_wait w (interest el) (setsize el) (epoll_timeout tvp) in
  ((λ e, (e.1, fired_mask e.2)) <$> l, w).

(** [n]: time events at most. *)
Definition aeProcessEvents (n : nat) (flags : Z) (el : aeEventLoop) (w : W) : cres (aeEventLoop * W * Z) :=
  if negb (has flags AE_TIME_EVENTS) && negb (has flags AE_FILE_EVENTS) then mret (el, w, 0) else
  '(el, w, processed) ←
    (if negb (maxfd el =? -1) || (has flags AE_TIME_EVENTS && negb (has flags AE_DONT_WAIT)) then
       (* the clock is read when there is a timer to wait for *)
       let '(now, w) :=
         match (if has flags AE_TIME_EVENTS && negb (has flags AE_DONT_WAIT) then aeSearchNearestTimer el else None) with
         | Some _ => aeGetTime w
         | None => ((0, 0), w)
         end in
       let '(fired, w) := aeApiPoll el w (poll_timeout flags el now) in
       fire_files fired el w 0
     else mret (el, w, 0));
  if has flags AE_TIME_EVENTS then
    '(el, w, k) ← processTimeEvents n el w; mret (el, w, processed + k)
  else mret (el, w, processed).

(** [rounds] of the main loop, each with [n] time events at most. *)
Fixpoint main_loop (rounds n : nat) (el : aeEventLoop) (w : W) : cres (aeEventLoop * W) :=
  match rounds with
  | O => mret (el, w)
  | S rounds =>
      if stop el then mret (el, w) else
      '(el, w) ← match beforesleep el with Some p => run_before p el w | None => mret (el, w) end;
      '(el, w, _) ← aeProcessEvents n AE_ALL_EVENTS el w;
      main_loop rounds n el w
  end.

Definition aeMain (rounds n : nat) (el : aeEventLoop) (w : W) : cres (aeEventLoop * W) :=
  main_loop rounds n (el_stop el false) w.
End Dispatch.
