(* ===== verification/EventLoopFacts.v ===== *)
(** * Facts about the event loop

    The slots, the highest descriptor and the interest set of the kernel agree after any
    registrations; how long the loop sleeps; which timers run. *)

From Stdlib Require Import ZArith Lia.
From stdpp Require Import base tactics numbers list gmap relations.
From S2P Require Import Prelude EventLoop.

Local Open Scope Z_scope.

(** ** The registered events *)

(** What the kernel should know of a slot. *)
Definition watched (fe : aeFileEvent) : option Z := if mask fe =? AE_NONE then None else Some (epoll_bits (mask fe)).

Definition watched_at (ev : list aeFileEvent) (fd : Z) : option Z :=
  if 0 <=? fd then ev !! Z.to_nat fd ≫= watched else None.

Record el_ok (el : aeEventLoop) : Prop := {
  eo_size : 0 <= setsize el /\ length (events el) = Z.to_nat (setsize el);
  eo_mask : Forall (λ fe, 0 <= mask fe) (events el);
  eo_max : maxfd el = last_used (length (events el)) (events el);
  eo_interest : forall fd, interest el !! fd = watched_at (events el) fd;
  eo_ids : NoDup (te_id <$> timeEventHead el);
  eo_next : Forall (λ te, te_id te < timeEventNextId el) (timeEventHead el);
  eo_when : Forall (λ te, 0 <= when_ms te < 1000) (timeEventHead el);
}.

(** The highest used slot below [n]. *)
Lemma last_used_spec n ev : (n <= length ev)%nat ->
  -1 <= last_used n ev < Z.of_nat n
  /\ (forall i fe, (i < n)%nat -> ev !! i = Some fe -> mask fe <> AE_NONE -> Z.of_nat i <= last_used n ev)
  /\ (last_used n ev <> -1 -> exists fe, ev !! Z.to_nat (last_used n ev) = Some fe /\ mask fe <> AE_NONE).
Proof.
  induction n as [|n IH]; intros Hn; cbn [last_used]; [split; [lia|split; [intros; lia|done]]|].
  destruct (lookup_lt_is_Some_2 ev n Hn) as [fe Efe]. rewrite nth_lookup, Efe. change (default empty_slot (Some fe)) with fe.
  destruct (Z.eqb_spec (mask fe) AE_NONE) as [E|E]; cbn [negb].
  - destruct (IH ltac:(lia)) as (H1 & H2 & H3). split; [lia|]. split; [|done]. intros i fe' Hi Ei Hm.
    destruct (decide (i = n)) as [->|]; [congruence|]. apply (H2 i fe'); [lia|done|done].
  - split; [lia|]. split; [intros; lia|]. intros _. rewrite Nat2Z.id. by exists fe.
Qed.

Lemma last_used_unique n ev x : (n <= length ev)%nat -> -1 <= x < Z.of_nat n ->
  (forall i fe, (i < n)%nat -> ev !! i = Some fe -> mask fe <> AE_NONE -> Z.of_nat i <= x) ->
  (x <> -1 -> exists fe, ev !! Z.to_nat x = Some fe /\ mask fe <> AE_NONE) -> last_used n ev = x.
Proof.
  intros Hn Hx H1 H2. destruct (last_used_spec n ev Hn) as (G1 & G2 & G3). set (y := last_used n ev) in *.
  destruct (decide (x = -1)) as [->|Nx].
  - destruct (decide (y = -1)) as [|Ny]; [done|]. destruct (G3 Ny) as (fe & E & Hm).
    specialize (H1 (Z.to_nat y) fe ltac:(lia) E Hm). lia.
  - destruct (H2 Nx) as (fe & E & Hm). specialize (G2 (Z.to_nat x) fe ltac:(lia) E Hm).
    destruct (G3 ltac:(lia)) as (fe' & E' & Hm'). specialize (H1 (Z.to_nat y) fe' ltac:(lia) E' Hm'). lia.
Qed.

Lemma slot_ok el fd : el_ok el -> 0 <= fd < setsize el -> exists fe, slot el fd = Ret fe /\ events el !! Z.to_nat fd = Some fe.
Proof.
  intros [[Hs Hl] _ _ _ _ _ _] Hfd. unfold slot. rewrite (proj2 (Z.leb_le 0 fd)) by lia. cbn [require mbind cres_bind].
  destruct (lookup_lt_is_Some_2 (events el) (Z.to_nat fd) ltac:(lia)) as [fe E]. rewrite E. by exists fe.
Qed.

(** A slot was written, with the interest set to match. *)
Lemma update_slot_ok el fd fe fe' top k : el_ok el -> 0 <= fd < setsize el -> events el !! Z.to_nat fd = Some fe ->
  top = last_used (length (events el)) (<[Z.to_nat fd := fe']> (events el)) ->
  (forall g, k !! g = if decide (g = fd) then watched fe' else interest el !! g) -> 0 <= mask fe' ->
  el_ok (el_events el top (<[Z.to_nat fd := fe']> (events el)) k).
Proof.
  intros [[Hs Hl] Hp Hm Hi Hids Hnx Hw] Hfd Efe Htop Hk Hpos. constructor; cbn [el_events setsize events maxfd interest timeEventHead timeEventNextId]; try done.
  - by rewrite length_insert.
  - by apply Forall_insert.
  - by rewrite length_insert.
  - intros g. rewrite Hk. unfold watched_at. case_decide as E.
    + subst g. rewrite (proj2 (Z.leb_le 0 fd)) by lia. by rewrite list_lookup_insert_eq by lia.
    + rewrite Hi. unfold watched_at. destruct (Z.leb_spec 0 g); [|done]. by rewrite list_lookup_insert_ne by lia.
Qed.

Lemma lor_ne_none a b : 0 <= a -> 0 < b -> Z.lor a b <> AE_NONE.
Proof. intros Ha Hb E. apply Z.lor_eq_0_iff in E. lia. Qed.

(** Registering: with the right operation the kernel takes it. *)
Lemma create_file_spec ok el fd m proc data : el_ok el -> 0 <= fd -> 0 < m ->
  exists el', aeCreateFileEvent ok el fd m proc data = Ret (el', if (fd <? setsize el) && ok then AE_OK else AE_ERR) /\ el_ok el'.
Proof.
  intros Hok Hfd Hm. unfold aeCreateFileEvent. destruct (Z.leb_spec (setsize el) fd) as [Hge|Hlt].
  { rewrite (proj2 (Z.ltb_ge fd (setsize el))) by lia. by exists el. }
  rewrite (proj2 (Z.ltb_lt fd (setsize el))) by lia. cbn [andb].
  destruct (slot_ok el fd Hok ltac:(lia)) as (fe & -> & Efe). cbn [mbind cres_bind].
  pose proof (eo_interest _ Hok fd) as Hk. unfold watched_at in Hk. rewrite (proj2 (Z.leb_le 0 fd)) in Hk by lia. rewrite Efe in Hk. cbn in Hk.
  assert (0 <= mask fe) as Hmf by (pose proof (eo_mask _ Hok) as Hpos; rewrite Forall_lookup in Hpos; by eapply Hpos).
  set (fe' := mkFE _ _ _ _).
  assert (aeApiAddEvent ok (interest el) fd (mask fe) m
    = if ok then Some (<[fd := epoll_bits (Z.lor m (mask fe))]> (interest el)) else None) as ->.
  { unfold aeApiAddEvent, epoll_add, epoll_mod, watched in *. destruct (mask fe =? AE_NONE); by rewrite Hk. }
  destruct ok; [|by exists el]. eexists. split; [done|]. apply (update_slot_ok el fd fe fe'); [done|lia|done| | |cbn; apply Z.lor_nonneg; lia].
  - symmetry. destruct (eo_size _ Hok) as [Hs Hl].
      destruct (last_used_spec (length (events el)) (events el) ltac:(lia)) as (G1 & G2 & G3). rewrite <- (eo_max _ Hok) in *.
      apply last_used_unique; [by rewrite length_insert|destruct (maxfd el <? fd); lia| |].
    + intros i x Hi Ex Hx. destruct (decide (i = Z.to_nat fd)) as [->|Hne]; [destruct (Z.ltb_spec (maxfd el) fd); lia|].
        rewrite list_lookup_insert_ne in Ex by done. specialize (G2 i x Hi Ex Hx). destruct (Z.ltb_spec (maxfd el) fd); lia.
    + intros Hne. destruct (decide (Z.to_nat (if maxfd el <? fd then fd else maxfd el) = Z.to_nat fd)) as [E|E].
      * rewrite E. exists fe'. split; [by rewrite list_lookup_insert_eq by lia|]. cbn. apply lor_ne_none; lia.
      * rewrite list_lookup_insert_ne by done. destruct (Z.ltb_spec (maxfd el) fd); [done|]. apply G3. lia.
  - intros g. case_decide as E; [subst g; rewrite lookup_insert_eq|by rewrite lookup_insert_ne].
      unfold watched, fe'. cbn [mask]. rewrite (proj2 (Z.eqb_neq _ _)) by (apply lor_ne_none; lia).
      by rewrite Z.lor_comm.
Qed.

(** Removing. *)
Lemma delete_file_spec el fd m : el_ok el -> 0 <= fd ->
  exists el', aeDeleteFileEvent el fd m = Ret el' /\ el_ok el'.
Proof.
  intros Hok Hfd. unfold aeDeleteFileEvent. destruct (Z.leb_spec (setsize el) fd) as [Hge|Hlt]; [by exists el|].
  destruct (slot_ok el fd Hok ltac:(lia)) as (fe & -> & Efe). cbn [mbind cres_bind].
  destruct (Z.eqb_spec (mask fe) AE_NONE) as [E0|E0]; [by exists el|].
  assert (0 <= mask fe) as Hmf by (pose proof (eo_mask _ Hok) as Hpos; rewrite Forall_lookup in Hpos; by eapply Hpos).
  set (new := Z.land (mask fe) (Z.lnot m)). set (fe' := mkFE new _ _ _). set (ev := <[Z.to_nat fd := fe']> (events el)).
  assert (0 <= new) as Hnew by (apply Z.land_nonneg; lia).
  pose proof (eo_interest _ Hok fd) as Hk. unfold watched_at in Hk. rewrite (proj2 (Z.leb_le 0 fd)) in Hk by lia. rewrite Efe in Hk. cbn in Hk.
  eexists. split; [done|]. apply (update_slot_ok el fd fe fe'); [done|lia|done| | |done].
  - fold ev. destruct (eo_size _ Hok) as [Hs Hl].
    destruct (last_used_spec (length (events el)) (events el) ltac:(lia)) as (G1 & G2 & G3). rewrite <- (eo_max _ Hok) in *.
    pose proof (G2 (Z.to_nat fd) fe ltac:(lia) Efe E0) as Hle. symmetry.
    assert (length ev = length (events el)) as Lev by apply length_insert.
    destruct ((fd =? maxfd el) && (new =? AE_NONE)) eqn:Ec.
    + apply andb_true_iff in Ec as [->%Z.eqb_eq Hn0%Z.eqb_eq].
      destruct (last_used_spec (Z.to_nat (maxfd el)) ev ltac:(lia)) as (K1 & K2 & K3).
      apply last_used_unique; [lia|lia| |done]. intros i x Hi Ex Hx.
      destruct (decide (i = Z.to_nat (maxfd el))) as [->|Hne].
      { unfold ev in Ex. rewrite list_lookup_insert_eq in Ex by lia. injection Ex as <-. by cbn in Hx. }
      apply (K2 i x); [|done|done]. unfold ev in Ex. rewrite list_lookup_insert_ne in Ex by done.
      specialize (G2 i x Hi Ex Hx). lia.
    + apply last_used_unique; [lia|lia| |].
      * intros i x Hi Ex Hx. destruct (decide (i = Z.to_nat fd)) as [->|Hne]; [lia|].
        unfold ev in Ex. rewrite list_lookup_insert_ne in Ex by done. by apply (G2 i x).
      * intros Hne. destruct (decide (maxfd el = fd)) as [E|E].
        -- rewrite E. exists fe'. split; [unfold ev; by rewrite list_lookup_insert_eq by lia|]. cbn.
           apply andb_false_iff in Ec as [Ec|Ec]; [by apply Z.eqb_neq in Ec|by apply Z.eqb_neq].
        -- unfold ev. rewrite list_lookup_insert_ne by lia. by apply G3.
  - intros g. unfold aeApiDelEvent. replace (Z.land new (Z.lnot m)) with new.
    2:{ unfold new. rewrite <- Z.land_assoc, Z.land_diag. done. }
    unfold watched at 1. cbn [mask fe']. unfold watched in Hk. rewrite (proj2 (Z.eqb_neq (mask fe) AE_NONE)) in Hk by done.
    destruct (Z.eqb_spec new AE_NONE) as [E|E]; cbn [negb].
    + case_decide; [subst g; by rewrite lookup_delete_eq|by rewrite lookup_delete_ne].
    + unfold epoll_mod. rewrite Hk. cbn [default]. case_decide; [subst g; by apply lookup_insert_eq|by apply lookup_insert_ne].
Qed.

Lemma resize_ok b el size : el_ok el -> 0 <= size -> el_ok (aeResizeSetSize b el size).1.
Proof.
  intros Hok Hsz. unfold aeResizeSetSize. destruct (Z.eqb_spec size (setsize el)); [done|].
  destruct (Z.leb_spec size (maxfd el)); [done|]. destruct (eo_size _ Hok) as [Hs Hl].
  destruct (last_used_spec (length (events el)) (events el) ltac:(lia)) as (G1 & G2 & G3). rewrite <- (eo_max _ Hok) in *.
  set (k := Z.to_nat (maxfd el + 1)). set (ev := take k (events el) ++ _).
  assert (forall i, (i < k)%nat -> ev !! i = events el !! i) as Hlow.
  { intros i Hi. unfold ev. rewrite lookup_app_l by (rewrite length_take; lia). by rewrite lookup_take_lt. }
  assert (forall i fe, (k <= i)%nat -> ev !! i = Some fe -> mask fe = AE_NONE) as Hhigh.
  { intros i fe Hi. unfold ev. rewrite lookup_app_r by (rewrite length_take; lia). by intros [-> _]%lookup_replicate. }
  assert (length ev = Z.to_nat size) as Lev by (unfold ev; rewrite length_app, length_take, length_replicate; lia).
  destruct Hok as [_ Hp _ Hi Hids Hnx Hw]. constructor; cbn [fst setsize events maxfd interest timeEventHead timeEventNextId]; try done.
  - apply Forall_app. split; [by apply Forall_take|]. by apply Forall_replicate.
  - symmetry. apply last_used_unique; [lia|lia| |].
    + intros i fe _ E Hm. destruct (decide (i < k)%nat) as [Hik|Hik]; [|by rewrite (Hhigh i fe) in Hm by (lia || done)]. lia.
    + intros Hne. rewrite Hlow by lia. by apply G3.
  - intros fd. rewrite Hi. unfold watched_at. destruct (Z.leb_spec 0 fd); [|done].
    destruct (decide (Z.to_nat fd < k)%nat) as [Hik|Hik]; [by rewrite Hlow|].
    assert (forall o : option aeFileEvent, (forall fe, o = Some fe -> mask fe = AE_NONE) -> o ≫= watched = None) as Hnone.
    { intros [fe|] Ho; [|done]. cbn. unfold watched. by rewrite (Ho fe eq_refl). }
    rewrite !Hnone; [done|intros fe; apply Hhigh; lia|]. intros fe E.
    destruct (decide (mask fe = AE_NONE)) as [|Hm]; [done|]. specialize (G2 (Z.to_nat fd) fe).
    pose proof (lookup_lt_Some _ _ _ E). specialize (G2 ltac:(lia) E Hm). lia.
Qed.

(** ** Timers *)

Definition clock_ok (now : Z * Z) : Prop := 0 <= now.2 < 1000.

(** A point in time in milliseconds. *)
Definition ms_of (now : Z * Z) : Z := now.1 * 1000 + now.2.

Lemma add_ms_spec now d : clock_ok now -> 0 <= d ->
  clock_ok (aeAddMillisecondsToNow now d) /\ ms_of (aeAddMillisecondsToNow now d) = ms_of now + d.
Proof.
  unfold clock_ok, ms_of, aeAddMillisecondsToNow. intros Hn Hd. destruct now as [sec ms]. cbn [fst snd] in *.
  rewrite Z.quot_div_nonneg, Z.rem_mod_nonneg by lia.
  pose proof (Z.div_mod d 1000 ltac:(lia)). pose proof (Z.mod_pos_bound d 1000 ltac:(lia)).
  destruct (Z.leb_spec 1000 (ms + d mod 1000)); cbn [fst snd]; lia.
Qed.

Lemma timers_ok el l next : el_ok el -> NoDup (te_id <$> l) -> Forall (λ te, te_id te < next) l ->
  Forall (λ te, 0 <= when_ms te < 1000) l -> forall last stop before, el_ok (mkLoop (maxfd el) (setsize el) next last (block el) (events el) l stop (interest el) before).
Proof. intros [] ? ? ? ? ? ?. by constructor. Qed.

Lemma create_time_ok now el ms proc data final : el_ok el -> clock_ok now -> 0 <= ms ->
  el_ok (aeCreateTimeEvent now el ms proc data final).1.
Proof.
  intros Hok Hn Hms. unfold aeCreateTimeEvent. pose proof (add_ms_spec now ms Hn Hms) as [Hc _].
  destruct (aeAddMillisecondsToNow now ms) as [sec m]. cbn [fst]. apply timers_ok; [done| | |].
  - cbn. apply NoDup_cons. split; [|apply Hok]. intros (te & E & Hin)%list_elem_of_fmap.
    pose proof (eo_next _ Hok) as Hx. rewrite Forall_forall in Hx. specialize (Hx te Hin). lia.
  - constructor; [cbn; lia|]. eapply Forall_impl; [apply Hok|]. cbn. lia.
  - constructor; [exact Hc|]. apply Hok.
Qed.

Lemma delete_timer_ok el i : el_ok el -> el_ok (el_timers el (delete i (timeEventHead el))).
Proof.
  intros Hok. assert (sublist (delete i (timeEventHead el)) (timeEventHead el)) as Hsub by apply sublist_delete.
  apply timers_ok; [done|..].
  - eapply sublist_NoDup; [apply Hok|]. by apply fmap_sublist.
  - by apply Forall_delete, Hok.
  - by apply Forall_delete, Hok.
Qed.

Lemma list_find_id l id i te : list_find (λ te, te_id te = id) l = Some (i, te) -> l !! i = Some te /\ te_id te = id.
Proof. intros (? & ? & _)%list_find_Some. done. Qed.

Lemma set_when_ok el id when l : el_ok el -> clock_ok when -> set_when (timeEventHead el) id when = Ret l -> el_ok (el_timers el l).
Proof.
  intros Hok Hc. unfold set_when. destruct (list_find _ _) as [[i te]|] eqn:E; [|done]. apply list_find_id in E as [Ei Eid].
  cbn [of_ptr mbind cres_bind]. intros [= <-]. apply timers_ok; [done|..].
  - rewrite list_fmap_insert. cbn. rewrite list_insert_id; [apply Hok|]. rewrite list_lookup_fmap, Ei. done.
  - apply Forall_insert; [apply Hok|]. cbn. pose proof (eo_next _ Hok) as Hx. rewrite Forall_lookup in Hx. by eapply Hx.
  - apply Forall_insert; [apply Hok|]. exact Hc.
Qed.

(** ** Every run of the loop *)

(** What code can do to the event loop. *)
Inductive ae_step (el : aeEventLoop) : aeEventLoop -> Prop :=
  | st_create_file ok el' fd m proc data r : 0 <= fd -> 0 < m -> aeCreateFileEvent ok el fd m proc data = Ret (el', r) -> ae_step el el'
  | st_delete_file el' fd m : 0 <= fd -> aeDeleteFileEvent el fd m = Ret el' -> ae_step el el'
  | st_resize b size : 0 <= size -> ae_step el (aeResizeSetSize b el size).1
  | st_create_time now ms proc data final : clock_ok now -> 0 <= ms -> ae_step el (aeCreateTimeEvent now el ms proc data final).1
  | st_unlink i : ae_step el (el_timers el (delete i (timeEventHead el)))
  | st_rearm id when l : clock_ok when -> set_when (timeEventHead el) id when = Ret l -> ae_step el (el_timers el l)
  | st_tick now : ae_step el (el_last (check_skew el now) now)
  | st_stop b : ae_step el (el_stop el b)
  | st_before p : ae_step el (aeSetBeforeSleepProc el p).

Lemma ae_step_ok el el' : ae_step el el' -> el_ok el -> el_ok el'.
Proof.
  intros [ok el1 fd m proc data r Hfd Hm E|el1 fd m Hfd E|b size Hs|now ms proc data final Hn Hms|i|id when l Hc E|now|b|p] Hok.
  - destruct (create_file_spec ok el fd m proc data Hok Hfd Hm) as (el2 & E2 & H2). rewrite E2 in E. by injection E as <- _.
  - destruct (delete_file_spec el fd m Hok Hfd) as (el2 & E2 & H2). rewrite E2 in E. by injection E as <-.
  - by apply resize_ok.
  - by apply create_time_ok.
  - by apply delete_timer_ok.
  - by eapply set_when_ok.
  - unfold check_skew. destruct (now <? lastTime el); (apply (timers_ok el); [done|..]); try apply Hok; cbn.
    + rewrite <- list_fmap_compose. apply Hok.
    + apply Forall_fmap. apply Hok.
    + apply Forall_fmap. apply Hok.
  - apply timers_ok; [done|apply Hok..].
  - apply timers_ok; [done|apply Hok..].
Qed.

Lemma ae_steps_ok el el' : rtc ae_step el el' -> el_ok el -> el_ok el'.
Proof. induction 1 as [|el1 el2 el3 H _ IH]; [done|]. intros Hok. by apply IH, (ae_step_ok el1). Qed.

(** Handlers reach the loop through its functions only; the clock counts microseconds, and a
    time handler asks for a new time or for its removal. *)
Class PoliteProcess (W : Type) `{!Process W} := {
  pp_clock w : 0 <= (gettimeofday w).1.2 < 1000000;
  pp_file p el w fd data m el' w' : run_file p el w fd data m = Ret (el', w') -> rtc ae_step el el';
  pp_time p el w id data el' w' r : run_time p el w id data = Ret (el', w', r) -> rtc ae_step el el' /\ (r = AE_NOMORE \/ 0 <= r);
  pp_final p el w data el' w' : run_final p el w data = Ret (el', w') -> rtc ae_step el el';
  pp_before p el w el' w' : run_before p el w = Ret (el', w') -> rtc ae_step el el';
}.

Section Runs.
Context {W : Type} `{!Process W} `{!PoliteProcess W}.

Lemma getTime_ok (w : W) : clock_ok (aeGetTime w).1.
Proof.
  unfold aeGetTime, clock_ok. pose proof (pp_clock w) as H. destruct (gettimeofday w) as [[sec usec] w']. cbn [fst snd] in *.
  rewrite Z.quot_div_nonneg by lia. split; [apply Z.div_pos; lia|]. apply Z.div_lt_upper_bound; lia.
Qed.

Lemma deleteTime_steps el w id el' (w' : W) r : aeDeleteTimeEvent el w id = Ret (el', w', r) -> rtc ae_step el el'.
Proof.
  unfold aeDeleteTimeEvent. destruct (list_find _ _) as [[i te]|]; [|by intros [= <- _ _]].
  destruct (finalizerProc te) as [p|].
  - destruct (run_final _ _ _ _) as [[el1 w1]| |] eqn:E; [|done..]. intros [= <- _ _].
    eapply rtc_l; [apply st_unlink|]. by eapply pp_final.
  - intros [= <- _ _]. apply rtc_once, st_unlink.
Qed.

Lemma after_steps id r el w el' (w' : W) : r = AE_NOMORE \/ 0 <= r -> after_handler id r el w = Ret (el', w') -> rtc ae_step el el'.
Proof.
  intros Hr. unfold after_handler. destruct (Z.eqb_spec r AE_NOMORE) as [Er|Er]; cbn [negb].
  - destruct (aeDeleteTimeEvent el w id) as [[[el2 w2] r2]| |] eqn:Ed; [|done..]. cbn [mbind cres_bind]. intros [= <- _].
    by eapply deleteTime_steps.
  - pose proof (getTime_ok w) as Hc. destruct (aeGetTime w) as [now w2]. cbn [fst] in Hc.
    destruct (set_when _ _ _) as [l| |] eqn:Es; [|done..]. cbn [mbind cres_bind]. intros [= <- _].
    apply rtc_once. eapply st_rearm; [|exact Es]. apply add_ms_spec; [done|lia].
Qed.

Lemma time_loop_steps n : forall maxId el w k el' (w' : W) k', time_loop n maxId el w k = Ret (el', w', k') -> rtc ae_step el el'.
Proof.
  induction n as [|n IH]; intros maxId el w k el' w' k'; cbn [time_loop]; destruct (next_due _ _ _) as [[te|] w0]; try done;
    try (by intros [= <- _ _]).
  destruct (run_time _ _ _ _ _) as [[[el1 w1] r]| |] eqn:E; [|done..]. cbn [mbind cres_bind].
  apply pp_time in E as [Hs Hr]. destruct (after_handler _ _ _ _) as [[el2 w2]| |] eqn:E2; [|done..]. cbn [mbind cres_bind].
  intros H. etrans; [exact Hs|]. etrans; [by eapply after_steps|]. by eapply IH.
Qed.

Lemma fire_files_steps fired : forall el w k el' (w' : W) k', fire_files fired el w k = Ret (el', w', k') -> rtc ae_step el el'.
Proof.
  induction fired as [|[fd m] fired IH]; intros el w k el' w' k'; cbn [fire_files]; [by intros [= <- _ _]|].
  destruct (fire_file el w fd m) as [[el1 w1]| |] eqn:E; [|done..]. cbn [mbind cres_bind]. intros H.
  etrans; [|by eapply IH]. clear IH H. revert E. unfold fire_file.
  destruct (slot el fd) as [fe| |]; [|done..]. cbn [mbind cres_bind].
  set (first := (if has _ _ then run_file _ _ _ _ _ _ else mret _) : cres (aeEventLoop * W)). destruct first as [[el2 w2]| |] eqn:E1; [|done..]. cbn [mbind cres_bind].
  assert (rtc ae_step el el2) as H1.
  { unfold first in E1. destruct (has _ _); [by eapply pp_file|by injection E1 as <- _]. }
  destruct (require _); [|done..]. cbn [mbind cres_bind]. destruct (slot el2 fd) as [fe2| |]; [|done..]. cbn [mbind cres_bind].
  destruct (_ && _); [|by intros [= <- _]]. intros H2. etrans; [exact H1|]. by eapply pp_file.
Qed.

Lemma processEvents_steps n flags el w el' (w' : W) k : aeProcessEvents n flags el w = Ret (el', w', k) -> rtc ae_step el el'.
Proof.
  unfold aeProcessEvents. destruct (_ && _); [by intros [= <- _ _]|].
  set (files := (if _ || _ then _ else mret _) : cres (aeEventLoop * W * Z)). destruct files as [[[el1 w1] k1]| |] eqn:E; [|done..]. cbn [mbind cres_bind].
  assert (rtc ae_step el el1) as H1.
  { unfold files in E. destruct (_ || _); [|by injection E as <- _ _]. destruct (match _ with Some _ => _ | None => _ end) as [now w0].
    destruct (aeApiPoll _ _ _) as [fired w2]. by eapply fire_files_steps. }
  destruct (has flags AE_TIME_EVENTS); [|by intros [= <- _ _]].
  destruct (processTimeEvents n el1 w1) as [[[el2 w2] k2]| |] eqn:E2; [|done..]. cbn [mbind cres_bind]. intros [= <- _ _].
  etrans; [exact H1|]. unfold processTimeEvents in E2. destruct (time_now w1) as [now w3].
  eapply rtc_l; [apply st_tick|]. by eapply time_loop_steps.
Qed.

Lemma main_loop_steps rounds n : forall el w el' (w' : W), main_loop rounds n el w = Ret (el', w') -> rtc ae_step el el'.
Proof.
  induction rounds as [|rounds IH]; intros el w el' w'; cbn [main_loop]; [by intros [= <- _]|].
  destruct (stop el); [by intros [= <- _]|].
  destruct (match beforesleep el with Some _ => _ | None => _ end) as [[el1 w1]| |] eqn:E; [|done..]. cbn [mbind cres_bind].
  assert (rtc ae_step el el1) as H1 by (destruct (beforesleep el); [by eapply pp_before|by injection E as <- _]).
  destruct (aeProcessEvents n _ el1 w1) as [[[el2 w2] k]| |] eqn:E2; [|done..]. cbn [mbind cres_bind]. intros H.
  etrans; [exact H1|]. etrans; [by eapply processEvents_steps|]. by eapply IH.
Qed.
End Runs.

(** A new loop. *)
Lemma created_ok now b size el : 0 <= size -> aeCreateEventLoop true now b size = Some el -> el_ok el.
Proof.
  intros Hs E0. injection E0 as <-. assert (forall k, last_used k (replicate (Z.to_nat size) empty_slot) = -1) as Hlu.
  { intros k. induction k as [|k IH]; [done|]. cbn [last_used]. rewrite nth_lookup.
    destruct (replicate _ _ !! k) as [x|] eqn:Ex; [apply lookup_replicate in Ex as [-> _]|]; exact IH. }
  constructor; cbn.
  - by rewrite length_replicate.
  - by apply Forall_replicate.
  - by rewrite Hlu.
  - intros fd. rewrite lookup_empty. unfold watched_at. destruct (0 <=? fd); [|done].
    destruct (replicate _ _ !! _) as [x|] eqn:Ex; [|done]. by apply lookup_replicate in Ex as [-> _].
  - constructor.
  - constructor.
  - constructor.
Qed.

(** [C10] The event loop and the kernel agree.  From its creation on, through every run of the
    main loop with handlers that use the functions of the loop, the interest set of the epoll
    instance is exactly what the slots say, [maxfd] is the highest descriptor in use, and the
    identifiers of the timers are distinct and below the next one; so a registration picks the
    right one of the two epoll operations and never fails for a descriptor below the size. *)
Theorem event_loop_invariant {W : Type} `{!Process W} `{!PoliteProcess W} (now b size : Z) (el0 el1 el : aeEventLoop)
    (rounds n : nat) (w w' : W) :
  0 <= size -> aeCreateEventLoop true now b size = Some el0 -> rtc ae_step el0 el1 ->
  aeMain rounds n el1 w = Ret (el, w') ->
  el_ok el /\ forall fd m proc data, 0 <= fd < setsize el -> 0 < m ->
    exists el', aeCreateFileEvent true el fd m proc data = Ret (el', AE_OK).
Proof.
  intros Hs E0 H1 Hm. assert (el_ok el) as Hok.
  { eapply ae_steps_ok; [|]. { etrans; [exact H1|]. eapply rtc_l; [apply (st_stop el1 false)|]. by eapply main_loop_steps. }
    by eapply created_ok. }
  split; [done|]. intros fd m proc data Hfd Hpos.
  destruct (create_file_spec true el fd m proc data Hok) as (el' & E & _); [lia|lia|]. exists el'.
  rewrite E. by rewrite (proj2 (Z.ltb_lt fd (setsize el))) by lia.
Qed.

(** ** How long the loop sleeps *)

Definition due (te : aeTimeEvent) : Z := ms_of (when_sec te, when_ms te).

Lemma sooner_due a b : 0 <= when_ms a < 1000 -> 0 <= when_ms b < 1000 -> sooner a b = true <-> due a < due b.
Proof. unfold sooner, due, ms_of. cbn [fst snd]. intros. rewrite orb_true_iff, andb_true_iff, !Z.ltb_lt, Z.eqb_eq. lia. Qed.

Lemma nearest_loop_spec l : forall o, Forall (λ te, 0 <= when_ms te < 1000) l ->
  (forall n, o = Some n -> 0 <= when_ms n < 1000) -> l <> [] \/ is_Some o ->
  exists te, nearest_loop o l = Some te /\ (te ∈ l \/ o = Some te) /\ 0 <= when_ms te < 1000
    /\ (forall t, t ∈ l \/ o = Some t -> due te <= due t).
Proof.
  induction l as [|x l IH]; intros o Hl Ho Hne; cbn [nearest_loop].
  - destruct Hne as [|[te ->]]; [done|]. exists te. split_and!; [done|by right|by apply Ho..|]. set_solver.
  - apply Forall_cons in Hl as [Hx Hl].
    set (o' := match o with None => Some x | Some n => if sooner x n then Some x else o end).
    assert (exists y, o' = Some y /\ (y = x \/ o = Some y) /\ 0 <= when_ms y < 1000 /\ due y <= due x
      /\ forall t, o = Some t -> due y <= due t) as (y & Ey & Hy & Hyr & Hyx & Hyo).
    { unfold o'. destruct o as [n|]; [|exists x; naive_solver lia]. pose proof (sooner_due x n Hx (Ho n eq_refl)) as Hsn.
      destruct (sooner x n) eqn:E.
      - exists x. split_and!; [done|by left|lia|lia|lia|]. intros t [= <-]. apply Z.lt_le_incl. by apply Hsn.
      - exists n. split_and!; [done|by right|by apply Ho..| |]; [|by intros t [= <-]].
        destruct (decide (due x < due n)) as [Hlt|]; [apply Hsn in Hlt; done|lia]. }
    destruct (IH o' Hl) as (te & E & Hin & Hr & Hmin).
    { intros n En. rewrite Ey in En. by injection En as <-. }
    { right. by exists y. }
    exists te. split; [done|]. split; [|split; [done|]].
    + rewrite Ey in Hin. set_solver.
    + intros t [Ht|Ht].
      * apply elem_of_cons in Ht as [->|Ht]; [|by apply Hmin; left]. etrans; [apply Hmin; right; exact Ey|done].
      * etrans; [apply Hmin; right; exact Ey|by apply Hyo].
Qed.

(** The timeout of [epoll_wait], in terms of the time [d] that is left. *)
Lemma timeout_spec el now : el_ok el -> clock_ok now -> timeEventHead el <> [] ->
  exists te, te ∈ timeEventHead el /\ (forall t, t ∈ timeEventHead el -> due te <= due t)
    /\ let d := due te - ms_of now in
       epoll_timeout (poll_timeout AE_ALL_EVENTS el now) = wrap_s32 (if 0 <=? d then d else d mod 1000).
Proof.
  intros Hok Hn Hne. destruct (nearest_loop_spec (timeEventHead el) None) as (te & E & Hin & Hr & Hmin); [apply Hok|done|by left|].
  exists te. split; [by destruct Hin|]. split; [by intros t Ht; apply Hmin; left|]. unfold poll_timeout.
  change (has AE_ALL_EVENTS AE_TIME_EVENTS && negb (has AE_ALL_EVENTS AE_DONT_WAIT)) with true. cbn match.
  unfold aeSearchNearestTimer. rewrite E. unfold clock_ok, due, ms_of in *. destruct now as [ns nm]. cbn [fst snd] in *.
  set (d := when_sec te * 1000 + when_ms te - (ns * 1000 + nm)).
  assert (exists s u, (if when_ms te <? nm then (when_sec te - ns - 1, (when_ms te + 1000 - nm) * 1000)
      else (when_sec te - ns, (when_ms te - nm) * 1000)) = (s, u * 1000) /\ 0 <= u < 1000 /\ d = s * 1000 + u) as (s & u & -> & Hu & Ed).
  { destruct (Z.ltb_spec (when_ms te) nm); eexists _, _; (split; [done|]); lia. }
  rewrite (proj2 (Z.ltb_ge (u * 1000) 0)) by lia. cbn [epoll_timeout]. rewrite Z.quot_div_nonneg, Z.div_mul by lia. f_equal.
  destruct (Z.ltb_spec s 0), (Z.leb_spec 0 d); try lia.
  replace (d mod 1000) with u; [lia|]. rewrite Ed, Z.add_comm, Z.mod_add, Z.mod_small; lia.
Qed.

(** [C29] The loop sleeps until the nearest timer.  When timers are registered, the nearest one
    is not overdue and less than 2^31 milliseconds away, the timeout of [epoll_wait] is exactly
    the time that is left until it: the loop neither wakes up early nor delays any timer. *)
Theorem sleeps_until_nearest (el : aeEventLoop) (now : Z * Z) :
  el_ok el -> clock_ok now -> timeEventHead el <> [] ->
  (forall t, t ∈ timeEventHead el -> ms_of now <= due t) -> (exists t, t ∈ timeEventHead el /\ due t < ms_of now + 2 ^ 31) ->
  exists te, te ∈ timeEventHead el /\ (forall t, t ∈ timeEventHead el -> due te <= due t)
    /\ ms_of now + epoll_timeout (poll_timeout AE_ALL_EVENTS el now) = due te.
Proof.
  intros Hok Hn Hne Hfut (t & Ht & Hlt). destruct (timeout_spec el now Hok Hn Hne) as (te & Hin & Hmin & E).
  exists te. split_and!; [done|done|]. rewrite E. pose proof (Hfut te Hin). pose proof (Hmin t Ht).
  rewrite (proj2 (Z.leb_le 0 _)) by lia. rewrite wrap_s32_id by rng. lia.
Qed.

(** An overdue timer is delayed further.  When the nearest timer is already overdue, the
    loop does not poll without waiting: negative seconds are set to 0, but the milliseconds stay
    what they are, and the loop sleeps for the rest of a second. *)
Theorem overdue_timer_sleeps (el : aeEventLoop) (now : Z * Z) (te : aeTimeEvent) :
  el_ok el -> clock_ok now -> te ∈ timeEventHead el -> (forall t, t ∈ timeEventHead el -> due te <= due t) -> due te < ms_of now ->
  epoll_timeout (poll_timeout AE_ALL_EVENTS el now) = (due te - ms_of now) mod 1000.
Proof.
  intros Hok Hn Hin Hmin Hlt. assert (timeEventHead el <> []) as Hne by (intros E; rewrite E in Hin; set_solver).
  destruct (timeout_spec el now Hok Hn Hne) as (t & Ht & Hmin' & E). rewrite E.
  assert (due t = due te) as -> by (pose proof (Hmin t Ht); pose proof (Hmin' te Hin); lia).
  rewrite (proj2 (Z.leb_gt 0 _)) by lia. pose proof (Z.mod_pos_bound (due te - ms_of now) 1000). apply wrap_s32_id. rng.
Qed.

(** ** Examples *)

(** A process whose clock stands at a number of milliseconds, and whose time handlers return
    the number that names them. *)
#[global] Instance ex_process : Process Z := {|
  time_now w := (w / 1000, w);
  gettimeofday w := ((w / 1000, w mod 1000 * 1000), w);
  epoll_wait w _ _ _ := ([], w);
  run_file _ el w _ _ _ := mret (el, w);
  run_time p el w _ _ := if (p =? AE_NOMORE) || (0 <=? p) then mret (el, w, p) else Exit;
  run_final _ el w _ := mret (el, w);
  run_before _ el w := mret (el, w);
|}.

#[global] Instance ex_polite : PoliteProcess Z.
Proof.
  constructor; cbn.
  - intros w. pose proof (Z.mod_pos_bound w 1000). lia.
  - by intros ??????? ? [= <- _].
  - intros p el w _ _ el' w' r. destruct ((p =? AE_NOMORE) || (0 <=? p)) eqn:E; [|done]. intros [= <- _ <-]. split; [done|].
    apply orb_true_iff in E as [E%Z.eqb_eq|E%Z.leb_le]; auto.
  - by intros ????? ? [= <- _].
  - by intros ???? ? [= <- _].
Qed.

(** Three timers at time 5000: one every 10 milliseconds, one that runs once, one later. *)
Definition ex_created : aeEventLoop := mkLoop (-1) 16 0 4 1 (replicate 16 empty_slot) [] false ∅ None.

Definition ex_loop : aeEventLoop :=
  let el := (aeCreateTimeEvent (4, 990) ex_created 10 10 0 None).1 in
  let el := (aeCreateTimeEvent (4, 995) el 1 AE_NOMORE 0 None).1 in
  (aeCreateTimeEvent (4, 995) el 500 20 0 None).1.

Lemma ex_created_from : aeCreateEventLoop true 4 1 16 = Some ex_created.
Proof. reflexivity. Qed.

Lemma ex_timers : timeEventHead ex_loop = [mkTE 2 5 495 20 None 0; mkTE 1 4 996 AE_NOMORE None 0; mkTE 0 5 0 10 None 0].
Proof. reflexivity. Qed.

Lemma ex_loop_steps : rtc ae_step ex_created ex_loop.
Proof.
  eapply rtc_l; [apply (st_create_time _ (4, 990) 10 10 0 None); unfold clock_ok; cbn; lia|].
  eapply rtc_l; [apply (st_create_time _ (4, 995) 1 AE_NOMORE 0 None); unfold clock_ok; cbn; lia|].
  apply rtc_once. apply (st_create_time _ (4, 995) 500 20 0 None); unfold clock_ok; cbn; lia.
Qed.

Lemma event_loop_invariant_witness :
  exists el, aeMain 1 3 ex_loop 5000 = Ret (el, 5000) /\ el_ok el
    /\ exists el', aeCreateFileEvent true el 7 AE_READABLE 1 0 = Ret (el', AE_OK).
Proof.
  destruct (aeMain 1 3 ex_loop 5000) as [[el w]| |] eqn:E.
  2, 3: exfalso; revert E; vm_compute; discriminate.
  assert (w = 5000 /\ setsize el = 16) as [-> Es] by (revert E; vm_compute; intros [= <- <-]; done).
  destruct (event_loop_invariant 4 1 16 ex_created ex_loop el 1 3 5000 5000) as [Hok Hreg].
  - lia.
  - reflexivity.
  - apply ex_loop_steps.
  - exact E.
  - exists el. split; [reflexivity|]. split; [exact Hok|]. apply Hreg; [rewrite Es; lia|reflexivity].
Defined.

Lemma ex_loop_ok : el_ok ex_loop.
Proof. eapply ae_steps_ok; [apply ex_loop_steps|]. by apply (created_ok 4 1 16). Qed.

Lemma sleeps_until_nearest_witness :
  exists te, te ∈ timeEventHead ex_loop /\ te_id te = 1
    /\ 4950 + epoll_timeout (poll_timeout AE_ALL_EVENTS ex_loop (4, 950)) = due te.
Proof.
  destruct (sleeps_until_nearest ex_loop (4, 950)) as (te & Hin & Hmin & E).
  - apply ex_loop_ok.
  - unfold clock_ok. cbn. lia.
  - discriminate.
  - apply Forall_forall. repeat (apply Forall_cons; split; [vm_compute; discriminate|]). by apply Forall_nil.
  - exists (mkTE 0 5 0 10 None 0). split; [rewrite ex_timers; set_solver|vm_compute; reflexivity].
  - exists te. split; [exact Hin|]. split; [|exact E]. rewrite ex_timers, !elem_of_cons, elem_of_nil in Hin.
    assert (due te <= 4996) as Hle by (apply (Hmin (mkTE 1 4 996 AE_NOMORE None 0)); rewrite ex_timers; set_solver).
    destruct Hin as [->|[->|[->|[]]]]; [exfalso; revert Hle; vm_compute; auto|reflexivity|exfalso; revert Hle; vm_compute; auto].
Defined.

Lemma overdue_timer_sleeps_witness : epoll_timeout (poll_timeout AE_ALL_EVENTS ex_loop (5, 0)) = 996.
Proof.
  apply (overdue_timer_sleeps ex_loop (5, 0) (mkTE 1 4 996 AE_NOMORE None 0)).
  - apply ex_loop_ok.
  - unfold clock_ok. cbn. lia.
  - rewrite ex_timers. set_solver.
  - apply Forall_forall. repeat (apply Forall_cons; split; [vm_compute; discriminate|]). by apply Forall_nil.
  - vm_compute. reflexivity.
Defined.
