(* ===== verification/Connections.v ===== *)
(** * networking.c: connections

    The life of a client of src/src/networking.c: accepting, registering with the event loop,
    the read and write handlers around the parsers of [Request] and the reply side of [Client],
    and freeing, at once or through the queue of clients to close.  The structures of the
    clients live in a store of blocks, so that a pointer to a freed client is an error; the
    lists [server.clients] and [server.clients_to_close] hold addresses.

    The handlers are the file handlers of the event loop ([EventLoop]): [server_process] is the
    instance of its interface.  The kernel is an interface of its own. *)

From Stdlib Require Import ZArith Lia.
From stdpp Require Import base tactics numbers list gmap strings.
From S2P Require Import Prelude Util Object Client Request EventLoop.

Local Open Scope Z_scope.

Definition MAX_ACCEPTS_PER_CALL : Z := 1000.
Definition PREZ_UNIX_SOCKET : Z := 2048.
Definition PREZ_EVENTLOOP_FDSET_INCR : Z := 32 + 96.

(** The functions behind the pointers of the event loop. *)
Definition p_acceptTcpHandler : Z := 1.
Definition p_acceptUnixHandler : Z := 2.
Definition p_readQueryFromClient : Z := 3.
Definition p_sendReplyToClient : Z := 4.
Definition p_serverCron : Z := 5.

(** What the handlers ask from the system: the next connection of a listening socket, given the
    descriptors that are open; the bytes that wait on a socket and what is left of them; what
    [write] returns, and whether memory is below its limit; a block, given those in use, with
    the word that its [flags] field holds; the event loop's own calls. *)
Class Kernel (K : Type) := {
  k_accept : K -> gset Z -> Z -> option Z * K;
  k_socket : K -> Z -> rres;
  k_left : K -> Z -> list bytes -> K;
  k_write : K -> Z -> (bool * list wres) * K;
  k_malloc : K -> gset Z -> (Z * Z) * K;
  k_epoll_ctl : K -> bool * K;
  k_time : K -> Z * K;
  k_clock : K -> (Z * Z) * K;
  k_epoll : K -> gmap Z Z -> Z -> Z -> list (Z * Z) * K;
}.

(** The part of [struct prezServer] that clients touch.  [blocks] holds the structures of the
    clients, [sockets] the descriptors of connections that are open; [store] is the rest of the
    server, which the commands change. *)
Record connections (St K : Type) := mkConns {
  blocks : gmap Z prezClient;
  clients : list Z;
  clients_to_close : list Z;
  current_client : option Z;
  next_client_id : Z;
  stat_numconnections : Z;
  stat_rejected_conn : Z;
  sockets : gset Z;
  store : St;
  kernel : K;
}.
Arguments mkConns {St K}.
Arguments blocks {St K}.
Arguments clients {St K}.
Arguments clients_to_close {St K}.
Arguments current_client {St K}.
Arguments next_client_id {St K}.
Arguments stat_numconnections {St K}.
Arguments stat_rejected_conn {St K}.
Arguments sockets {St K}.
Arguments store {St K}.
Arguments kernel {St K}.

Section Fields.
Context {St K : Type}.
Implicit Types s : connections St K.

Definition with_block s (a : Z) (c : prezClient) : connections St K :=
  mkConns (<[a := c]> (blocks s)) (clients s) (clients_to_close s) (current_client s) (next_client_id s)
    (stat_numconnections s) (stat_rejected_conn s) (sockets s) (store s) (kernel s).
Definition with_current s (o : option Z) : connections St K :=
  mkConns (blocks s) (clients s) (clients_to_close s) o (next_client_id s)
    (stat_numconnections s) (stat_rejected_conn s) (sockets s) (store s) (kernel s).
Definition with_to_close s (l : list Z) : connections St K :=
  mkConns (blocks s) (clients s) l (current_client s) (next_client_id s)
    (stat_numconnections s) (stat_rejected_conn s) (sockets s) (store s) (kernel s).
Definition with_sockets s (k : gset Z) : connections St K :=
  mkConns (blocks s) (clients s) (clients_to_close s) (current_client s) (next_client_id s)
    (stat_numconnections s) (stat_rejected_conn s) k (store s) (kernel s).
Definition with_store s (st : St) : connections St K :=
  mkConns (blocks s) (clients s) (clients_to_close s) (current_client s) (next_client_id s)
    (stat_numconnections s) (stat_rejected_conn s) (sockets s) st (kernel s).
Definition with_kernel s (k : K) : connections St K :=
  mkConns (blocks s) (clients s) (clients_to_close s) (current_client s) (next_client_id s)
    (stat_numconnections s) (stat_rejected_conn s) (sockets s) (store s) k.
Definition with_stats s (conns rejected : Z) : connections St K :=
  mkConns (blocks s) (clients s) (clients_to_close s) (current_client s) (next_client_id s)
    conns rejected (sockets s) (store s) (kernel s).
End Fields.

(** [listSearchKey] on a list without a match method compares the pointers. *)
Definition list_without (l : list Z) (a : Z) : option (list Z) :=
  match list_find (λ x, x = a) l with Some (i, _) => Some (delete i l) | None => None end.

Section Connections.
Context (oe : oenv) {St K : Type} `{!Kernel K}.
Context (processCommand : St -> prezClient -> cres (St * prezClient * Z)).
(** [server.maxclients] *)
Context (maxclients : Z).
Implicit Types (s : connections St K) (el : aeEventLoop).

(** ** Creating a client *)

(** All fields but [flags], which [createClient] does not set. *)
Definition new_client (fd flags : Z) : prezClient := mkClient fd flags false (mkInput [] 0 0 (-1) [] None) new_output.

(** The block is a new one and the descriptor an open one; [None]: NULL. *)
Definition createClient el s (fd : Z) : cres (aeEventLoop * connections St K * option Z) :=
  let '((a, junk), k) := k_malloc (kernel s) (dom (blocks s)) in
  let s := with_kernel s k in
  '(el, s, r) ←
    (if negb (fd =? -1) then
       let '(ok, k) := k_epoll_ctl (kernel s) in
       '(el, r) ← aeCreateFileEvent ok el fd AE_READABLE p_readQueryFromClient a;
       mret (el, with_kernel s k, r)
     else mret (el, s, AE_OK));
  if r =? AE_ERR then mret (el, with_sockets s (sockets s ∖ {[fd]}), None) else
  mret (el, mkConns (<[a := new_client fd junk]> (blocks s)) (if negb (fd =? -1) then clients s ++ [a] else clients s)
              (clients_to_close s) (current_client s) (next_client_id s + 1) (stat_numconnections s) (stat_rejected_conn s)
              (sockets s) (store s) (kernel s), Some a).

(** ** Freeing a client *)

(** [aeDeleteFileEvent] for both events, and [close]. *)
Definition close_socket el s (fd : Z) : cres (aeEventLoop * connections St K) :=
  if negb (fd =? -1) then
    el ← aeDeleteFileEvent el fd AE_READABLE;
    el ← aeDeleteFileEvent el fd AE_WRITABLE;
    mret (el, with_sockets s (sockets s ∖ {[fd]}))
  else mret (el, s).

Definition freeClient el s (a : Z) : cres (aeEventLoop * connections St K) :=
  c ← of_ptr (blocks s !! a);
  let s := if bool_decide (current_client s = Some a) then with_current s None else s in
  '(el, s) ← close_socket el s (fd c);
  l ← (if negb (fd c =? -1) then match list_without (clients s) a with Some l => mret l | None => Exit end else mret (clients s));
  q ← (if has_flag c PREZ_CLOSE_ASAP
       then match list_without (clients_to_close s) a with Some q => mret q | None => Exit end
       else mret (clients_to_close s));
  mret (el, mkConns (delete a (blocks s)) l q (current_client s) (next_client_id s) (stat_numconnections s)
              (stat_rejected_conn s) (sockets s) (store s) (kernel s)).

(** [freeClientAsync] on the structure at [a]. *)
Definition freeClientAsync_at s (a : Z) : cres (connections St K) :=
  c ← of_ptr (blocks s !! a);
  mret (if has_flag c PREZ_CLOSE_ASAP then s
        else with_to_close (with_block s a (freeClientAsync c)) (clients_to_close s ++ [a])).

Definition clear_flag (c : prezClient) (f : Z) : prezClient :=
  mkClient (fd c) (Z.land (flags c) (Z.lnot f)) (to_close c) (inp c) (out c).

(** One round for every element of the queue; [listDelNode] removes the node that was first. *)
Fixpoint free_queue (n : nat) el s : cres (aeEventLoop * connections St K) :=
  match clients_to_close s with
  | [] => mret (el, s)
  | a :: _ =>
      match n with
      | O => Undef
      | S n =>
          c ← of_ptr (blocks s !! a);
          '(el, s) ← freeClient el (with_block s a (clear_flag c PREZ_CLOSE_ASAP)) a;
          match clients_to_close s with
          | x :: q => if bool_decide (x = a) then free_queue n el (with_to_close s q) else Undef
          | [] => Undef
          end
      end
  end.

Definition freeClientsInAsyncFreeQueue el s : cres (aeEventLoop * connections St K) :=
  free_queue (length (clients_to_close s)) el s.

(** ** Accepting *)

(** The error message to a client too many is written without looking at the result. *)
Definition acceptCommonHandler el s (fd flags : Z) : cres (aeEventLoop * connections St K) :=
  '(el, s, o) ← createClient el s fd;
  match o with
  | None => mret (el, with_sockets s (sockets s ∖ {[fd]}))
  | Some a =>
      if maxclients <? Z.of_nat (length (clients s)) then
        freeClient el (with_stats s (stat_numconnections s) (stat_rejected_conn s + 1)) a
      else
        let s := with_stats s (stat_numconnections s + 1) (stat_rejected_conn s) in
        c ← of_ptr (blocks s !! a);
        mret (el, with_block s a (set_flag c flags))
  end.

(** [while (max--)]: [n] connections at most; [accept] returns an error when none waits. *)
Fixpoint accept_loop (n : nat) (flags fd : Z) el s : cres (aeEventLoop * connections St K) :=
  match n with
  | O => mret (el, s)
  | S n =>
      let '(o, k) := k_accept (kernel s) (sockets s) fd in
      let s := with_kernel s k in
      match o with
      | None => mret (el, s)
      | Some cfd =>
          '(el, s) ← acceptCommonHandler el (with_sockets s ({[cfd]} ∪ sockets s)) cfd flags;
          accept_loop n flags fd el s
      end
  end.

Definition acceptTcpHandler el s (fd : Z) : cres (aeEventLoop * connections St K) :=
  accept_loop (Z.to_nat MAX_ACCEPTS_PER_CALL) 0 fd el s.

Definition acceptUnixHandler el s (fd : Z) : cres (aeEventLoop * connections St K) :=
  accept_loop (Z.to_nat MAX_ACCEPTS_PER_CALL) PREZ_UNIX_SOCKET fd el s.

(** ** The handlers of a connection *)

(** What the reply functions did to the event loop and to the queue, besides the client:
    [prepareClientToWrite] installs the write handler, [freeClientAsync] puts the client in the
    queue, both at most once. *)
Definition settle el s (a : Z) (c c' : prezClient) : cres (aeEventLoop * connections St K) :=
  el ← (if writable (out c') && negb (writable (out c)) then
          '(el, _) ← aeCreateFileEvent (event_ok oe) el (fd c) AE_WRITABLE p_sendReplyToClient a; mret el
        else mret el);
  let s := if to_close c' && negb (to_close c) then with_to_close s (clients_to_close s ++ [a]) else s in
  mret (el, with_block s a c').

(** [readQueryFromClient] with the client at [a]. *)
Definition read_handler el s (fd a : Z) : cres (aeEventLoop * connections St K) :=
  c ← of_ptr (blocks s !! a);
  let s := with_current s (Some a) in
  '(st, oc, segs) ← readQueryFromClient oe processCommand (store s) c (k_socket (kernel s) fd);
  let s := with_kernel (with_store s st) (k_left (kernel s) fd segs) in
  match oc with
  | None => freeClient el s a
  | Some c' => '(el, s) ← settle el s a c c'; mret (el, with_current s None)
  end.

(** [sendReplyToClient] with the client at [a]: the write handler is removed when everything
    was sent. *)
Definition write_handler el s (fd_ a : Z) : cres (aeEventLoop * connections St K) :=
  c ← of_ptr (blocks s !! a);
  let '((mem_ok, ws), k) := k_write (kernel s) fd_ in
  let s := with_kernel s k in
  '(oc, _) ← sendReplyToClient mem_ok ws c;
  match oc with
  | None => freeClient el s a
  | Some c' =>
      el ← (if negb (bool_decide (buf (out c') = []) && bool_decide (reply (out c') = [])) then mret el
            else aeDeleteFileEvent el (fd c) AE_WRITABLE);
      mret (el, with_block s a c')
  end.

(** The handler a pointer stands for. *)
Definition run_handler (p : Z) el s (fd data : Z) : cres (aeEventLoop * connections St K) :=
  if p =? p_acceptTcpHandler then acceptTcpHandler el s fd
  else if p =? p_acceptUnixHandler then acceptUnixHandler el s fd
  else if p =? p_readQueryFromClient then read_handler el s fd data
  else if p =? p_sendReplyToClient then write_handler el s fd data
  else Undef.

(** The server as the process around the event loop; [cron] is its only time event. *)
Context (cron : aeEventLoop -> connections St K -> cres (aeEventLoop * connections St K * Z)).

Definition server_process : Process (connections St K) := {|
  time_now s := let '(t, k) := k_time (kernel s) in (t, with_kernel s k);
  gettimeofday s := let '(t, k) := k_clock (kernel s) in (t, with_kernel s k);
  epoll_wait s interest size timeout := let '(l, k) := k_epoll (kernel s) interest size timeout in (l, with_kernel s k);
  run_file p el s fd data m := run_handler p el s fd data;
  run_time p el s id data := cron el s;
  run_final p el s data := mret (el, s);
  run_before p el s := mret (el, s);
|}.

(** ** Start *)

(** The listening sockets, each with its handler: an error ends the server. *)
Fixpoint listen_events (l : list (Z * Z)) el : cres aeEventLoop :=
  match l with
  | [] => mret el
  | (fd, p) :: l =>
      '(el, r) ← aeCreateFileEvent true el fd AE_READABLE p 0;
      if r =? AE_ERR then Exit else listen_events l el
  end.

(** The part of [initServer] that sets up the lists and the event loop; [b] is the address of
    the slots, [ipfd] and [sofd] are the sockets that listen, [sofd] negative when there is
    none. *)
Definition initServer_events (now : Z) (clock : Z * Z) (b : Z) (st : St) (k : K) (ipfd : list Z) (sofd : Z)
    : cres (aeEventLoop * connections St K) :=
  el ← of_ptr (aeCreateEventLoop true now b (maxclients + PREZ_EVENTLOOP_FDSET_INCR));
  let s := mkConns ∅ [] [] None 1 0 0 ∅ st k in
  if bool_decide (ipfd = []) && (sofd <? 0) then Exit else
  let '(el, _) := aeCreateTimeEvent clock el 1 p_serverCron 0 None in
  el ← listen_events ((λ fd, (fd, p_acceptTcpHandler)) <$> ipfd) el;
  el ← listen_events (if 0 <? sofd then [(sofd, p_acceptUnixHandler)] else []) el;
  mret (el, s).
End Connections.
