(* ===== verification/ConnectionsFacts.v ===== *)
(** * networking.c: connections, their invariant

    The lists of clients, their structures, their descriptors and the event loop agree,
    whatever the kernel reports: no handler runs with a freed client, no assertion fails, no
    descriptor is lost, and the limit on the number of clients holds. *)

From Stdlib Require Import ZArith Lia.
From stdpp Require Import base tactics numbers list gmap strings.
From S2P Require Import Prelude Util Libc Object Client Request ParserSafety EventLoop EventLoopFacts Connections.

Local Open Scope Z_scope.

(** ** Slots of the event loop *)

Lemma create_file_events ok el fd m p d fe : el_ok el -> 0 <= fd < setsize el -> 0 < m -> events el !! Z.to_nat fd = Some fe ->
  exists el', aeCreateFileEvent ok el fd m p d = Ret (el', if ok then AE_OK else AE_ERR)
    /\ el_ok el' /\ setsize el' = setsize el /\ block el' = block el
    /\ events el' = if ok then <[Z.to_nat fd := mkFE (Z.lor (mask fe) m) (if has m AE_READABLE then p else rfileProc fe)
         (if has m AE_WRITABLE then p else wfileProc fe) d]> (events el) else events el.
Proof.
  intros Hok Hfd Hm Efe. destruct (create_file_spec ok el fd m p d Hok) as (el' & E & Hok'); [lia|lia|].
  rewrite (proj2 (Z.ltb_lt fd (setsize el))) in E by lia. cbn [andb] in E. exists el'. split; [done|]. split; [done|].
  revert E. unfold aeCreateFileEvent. rewrite (proj2 (Z.leb_gt (setsize el) fd)) by lia.
  unfold slot. rewrite (proj2 (Z.leb_le 0 fd)) by lia. cbn [require mbind cres_bind]. rewrite Efe. cbn [of_ptr mbind cres_bind].
  destruct (aeApiAddEvent _ _ _ _ _) as [k|]; destruct ok; intros E; try discriminate E; injection E as <-; done.
Qed.

Lemma delete_file_events el fd m fe : el_ok el -> 0 <= fd < setsize el -> events el !! Z.to_nat fd = Some fe ->
  exists el', aeDeleteFileEvent el fd m = Ret el' /\ el_ok el' /\ setsize el' = setsize el /\ block el' = block el
    /\ events el' = <[Z.to_nat fd := mkFE (Z.land (mask fe) (Z.lnot m)) (rfileProc fe) (wfileProc fe) (fe_clientData fe)]> (events el).
Proof.
  intros Hok Hfd Efe. destruct (delete_file_spec el fd m Hok) as (el' & E & Hok'); [lia|]. exists el'. split; [done|]. split; [done|].
  revert E. unfold aeDeleteFileEvent. rewrite (proj2 (Z.leb_gt (setsize el) fd)) by lia.
  unfold slot. rewrite (proj2 (Z.leb_le 0 fd)) by lia. cbn [require mbind cres_bind]. rewrite Efe. cbn [of_ptr mbind cres_bind].
  destruct (Z.eqb_spec (mask fe) AE_NONE) as [E0|E0]; intros [= <-]; (split; [done|]); (split; [done|]); [|done].
  rewrite list_insert_id; [done|]. rewrite Efe. f_equal. destruct fe as [m0 r w d]. cbn in *. by subst m0.
Qed.

Lemma list_without_spec l a : NoDup l -> a ∈ l ->
  exists l', list_without l a = Some l' /\ NoDup l' /\ S (length l') = length l /\ forall x, x ∈ l' <-> x ∈ l /\ x <> a.
Proof.
  intros Hnd Ha. unfold list_without. destruct (list_find _ l) as [[i y]|] eqn:E.
  - apply list_find_Some in E as (Ei & -> & _). exists (delete i l). split; [done|].
    pose proof (delete_Permutation _ _ _ Ei) as Hp. assert (NoDup (a :: delete i l)) as Hn by (by rewrite <- Hp).
    apply NoDup_cons in Hn as [Hn1 Hn2]. split; [done|]. split; [by rewrite (Permutation_length Hp)|].
    intros x. assert (x ∈ l <-> x ∈ a :: delete i l) as -> by (by rewrite <- Hp). rewrite elem_of_cons. split; [|naive_solver]. intros Hx. split; [by right|]. by intros ->.
  - apply list_find_None in E. rewrite Forall_forall in E. by destruct (E a Ha).
Qed.

Lemma list_without_none l a : a ∉ l -> list_without l a = None.
Proof.
  intros Ha. unfold list_without. destruct (list_find _ l) as [[i y]|] eqn:E; [|done].
  apply list_find_Some in E as (Ei & -> & _). by destruct Ha; eapply list_elem_of_lookup_2.
Qed.

(** ** The invariant *)

(** The command layer with the state of the server and of each client apart: [Sinv n] and
    [Cinv n] hold as long as [n] more requests can be run. *)
Class SharedExecutor {St : Type} (processCommand : St -> prezClient -> cres (St * prezClient * Z))
    (Sinv : nat -> St -> Prop) (Cinv : nat -> prezClient -> Prop) : Prop := {
  sx_total :: TotalExecutor processCommand (λ n s c, Sinv n s /\ Cinv n c);
  sx_fewer n s : Sinv (S n) s -> Sinv n s;
  sx_client_fewer n c : Cinv (S n) c -> Cinv n c;
  sx_new n s fd flags : Sinv n s -> 0 < fd -> Z.land flags (Z.lor PREZ_BLOCKED PREZ_CLOSE_AFTER_REPLY) = 0 -> Cinv n (new_client fd flags);
  sx_sent n c o : Cinv n c -> out_ok o -> sumZ weight (reply o) <= sumZ weight (reply (out c)) -> Cinv n (set_out c o);
}.

(** The flags [createClient] finds in the block: none that the server looks at. *)
Definition calm_flags (f : Z) : Prop := Z.land f (Z.lor (Z.lor PREZ_BLOCKED PREZ_CLOSE_AFTER_REPLY) PREZ_CLOSE_ASAP) = 0.

(** What the kernel and the allocator promise: a connection gets a descriptor that is not in
    use, and not 0; a block is not one in use, and its old content does not matter. *)
Class KernelOk (K : Type) `{!Kernel K} (listening : gmap Z Z) : Prop := {
  kl_accept (k : K) used lfd fd k' : k_accept k used lfd = (Some fd, k') -> 0 < fd /\ fd ∉ used /\ listening !! fd = None;
  kl_malloc (k : K) used a junk k' : k_malloc k used = ((a, junk), k') -> a ∉ used /\ calm_flags junk;
}.

(** The most requests one read can complete. *)
Definition turn : nat := Z.to_nat (client_max_querybuf_len + PREZ_IOBUF_LEN).

Section Invariant.
Context (oe : oenv) (Hoe : oenv_ok oe).
Context {St K : Type} `{!Kernel K} (listening : gmap Z Z) `{!KernelOk K listening}.
Context (Hlisten : forall fd p, listening !! fd = Some p -> p = p_acceptTcpHandler \/ p = p_acceptUnixHandler).
Context (processCommand : St -> prezClient -> cres (St * prezClient * Z)).
Context (Sinv : nat -> St -> Prop) (Cinv : nat -> prezClient -> Prop) `{!SharedExecutor processCommand Sinv Cinv}.
Context (maxclients : Z).
Implicit Types (s : connections St K) (el : aeEventLoop).

(** A client that [n] more reads can be done for. *)
Definition live (n : nat) (c : prezClient) : Prop :=
  qlen c <= client_max_querybuf_len
  /\ (bulklen (inp c) = -1 /\ closing c /\ has_flag c PREZ_BLOCKED = false /\ out_ok (out c)
      \/ Cinv (n * turn) c /\ parsing c /\ (closing c -> bulklen (inp c) = -1)
          /\ (bulklen (inp c) <> -1 -> qlen c < bulklen (inp c) + 2)).

(** The slot of the descriptor of the client [c] at [a]. *)
Definition registered (el : aeEventLoop) (a : Z) (c : prezClient) : Prop :=
  0 < fd c < setsize el /\
  exists w, events el !! Z.to_nat (fd c) =
      Some (mkFE (if writable (out c) then Z.lor AE_READABLE AE_WRITABLE else AE_READABLE) p_readQueryFromClient w a)
    /\ (writable (out c) = true -> w = p_sendReplyToClient).

(** A used slot belongs to a socket that listens or to a client. *)
Definition accounted s (i : nat) (fe : aeFileEvent) : Prop :=
  mask fe <> AE_NONE ->
  (exists p, listening !! Z.of_nat i = Some p /\ mask fe = AE_READABLE /\ rfileProc fe = p)
  \/ (exists a c, blocks s !! a = Some c /\ fd c = Z.of_nat i).

Record conn_ok (n : nat) el s : Prop := {
  co_el : el_ok el;
  co_store : Sinv (n * turn) (store s);
  co_live a c : blocks s !! a = Some c -> live n c;
  co_slot a c : blocks s !! a = Some c -> registered el a c;
  co_flag a c : blocks s !! a = Some c -> has_flag c PREZ_CLOSE_ASAP = to_close c;
  co_clients : NoDup (clients s) /\ forall a, a ∈ clients s <-> is_Some (blocks s !! a);
  co_queue : NoDup (clients_to_close s) /\ forall a, a ∈ clients_to_close s <-> exists c, blocks s !! a = Some c /\ to_close c = true;
  co_used i fe : events el !! i = Some fe -> accounted s i fe;
  co_sockets x : x ∈ sockets s <-> exists a c, blocks s !! a = Some c /\ fd c = x;
  co_apart a c : blocks s !! a = Some c -> listening !! fd c = None;
}.

(** Two clients with the same descriptor are the same. *)
Lemma same_fd n el s a b c d : conn_ok n el s -> blocks s !! a = Some c -> blocks s !! b = Some d -> fd c = fd d -> a = b.
Proof using Type.
  intros H Ha Hb E. destruct (co_slot _ _ _ H a c Ha) as (_ & w & E1 & _), (co_slot _ _ _ H b d Hb) as (_ & w' & E2 & _).
  rewrite E in E1. rewrite E1 in E2. by injection E2.
Qed.

Lemma Sinv_le n m st : (m <= n)%nat -> Sinv n st -> Sinv m st.
Proof. induction 1 as [|n _ IH]; [done|]. intros H. by apply IH, sx_fewer. Qed.

Lemma Cinv_le n m c : (m <= n)%nat -> Cinv n c -> Cinv m c.
Proof. induction 1 as [|n _ IH]; [done|]. intros H. by apply IH, sx_client_fewer. Qed.

Lemma live_fewer n c : live (S n) c -> live n c.
Proof. intros (Hq & [H|(H & ? & ?)]); (split; [done|]); [by left|right]. split; [|done]. eapply Cinv_le; [|exact H]. cbn. lia. Qed.

Lemma conn_fewer n el s : conn_ok (S n) el s -> conn_ok n el s.
Proof.
  intros []. constructor; try done; [|intros a c Ha; by eapply live_fewer, co_live0]. eapply Sinv_le; [|done]. cbn. lia.
Qed.

(** Fields the invariant does not read. *)
Lemma conn_same n el s s' : blocks s' = blocks s -> clients s' = clients s -> clients_to_close s' = clients_to_close s ->
  sockets s' = sockets s -> Sinv (n * turn) (store s') -> conn_ok n el s -> conn_ok n el s'.
Proof.
  intros E1 E2 E3 E4 E5 []. constructor; rewrite ?E1, ?E2, ?E3, ?E4; try done.
  intros i fe Hi Hm. rewrite E1. by apply (co_used0 i fe).
Qed.
(** ** Steps *)

(** The structure of one client changes, with its slot and its place in the queue. *)
Lemma update_ok n el s el' s' a c c' : conn_ok n el s -> blocks s !! a = Some c -> fd c' = fd c ->
  live n c' -> has_flag c' PREZ_CLOSE_ASAP = to_close c' ->
  el_ok el' -> setsize el' = setsize el -> registered el' a c' ->
  (forall i, i <> Z.to_nat (fd c) -> events el' !! i = events el !! i) ->
  NoDup (clients_to_close s') -> (forall x, x ∈ clients_to_close s' <-> x <> a /\ x ∈ clients_to_close s \/ x = a /\ to_close c' = true) ->
  blocks s' = <[a := c']> (blocks s) -> clients s' = clients s -> sockets s' = sockets s -> Sinv (n * turn) (store s') ->
  conn_ok n el' s'.
Proof.
  intros H Ha Efd Hl Hf Hel Hsz Hreg Hev Hnd Hq Eb Ec Es HS.
  assert (forall b d, blocks s' !! b = Some d -> b = a /\ d = c' \/ b <> a /\ blocks s !! b = Some d) as Hb.
  { intros b d. rewrite Eb. destruct (decide (b = a)) as [->|Hne]; [rewrite lookup_insert_eq|rewrite lookup_insert_ne by done]; naive_solver. }
  assert (forall b d, blocks s !! b = Some d -> exists d', blocks s' !! b = Some d' /\ fd d' = fd d) as Hb2.
  { intros b d Hd. rewrite Eb. destruct (decide (b = a)) as [->|Hne]; [rewrite lookup_insert_eq|rewrite lookup_insert_ne by done]; [|by exists d].
    exists c'. split; [done|]. rewrite Efd. congruence. }
  constructor; try done.
  - intros b d [[-> ->]|[_ Hd]]%Hb; [done|]. by apply (co_live _ _ _ H b).
  - intros b d [[-> ->]|[Hne Hd]]%Hb; [done|]. destruct (co_slot _ _ _ H b d Hd) as (Hr & w & Ew & Hw). split; [by rewrite Hsz|].
    exists w. split; [|done]. rewrite Hev; [done|]. intros E. apply Hne. apply (same_fd n el s b a d c H Hd Ha).
    pose proof (co_slot _ _ _ H a c Ha) as [? _]. lia.
  - intros b d [[-> ->]|[_ Hd]]%Hb; [done|]. by apply (co_flag _ _ _ H b).
  - rewrite Ec. split; [apply H|]. intros b. rewrite (proj2 (co_clients _ _ _ H) b), Eb.
    destruct (decide (b = a)) as [->|Hne]; [rewrite lookup_insert_eq, Ha|by rewrite lookup_insert_ne by done]. split; intros _; by eexists.
  - split; [done|]. intros x. rewrite Hq, (proj2 (co_queue _ _ _ H) x), Eb. destruct (decide (x = a)) as [->|Hne].
    + rewrite lookup_insert_eq. naive_solver.
    + rewrite lookup_insert_ne by done. naive_solver.
  - intros i fe Hi Hm. destruct (decide (i = Z.to_nat (fd c))) as [->|Hne].
    + right. exists a, c'. rewrite Eb, lookup_insert_eq. split; [done|]. pose proof (co_slot _ _ _ H a c Ha) as [? _]. lia.
    + rewrite Hev in Hi by done. destruct (co_used _ _ _ H i fe Hi Hm) as [Hli|(b & d & Hd & Ed)]; [by left|right].
      destruct (Hb2 b d Hd) as (d' & ? & ?). exists b, d'. split; [done|congruence].
  - intros x. rewrite Es, (co_sockets _ _ _ H x). split.
    + intros (b & d & Hd & <-). destruct (Hb2 b d Hd) as (d' & ? & ?). by exists b, d'.
    + intros (b & d & [[-> ->]|[_ Hd]]%Hb & <-); [exists a, c; by rewrite Efd|by exists b, d].
  - intros b d [[-> ->]|[_ Hd]]%Hb; [rewrite Efd; by apply (co_apart _ _ _ H a)|by apply (co_apart _ _ _ H b)].
Qed.

Lemma close_socket_ok el s x r w a m : el_ok el -> 0 < x < setsize el -> events el !! Z.to_nat x = Some (mkFE m r w a) ->
  m = AE_READABLE \/ m = Z.lor AE_READABLE AE_WRITABLE ->
  exists el', close_socket el s x = Ret (el', with_sockets s (sockets s ∖ {[x]})) /\ el_ok el' /\ setsize el' = setsize el
    /\ block el' = block el /\ events el' = <[Z.to_nat x := mkFE AE_NONE r w a]> (events el).
Proof.
  intros Hok Hx Ev Hm. unfold close_socket. rewrite (proj2 (Z.eqb_neq x (-1))) by lia. cbn [negb].
  destruct (delete_file_events el x AE_READABLE _ Hok ltac:(lia) Ev) as (el1 & -> & Hok1 & S1 & B1 & E1). cbn [mbind cres_bind].
  pose proof (lookup_lt_Some _ _ _ Ev) as Hlt.
  assert (events el1 !! Z.to_nat x = Some (mkFE (Z.land m (Z.lnot AE_READABLE)) r w a)) as Ev1 by (rewrite E1; by apply list_lookup_insert_eq).
  destruct (delete_file_events el1 x AE_WRITABLE _ Hok1 ltac:(lia) Ev1) as (el2 & -> & Hok2 & S2 & B2 & E2). cbn [mbind cres_bind].
  exists el2. split; [done|]. split_and!; [done|congruence|congruence|]. rewrite E2, E1, list_insert_insert_eq. cbn [mask rfileProc wfileProc fe_clientData].
  do 2 f_equal. by destruct Hm as [->| ->].
Qed.

(** Freeing a client of the list. *)
Lemma freeClient_ok n el s a c : conn_ok n el s -> blocks s !! a = Some c ->
  exists el' s', freeClient el s a = Ret (el', s') /\ conn_ok n el' s' /\ setsize el' = setsize el /\ block el' = block el
    /\ blocks s' = delete a (blocks s) /\ S (length (clients s')) = length (clients s) /\ store s' = store s
    /\ current_client s' = (if bool_decide (current_client s = Some a) then None else current_client s)
    /\ (forall x, x ∈ clients_to_close s' <-> x ∈ clients_to_close s /\ x <> a)
    /\ (to_close c = false -> clients_to_close s' = clients_to_close s).
Proof using Type.
  intros H Ha. destruct (co_slot _ _ _ H a c Ha) as (Hr & w & Ew & _). unfold freeClient. rewrite Ha. cbn [of_ptr mbind cres_bind].
  set (s0 := if bool_decide _ then _ else s).
  destruct (close_socket_ok el s0 (fd c) _ w a _ (co_el _ _ _ H) Hr Ew ltac:(destruct (writable (out c)); auto)) as (el' & -> & Hok & Hsz & Hbl & Hev).
  cbn [mbind cres_bind]. rewrite (proj2 (Z.eqb_neq (fd c) (-1))) by lia. cbn [negb].
  assert (clients (with_sockets s0 (sockets s0 ∖ {[fd c]})) = clients s /\ clients_to_close (with_sockets s0 (sockets s0 ∖ {[fd c]})) = clients_to_close s
    /\ blocks s0 = blocks s /\ sockets s0 = sockets s /\ store s0 = store s /\ current_client s0 = (if bool_decide (current_client s = Some a) then None else current_client s))
    as (-> & -> & Eb & Es & Est & Ecur) by (unfold s0; by destruct (bool_decide _)).
  destruct (co_clients _ _ _ H) as [Nc Hc], (co_queue _ _ _ H) as [Nq Hq].
  destruct (list_without_spec (clients s) a Nc) as (l & -> & Nl & Ll & Hl); [apply Hc; by eexists|]. cbn [mbind cres_bind].
  assert (exists q, (if has_flag c PREZ_CLOSE_ASAP then match list_without (clients_to_close s) a with Some q => mret q | None => Exit end
      else mret (clients_to_close s)) = Ret q /\ NoDup q /\ (forall x, x ∈ q <-> x ∈ clients_to_close s /\ x <> a)
      /\ (to_close c = false -> q = clients_to_close s)) as (q & -> & Nq' & Hq' & Hsame).
  { rewrite (co_flag _ _ _ H a c Ha). destruct (to_close c) eqn:Et.
    - destruct (list_without_spec (clients_to_close s) a Nq) as (q & -> & Nq' & _ & Hq'); [apply Hq; by exists c|]. by exists q.
    - exists (clients_to_close s). split_and!; try done. intros x. split; [|by intros []]. intros Hx. split; [done|]. intros ->.
      apply Hq in Hx as (d & Hd & Hd'). congruence. }
  cbn [mbind cres_bind]. eexists el', _. split; [done|].
  cbn [with_sockets blocks clients clients_to_close current_client sockets store kernel next_client_id stat_numconnections stat_rejected_conn].
  rewrite Eb, Es, Est.
  split; [|cbn; split_and!; try done; lia].
  assert (forall b d, b <> a -> blocks s !! b = Some d -> fd d <> fd c) as Hne.
  { intros b d Hb Hd E. apply Hb. by apply (same_fd n el s b a d c H Hd Ha). }
  constructor; cbn [blocks clients clients_to_close sockets store]; try done.
  - apply H.
  - intros b d [_ Hd]%lookup_delete_Some. by apply (co_live _ _ _ H b).
  - intros b d [Hb Hd]%lookup_delete_Some. destruct (co_slot _ _ _ H b d Hd) as (Hr' & w' & Ew' & Hw'). split; [by rewrite Hsz|].
    exists w'. split; [|done]. rewrite Hev, list_lookup_insert_ne; [done|]. specialize (Hne b d ltac:(done) Hd). lia.
  - intros b d [_ Hd]%lookup_delete_Some. by apply (co_flag _ _ _ H b).
  - split; [done|]. intros b. rewrite Hl, Hc. split.
    + intros [[d Hd] Hb]. exists d. by rewrite lookup_delete_ne.
    + intros [d [Hb Hd]%lookup_delete_Some]. split; [by exists d|done].
  - split; [done|]. intros x. rewrite Hq', Hq. split.
    + intros [(d & Hd & Ht) Hx]. exists d. by rewrite lookup_delete_ne.
    + intros (d & [Hx Hd]%lookup_delete_Some & Ht). split; [by exists d|done].
  - intros i fe Hi Hm. rewrite Hev in Hi. destruct (decide (i = Z.to_nat (fd c))) as [->|Hni].
    + rewrite list_lookup_insert_eq in Hi by (by eapply lookup_lt_Some). injection Hi as <-. by cbn in Hm.
    + rewrite list_lookup_insert_ne in Hi by done. destruct (co_used _ _ _ H i fe Hi Hm) as [Hli|(b & d & Hd & Ed)]; [by left|right].
      exists b, d. cbn. split; [|done]. rewrite lookup_delete_ne; [done|]. intros <-. apply Hni. assert (d = c) as -> by congruence. lia.
  - intros x. rewrite elem_of_difference, (co_sockets _ _ _ H x), elem_of_singleton. split.
    + intros [(b & d & Hd & <-) Hx]. exists b, d. split; [|done]. rewrite lookup_delete_ne; [done|]. intros <-. apply Hx. congruence.
    + intros (b & d & [Hb Hd]%lookup_delete_Some & <-). split; [by exists b, d|]. by apply (Hne b d).
  - intros b d [_ Hd]%lookup_delete_Some. by apply (co_apart _ _ _ H b).
Qed.
(** What the reply functions install and queue. *)
Lemma settle_ok n el s a c c' : conn_ok n el s -> blocks s !! a = Some c -> kept c c' -> live n c' ->
  exists el' s', settle oe el s a c c' = Ret (el', s') /\ conn_ok n el' s' /\ setsize el' = setsize el /\ block el' = block el
    /\ clients s' = clients s.
Proof.
  intros H Ha [Kf Kw Kq Kg] Hl. destruct (co_slot _ _ _ H a c Ha) as (Hr & w & Ew & Hw). pose proof (lookup_lt_Some _ _ _ Ew) as Hlt.
  assert (exists el', (if writable (out c') && negb (writable (out c)) then
      '(el, _) ← aeCreateFileEvent (event_ok oe) el (fd c) AE_WRITABLE p_sendReplyToClient a; mret el else mret el) = Ret el'
    /\ el_ok el' /\ setsize el' = setsize el /\ block el' = block el /\ registered el' a c'
    /\ (forall i, i <> Z.to_nat (fd c) -> events el' !! i = events el !! i)) as (el' & E & Hok & Hsz & Hbl & Hreg & Hev).
  { unfold registered. rewrite Kf. destruct (writable (out c')) eqn:W', (writable (out c)) eqn:W; cbn [andb negb].
    - exists el. split_and!; try done; try lia; [apply H|]. by exists w.
    - destruct (create_file_events (event_ok oe) el (fd c) AE_WRITABLE p_sendReplyToClient a _ (co_el _ _ _ H) ltac:(lia) ltac:(done) Ew)
        as (el' & -> & Hok & Hsz & Hbl & Hev). rewrite (oe_event _ Hoe) in *. cbn [mbind cres_bind]. exists el'. split_and!; try done; try lia.
      + eexists. split; [rewrite Hev; by apply list_lookup_insert_eq|]. done.
      + intros i Hi. rewrite Hev. by apply list_lookup_insert_ne.
    - by specialize (Kw eq_refl).
    - exists el. split_and!; try done; try lia; [apply H|]. by exists w. }
  unfold settle. rewrite E. cbn [mbind cres_bind]. eexists el', _. split; [done|].
  clear E. split; [|split_and!; [done|done|by destruct (_ && _)]].
  apply (update_ok n el s el' _ a c c' H Ha Kf Hl); try done.
  - apply Kg. by apply (co_flag _ _ _ H a).
  - destruct (to_close c' && negb (to_close c)) eqn:Et; cbn; [|apply H]. apply NoDup_app. split; [apply H|]. split; [|apply NoDup_singleton].
    intros x Hx ->%list_elem_of_singleton. apply (co_queue _ _ _ H) in Hx as (d & Hd & Hd').
    assert (d = c) as -> by congruence. rewrite Hd' in Et. by rewrite andb_false_r in Et.
  - intros x. pose proof (proj2 (co_queue _ _ _ H) x) as Hx. destruct (to_close c') eqn:Et', (to_close c) eqn:Et; cbn [andb negb];
      cbn [with_to_close with_block clients_to_close].
    + rewrite Hx. destruct (decide (x = a)) as [->|]; naive_solver.
    + rewrite elem_of_app, list_elem_of_singleton, Hx. destruct (decide (x = a)) as [->|]; naive_solver.
    + by specialize (Kq eq_refl).
    + rewrite Hx. destruct (decide (x = a)) as [->|]; naive_solver.
  - by destruct (_ && _).
  - by destruct (_ && _).
  - by destruct (_ && _).
  - destruct (_ && _); apply H.
Qed.

Lemma live_settled n (st : St) c : live (S n) c -> Sinv (S n * turn) st -> forall k, (k <= Z.to_nat PREZ_IOBUF_LEN)%nat ->
  settled (λ n (st : St) c, Sinv n st /\ Cinv n c) (k + n * turn) st c.
Proof.
  intros (Hq & [H|(HC & Hp)]) HS k Hk; [by left|right]. split; [|done].
  assert (length (querybuf (inp c)) + (k + n * turn) <= S n * turn)%nat as Hle.
  { unfold qlen, turn in *. unfold client_max_querybuf_len, PREZ_IOBUF_LEN in *. cbn [Nat.mul]. lia. }
  split; [by eapply Sinv_le|by eapply Cinv_le].
Qed.

Lemma settled_live n (st : St) c : settled (λ n (st : St) c, Sinv n st /\ Cinv n c) (n * turn) st c -> qlen c <= client_max_querybuf_len -> live n c.
Proof.
  intros [H|([_ HC] & Hp)] Hq; (split; [done|]); [by left|right]. split; [|done]. eapply Cinv_le; [|exact HC]. lia.
Qed.

(** The read handler, whatever the socket holds. *)
Lemma read_handler_ok n el s a c x : conn_ok (S n) el s -> blocks s !! a = Some c ->
  exists el' s', read_handler oe processCommand el s x a = Ret (el', s') /\ conn_ok n el' s' /\ setsize el' = setsize el
    /\ block el' = block el /\ current_client s' = None /\ (length (clients s') <= length (clients s))%nat.
Proof.
  intros H Ha. pose proof (co_live _ _ _ H a c Ha) as Hl. pose proof (co_store _ _ _ H) as HS. unfold read_handler. rewrite Ha. cbn [of_ptr mbind cres_bind].
  cbn [with_current store kernel].
  assert (exists st oc segs, readQueryFromClient oe processCommand (store s) c (k_socket (kernel s) x) = Ret (st, oc, segs)
    /\ Sinv (n * turn) st /\ forall c', oc = Some c' -> live n c' /\ kept c c') as (st & oc & segs & -> & HS' & Hoc).
  { assert (Sinv (n * turn) (store s)) as HS0 by (eapply Sinv_le; [|exact HS]; cbn; lia).
    assert (live n c /\ kept c c) as Hc by (split; [by apply live_fewer|done]).
    destruct (k_socket (kernel s) x) as [segs| |]; [|by exists (store s), None, []..].
    destruct (sock_read (Z.to_nat (query_readlen c)) segs) as [[b segs']|] eqn:Er.
    2:{ exists (store s), (Some c), segs. cbn [readQueryFromClient]. rewrite Er. split_and!; [done|done|by intros ? [= <-]]. }
    destruct (decide (b = [])) as [->|Hb].
    { exists (store s), (Some c), segs. cbn [readQueryFromClient]. rewrite Er. split_and!; [done|done|by intros ? [= <-]]. }
    assert (length b <= Z.to_nat PREZ_IOBUF_LEN)%nat as Hlb.
    { pose proof (readlen_bounds _ _ _ _ (live_settled n (store s) c Hl HS 0 ltac:(lia))).
      destruct segs as [|sg segs]; [done|]. cbn [sock_read] in Er. injection Er as <- _. rewrite length_take. lia. }
    destruct (read_step oe Hoe processCommand (λ n (st : St) c, Sinv n st /\ Cinv n c) Sinv sx_fewer) with (m := (n * turn)%nat) (s := store s) (c := c)
      (segs := segs) (b := b) (segs' := segs') as (st & oc & E & HP & Hoc); [|done|done|by apply live_settled| |].
    - intros m s1 c1 s2 c2 HI _ Hav E. destruct (te_run (processCommand := processCommand) m s1 c1 HI Hav) as (s3 & c3 & E3 & [HS3 _] & _).
      rewrite E3 in E. by injection E as -> _.
    - eapply Sinv_le; [|exact HS]. destruct Hl as [Hq _]. unfold qlen, turn, client_max_querybuf_len, PREZ_IOBUF_LEN in *. cbn [Nat.mul]. lia.
    - exists st, oc, segs'. split_and!; [done|done|]. intros c' Ec. destruct (Hoc c' Ec) as (H1 & H2 & H3). split; [|done]. by eapply settled_live. }
  cbn [mbind cres_bind]. set (s1 := with_kernel _ _).
  assert (conn_ok n el s1) as H1 by (apply (conn_same n el s); [done..|by apply conn_fewer]).
  destruct oc as [c'|].
  - destruct (Hoc c' eq_refl) as [Hl' Hk]. destruct (settle_ok n el s1 a c c' H1 Ha Hk Hl') as (el' & s' & -> & H' & ? & ? & Ec).
    cbn [mbind cres_bind]. eexists el', _. split; [done|]. split; [apply (conn_same n el' s'); [done..|apply H'|done]|].
    split_and!; try done. cbn. by rewrite Ec.
  - destruct (freeClient_ok n el s1 a c H1 Ha) as (el' & s' & -> & H' & ? & ? & ? & Hlen & ? & Hcur & _). eexists el', s'.
    split_and!; try done; [|cbn in Hlen; lia]. rewrite Hcur. cbn. by rewrite bool_decide_eq_true_2.
Qed.
Lemma live_out n (st : St) c : Sinv (n * turn) st -> live n c -> out_ok (out c).
Proof. intros HS (_ & [(_ & _ & _ & H)|(HC & _)]); [done|]. by eapply (te_out (processCommand := processCommand) (n * turn) st c). Qed.

(** What [sendReplyToClient] leaves of a client it does not free. *)
Lemma send_total mem ws c : out_ok (out c) ->
  exists oc t, sendReplyToClient mem ws c = Ret (oc, t) /\
    forall c', oc = Some c' -> exists o, c' = set_out c o /\ out_ok o /\ sumZ weight (reply o) <= sumZ weight (reply (out c))
      /\ writable o = negb (bool_decide (buf o = []) && bool_decide (reply o = [])) && writable (out c).
Proof.
  intros O. unfold sendReplyToClient.
  destruct (send_loop_spec mem (S (length ws + length (reply (out c)))) (out c) [] ws O) as (o & t & err & -> & Hs); [lia|].
  cbn [mbind cres_bind app]. destruct err; [by exists None, t|]. destruct Hs as [O' P' R' W' _].
  assert (bool_decide (buf o = []) && bool_decide (reply o = []) = false ->
    exists oc t0, mret (Some (set_out c o), t) = Ret (oc, t0) /\
      forall c', oc = Some c' -> exists o, c' = set_out c o /\ out_ok o /\ sumZ weight (reply o) <= sumZ weight (reply (out c))
        /\ writable o = negb (bool_decide (buf o = []) && bool_decide (reply o = [])) && writable (out c)) as Hrest.
  { intros E. eexists (Some _), t. split; [done|]. intros ? [= <-]. exists o. rewrite E. by split_and!. }
  destruct (_ && _) eqn:E; [|by apply Hrest]. apply andb_true_iff in E as [Eb%bool_decide_eq_true Er%bool_decide_eq_true].
  destruct (has_flag c _); [by exists None, t|]. eexists (Some _), t. split; [done|]. intros ? [= <-]. eexists. split; [done|]. cbn.
  split_and!; [|by rewrite Er in R'|done]. pose proof (oo_bytes _ O') as Hb. rewrite Er in Hb. constructor; cbn; try done; [by left|by intros [?|?]].
Qed.

Lemma write_handler_ok n el s a c x : conn_ok n el s -> blocks s !! a = Some c ->
  exists el' s', write_handler el s x a = Ret (el', s') /\ conn_ok n el' s' /\ setsize el' = setsize el
    /\ block el' = block el /\ (current_client s = None -> current_client s' = None) /\ (length (clients s') <= length (clients s))%nat.
Proof.
  intros H Ha. pose proof (co_live _ _ _ H a c Ha) as Hl. pose proof (live_out _ _ _ (co_store _ _ _ H) Hl) as Ho.
  destruct (co_slot _ _ _ H a c Ha) as (Hr & w & Ew & Hw). pose proof (lookup_lt_Some _ _ _ Ew) as Hlt.
  unfold write_handler. rewrite Ha. cbn [of_ptr mbind cres_bind]. destruct (k_write (kernel s) x) as [[mem ws] k]. set (s1 := with_kernel s k).
  assert (conn_ok n el s1) as H1 by (apply (conn_same n el s); [done..|apply H|done]).
  destruct (send_total mem ws c Ho) as (oc & t & -> & Hoc). cbn [mbind cres_bind]. destruct oc as [c'|].
  2:{ destruct (freeClient_ok n el s1 a c H1 Ha) as (el' & s' & -> & H' & ? & ? & ? & Hlen & ? & Hcur & _). eexists el', s'.
      split_and!; try done; [|cbn in Hlen; lia]. intros Hc. rewrite Hcur. change (current_client s1) with (current_client s).
      rewrite Hc. by destruct (bool_decide _). }
  destruct (Hoc c' eq_refl) as (o & -> & Oo & Hsum & Ew'). cbn [out set_out].
  assert (exists el', (if negb (bool_decide (buf o = []) && bool_decide (reply o = [])) then mret el
      else aeDeleteFileEvent el (fd c) AE_WRITABLE) = Ret el'
    /\ el_ok el' /\ setsize el' = setsize el /\ block el' = block el /\ registered el' a (set_out c o)
    /\ (forall i, i <> Z.to_nat (fd c) -> events el' !! i = events el !! i)) as (el' & -> & Hok & Hsz & Hbl & Hreg & Hev).
  { unfold registered. cbn [fd out set_out]. rewrite Ew'. destruct (negb _); cbn [andb].
    - exists el. split_and!; try done; try lia; [apply H|]. by exists w.
    - destruct (delete_file_events el (fd c) AE_WRITABLE _ (co_el _ _ _ H) ltac:(lia) Ew) as (el' & -> & Hok & Hsz & Hbl & Hev).
      exists el'. split_and!; try done; try lia.
      + exists w. split; [|done]. rewrite Hev, list_lookup_insert_eq by done. by destruct (writable (out c)).
      + intros i Hi. rewrite Hev. by apply list_lookup_insert_ne. }
  cbn [mbind cres_bind]. eexists el', _. split; [done|]. split; [|split_and!; done].
  apply (update_ok n el s el' _ a c (set_out c o) H Ha); try done.
  - destruct Hl as (Hq & [(? & ? & ? & ?)|(HC & Hp)]); (split; [done|]); [by left|right]. split; [by apply (sx_sent (processCommand := processCommand) (Sinv := Sinv))|].
    destruct Hp as (Hp & ? & ?). split; [destruct Hp; by constructor|]. by split.
  - exact (co_flag _ _ _ H a c Ha).
  - apply H.
  - intros x'. cbn. rewrite (proj2 (co_queue _ _ _ H) x'). destruct (decide (x' = a)) as [->|]; naive_solver.
  - apply H.
Qed.
(** Fields of the event loop the invariant does not read. *)
Lemma conn_el n el el' s : el_ok el' -> setsize el' = setsize el -> events el' = events el -> conn_ok n el s -> conn_ok n el' s.
Proof.
  intros H1 H2 H3 []. constructor; try done.
  - intros a c Ha. destruct (co_slot0 a c Ha) as [? ?]. unfold registered. by rewrite H2, H3.
  - intros i fe. rewrite H3. apply co_used0.
Qed.

Lemma calm_split f : calm_flags f -> Z.land f (Z.lor PREZ_BLOCKED PREZ_CLOSE_AFTER_REPLY) = 0 /\ Z.land f PREZ_CLOSE_ASAP = 0.
Proof. unfold calm_flags. rewrite Z.land_lor_distr_r. by intros ?%Z.lor_eq_0_iff. Qed.

Lemma live_new n (st : St) x f : Sinv (n * turn) st -> 0 < x -> calm_flags f -> live n (new_client x f).
Proof.
  intros HS Hx [Hf _]%calm_split. split; [unfold qlen, client_max_querybuf_len; cbn; lia|]. right. split; [by eapply (sx_new (processCommand := processCommand))|].
  split_and!; [|done|done]. constructor; cbn; try done; auto.
Qed.

(** A client is added. *)
Lemma add_ok n el s el' s' a x f : conn_ok n el s -> 0 < x < setsize el -> x ∉ sockets s -> listening !! x = None -> calm_flags f ->
  blocks s !! a = None -> el_ok el' -> setsize el' = setsize el ->
  (exists w, events el' = <[Z.to_nat x := mkFE AE_READABLE p_readQueryFromClient w a]> (events el)) ->
  blocks s' = <[a := new_client x f]> (blocks s) -> clients s' = clients s ++ [a] -> clients_to_close s' = clients_to_close s ->
  sockets s' = {[x]} ∪ sockets s -> store s' = store s -> conn_ok n el' s'.
Proof.
  intros H Hx Hxs Hxl Hf Ha Hok Hsz (w & Hev) Eb Ec Eq Es Est. destruct (eo_size _ (co_el _ _ _ H)) as [_ Hlen].
  assert (forall b d, blocks s' !! b = Some d -> b = a /\ d = new_client x f \/ b <> a /\ blocks s !! b = Some d) as Hb.
  { intros b d. rewrite Eb. destruct (decide (b = a)) as [->|Hne]; [rewrite lookup_insert_eq|rewrite lookup_insert_ne by done]; naive_solver. }
  assert (forall b d, blocks s !! b = Some d -> blocks s' !! b = Some d) as Hb2.
  { intros b d Hd. rewrite Eb, lookup_insert_ne; [done|]. by intros <-; rewrite Ha in Hd. }
  assert (forall b d, blocks s !! b = Some d -> fd d <> x) as Hfd.
  { intros b d Hd E. apply Hxs, (co_sockets _ _ _ H). by exists b, d. }
  constructor; try done.
  - rewrite Est. apply H.
  - intros b d [[-> ->]|[_ Hd]]%Hb; [|by apply (co_live _ _ _ H b)]. apply (live_new n (store s)); [apply H|lia|done].
  - intros b d [[-> ->]|[_ Hd]]%Hb.
    + split; [cbn; lia|]. exists w. split; [|done]. rewrite Hev. apply list_lookup_insert_eq. lia.
    + destruct (co_slot _ _ _ H b d Hd) as (Hr & w' & Ew & Hw). split; [by rewrite Hsz|]. exists w'. split; [|done].
      rewrite Hev, list_lookup_insert_ne; [done|]. specialize (Hfd b d Hd). lia.
  - intros b d [[-> ->]|[_ Hd]]%Hb; [|by apply (co_flag _ _ _ H b)]. apply calm_split in Hf as [_ Hf]. unfold has_flag. cbn [flags new_client]. by rewrite Hf.
  - rewrite Ec. destruct (co_clients _ _ _ H) as [Hnd Hc]. split.
    + apply NoDup_app. split; [done|]. split; [|apply NoDup_singleton]. intros y Hy ->%list_elem_of_singleton. apply Hc in Hy as [d Hd]. by rewrite Ha in Hd.
    + intros b. rewrite elem_of_app, list_elem_of_singleton, Hc, Eb. destruct (decide (b = a)) as [->|Hne].
      * rewrite lookup_insert_eq. split; [by eexists|by right].
      * rewrite lookup_insert_ne by done. naive_solver.
  - rewrite Eq. split; [apply H|]. intros y. rewrite (proj2 (co_queue _ _ _ H) y). split.
    + intros (d & Hd & Ht). exists d. split; [by apply Hb2|done].
    + intros (d & [[-> ->]|[_ Hd]]%Hb & Ht); [done|by exists d].
  - intros i fe Hi Hm. rewrite Hev in Hi. destruct (decide (i = Z.to_nat x)) as [->|Hne].
    + right. exists a, (new_client x f). rewrite Eb, lookup_insert_eq. split; [done|]. cbn. lia.
    + rewrite list_lookup_insert_ne in Hi by done. destruct (co_used _ _ _ H i fe Hi Hm) as [Hli|(b & d & Hd & Ed)]; [by left|right].
      exists b, d. split; [by apply Hb2|done].
  - intros y. rewrite Es, elem_of_union, elem_of_singleton, (co_sockets _ _ _ H y). split.
    + intros [->|(b & d & Hd & <-)]; [exists a, (new_client x f); by rewrite Eb, lookup_insert_eq|exists b, d; split; [by apply Hb2|done]].
    + intros (b & d & [[-> ->]|[_ Hd]]%Hb & <-); [by left|right; by exists b, d].
  - intros b d [[-> ->]|[_ Hd]]%Hb; [done|by apply (co_apart _ _ _ H b)].
Qed.

(** A descriptor that is not in use has an empty slot. *)
Lemma free_slot n el s x fe : conn_ok n el s -> 0 < x -> x ∉ sockets s -> listening !! x = None ->
  events el !! Z.to_nat x = Some fe -> mask fe = AE_NONE.
Proof using Type.
  intros H Hx Hxs Hxl Efe. destruct (decide (mask fe = AE_NONE)) as [|Hm]; [done|].
  destruct (co_used _ _ _ H _ fe Efe Hm) as [(p & Hp & _)|(b & d & Hd & Ed)].
  - rewrite Z2Nat.id in Hp by lia. by rewrite Hxl in Hp.
  - destruct Hxs. apply (co_sockets _ _ _ H). exists b, d. split; [done|lia].
Qed.

Lemma acceptCommonHandler_ok n el s x f : conn_ok n el s -> 0 < x -> x ∉ sockets s -> listening !! x = None ->
  f = 0 \/ f = PREZ_UNIX_SOCKET -> Z.of_nat (length (clients s)) <= maxclients ->
  exists el' s', acceptCommonHandler maxclients el (with_sockets s ({[x]} ∪ sockets s)) x f = Ret (el', s') /\ conn_ok n el' s'
    /\ setsize el' = setsize el /\ block el' = block el /\ (current_client s = None -> current_client s' = None)
    /\ Z.of_nat (length (clients s')) <= maxclients.
Proof.
  intros H Hx Hxs Hxl Hf Hmax. unfold acceptCommonHandler, createClient. cbn [with_sockets kernel blocks].
  destruct (k_malloc (kernel s) (dom (blocks s))) as [[a junk] k] eqn:Em. apply kl_malloc in Em as [Ha%not_elem_of_dom Hj].
  rewrite (proj2 (Z.eqb_neq x (-1))) by lia. cbn [negb with_kernel kernel]. destruct (k_epoll_ctl k) as [ok k'].
  set (s1 := with_kernel (with_kernel (with_sockets s ({[x]} ∪ sockets s)) k) k').
  assert (exists el' r, aeCreateFileEvent ok el x AE_READABLE p_readQueryFromClient a = Ret (el', r) /\ el_ok el' /\ setsize el' = setsize el
    /\ block el' = block el /\ (r = AE_ERR /\ events el' = events el
      \/ r = AE_OK /\ x < setsize el /\ exists w, events el' = <[Z.to_nat x := mkFE AE_READABLE p_readQueryFromClient w a]> (events el)))
    as (el' & r & -> & Hok & Hsz & Hbl & Hr).
  { destruct (Z.leb_spec (setsize el) x) as [Hge|Hlt].
    { exists el, AE_ERR. unfold aeCreateFileEvent. rewrite (proj2 (Z.leb_le _ _)) by done. split_and!; try done; [apply H|by left]. }
    destruct (slot_ok el x (co_el _ _ _ H) ltac:(lia)) as (fe & _ & Efe).
    assert (mask fe = AE_NONE) as Hm by (eapply free_slot; (done || lia)).
    destruct (create_file_events ok el x AE_READABLE p_readQueryFromClient a fe (co_el _ _ _ H) ltac:(lia) ltac:(done) Efe)
      as (el' & E & Hok & Hsz & Hbl & Hev). rewrite Hm in Hev. exists el', (if ok then AE_OK else AE_ERR). split_and!; try done.
    destruct ok; [right|by left]. split_and!; [done|done|]. by eexists. }
  cbn [mbind cres_bind mret cres_ret]. destruct Hr as [[-> Hev]|(-> & Hlt & Hev)].
  - change (AE_ERR =? AE_ERR) with true. cbn match. cbn [mbind cres_bind mret cres_ret]. eexists el', _. split; [done|].
    split; [|by split_and!]. apply (conn_el n el); [done..|]. apply (conn_same n el s); [done..| |apply H|done]. cbn. set_solver.
  - change (AE_OK =? AE_ERR) with false. cbn match. cbn [mbind cres_bind mret cres_ret].
    set (s2 := mkConns _ _ _ _ _ _ _ _ _ _).
    assert (conn_ok n el' s2) as H2 by (by apply (add_ok n el s el' s2 a x junk)).
    assert (blocks s2 !! a = Some (new_client x junk)) as Ha2 by apply lookup_insert_eq.
    assert (length (clients s2) = S (length (clients s))) as Hlen by (cbn; rewrite length_app; cbn; lia).
    destruct (Z.ltb_spec maxclients (Z.of_nat (length (clients s2)))) as [Hbig|Hsmall].
    + set (s3 := with_stats s2 _ _). assert (conn_ok n el' s3) as H3 by (apply (conn_same n el' s2); [done..|apply H2|done]).
      destruct (freeClient_ok n el' s3 a (new_client x junk) H3 Ha2) as (el3 & s4 & -> & H4 & S4 & B4 & _ & L4 & _ & C4 & _).
      exists el3, s4. split_and!; [done|done|congruence|congruence| |change (clients s3) with (clients s2) in L4; lia].
      intros Hc. rewrite C4. change (current_client s3) with (current_client s). rewrite Hc. by destruct (bool_decide _).
    + set (s3 := with_stats s2 _ _). change (blocks s3) with (blocks s2). rewrite Ha2. cbn [of_ptr mbind cres_bind]. eexists el', _. split; [done|].
      split; [|split_and!; try done; cbn [clients with_block s3 with_stats]; lia].
      assert (calm_flags (Z.lor junk f)) as Hj' by (unfold calm_flags in *; rewrite Z.land_lor_distr_l, Hj; by destruct Hf as [->| ->]).
      apply (update_ok n el' s2 el' _ a (new_client x junk) (set_flag (new_client x junk) f) H2 Ha2); try done.
      * apply (live_new n (store s) x (Z.lor junk f)); [apply H|done|done].
      * apply calm_split in Hj' as [_ Hj']. unfold has_flag. cbn [flags set_flag new_client]. by rewrite Hj'.
      * exact (co_slot _ _ _ H2 a _ Ha2).
      * apply H2.
      * intros y. cbn. rewrite (proj2 (co_queue _ _ _ H) y). destruct (decide (y = a)) as [->|]; [|naive_solver]. rewrite Ha. naive_solver.
      * apply H2.
Qed.

Lemma accept_loop_ok m f x : f = 0 \/ f = PREZ_UNIX_SOCKET -> forall n el s, conn_ok n el s -> Z.of_nat (length (clients s)) <= maxclients ->
  exists el' s', accept_loop maxclients m f x el s = Ret (el', s') /\ conn_ok n el' s'
    /\ setsize el' = setsize el /\ block el' = block el /\ (current_client s = None -> current_client s' = None)
    /\ Z.of_nat (length (clients s')) <= maxclients.
Proof.
  intros Hf. induction m as [|m IH]; intros n el s H Hmax; cbn [accept_loop]; [by exists el, s|].
  destruct (k_accept (kernel s) (sockets s) x) as [[y|] k] eqn:Ek.
  2:{ eexists el, _. split; [done|]. split; [|done]. apply (conn_same n el s); [done..|apply H|done]. }
  apply kl_accept in Ek as (Hy & Hys & Hyl). set (s1 := with_kernel s k).
  assert (conn_ok n el s1) as H1 by (apply (conn_same n el s); [done..|apply H|done]).
  destruct (acceptCommonHandler_ok n el s1 y f H1 Hy Hys Hyl Hf Hmax) as (el2 & s2 & -> & H2 & S2 & B2 & C2 & M2). cbn [mbind cres_bind].
  destruct (IH n el2 s2 H2 M2) as (el3 & s3 & -> & H3 & S3 & B3 & C3 & M3). exists el3, s3. split_and!; try done; [congruence|congruence|].
  intros Hc. apply C3, C2, Hc.
Qed.
(** ** Clients to be closed *)

Lemma clear_has_flag c f : has_flag (clear_flag c f) f = false.
Proof. unfold has_flag, clear_flag. cbn [flags]. rewrite <- Z.land_assoc, (Z.land_comm (Z.lnot f)), Z.land_lnot_diag. by rewrite Z.land_0_r. Qed.

(** Without the flag, the queue is left alone. *)
Lemma free_cleared el s a c el' s' : blocks s !! a = Some c -> freeClient el s a = Ret (el', s') ->
  freeClient el (with_block s a (clear_flag c PREZ_CLOSE_ASAP)) a = Ret (el', with_to_close s' (clients_to_close s)).
Proof using Type.
  intros Ha. unfold freeClient. rewrite Ha. cbn [with_block blocks current_client]. rewrite lookup_insert_eq. cbn [of_ptr mbind cres_bind]. cbn [fd clear_flag].
  rewrite clear_has_flag. unfold close_socket. set (s0 := if bool_decide _ then with_current s None else s).
  set (s1 := if bool_decide _ then _ else with_block s a _).
  assert (s1 = with_block s0 a (clear_flag c PREZ_CLOSE_ASAP) /\ clients_to_close s0 = clients_to_close s) as [-> Eq] by (unfold s0, s1; by destruct (bool_decide _)).
  clearbody s0. rewrite <- Eq. destruct (negb (fd c =? -1)).
  - destruct (aeDeleteFileEvent el _ _) as [el1| |]; [|done..]. cbn [mbind cres_bind]. destruct (aeDeleteFileEvent el1 _ _) as [el2| |]; [|done..].
    cbn [mbind cres_bind mret cres_ret with_sockets with_block clients]. destruct (list_without (clients s0) a) as [l|]; [|done]. cbn [mbind cres_bind].
    destruct (if has_flag c _ then _ else _) as [q| |]; [|done..]. cbn [mbind cres_bind]. intros [= <- <-]. cbn. by rewrite delete_insert_eq.
  - cbn [mbind cres_bind mret cres_ret with_block clients]. destruct (if has_flag c _ then _ else _) as [q| |]; [|done..].
    cbn [mbind cres_bind]. intros [= <- <-]. cbn. by rewrite delete_insert_eq.
Qed.

Lemma free_queue_ok m : forall n el s, conn_ok n el s -> length (clients_to_close s) = m ->
  exists el' s', free_queue m el s = Ret (el', s') /\ conn_ok n el' s' /\ clients_to_close s' = []
    /\ forall a, blocks s' !! a = if decide (a ∈ clients_to_close s) then None else blocks s !! a.
Proof using Type.
  induction m as [|m IH]; intros n el s H Hm; cbn [free_queue].
  { destruct (clients_to_close s) eqn:E; [|done]. by exists el, s. }
  destruct (clients_to_close s) as [|a q] eqn:E; [done|]. destruct (co_queue _ _ _ H) as [Hnd Hq]. rewrite E in Hnd.
  destruct (proj1 (Hq a)) as (c & Ha & Ht); [rewrite E; by left|]. rewrite Ha. cbn [of_ptr mbind cres_bind].
  destruct (freeClient_ok n el s a c H Ha) as (el1 & s1 & E1 & H1 & _ & _ & Eb & _ & _ & _ & Hq1 & _). rewrite (free_cleared el s a c el1 s1 Ha E1).
  cbn [mbind cres_bind with_to_close clients_to_close]. rewrite E. rewrite bool_decide_eq_true_2 by done.
  apply NoDup_cons in Hnd as [Hna Hnq].
  set (s2 := with_to_close _ q). assert (conn_ok n el1 s2) as H2.
  { destruct H1. constructor; try done. split; [done|]. intros x. cbn. rewrite <- (proj2 co_queue0 x), Hq1, E, elem_of_cons. naive_solver. }
  destruct (IH n el1 s2 H2) as (el3 & s3 & -> & H3 & E3 & Hs3); [cbn in *; lia|]. exists el3, s3. split_and!; try done.
  intros x. rewrite Hs3. change (blocks s2) with (blocks s1). rewrite Eb. change (clients_to_close s2) with q.
  destruct (decide (x = a)) as [->|Hne].
  - rewrite lookup_delete_eq, (decide_True (P := a ∈ a :: q)) by (by left). by destruct (decide _).
  - rewrite lookup_delete_ne by done. destruct (decide (x ∈ q)) as [Hx|Hx]; [rewrite (decide_True (P := x ∈ a :: q))|rewrite (decide_False (P := x ∈ a :: q))]; try done.
    + by right.
    + by intros [?|?]%elem_of_cons.
Qed.
(** ** Dispatch *)

Context (cron : aeEventLoop -> connections St K -> cres (aeEventLoop * connections St K * Z)).
Local Notation proc := (server_process oe processCommand maxclients cron).

Lemma not_writable m : has (Z.land AE_READABLE m) AE_WRITABLE = false.
Proof. unfold has. rewrite (Z.land_comm AE_READABLE m), <- Z.land_assoc. change (Z.land AE_READABLE AE_WRITABLE) with 0. by rewrite Z.land_0_r. Qed.

Lemma has_used x m bit : has (Z.land x m) bit = true -> x <> AE_NONE.
Proof. by intros H ->. Qed.

(** The handler for reading, of any slot that is registered for it. *)
Lemma first_handler_ok n el s x fe m : conn_ok (S n) el s -> current_client s = None -> Z.of_nat (length (clients s)) <= maxclients ->
  0 <= x -> events el !! Z.to_nat x = Some fe ->
  exists el' s', (if has (Z.land (mask fe) m) AE_READABLE then run_handler oe processCommand maxclients (rfileProc fe) el s x (fe_clientData fe) else mret (el, s))
      = Ret (el', s') /\ conn_ok n el' s' /\ setsize el' = setsize el /\ block el' = block el /\ current_client s' = None
    /\ Z.of_nat (length (clients s')) <= maxclients.
Proof.
  intros H Hc Hmax Hx Efe. destruct (has _ AE_READABLE) eqn:Eh; [|exists el, s; split_and!; try done; by apply conn_fewer].
  apply has_used in Eh. destruct (co_used _ _ _ H _ fe Efe Eh) as [(p & Hp & _ & ->)|(a & c & Ha & Ec)].
  - assert (exists f, (f = 0 \/ f = PREZ_UNIX_SOCKET) /\ run_handler oe processCommand maxclients p el s x (fe_clientData fe)
      = accept_loop maxclients (Z.to_nat MAX_ACCEPTS_PER_CALL) f x el s) as (f & Hf & ->).
    { destruct (Hlisten _ _ Hp) as [->| ->]; [exists 0|exists PREZ_UNIX_SOCKET]; split; auto. }
    destruct (accept_loop_ok (Z.to_nat MAX_ACCEPTS_PER_CALL) f x Hf n el s) as (el' & s' & -> & ? & ? & ? & ? & ?); [by apply conn_fewer|done|].
    exists el', s'. split_and!; auto.
  - destruct (co_slot _ _ _ H a c Ha) as (Hr & w & Ew & _). replace (Z.to_nat (fd c)) with (Z.to_nat x) in Ew by lia. rewrite Efe in Ew. injection Ew as ->.
    cbn [rfileProc fe_clientData]. change (run_handler oe processCommand maxclients p_readQueryFromClient el s x a) with (read_handler oe processCommand el s x a).
    destruct (read_handler_ok n el s a c x H Ha) as (el' & s' & -> & ? & ? & ? & ? & ?). exists el', s'. split_and!; try done. lia.
Qed.

Lemma fire_file_ok n el s x m : conn_ok (S n) el s -> current_client s = None -> Z.of_nat (length (clients s)) <= maxclients ->
  0 <= x < setsize el ->
  exists el' s', @fire_file _ proc el s x m = Ret (el', s') /\ conn_ok n el' s' /\ setsize el' = setsize el /\ current_client s' = None
    /\ Z.of_nat (length (clients s')) <= maxclients.
Proof.
  intros H Hc Hmax Hx. unfold fire_file. destruct (slot_ok el x (co_el _ _ _ H) Hx) as (fe & -> & Efe). cbn [mbind cres_bind run_file server_process].
  destruct (first_handler_ok n el s x fe m H Hc Hmax ltac:(lia) Efe) as (el1 & s1 & -> & H1 & S1 & B1 & C1 & M1). cbn [mbind cres_bind].
  rewrite B1, Z.eqb_refl. cbn [require mbind cres_bind].
  destruct (slot_ok el1 x (co_el _ _ _ H1) ltac:(lia)) as (fe1 & -> & Efe1). cbn [mbind cres_bind].
  destruct (has (Z.land (mask fe1) m) AE_WRITABLE) eqn:Eh; cbn [andb]; [|by exists el1, s1]. destruct (_ || _); [|by exists el1, s1].
  destruct (co_used _ _ _ H1 _ fe1 Efe1 (has_used _ _ _ Eh)) as [(p & _ & Hm & _)|(a & c & Ha & Ec)].
  { rewrite Hm in Eh. by rewrite not_writable in Eh. }
  destruct (co_slot _ _ _ H1 a c Ha) as (Hr & w & Ew & Hw). replace (Z.to_nat (fd c)) with (Z.to_nat x) in Ew by lia. rewrite Efe1 in Ew. injection Ew as ->.
  cbn [mask wfileProc fe_clientData] in *. destruct (writable (out c)); [|by rewrite not_writable in Eh]. rewrite (Hw eq_refl).
  change (run_handler oe processCommand maxclients p_sendReplyToClient el1 s1 x a) with (write_handler el1 s1 x a).
  destruct (write_handler_ok n el1 s1 a c x H1 Ha) as (el2 & s2 & -> & ? & ? & ? & Hc2 & ?). exists el2, s2. split_and!; try done; [congruence|auto|lia].
Qed.

Lemma fire_files_ok fired : forall n el s k, conn_ok (length fired + n) el s -> current_client s = None -> Z.of_nat (length (clients s)) <= maxclients ->
  Forall (λ e, 0 <= e.1 < setsize el) fired ->
  exists el' s', @fire_files _ proc fired el s k = Ret (el', s', k + Z.of_nat (length fired)) /\ conn_ok n el' s' /\ current_client s' = None
    /\ Z.of_nat (length (clients s')) <= maxclients.
Proof.
  induction fired as [|[x m] fired IH]; intros n el s k H Hc Hmax Hf; cbn [fire_files length].
  { exists el, s. split_and!; try done. by rewrite Z.add_0_r. }
  apply Forall_cons in Hf as [Hx Hf]. destruct (fire_file_ok (length fired + n) el s x m H Hc Hmax Hx) as (el1 & s1 & -> & H1 & S1 & C1 & M1).
  cbn [mbind cres_bind]. destruct (IH n el1 s1 (k + 1) H1 C1 M1) as (el2 & s2 & -> & ?); [by rewrite S1|]. exists el2, s2.
  split; [|done]. do 2 f_equal. lia.
Qed.

(** ** Start *)

(** Before the first connection. *)
Definition only_listening el : Prop := forall i fe, events el !! i = Some fe -> mask fe <> AE_NONE ->
  exists p, listening !! Z.of_nat i = Some p /\ mask fe = AE_READABLE /\ rfileProc fe = p.

Lemma listen_events_ok l : forall el, el_ok el -> only_listening el ->
  Forall (λ e, 0 < e.1 < setsize el /\ listening !! e.1 = Some e.2) l ->
  exists el', listen_events l el = Ret el' /\ el_ok el' /\ setsize el' = setsize el /\ only_listening el'.
Proof using Type.
  induction l as [|[x p] l IH]; intros el Hok Hon Hl; cbn [listen_events]; [by exists el|]. apply Forall_cons in Hl as [[Hx Hp] Hl]. cbn [fst snd] in *.
  destruct (slot_ok el x Hok ltac:(lia)) as (fe & _ & Efe). pose proof (lookup_lt_Some _ _ _ Efe) as Hlt.
  destruct (create_file_events true el x AE_READABLE p 0 fe Hok ltac:(lia) ltac:(done) Efe) as (el1 & -> & Hok1 & S1 & _ & Ev1).
  cbn [mbind cres_bind]. change (AE_OK =? AE_ERR) with false. cbn match.
  destruct (IH el1) as (el2 & E2 & Hok2 & S2 & Hon2); [done| |by rewrite S1|exists el2; split_and!; try done; congruence].
  intros i fe' Hi Hm. rewrite Ev1 in Hi. destruct (decide (i = Z.to_nat x)) as [->|Hne].
  - rewrite list_lookup_insert_eq in Hi by done. injection Hi as <-. exists p. rewrite Z2Nat.id by lia. split_and!; [done| |done]. cbn [mask].
    destruct (decide (mask fe = AE_NONE)) as [->|Hu]; [done|]. by destruct (Hon _ _ Efe Hu) as (_ & _ & -> & _).
  - rewrite list_lookup_insert_ne in Hi by done. by apply (Hon i fe').
Qed.

End Invariant.

Lemma conn_start {St K : Type} listening (Sinv : nat -> St -> Prop) (Cinv : nat -> prezClient -> Prop) n el st k :
  el_ok el -> only_listening listening el -> Sinv (n * turn)%nat st -> conn_ok listening Sinv Cinv n el (mkConns (K := K) ∅ [] [] None 1 0 0 ∅ st k).
Proof.
  intros Hok Hon HS. constructor; cbn [blocks clients clients_to_close sockets store]; try done.
  - split; [constructor|]. intros a. rewrite lookup_empty. split; [by intros ?%not_elem_of_nil|by intros []].
  - split; [constructor|]. intros a. rewrite lookup_empty. split; [by intros ?%not_elem_of_nil|naive_solver].
  - intros i fe Hi Hm. left. by apply Hon.
  - intros x. split; [set_solver|]. intros (a & c & Ha & _). by rewrite lookup_empty in Ha.
Qed.
(** The sockets that listen, with their handlers. *)
Definition listen_list (ipfd : list Z) (sofd : Z) : list (Z * Z) :=
  ((λ fd, (fd, p_acceptTcpHandler)) <$> ipfd) ++ (if 0 <? sofd then [(sofd, p_acceptUnixHandler)] else []).

Lemma initServer_events_ok {St K : Type} (maxclients now b : Z) (clock : Z * Z) (st : St) (k : K) ipfd sofd listening :
  0 <= maxclients -> clock_ok clock -> ipfd <> [] ->
  Forall (λ e, 0 < e.1 < maxclients + PREZ_EVENTLOOP_FDSET_INCR /\ listening !! e.1 = Some e.2) (listen_list ipfd sofd) ->
  exists el, initServer_events maxclients now clock b st k ipfd sofd = Ret (el, mkConns ∅ [] [] None 1 0 0 ∅ st k)
    /\ el_ok el /\ setsize el = maxclients + PREZ_EVENTLOOP_FDSET_INCR /\ only_listening listening el.
Proof.
  intros Hmax Hclk Hip Hl. unfold initServer_events. set (size := maxclients + PREZ_EVENTLOOP_FDSET_INCR) in *.
  assert (0 <= size) as Hsz by (unfold size, PREZ_EVENTLOOP_FDSET_INCR; lia).
  destruct (aeCreateEventLoop true now b size) as [el0|] eqn:E0; [|done]. pose proof (created_ok _ _ _ _ Hsz E0) as Hok0. injection E0 as <-.
  cbn [of_ptr mbind cres_bind]. rewrite (bool_decide_eq_false_2 (ipfd = [])) by done. cbn [andb].
  set (el0 := mkLoop _ _ _ _ _ _ _ _ _ _). pose proof (create_time_ok clock el0 1 p_serverCron 0 None Hok0 Hclk ltac:(done)) as Hok1.
  destruct (aeCreateTimeEvent clock el0 1 p_serverCron 0 None) as [el1 id] eqn:E1. cbn [fst] in Hok1.
  assert (setsize el1 = size /\ events el1 = replicate (Z.to_nat size) empty_slot) as [S1 Ev1].
  { unfold aeCreateTimeEvent in E1. destruct (aeAddMillisecondsToNow clock 1) as [sec ms]. by injection E1 as <- _. }
  assert (only_listening listening el1) as Hon1.
  { intros i fe Hi Hm. rewrite Ev1 in Hi. by apply lookup_replicate in Hi as [-> _]. }
  unfold listen_list in Hl. apply Forall_app in Hl as [Hl1 Hl2].
  destruct (listen_events_ok listening ((λ fd, (fd, p_acceptTcpHandler)) <$> ipfd) el1 Hok1 Hon1) as (el2 & -> & Hok2 & S2 & Hon2); [by rewrite S1|].
  cbn [mbind cres_bind].
  destruct (listen_events_ok listening (if 0 <? sofd then [(sofd, p_acceptUnixHandler)] else []) el2 Hok2 Hon2) as (el3 & -> & Hok3 & S3 & Hon3); [by rewrite S2, S1|].
  cbn [mbind cres_bind]. exists el3. split_and!; try done. congruence.
Qed.


(** The queue of clients to close is emptied.  [freeClientsInAsyncFreeQueue] returns; exactly
    the clients that were queued are freed, with their descriptors closed and their events gone,
    and the structures of the others stay as they were. *)
Theorem queue_is_emptied {St K : Type} (listening : gmap Z Z) (Sinv : nat -> St -> Prop) (Cinv : nat -> prezClient -> Prop)
    (n : nat) (el : aeEventLoop) (s : connections St K) :
  conn_ok listening Sinv Cinv n el s ->
  exists el' s', freeClientsInAsyncFreeQueue el s = Ret (el', s') /\ conn_ok listening Sinv Cinv n el' s' /\ clients_to_close s' = []
    /\ forall a, blocks s' !! a = if decide (a ∈ clients_to_close s) then None else blocks s !! a.
Proof.
  intros H. by destruct (free_queue_ok listening Sinv Cinv (length (clients_to_close s)) n el s H eq_refl) as (el' & s' & E & H' & Hq & Hb); exists el', s'.
Qed.

(** A block with old content can end the server.  [createClient] does not set [flags]: when
    the word of the new block has the bit of [PREZ_CLOSE_ASAP] set, the client is accepted like
    any other; when it goes away, or its connection fails, [freeClient] does not find it in the
    queue of clients to close, and the assertion ends the server. *)
Theorem old_flags_end_server (oe : oenv) {St K : Type} `{!Kernel K} (listening : gmap Z Z)
    (processCommand : St -> prezClient -> cres (St * prezClient * Z)) (Sinv : nat -> St -> Prop) (Cinv : nat -> prezClient -> Prop)
    (n : nat) (el el' : aeEventLoop) (s s' : connections St K) (a x f : Z) (k : K) :
  conn_ok listening Sinv Cinv n el s -> 0 < x < setsize el -> x ∉ sockets s -> listening !! x = None ->
  k_malloc (kernel s) (dom (blocks s)) = ((a, f), k) -> a ∉ dom (blocks s) -> Z.land f PREZ_CLOSE_ASAP <> 0 ->
  createClient el s x = Ret (el', s', Some a) -> k_socket (kernel s') x = RClosed \/ k_socket (kernel s') x = RError ->
  read_handler oe processCommand el' s' x a = Exit.
Proof.
  intros H Hx Hxs Hxl Em Ha%not_elem_of_dom Hf. unfold createClient. rewrite Em, (proj2 (Z.eqb_neq x (-1))) by lia. cbn [negb with_kernel kernel].
  destruct (k_epoll_ctl k) as [ok k']. destruct (slot_ok el x (co_el _ _ _ _ _ _ H) ltac:(lia)) as (fe & _ & Efe).
  destruct (create_file_events ok el x AE_READABLE p_readQueryFromClient a fe (co_el _ _ _ _ _ _ H) ltac:(lia) ltac:(done) Efe)
    as (el1 & -> & Hok & Hsz & _ & Hev). cbn [mbind cres_bind mret cres_ret]. destruct ok; [|done].
  change (AE_OK =? AE_ERR) with false. cbn match. intros [= <- <-] Hk. unfold read_handler. cbn [blocks]. rewrite lookup_insert_eq. cbn [of_ptr mbind cres_bind].
  assert (forall st c, readQueryFromClient oe processCommand st c (k_socket k' x) = Ret (st, None, [])) as Hread.
  { cbn [kernel with_kernel] in Hk. intros st c. by destruct Hk as [-> | ->]. }
  cbn [with_current kernel]. rewrite Hread. cbn [mbind cres_bind]. unfold freeClient. cbn [with_kernel with_store with_current blocks store]. rewrite lookup_insert_eq.
  cbn [of_ptr mbind cres_bind]. rewrite bool_decide_eq_true_2 by done. set (s1 := with_current _ None).
  assert (mask fe = AE_NONE) as Hm by (apply (free_slot listening Sinv Cinv n el s x fe); (done || lia)).
  destruct (close_socket_ok el1 s1 x p_readQueryFromClient (wfileProc fe) a AE_READABLE Hok ltac:(lia)) as (el2 & E2 & _).
  { rewrite Hev, list_lookup_insert_eq by (by eapply lookup_lt_Some). by rewrite Hm. }
  { by left. }
  change (fd (new_client x f)) with x. rewrite E2. cbn [mbind cres_bind]. rewrite (proj2 (Z.eqb_neq x (-1))) by lia. cbn [negb].
  destruct (co_clients _ _ _ _ _ _ H) as [Nc Hc], (co_queue _ _ _ _ _ _ H) as [_ Hq].
  assert (NoDup (clients s ++ [a])) as Hnd.
  { apply NoDup_app. split; [done|]. split; [|apply NoDup_singleton]. intros y Hy ->%list_elem_of_singleton. apply Hc in Hy as [d Hd]. by rewrite Ha in Hd. }
  destruct (list_without_spec (clients s ++ [a]) a Hnd) as (l & El & _); [apply elem_of_app; right; by apply list_elem_of_singleton|].
  cbn [clients with_sockets s1 with_current with_kernel with_store]. rewrite El. cbn [mbind cres_bind].
  unfold has_flag. cbn [flags new_client]. rewrite (proj2 (Z.eqb_neq _ 0) Hf). cbn [negb clients_to_close with_sockets].
  assert (list_without (clients_to_close s) a = None) as Hnone.
  { apply list_without_none. intros (d & Hd & _)%Hq. by rewrite Ha in Hd. }
  cbn [s1 with_current with_kernel with_store clients_to_close]. by rewrite Hnone.
Qed.

(** ** Examples *)

(** Sockets on which the same request waits for ever; the descriptor of a connection is 7. *)
#[local] Instance ex_kernel : Kernel unit := {|
  k_accept k used lfd := (if decide (7 ∈ used) then None else Some 7, tt);
  k_socket k fd := RData [lit "GET a" ++ CRLF];
  k_left k fd segs := tt;
  k_write k fd := ((true, [WBytes 3]), tt);
  k_malloc k used := ((base.fresh used, 0), tt);
  k_epoll_ctl k := (true, tt);
  k_time k := (0, tt);
  k_clock k := ((0, 0), tt);
  k_epoll k interest size timeout := ([], tt);
|}.

Definition ex_listening : gmap Z Z := {[5 := p_acceptTcpHandler]}.

#[local] Instance ex_kernel_ok : KernelOk unit ex_listening.
Proof.
  constructor.
  - intros k used lfd fd k'. cbn. case_decide as E; [done|]. intros [= <- _]. by split_and!.
  - intros k used a junk k'. cbn. intros [= <- <- _]. split; [apply is_fresh|done].
Qed.

Definition ex_Sinv (n : nat) (s : unit) : Prop := Z.of_nat n < 2 ^ 40.
Definition ex_Cinv (n : nat) (c : prezClient) : Prop := ok_inv n tt c.

#[local] Existing Instance always_ok_total.

#[local] Instance ex_shared : SharedExecutor (always_ok ex_oenv) ex_Sinv ex_Cinv.
Proof.
  constructor.
  - constructor.
    + intros n s c [_ H]. by apply (te_roomy (processCommand := always_ok ex_oenv) n tt c).
    + intros n s c [_ H]. by apply (te_blocked (processCommand := always_ok ex_oenv) n tt c).
    + intros n s c [_ H]. by apply (te_out (processCommand := always_ok ex_oenv) n tt c).
    + intros n s c i [HS H]. split; [done|]. by apply (te_inp (processCommand := always_ok ex_oenv) n tt c).
    + intros n s c [HS H]. split; [unfold ex_Sinv in *; lia|]. by apply (te_fewer (processCommand := always_ok ex_oenv) n tt c).
    + intros n [] c [HS H] Ha. destruct (te_run (processCommand := always_ok ex_oenv) n tt c H Ha) as ([] & c' & E & H' & Hq & Hk).
      exists tt, c'. split_and!; try done. unfold ex_Sinv in *. lia.
  - unfold ex_Sinv. lia.
  - intros n c H. by apply (te_fewer (processCommand := always_ok ex_oenv) n tt c).
  - intros n [] fd flags HS Hfd Hf. rewrite Z.land_lor_distr_r in Hf. apply Z.lor_eq_0_iff in Hf as [H1 H2]. unfold ex_Sinv in HS.
    split; [|unfold has_flag; cbn; by rewrite H1]. split_and!; [done|unfold has_flag; cbn; by rewrite H2|apply new_output_ok|].
    cbn [out new_client new_output reply sumZ foldr]. lia.
  - intros n c o [(H1 & H2 & H3 & H4) Hb] Ho Hsum. split; [|done]. split_and!; try done. cbn [out set_out] in *. lia.
Qed.

Definition ex_fired : list (Z * Z) := [(5, 1); (7, 1); (7, 3); (9, 2)].


(** A server with one client, at 3, that is to be closed. *)
Definition ex_client_to_close : prezClient := freeClientAsync (new_client 7 0).

Definition ex_closing : connections unit unit := mkConns {[3 := ex_client_to_close]} [3] [3] None 2 1 0 {[7]} tt tt.

Definition ex_empty_loop : aeEventLoop := mkLoop (-1) 16 0 0 1 (replicate 16 empty_slot) [] false ∅ None.

Definition ex_one : aeEventLoop :=
  mkLoop 7 16 0 0 1 (<[7%nat := mkFE 1 p_readQueryFromClient 0 3]> (replicate 16 empty_slot)) [] false {[7 := 1]} None.

Lemma ex_one_ok : el_ok ex_one.
Proof.
  destruct (create_file_spec true ex_empty_loop 7 AE_READABLE p_readQueryFromClient 3) as (el & E & H); [|lia|done|].
  - by apply (created_ok 0 1 16 ex_empty_loop).
  - assert (aeCreateFileEvent true ex_empty_loop 7 AE_READABLE p_readQueryFromClient 3 = Ret (ex_one, AE_OK)) as E' by reflexivity.
    rewrite E' in E. by injection E as <-.
Qed.

Lemma ex_closing_ok : conn_ok ∅ ex_Sinv ex_Cinv 1 ex_one ex_closing.
Proof.
  constructor; cbn [blocks clients clients_to_close sockets store ex_closing].
  - apply ex_one_ok.
  - unfold ex_Sinv, turn, client_max_querybuf_len, PREZ_IOBUF_LEN. lia.
  - intros a c [<- <-]%lookup_singleton_Some. split; [vm_compute; discriminate|]. right. split.
    + split; [|done]. split_and!; [done|done|apply new_output_ok|].
      change (sumZ weight (reply (out ex_client_to_close))) with 0. unfold turn, client_max_querybuf_len, PREZ_IOBUF_LEN. lia.
    + split_and!; [|done|done]. constructor; cbn; try done; auto.
  - intros a c [<- <-]%lookup_singleton_Some. split; [by split; vm_compute|]. exists 0. by split.
  - by intros a c [<- <-]%lookup_singleton_Some.
  - split; [apply NoDup_singleton|]. intros a. rewrite list_elem_of_singleton. split.
    + intros ->. rewrite lookup_singleton_eq. by eexists.
    + by intros [c [<- _]%lookup_singleton_Some].
  - split; [apply NoDup_singleton|]. intros a. rewrite list_elem_of_singleton. split.
    + intros ->. exists ex_client_to_close. split; reflexivity.
    + by intros (c & [<- _]%lookup_singleton_Some & _).
  - intros i fe Hi Hm. right. exists 3, ex_client_to_close. split; [reflexivity|].
    destruct (decide (i = 7%nat)) as [->|Hne]; [done|]. cbn [events ex_one] in Hi. rewrite list_lookup_insert_ne in Hi by done.
    by apply lookup_replicate in Hi as [-> _].
  - intros x. rewrite elem_of_singleton. split.
    + intros ->. exists 3, ex_client_to_close. split; reflexivity.
    + by intros (a & c & [<- <-]%lookup_singleton_Some & <-).
  - intros a c _. apply lookup_empty.
Qed.

Lemma queue_is_emptied_witness :
  exists el' s', freeClientsInAsyncFreeQueue ex_one ex_closing = Ret (el', s') /\ clients_to_close s' = [] /\ blocks s' !! 3 = None.
Proof.
  destruct (queue_is_emptied ∅ ex_Sinv ex_Cinv 1 ex_one ex_closing ex_closing_ok) as (el' & s' & E & _ & Hq & Hb).
  exists el', s'. split; [exact E|]. split; [exact Hq|]. rewrite Hb. reflexivity.
Defined.

(** An allocator that gives back a block of a client that was to be closed. *)
#[local] Instance ex_dirty : Kernel (unit + unit) := {|
  k_accept k used lfd := (None, k);
  k_socket k fd := RClosed;
  k_left k fd segs := k;
  k_write k fd := ((true, []), k);
  k_malloc k used := ((9, 1024), k);
  k_epoll_ctl k := (true, k);
  k_time k := (0, k);
  k_clock k := ((0, 0), k);
  k_epoll k interest size timeout := ([], k);
|}.

Definition ex_nobody : connections unit (unit + unit) := mkConns ∅ [] [] None 1 0 0 ∅ tt (inl tt).

Lemma old_flags_end_server_witness :
  exists el' s', createClient ex_empty_loop ex_nobody 7 = Ret (el', s', Some 9)
    /\ read_handler ex_oenv (always_ok ex_oenv) el' s' 7 9 = Exit.
Proof.
  eexists _, _. split; [reflexivity|].
  apply (old_flags_end_server ex_oenv ∅ (always_ok ex_oenv) ex_Sinv ex_Cinv 1 ex_empty_loop _ ex_nobody _ 9 7 1024 (inl tt)).
  - apply conn_start; [by apply (created_ok 0 1 16)| |unfold ex_Sinv, turn, client_max_querybuf_len, PREZ_IOBUF_LEN; lia].
    intros i fe Hi Hm. by apply lookup_replicate in Hi as [-> _].
  - cbn. lia.
  - apply not_elem_of_empty.
  - reflexivity.
  - reflexivity.
  - apply not_elem_of_empty.
  - discriminate.
  - reflexivity.
  - left. reflexivity.
Defined.
