(* ===== verification/Timers.v ===== *)
(** * The timers that run

    One pass of [processTimeEvents] of src/src/ae.c, on a clock that moves while the handlers
    run: every timer that is due runs, once, and the pass ends, as long as the handlers ask for
    times that lie behind the pass. *)

From Stdlib Require Import ZArith Lia.
From stdpp Require Import base tactics numbers list gmap relations strings.
From S2P Require Import Prelude EventLoop EventLoopFacts Config ConfigFacts.
From S2P Require Log Cluster ClusterVote ClusterElection.

Local Open Scope Z_scope.

(** Lists of timers with distinct identifiers. *)
Section Lists.
Context (l : list aeTimeEvent) (i : nat) (te : aeTimeEvent).
Hypothesis H_nodup : NoDup (te_id <$> l).
Hypothesis H_at : l !! i = Some te.

Lemma other_position j t : l !! j = Some t -> te_id t <> te_id te <-> j <> i.
Proof.
  intros Hj. split; [by intros H ->; simplify_eq|]. intros Hne E. apply Hne.
  eapply NoDup_lookup; [exact H_nodup|rewrite list_lookup_fmap, Hj; done|rewrite list_lookup_fmap, H_at; cbn; by rewrite E].
Qed.

Lemma elem_of_delete t : t ∈ delete i l <-> t ∈ l /\ te_id t <> te_id te.
Proof.
  rewrite !list_elem_of_lookup. split.
  - intros [j Hj]. rewrite lookup_delete_list in Hj. case_decide.
    + split; [by exists j|]. apply (other_position j); [done|lia].
    + split; [by exists (S j)|]. apply (other_position (S j)); [done|lia].
  - intros [[j Hj] Hne]. apply (other_position j) in Hne; [|done]. destruct (decide (j < i)%nat).
    + exists j. rewrite lookup_delete_list. by rewrite decide_True.
    + exists (j - 1)%nat. rewrite lookup_delete_list, decide_False by lia. by replace (S (j - 1)) with j by lia.
Qed.

Lemma elem_of_insert t te' : t ∈ <[i := te']> l <-> t = te' \/ (t ∈ l /\ te_id t <> te_id te).
Proof.
  pose proof (lookup_lt_Some _ _ _ H_at) as Hi. rewrite !list_elem_of_lookup. split.
  - intros [j Hj]. destruct (decide (j = i)) as [->|Hne]; [rewrite list_lookup_insert_eq in Hj by done; left; congruence|].
    rewrite list_lookup_insert_ne in Hj by done. right. split; [by exists j|]. by apply (other_position j).
  - intros [->|[[j Hj] Hne]]; [exists i; by apply list_lookup_insert_eq|]. apply (other_position j) in Hne; [|done].
    exists j. by rewrite list_lookup_insert_ne.
Qed.
End Lists.

Section Pass.
Context {W : Type} `{!Process W} `{!PoliteProcess W}.

(** A sequence of handler calls, with the identifiers of the timers; between them only the
    clock is read. *)
Inductive calls : list Z -> aeEventLoop -> W -> aeEventLoop -> W -> Prop :=
  | calls_nil el w : calls [] el w el w
  | calls_clock ids el w el' w' : calls ids el (aeGetTime w).2 el' w' -> calls ids el w el' w'
  | calls_timer te r ids el w el1 w1 el2 w2 el' w' :
      te ∈ timeEventHead el -> run_time (timeProc te) el w (te_id te) (te_clientData te) = Ret (el1, w1, r) ->
      after_handler (te_id te) r el1 w1 = Ret (el2, w2) -> calls ids el2 w2 el' w' ->
      calls (te_id te :: ids) el w el' w'.

(** The pass takes place between [T0] and [T0 + d] milliseconds. *)
Context (P : W -> Prop) (T0 d : Z) (Hd : 0 < d).
Hypothesis H_clock : forall w, P w -> T0 <= ms_of (aeGetTime w).1 < T0 + d /\ P (aeGetTime w).2.

(** A handler may add timers; it leaves the others alone and asks for a time behind the pass,
    or for no more. *)
Definition quick (te : aeTimeEvent) : Prop := finalizerProc te = None /\
  forall el w, el_ok el -> P w -> exists el' w' r new,
    run_time (timeProc te) el w (te_id te) (te_clientData te) = Ret (el', w', r)
    /\ P w' /\ (r = AE_NOMORE \/ d <= r)
    /\ timeEventHead el' = new ++ timeEventHead el /\ Forall (λ t, timeEventNextId el <= te_id t) new
    /\ timeEventNextId el <= timeEventNextId el'.

Context (L0 : list aeTimeEvent) (maxId : Z).
Hypothesis H_quick : Forall quick L0.
Hypothesis H_ids : Forall (λ te, te_id te <= maxId) L0.

(** In the middle of the pass, after the timers [ran]. *)
Record passed (ran : list Z) (el : aeEventLoop) : Prop := {
  pa_ok : el_ok el;
  pa_nodup : NoDup ran;
  pa_ran : forall id, id ∈ ran -> exists te, te ∈ L0 /\ te_id te = id /\ due te < T0 + d;
  pa_old : forall te, te ∈ timeEventHead el -> te_id te <= maxId -> (te ∈ L0 /\ te_id te ∉ ran) \/ (te_id te ∈ ran /\ T0 + d <= due te);
  pa_left : forall te, te ∈ L0 -> te_id te ∉ ran -> te ∈ timeEventHead el;
  pa_next : maxId < timeEventNextId el;
}.

Lemma next_due_spec l : Forall (λ te, 0 <= when_ms te < 1000) l -> forall w, P w ->
  let '(o, w') := next_due maxId l w in
  P w' /\ (forall ids el el' w'', calls ids el w' el' w'' -> calls ids el w el' w'')
  /\ match o with
     | Some te => te ∈ l /\ te_id te <= maxId /\ due te < T0 + d
     | None => forall te, te ∈ l -> te_id te <= maxId -> T0 < due te
     end.
Proof.
  induction 1 as [|te l Hw Hl IH]; intros w Pw; cbn [next_due]; [split_and!; [done|done|set_solver]|].
  destruct (Z.ltb_spec maxId (te_id te)) as [Hgt|Hle].
  { specialize (IH w Pw). destruct (next_due maxId l w) as [o w']. destruct IH as (P' & Hr & H). split_and!; [done|done|].
    destruct o as [t|]; [set_solver|]. intros t [->|Ht]%elem_of_cons ?; [lia|by apply H]. }
  destruct (H_clock w Pw) as [Ht Pt]. pose proof (getTime_ok w) as Hc.
  destruct (aeGetTime w) as [[ns nm] w1] eqn:Eg. cbn [fst snd] in *. unfold clock_ok, ms_of in *. cbn [fst snd] in *.
  assert (forall ids el el' w'', calls ids el w1 el' w'' -> calls ids el w el' w'') as Hr1
    by (intros ids el el' w'' H; apply calls_clock; by rewrite Eg).
  destruct ((when_sec te <? ns) || ((ns =? when_sec te) && (when_ms te <=? nm))) eqn:E.
  - split_and!; [done|done|set_solver|done|]. unfold due, ms_of. cbn [fst snd]. lia.
  - specialize (IH w1 Pt). destruct (next_due maxId l w1) as [o w']. destruct IH as (P' & Hr & H). split_and!; [done|auto|].
    destruct o as [t|]; [set_solver|]. intros t [->|Hin]%elem_of_cons ?; [|by apply H]. unfold due, ms_of. cbn [fst snd]. lia.
Qed.

(** Two timers of a loop with the same identifier are the same. *)
Lemma same_timer el t1 t2 : el_ok el -> t1 ∈ timeEventHead el -> t2 ∈ timeEventHead el -> te_id t1 = te_id t2 -> t1 = t2.
Proof.
  intros Hok H1 H2 E. apply list_elem_of_lookup in H1 as [i H1]. apply list_elem_of_lookup in H2 as [j H2].
  pose proof (eo_ids _ Hok) as Hn. assert (i = j) as ->; [|congruence].
  eapply NoDup_lookup; [exact Hn|rewrite list_lookup_fmap, H1; done|rewrite list_lookup_fmap, H2; cbn; by rewrite E].
Qed.

Lemma find_timer el te : el_ok el -> te ∈ timeEventHead el -> exists i, timeEventHead el !! i = Some te
  /\ list_find (λ t, te_id t = te_id te) (timeEventHead el) = Some (i, te).
Proof.
  intros Hok Hin. destruct (list_find (λ t, te_id t = te_id te) (timeEventHead el)) as [[i t]|] eqn:E.
  - apply list_find_id in E as [Ei Eid]. assert (t = te) as -> by (by eapply same_timer; [|eapply list_elem_of_lookup_2|..]).
    by exists i.
  - apply list_find_None in E. rewrite Forall_forall in E. by specialize (E te Hin).
Qed.

(** One handler, and what follows it. *)
Lemma fire_timer ran el w te : passed ran el -> P w -> te ∈ timeEventHead el -> te_id te <= maxId -> due te < T0 + d ->
  exists el1 w1 r el2 w2, run_time (timeProc te) el w (te_id te) (te_clientData te) = Ret (el1, w1, r)
    /\ after_handler (te_id te) r el1 w1 = Ret (el2, w2) /\ P w2 /\ passed (te_id te :: ran) el2.
Proof.
  intros [Hok Hnd Hran Hold Hleft Hnext] Pw Hin Hid Hdue.
  destruct (Hold te Hin Hid) as [[HL Hnr]|[_ ?]]; [|lia]. pose proof H_quick as Hq. rewrite Forall_forall in Hq.
  destruct (Hq te HL) as [Hfin Hrun]. destruct (Hrun el w Hok Pw) as (el1 & w1 & r & new & E & P1 & Hr & Et & Hnew & Hnx).
  destruct (pp_time _ _ _ _ _ _ _ _ E) as [Hsteps _]. pose proof (ae_steps_ok _ _ Hsteps Hok) as Hok1.
  assert (te ∈ timeEventHead el1) as Hin1 by (rewrite Et; set_solver).
  destruct (find_timer el1 te Hok1 Hin1) as (i & Hi & Ef).
  assert (forall t, t ∈ timeEventHead el1 -> te_id t <= maxId -> t ∈ timeEventHead el) as Hback.
  { intros t Ht Hle. rewrite Et in Ht. apply elem_of_app in Ht as [Ht|Ht]; [|done]. rewrite Forall_forall in Hnew.
    specialize (Hnew t Ht). lia. }
  assert (exists el2 w2, after_handler (te_id te) r el1 w1 = Ret (el2, w2) /\ P w2 /\ timeEventNextId el2 = timeEventNextId el1
    /\ (forall t, t ∈ timeEventHead el2 -> (t ∈ timeEventHead el1 /\ te_id t <> te_id te) \/ (te_id t = te_id te /\ T0 + d <= due t))
    /\ (forall t, t ∈ timeEventHead el1 -> te_id t <> te_id te -> t ∈ timeEventHead el2)) as (el2 & w2 & E2 & P2 & En & H1 & H2).
  { unfold after_handler, aeDeleteTimeEvent, set_when. rewrite Ef, Hfin. destruct (Z.eqb_spec r AE_NOMORE) as [->|Nr]; cbn [negb].
    - eexists _, w1. split; [done|]. split_and!; [done|done| |]; cbn; intros t; rewrite (elem_of_delete _ i te (eo_ids _ Hok1) Hi); tauto.
    - destruct (H_clock w1 P1) as [Ht Pt]. pose proof (getTime_ok w1) as Hc. destruct (aeGetTime w1) as [now w2]. cbn [fst snd] in *.
      assert (d <= r) as Hdr by (by destruct Hr). destruct (add_ms_spec now r Hc ltac:(lia)) as [_ Hms].
      cbn [of_ptr mbind cres_bind]. eexists _, w2. split; [done|].
      split_and!; [done|done| |]; cbn; intros t; rewrite (elem_of_insert _ i te (eo_ids _ Hok1) Hi); [|tauto].
      intros [->|?]; [right|by left]. split; [done|]. unfold due. cbn [when_sec when_ms]. destruct (aeAddMillisecondsToNow now r) as [a b].
      cbn [fst snd] in *. lia. }
  exists el1, w1, r, el2, w2. split_and!; [done|done|done|]. constructor.
  - eapply ae_steps_ok; [|exact Hok1]. eapply after_steps; [|exact E2]. destruct Hr; [by left|right; lia].
  - by constructor.
  - intros id [->|Hx]%elem_of_cons; [by exists te|by apply Hran].
  - intros t Ht Hle. destruct (H1 t Ht) as [[Hb Hne]|[Heq Hge]]; [|right; rewrite Heq; set_solver].
    destruct (Hold t (Hback t Hb Hle) Hle) as [[? ?]|[? ?]]; [left; set_solver|right; set_solver].
  - intros t Ht Hn. apply H2; [|set_solver]. rewrite Et. apply elem_of_app. right. apply Hleft; [done|set_solver].
  - lia.
Qed.

Lemma time_loop_runs n : forall ran el w k, passed ran el -> P w -> (length L0 <= length ran + n)%nat ->
  exists ids el' w', time_loop n maxId el w k = Ret (el', w', k + Z.of_nat (length ids))
    /\ calls ids el w el' w' /\ P w' /\ passed (reverse ids ++ ran) el'
    /\ (forall te, te ∈ L0 -> due te <= T0 -> te_id te ∈ reverse ids ++ ran).
Proof.
  assert (forall el w ran te, passed ran el -> te ∈ timeEventHead el -> te_id te <= maxId -> due te < T0 + d -> P w ->
    (length ran < length L0)%nat) as Hroom.
  { intros el w ran te [_ Hnd Hran Hold _ _] Hin Hid Hdue _. destruct (Hold te Hin Hid) as [[HL Hnr]|[_ ?]]; [|lia].
    assert (length (te_id te :: ran) <= length (te_id <$> L0))%nat as Hle; [|rewrite length_fmap in Hle; cbn in Hle; lia].
    apply submseteq_length, NoDup_submseteq; [by constructor|]. intros id [->|Hx]%elem_of_cons; apply list_elem_of_fmap; [by exists te|].
    destruct (Hran id Hx) as (t & ? & <- & _). by exists t. }
  induction n as [|n IH]; intros ran el w k Hp Pw Hn; cbn [time_loop].
  all: pose proof (next_due_spec (timeEventHead el) (eo_when _ (pa_ok _ _ Hp)) w Pw) as Hd';
    destruct (next_due maxId (timeEventHead el) w) as [[te|] w0]; destruct Hd' as (P0 & Hr & Ho).
  1: { destruct Ho as (Hin & Hid & Hdue). pose proof (Hroom el w0 ran te Hp Hin Hid Hdue P0). lia. }
  1, 3: exists [], el, w0; rewrite Z.add_0_r; split_and!; [done|apply Hr; constructor|done|done|].
  1, 2: intros te Hte Hdue; destruct (decide (te_id te ∈ ran)) as [|Hnot]; [done|];
    pose proof H_ids as Hi; rewrite Forall_forall in Hi; specialize (Ho te (pa_left _ _ Hp te Hte Hnot) (Hi te Hte)); lia.
  destruct Ho as (Hin & Hid & Hdue). destruct (fire_timer ran el w0 te Hp P0 Hin Hid Hdue) as (el1 & w1 & r & el2 & w2 & E1 & E2 & P2 & Hp2).
  rewrite E1. cbn [mbind cres_bind]. rewrite E2. cbn [mbind cres_bind].
  destruct (IH (te_id te :: ran) el2 w2 (k + 1) Hp2 P2) as (ids & el' & w' & E & Hruns & P' & Hp' & Hall); [cbn; lia|].
  exists (te_id te :: ids), el', w'. rewrite E, reverse_cons, <- app_assoc. cbn [length app].
  split_and!; [do 2 f_equal; lia| |done|done|done]. apply Hr. by eapply calls_timer.
Qed.
End Pass.

Section Theorem_.
Context {W : Type} `{!Process W} `{!PoliteProcess W}.

End Theorem_.

(** ** The timer of the server *)

(** [serverCron]: the work of the cluster, and the time until the next call. *)
Definition serverCron {D : Type} `{!Cluster.Commands D} (srv : Cluster.server) (ce : Cluster.cron_env) (hz : Z)
    (c : Cluster.cluster) (data : D) : cres (Cluster.cluster * D * Z) :=
  '(c, data) ← Cluster.clusterCron srv ce c data;
  _ ← require (negb (hz =? 0));
  mret (c, data, Z.quot 1000 hz).

(** The timer of the server never stops and never spins.  With every configuration the
    server can get into, [serverCron] returns whenever the work of the cluster does, and asks
    for its next call in 2 to 1000 milliseconds: it does not divide by zero, does not ask for
    its removal, and lets the pass over the timers end. *)
Theorem cron_period {D : Type} `{!Cluster.Commands D} (s : node_st) (srv : Cluster.server) (ce : Cluster.cron_env)
    (c c' : Cluster.cluster) (data data' : D) :
  conf_ok s -> Cluster.clusterCron srv ce c data = Ret (c', data') ->
  exists r, serverCron srv ce (num s f_hz) c data = Ret (c', data', r) /\ 2 <= r <= 1000 /\ r <> AE_NOMORE.
Proof.
  intros Hok E. pose proof (ck_hz _ Hok) as Hz. unfold PREZ_MIN_HZ, PREZ_MAX_HZ in Hz. unfold serverCron. rewrite E. cbn [mbind cres_bind].
  rewrite (proj2 (Z.eqb_neq (num s f_hz) 0)) by lia. cbn [negb require mbind cres_bind]. eexists. split; [done|].
  rewrite Z.quot_div_nonneg by lia. unfold AE_NOMORE. set (h := num s f_hz) in *.
  assert (2 <= 1000 / h) by (apply Z.div_le_lower_bound; lia).
  assert (1000 / h <= 1000) by (apply Z.div_le_upper_bound; lia). lia.
Qed.

(** ** Examples *)


Lemma cron_period_witness :
  exists c' r, serverCron (Cluster.mkServer (lit "a") 7001) (ClusterVote.ex_cron 77) 100
      (ClusterVote.ex_cluster ClusterVote.ex_raft Log.ex_log) tt = Ret (c', tt, r) /\ 2 <= r <= 1000.
Proof.
  destruct (Cluster.clusterCron (Cluster.mkServer (lit "a") 7001) (ClusterVote.ex_cron 77)
    (ClusterVote.ex_cluster ClusterVote.ex_raft Log.ex_log) tt) as [[c' []]| |] eqn:E.
  - destruct (cron_period ex_start (Cluster.mkServer (lit "a") 7001) (ClusterVote.ex_cron 77)
      (ClusterVote.ex_cluster ClusterVote.ex_raft Log.ex_log) c' tt tt) as (r & Er & Hr & _); [by eapply init_ok|exact E|].
    exists c', r. split; [exact Er|exact Hr].
  - exfalso. revert E. vm_compute. discriminate.
  - exfalso. revert E. vm_compute. discriminate.
Defined.
